(* ===== verification/_CoqProject ===== *)
-Q . S2P
Prelude.v
Common.v
Maglev.v
CowMap.v
CircuitBreaker.v
BreakerManager.v
Float.v
PacketData.v
RateLimiter.v
BackendPool.v
Health.v
HealthChecker.v
HealthTasks.v
Filters.v
Matching.v
RouteCache.v
Matchit.v
Selection.v
Router.v
RouterSpec.v
Prefix.v
HealthSwap.v
RequestHandler.v
Text.v
Metrics.v
Decimal.v
GatewayIndex.v
Validation.v
IpText.v
Endpoints.v
Weights.v
HttpRoute.v
HttpRouteSpec.v
Listeners.v
Gateway.v
ControlPlane.v
ListenerRequest.v
Forwarder.v
EndpointWatch.v
Tls.v
GatewayClass.v
Http1Pool.v
Shutdown.v
Lifecycle.v
Diagnostics.v
LocalQuery.v
Admin.v
Cli.v
Proxy.v
Connections.v
Startup.v
Oracle.v
