(* ===== verification/Prelude.v ===== *)
(** * Verification of the RAUTA gateway

RAUTA is a Kubernetes Gateway API controller and HTTP proxy in Rust.  The control
plane watches Gateway API resources and fills a router and a table of listeners; the
data plane accepts requests, picks a backend and forwards them; an admin API, a
command line and tools for agents report what they do.  This library models all three
and proves what makes them correct.  Everything is executable except the step
relations of concurrent code.  The library assumes no axioms.

** The program and the files

Foundations.
- [Prelude] (this file): machine integers at their width, [Result] and panics,
  strings as bytes, shared lemmas, hints and tactics.
- [Common]: [common/src/lib.rs], HTTP methods, backends and their labels, FNV-1a.
- [PacketData]: [common/src/lib.rs], the tables and counters of a packet data plane.
- [Float], [Text], [Decimal], [IpText]: what the program uses of the standard library's
  [f64], [str], number texts and IP address texts.
- [Matchit]: the interface of the [matchit] crate, with an instance on lists.

Data plane ([control/src/proxy]).
- [Maglev]: [common/src/lib.rs], the full and the compact consistent-hash tables.
- [CowMap]: the copy-on-write map of shared objects ([ArcSwap] with a write mutex)
  inside the breaker manager and the rate limiter, one atomic access per step.
- [CircuitBreaker], [BreakerManager]: [circuit_breaker.rs], the lock-free breaker as
  sequential functions, as threads of atomic accesses and as an abstract three-state
  machine; one breaker per backend behind shared handles, with its metrics.
- [RateLimiter]: [rate_limiter.rs], the fixed-point token bucket and the limiter.
- [Health], [HealthSwap]: [route_snapshot.rs], the window of responses and draining,
  and how [router.rs] updates it without a lock.
- [HealthChecker], [HealthTasks]: [health_checker.rs], active probing: the state of a
  backend, and the tasks that probe, one access to what they share per step.
- [Filters]: [filters.rs], redirects, header modifiers, timeouts, retry policy.
- [Matching], [RouteCache], [Selection], [Router]: [router.rs], header and query
  matching with the regex cache, the LRU cache, the walks of the Maglev table, the
  route table with its prefix router.  [RouterSpec] and [Prefix] prove what they do.
- [RequestHandler]: [request_handler.rs] and [error.rs], the pipeline of a request.
- [BackendPool], [Http1Pool]: [backend_pool.rs] and [http1_pool.rs], the connections.
- [Forwarder]: [forwarder.rs] and [worker.rs], one attempt at a backend.
- [Proxy]: the pipeline with the forwarder as its attempt, over the state of the
  whole server of [server.rs]; what a request puts on the wire.
- [Listeners], [ListenerRequest]: [listener_manager.rs], shared listeners with
  reference counts, and its own pipeline of a request.
- [Tls]: [tls.rs] and [secret_watcher.rs].
- [Shutdown]: [serve_with_shutdown] of [server.rs] as a step relation.
- [Connections]: the other accept loops of [server.rs] and that of a listener, over the
  events of the network, with the pipelines of [Proxy] and [ListenerRequest].
- [Metrics]: [proxy/metrics.rs] and [apis/metrics.rs], the lazy metrics of the process.

Control plane ([control/src/apis/gateway]).
- [GatewayIndex]: [gateway_index.rs], the managed Gateways.
- [Validation], [Endpoints], [Weights], [HttpRoute]: [http_route.rs], the checks, the
  resolution of Services, the shares of backends, [reconcile].  [HttpRouteSpec] proves
  what its status says and does not say.
- [Gateway], [GatewayClass]: [gateway.rs] and [gateway_class.rs].
- [EndpointWatch]: [endpointslice_watcher.rs].
- [ControlPlane]: the Gateway and HTTPRoute controllers and the router together.
- [Startup]: [config.rs] and [main.rs], from the environment to the running server.
- [Lifecycle]: [main.rs], signals and the end of the process.

Management.
- [Diagnostics]: [agent-api/src/diagnostics], the rules.
- [LocalQuery]: [admin/local_query.rs], the queries on the running parts.
- [Admin]: [admin/server.rs], the remote client of [rauta-cli/src/remote_query.rs] and the
  tools of [mcp-server/src/handler.rs].
- [Cli]: [rauta-cli/src/main.rs] and [output.rs], the commands.
- [Oracle]: [eval/oracle/src/main.rs], the contract of a running gateway as 21 cases, run
  against the standalone process with its admin server.

A Gateway passes [Gateway.reconcile], which fills the index and opens listeners; an
HTTPRoute passes [HttpRoute.reconcile], which reads the index and fills the router.  A
request goes through [handle_request]: built-in endpoints, [select_backend] (the route
cache, the exact table, the prefix router, then the Maglev walk filtered by [Health] and
[HealthChecker]), worker choice, redirect, [check_rate_limit], header filters, the
breaker's [manager_allow_request], the attempts of [Forwarder] over the pools, and the
accounting that feeds [Health] and [BreakerManager] again.

** What the theorems show

- End to end: a request that a reconciled HTTPRoute is for is given a ready endpoint of
  its Services ([resources_serve_requests]); a request puts on the wire only what it may ([wire_faithful]), also behind the accept
  loops ([accept_loops_serve], [listener_loop_serves]); the standalone process sends
  everything to its configured backend ([standalone_serves]) and meets the contract of
  the oracle ([oracle_passes]); a failing backend is cut off
  ([failing_backend_is_cut_off]).
- Routing: the selection returns the first acceptable backend of the resolved route and
  never panics ([select_backend_correct]); adding a route keeps the invariant, is
  idempotent and makes the route served ([add_route_correct]); prefix lookups take the
  longest prefix ([prefix_lookup_longest]); the cache is a bounded LRU
  ([route_cache_refines_lru]); both Maglev builders end with complete tables of valid
  indices ([maglev_compact_correct], [maglev_table_correct]).
- Breakers and limits: every interleaving refines the three-state machine
  ([breaker_refines_spec]), a method run alone is its sequential function
  ([breaker_methods_atomic]), no map update is lost ([cow_updates_not_lost]); burst plus
  rate conformance over every interval of sequential calls ([bucket_conformance]) and
  agreement with a bucket on unbounded integers
  ([bucket_refines_ideal]).
- Health: the error-rate test in floating point is exact ([passive_health_exact]); the
  probe hysteresis depends on runs only ([hysteresis_exact]), however many tasks probe
  interleaved ([probing_exact]); the cancellation ends them ([shutdown_ends_probing]).
- Metrics: what the controllers record is what a scrape sees
  ([controller_metrics_exact]); the rates of the packet counters are rates
  ([packet_rates_in_unit]).
- Attempts: retries ([retry_correct]), what is sent and what comes back
  ([forward_faithful], [protocols_learned]), the pools ([pool_get_correct],
  [http1_pool_refines]), the listener's pipeline ([listener_request_accounted]).
- Controllers: [reconcile_correct], [accepted_exact], [gateway_reconciled],
  [class_accepted_exact], the shares of slots ([slots_are_fair],
  [backend_list_complete]), the index and the listeners as functions of the history
  ([index_answers_from_history], [listeners_are_registrations]), the watchers
  ([watcher_tracks_slices], [secrets_serve_last_good]), the endpoints a Service
  resolves to ([resolved_backends_exact]).
- Texts: [backend_label_identifies], [address_roundtrip], [annotation_roundtrip],
  [format_duration_injective].
- Shutdown: the drain is respected and ends ([stops_after_drain], [drain_ends]); what
  ends the process, and what does not ([controllers_end_process], [standalone_ends]).
- Management: the report is exact ([report_exact]), the remote client sees what the
  local query says ([remote_query_agrees]), and so does the command line
  ([cli_shows_gateway]).
- Behaviours the code has and does not intend, each as a theorem, among them
  [breaker_stuck_open], [wide_threshold_never_trips], [stale_clock_refills],
  [slow_rate_never_refills], [cached_lookup_survives], [root_route_shadows],
  [trailing_slash_poisons], [catch_all_path_poisons], [drain_can_be_lost],
  [oversized_probe_blocks_backend], [aborted_bodies_block_backend],
  [reconcile_refills_limit], [watcher_never_updates_routes],
  [mixed_outage_unreported], [default_symptom_silent], [hint_leads_nowhere],
  [repeated_backends_hasten], [failed_handler_stops], [h2c_needs_whole_preface],
  [oracle_rejects_working_backend].

** Conventions, bounds and fuel

Unsigned integers are [Z] with the wrapping of a release build written out
([wrap]); panics of assertions, indexing and division are [Panic].  Instants and
durations are nanoseconds.  Atomics are sequentially consistent; a weak exchange
may fail spuriously.  A future that times out is dropped at the point where it
awaits, and the point is an input.  The table-filling loops carry one round of fuel
per slot, which the Maglev theorems show is enough; string loops that trim carry the
length of the string; the retry loop recurses on the attempts left.  A [HashMap] that
is iterated is a [gmap] with an order of iteration that is a parameter ([MapOrder],
[SetOrder], [SliceOrder], [PortOrder]).

Code outside the repository is a parameter with its documented laws: [matchit]
([Matchit]), the [regex] engine ([RegexEngine]), the header map of [http]
([HeaderMap]), [rustls] ([TlsLib]), [serde_json] ([Json], [JsonValue]), [prometheus]
([PrometheusLib], [Exposition]), the case tables of Unicode ([UnicodeCase]), the encoding
of URLs.  The answers of the Kubernetes API server, the
operating system, the network, the file system, the environment and the clock are
inputs of the operations that ask for them.  Each class has an instance, used by the
witnesses.

** What is not modelled

Every part of the program with a state of its own is modelled.  Left out are what the
libraries do: TLS handshakes, the framing of HTTP, the watch loops of the Kubernetes
runtime around [reconcile], the parsing of command lines; and logging, the help
texts of the metrics, the recovery from poisoned locks, and tests.  Operations of one
router, and the requests behind an accept loop, are modelled one after another; the
interleavings that matter are in [CircuitBreaker], [CowMap], [HealthSwap], [HealthTasks],
[GatewayIndex], [Listeners] and [Shutdown]. *)

From stdpp Require Export gmap strings list fin_maps numbers relations.
From Stdlib Require Export ZArith Lia Ascii.

Declare Scope rauta_scope.
Delimit Scope rauta_scope with rauta.
#[local] Open Scope Z_scope.

(** ** Machine integers

A [w]-bit unsigned integer is a [Z] in [0, 2^w); [wrap w] is the reduction that
a wrapping operation or an [as] cast performs. *)
Definition wrap (w x : Z) : Z := x mod 2 ^ w.

Abbreviation as_u8 := (wrap 8).
Abbreviation as_u16 := (wrap 16).
Abbreviation as_u32 := (wrap 32).
Abbreviation as_u64 := (wrap 64).

Definition in_width (w x : Z) : Prop := 0 <= x < 2 ^ w.

(** ** Results of fallible code

[result] is Rust's [Result]; [outcome] adds the panic that an [assert!] or an
out-of-range index raises. *)
Inductive result (A E : Type) : Type :=
| Ok (a : A)
| Err (e : E).
Arguments Ok {A E} a.
Arguments Err {A E} e.

Inductive outcome (A : Type) : Type :=
| Ret (a : A)
| Panic.
Arguments Ret {A} a.
Arguments Panic {A}.

Definition obind {A B} (m : outcome A) (k : A → outcome B) : outcome B :=
  match m with
  | Ret a => k a
  | Panic => Panic
  end.

Notation "x <-! m ;; k" := (obind m (fun x => k))
  (at level 100, m at next level, right associativity) : rauta_scope.

(** ** Strings as bytes

A Rust [str] is its bytes: a [string] of 8-bit characters. *)
Definition byte_of_ascii (a : ascii) : Z := Z.of_N (N_of_ascii a).

Fixpoint as_bytes (s : string) : list Z :=
  match s with
  | EmptyString => []
  | String a s => byte_of_ascii a :: as_bytes s
  end.

(** ** Automation *)
Create HintDb rauta.
Create Rewrite HintDb rauta.

Ltac case_if :=
  match goal with
  | |- context [if ?b then _ else _] => destruct b eqn:?
  | H : context [if ?b then _ else _] |- _ => destruct b eqn:?
  end.

(** Turn boolean comparisons in the context into propositions. *)
Ltac zbool :=
  repeat match goal with
  | H : (_ <? _) = true |- _ => apply Z.ltb_lt in H
  | H : (_ <? _) = false |- _ => apply Z.ltb_ge in H
  | H : (_ <=? _) = true |- _ => apply Z.leb_le in H
  | H : (_ <=? _) = false |- _ => apply Z.leb_gt in H
  | H : (_ =? _) = true |- _ => apply Z.eqb_eq in H
  | H : (_ =? _) = false |- _ => apply Z.eqb_neq in H
  | H : (_ && _)%bool = true |- _ => apply andb_true_iff in H as [? ?]
  | H : negb _ = true |- _ => apply negb_true_iff in H
  | H : negb _ = false |- _ => apply negb_false_iff in H
  end.

(** ** Lemmas on widths *)
Lemma wrap_small w x : in_width w x → wrap w x = x.
Proof. intros ?. unfold wrap. by apply Z.mod_small. Qed.

Lemma wrap_range w x : 0 <= w → in_width w (wrap w x).
Proof. intros ?. apply Z.mod_pos_bound, Z.pow_pos_nonneg; lia. Qed.

Lemma wrap_idemp w x : 0 <= w → wrap w (wrap w x) = wrap w x.
Proof. intros ?. by apply wrap_small, wrap_range. Qed.

Lemma in_width_le w w' x : 0 <= w <= w' → in_width w x → in_width w' x.
Proof.
  unfold in_width. intros ? [??]. split; [done|].
  eapply Z.lt_le_trans; [done|]. apply Z.pow_le_mono_r; lia.
Qed.

#[export] Hint Resolve wrap_range : rauta.
#[export] Hint Rewrite wrap_small using (unfold in_width; lia) : rauta.

(** ** Bit fields: a mask-and-shift read of a packed word is a digit *)
Lemma lor_disjoint a b n :
  0 <= n → in_width n b → Z.lor (Z.shiftl a n) b = a * 2 ^ n + b.
Proof.
  intros Hn Hb.
  assert (Z.land (Z.shiftl a n) b = 0) as Hl.
  { apply Z.bits_inj'. intros i Hi.
    rewrite Z.land_spec, Z.bits_0.
    destruct (Z.lt_ge_cases i n).
    - by rewrite Z.shiftl_spec_low.
    - rewrite <- (Z.mod_small b (2 ^ n)) by done.
      by rewrite Z.mod_pow2_bits_high, andb_false_r by lia. }
  pose proof (Z.add_lor_land (Z.shiftl a n) b) as E.
  rewrite Z.shiftl_mul_pow2 in * by done. lia.
Qed.

Lemma field_read x k sh :
  0 <= k → 0 <= sh →
  Z.shiftr (Z.land x (Z.shiftl (Z.ones k) sh)) sh = (x / 2 ^ sh) mod 2 ^ k.
Proof.
  intros ??. rewrite Z.shiftr_land, Z.shiftr_shiftl_l, Z.sub_diag, Z.shiftl_0_r by lia.
  by rewrite Z.land_ones, Z.shiftr_div_pow2 by lia.
Qed.

Lemma land_ones_wrap x k : 0 <= k → Z.land x (Z.ones k) = wrap k x.
Proof. intros ?. by rewrite Z.land_ones. Qed.

Lemma byte_of_ascii_range a : in_width 8 (byte_of_ascii a).
Proof.
  unfold in_width, byte_of_ascii.
  pose proof (N_ascii_bounded a). change (2 ^ 8) with (Z.of_N 256). lia.
Qed.

Lemma as_bytes_range s : Forall (in_width 8) (as_bytes s).
Proof. induction s; simpl; constructor; auto using byte_of_ascii_range. Qed.

Lemma as_bytes_inj s t : as_bytes s = as_bytes t → s = t.
Proof.
  revert t. induction s as [|a s IH]; intros [|b t]; simpl; try done.
  intros [= Hb Ht]. f_equal; [|by apply IH].
  unfold byte_of_ascii in Hb. apply N2Z.inj in Hb.
  rewrite <- (ascii_N_embedding a), <- (ascii_N_embedding b). congruence.
Qed.

#[export] Hint Resolve byte_of_ascii_range as_bytes_range : rauta.
