(* ===== verification/Common.v ===== *)
(** * Common: the shared data types of [common/src/lib.rs]

HTTP methods and their wire parser, backends (IPv4 and IPv6 addresses in 16
bytes), and the FNV-1a hashes on which routing keys and Maglev tables are
built.  Bytes, ports and hashes are [Z] kept at their width. *)

From S2P Require Import Prelude.
From stdpp Require Import pretty.

#[local] Open Scope Z_scope.

(** ** HTTP methods *)
Inductive HttpMethod : Type :=
| GET | POST | PUT | DELETE | HEAD | OPTIONS | PATCH | ALL.

#[export] Instance HttpMethod_eq_dec : EqDecision HttpMethod.
Proof. solve_decision. Defined.

Definition HttpMethod_to_u8 (m : HttpMethod) : Z :=
  match m with
  | GET => 0 | POST => 1 | PUT => 2 | DELETE => 3 | HEAD => 4
  | OPTIONS => 5 | PATCH => 6 | ALL => 255
  end.

Definition HttpMethod_of_u8 (z : Z) : option HttpMethod :=
  match z with
  | 0 => Some GET | 1 => Some POST | 2 => Some PUT | 3 => Some DELETE
  | 4 => Some HEAD | 5 => Some OPTIONS | 6 => Some PATCH | 255 => Some ALL
  | _ => None
  end.

#[export] Instance HttpMethod_countable : Countable HttpMethod.
Proof.
  apply (inj_countable HttpMethod_to_u8 HttpMethod_of_u8). by intros [].
Defined.

(** [bytes[i] == c], for an index the caller has checked to be in range. *)
Definition byte_at (bytes : list Z) (i : nat) (c : ascii) : bool :=
  match bytes !! i with
  | Some b => b =? byte_of_ascii c
  | None => false
  end.

Definition from_bytes (bytes : list Z) : option HttpMethod :=
  let len := length bytes in
  let b := byte_at bytes in
  if (len <? 4)%nat then None
  else if (b 0%nat "G" && b 1%nat "E" && b 2%nat "T" && b 3%nat " ")%char then Some GET
  else if (b 0%nat "P" && b 1%nat "O" && b 2%nat "S" &&
           ((5 <=? len)%nat && b 3%nat "T" && b 4%nat " "))%char then Some POST
  else if (b 0%nat "P" && b 1%nat "U" && b 2%nat "T" && b 3%nat " ")%char then Some PUT
  else if (b 0%nat "D" && b 1%nat "E" && b 2%nat "L" &&
           ((7 <=? len)%nat && b 3%nat "E" && b 4%nat "T" && b 5%nat "E" && b 6%nat " "))%char
  then Some DELETE
  else if (b 0%nat "H" && b 1%nat "E" && b 2%nat "A" &&
           ((5 <=? len)%nat && b 3%nat "D" && b 4%nat " "))%char then Some HEAD
  else if (b 0%nat "O" && b 1%nat "P" && b 2%nat "T" &&
           ((8 <=? len)%nat && b 3%nat "I" && b 4%nat "O" && b 5%nat "N" && b 6%nat "S" &&
            b 7%nat " "))%char
  then Some OPTIONS
  else if (b 0%nat "P" && b 1%nat "A" && b 2%nat "T" &&
           ((6 <=? len)%nat && b 3%nat "C" && b 4%nat "H" && b 5%nat " "))%char
  then Some PATCH
  else None.

(** [HttpMethod::len]: the number of bytes of the method token. *)
Definition method_len (m : HttpMethod) : Z :=
  match m with
  | GET | PUT => 3
  | POST | HEAD => 4
  | PATCH => 5
  | DELETE => 6
  | OPTIONS => 7
  | ALL => 0
  end.

(** [method_to_str] of the request handler. *)
Definition method_to_str (m : HttpMethod) : string :=
  match m with
  | GET => "GET" | POST => "POST" | PUT => "PUT" | DELETE => "DELETE"
  | HEAD => "HEAD" | OPTIONS => "OPTIONS" | PATCH => "PATCH" | ALL => "ALL"
  end.

(** ** Addresses and backends *)
Record Ipv4Addr : Type := mk_ipv4 { ip4_a : Z; ip4_b : Z; ip4_c : Z; ip4_d : Z }.

Definition octets (ip : Ipv4Addr) : list Z := [ip4_a ip; ip4_b ip; ip4_c ip; ip4_d ip].

(** [u32::from(Ipv4Addr)]: big-endian. *)
Definition u32_of_ipv4 (ip : Ipv4Addr) : Z :=
  ip4_a ip * 2 ^ 24 + ip4_b ip * 2 ^ 16 + ip4_c ip * 2 ^ 8 + ip4_d ip.

Abbreviation Ipv6Addr := (list Z) (only parsing).

Inductive SocketAddr : Type :=
| V4 (ip : Ipv4Addr) (port : Z)
| V6 (ip : Ipv6Addr) (port : Z) (flowinfo scope_id : Z).

Record Backend : Type := mk_backend {
  ip : list Z;
  port : Z;
  weight : Z;
  is_ipv6 : bool
}.

#[export] Instance Backend_eq_dec : EqDecision Backend.
Proof. solve_decision. Defined.

#[export] Instance Backend_countable : Countable Backend.
Proof.
  apply (inj_countable' (λ b, (ip b, port b, weight b, is_ipv6 b))
           (λ '(i, p, w, v), mk_backend i p w v)).
  by intros [].
Defined.

Definition from_ipv4 (ipv4 : Ipv4Addr) (port weight : Z) : Backend :=
  mk_backend (octets ipv4 ++ replicate 12 0) port weight false.

Definition from_ipv6 (ipv6 : Ipv6Addr) (port weight : Z) : Backend :=
  mk_backend ipv6 port weight true.

Definition to_be_bytes_u32 (x : Z) : list Z :=
  [wrap 8 (Z.shiftr x 24); wrap 8 (Z.shiftr x 16); wrap 8 (Z.shiftr x 8); wrap 8 x].

(** [Backend::new]: the legacy constructor from a [u32]. *)
Definition backend_new (ipv4 port weight : Z) : Backend :=
  mk_backend (to_be_bytes_u32 ipv4 ++ replicate 12 0) port weight false.

Definition ip_byte (b : Backend) (i : nat) : Z := nth i (ip b) 0.

Definition first_octets (b : Backend) : Ipv4Addr :=
  mk_ipv4 (ip_byte b 0) (ip_byte b 1) (ip_byte b 2) (ip_byte b 3).

Definition as_ipv4 (b : Backend) : option Ipv4Addr :=
  if is_ipv6 b then None else Some (first_octets b).

Definition as_ipv6 (b : Backend) : option Ipv6Addr :=
  if negb (is_ipv6 b) then None else Some (ip b).

Definition ipv4_as_u32 (b : Backend) : option Z := u32_of_ipv4 <$> as_ipv4 b.

Definition to_socket_addr (b : Backend) : SocketAddr :=
  if is_ipv6 b then V6 (ip b) (port b) 0 0 else V4 (first_octets b) (port b).

(** [Ipv4Addr::to_ipv6_mapped] of the standard library: [::ffff:a.b.c.d]. *)
Definition to_ipv6_mapped (ip : Ipv4Addr) : Ipv6Addr := replicate 10 0 ++ [255; 255] ++ octets ip.

Definition to_ipv4_mapped (b : Backend) : Ipv6Addr :=
  if is_ipv6 b then ip b else to_ipv6_mapped (first_octets b).

Definition ip_bytes (b : Backend) : list Z := ip b.

(** ** Display *)
Definition show_Z (n : Z) : string := pretty (Z.to_N n).

Definition hex_digit (d : Z) : ascii :=
  ascii_of_N (Z.to_N (if d <? 10 then 48 + d else 87 + d)).

(** [{:x}] of a [u16]: no leading zeros. *)
Definition show_hex16 (n : Z) : string :=
  let digits := [n / 4096; n / 256 mod 16; n / 16 mod 16; n mod 16] in
  let fix strip (l : list Z) : list Z :=
    match l with
    | [] => []
    | [d] => [d]
    | d :: l => if d =? 0 then strip l else d :: l
    end in
  foldr (λ d s, String (hex_digit d) s) EmptyString (strip digits).

(** The eight big-endian segments of sixteen bytes. *)
Fixpoint segments (bytes : list Z) : list Z :=
  match bytes with
  | h :: l :: bytes => h * 256 + l :: segments bytes
  | _ => []
  end.

Fixpoint fmt_subslice (chunk : list Z) : string :=
  match chunk with
  | [] => ""
  | [s] => show_hex16 s
  | s :: chunk => show_hex16 s +:+ ":" +:+ fmt_subslice chunk
  end.

(** The first longest run of zero segments, as (start, length). *)
Fixpoint longest_zeroes (i : nat) (segs : list Z) (current longest : nat * nat) : nat * nat :=
  match segs with
  | [] => longest
  | s :: segs =>
      if s =? 0 then
        let current := (if (current.2 =? 0)%nat then i else current.1, S current.2) in
        longest_zeroes (S i) segs current (if (longest.2 <? current.2)%nat then current else longest)
      else longest_zeroes (S i) segs (0%nat, 0%nat) longest
  end.

(** [Display] of [Ipv4Addr] and [Ipv6Addr] of the standard library. *)
Definition show_ipv4 (bytes : list Z) : string :=
  match bytes with
  | a :: b :: c :: d :: _ =>
      show_Z a +:+ "." +:+ show_Z b +:+ "." +:+ show_Z c +:+ "." +:+ show_Z d
  | _ => ""
  end.

Definition show_ipv6 (bytes : list Z) : string :=
  if bool_decide (take 12 bytes = replicate 10 0 ++ [255; 255])
  then "::ffff:" +:+ show_ipv4 (drop 12 bytes)
  else
    let segs := segments bytes in
    let '(start, len) := longest_zeroes 0 segs (0%nat, 0%nat) (0%nat, 0%nat) in
    if (1 <? len)%nat
    then fmt_subslice (take start segs) +:+ "::" +:+ fmt_subslice (drop (start + len) segs)
    else fmt_subslice segs.

(** [Display for Backend] *)
Definition backend_to_string (b : Backend) : string :=
  if is_ipv6 b
  then "[" +:+ show_ipv6 (ip b) +:+ "]:" +:+ show_Z (port b)
  else show_ipv4 (ip b) +:+ ":" +:+ show_Z (port b).

(** The invariant of the private fields: sixteen bytes, a 16-bit port and
weight, and zero padding after an IPv4 address. *)
Definition backend_wf (b : Backend) : Prop :=
  length (ip b) = 16%nat ∧ Forall (in_width 8) (ip b) ∧
  in_width 16 (port b) ∧ in_width 16 (weight b) ∧
  (is_ipv6 b = false → drop 4 (ip b) = replicate 12 0).

Definition ipv4_wf (a : Ipv4Addr) : Prop := Forall (in_width 8) (octets a).

(** ** FNV-1a *)
Definition FNV_OFFSET : Z := 0xcbf29ce484222325.
Definition FNV_PRIME : Z := 0x100000001b3.

Definition fnv_step (hash byte : Z) : Z := wrap 64 (Z.lxor hash byte * FNV_PRIME).

Fixpoint fnv_loop (hash : Z) (bytes : list Z) : Z :=
  match bytes with
  | [] => hash
  | b :: bs => fnv_loop (fnv_step hash b) bs
  end.

Definition fnv1a_hash (bytes : list Z) : Z := fnv_loop FNV_OFFSET bytes.

(** [hash_backend]: FNV-1a over the eight little-endian bytes of [key], seeded. *)
Fixpoint hash_backend_loop (key : Z) (idxs : list Z) (hash : Z) : Z :=
  match idxs with
  | [] => hash
  | i :: idxs =>
      let byte := Z.land (Z.shiftr key (i * 8)) 0xFF in
      hash_backend_loop key idxs (fnv_step hash byte)
  end.

Definition hash_backend (key seed : Z) : Z :=
  hash_backend_loop key (seqZ 0 8) (Z.lxor FNV_OFFSET seed).

(** ** Lemmas *)
Lemma fnv_step_range h b : in_width 64 (fnv_step h b).
Proof. by apply wrap_range. Qed.

Lemma fnv_loop_range h bs : in_width 64 h → in_width 64 (fnv_loop h bs).
Proof. revert h. induction bs; simpl; auto using fnv_step_range. Qed.

Lemma fnv1a_hash_range bs : in_width 64 (fnv1a_hash bs).
Proof. apply fnv_loop_range. by vm_compute. Qed.

Lemma hash_backend_range key seed : in_width 64 (hash_backend key seed).
Proof. unfold hash_backend. cbn [seqZ fmap]. apply fnv_step_range. Qed.

#[export] Hint Resolve fnv1a_hash_range hash_backend_range : rauta.

Lemma from_ipv4_wf a p w :
  ipv4_wf a → in_width 16 p → in_width 16 w → backend_wf (from_ipv4 a p w).
Proof.
  intros Ha Hp Hw. repeat split; try done; try apply Hp; try apply Hw.
  apply Forall_app. split; [done|]. apply Forall_replicate. by vm_compute.
Qed.

Lemma from_ipv6_wf a p w :
  length a = 16%nat → Forall (in_width 8) a → in_width 16 p → in_width 16 w →
  backend_wf (from_ipv6 a p w).
Proof. intros ?? Hp Hw. repeat split; try done; try apply Hp; apply Hw. Qed.

(** A token is parsed exactly when its bytes and a space head the input. *)
Lemma byte_at_true bytes i c :
  byte_at bytes i c = true ↔ bytes !! i = Some (byte_of_ascii c).
Proof.
  unfold byte_at. destruct (bytes !! i) as [b|]; [|naive_solver].
  rewrite Z.eqb_eq. naive_solver.
Qed.

Lemma from_bytes_complete m k :
  m ≠ ALL → from_bytes (as_bytes (method_to_str m +:+ " ") ++ k) = Some m.
Proof. by destruct m. Qed.

Lemma prefix_of_lookups (p bytes : list Z) :
  (∀ i b, p !! i = Some b → bytes !! i = Some b) → p `prefix_of` bytes.
Proof.
  revert bytes. induction p as [|x p IH]; intros bytes H; [apply prefix_nil|].
  destruct bytes as [|y bytes]; [by specialize (H 0%nat x eq_refl)|].
  specialize (H 0%nat x eq_refl) as Hx. injection Hx as ->.
  apply prefix_cons, IH. intros i b Hi. by apply (H (S i)).
Qed.

(** The bytes of a literal, tested one by one from position [i]. *)
Fixpoint bytes_at (bytes : list Z) (i : nat) (l : list ascii) : bool :=
  match l with
  | [] => true
  | c :: l => byte_at bytes i c && bytes_at bytes (S i) l
  end.

Lemma bytes_at_prefix bytes l :
  bytes_at bytes 0 l = true → (byte_of_ascii <$> l) `prefix_of` bytes.
Proof.
  intros H. apply prefix_of_lookups. intros i b (c & -> & Hi)%list_lookup_fmap_Some_1.
  assert (∀ k, bytes_at bytes k l = true → bytes !! (k + i)%nat = Some (byte_of_ascii c)) as G.
  { clear H. revert i Hi. induction l as [|c' l IH]; intros [|i] Hi k; simpl in *; try done.
    - injection Hi as ->. intros [? _]%andb_true_iff. rewrite Nat.add_0_r. by apply byte_at_true.
    - intros [_ ?]%andb_true_iff. replace (k + S i)%nat with (S k + i)%nat by lia. by apply IH. }
  by apply (G 0%nat).
Qed.

Ltac prefix_by l :=
  apply (bytes_at_prefix _ l); cbn [bytes_at];
  repeat (apply andb_true_iff; split); assumption || reflexivity.

Lemma from_bytes_sound bytes m :
  from_bytes bytes = Some m → m ≠ ALL ∧ as_bytes (method_to_str m +:+ " ") `prefix_of` bytes.
Proof.
  unfold from_bytes. intros H.
  repeat match type of H with
  | (if ?b then _ else _) = _ => destruct b eqn:?
  end; inversion H; subst; split; try discriminate; zbool.
  - prefix_by ["G"; "E"; "T"; " "]%char.
  - prefix_by ["P"; "O"; "S"; "T"; " "]%char.
  - prefix_by ["P"; "U"; "T"; " "]%char.
  - prefix_by ["D"; "E"; "L"; "E"; "T"; "E"; " "]%char.
  - prefix_by ["H"; "E"; "A"; "D"; " "]%char.
  - prefix_by ["O"; "P"; "T"; "I"; "O"; "N"; "S"; " "]%char.
  - prefix_by ["P"; "A"; "T"; "C"; "H"; " "]%char.
Qed.

(** [HttpMethod::from_bytes] recognises a method exactly when the input
starts with that method's token followed by a space, for every byte string. *)
Theorem from_bytes_iff bytes m :
  from_bytes bytes = Some m ↔ m ≠ ALL ∧ as_bytes (method_to_str m +:+ " ") `prefix_of` bytes.
Proof.
  split; [apply from_bytes_sound|]. intros [Hm [k ->]]. by apply from_bytes_complete.
Qed.

(** ** Labels identify IPv4 backends *)

(** Neither a dot nor a colon occurs in [s]. *)
Definition plain_char (c : ascii) : bool := negb (Ascii.eqb c ".") && negb (Ascii.eqb c ":").

Fixpoint plain (s : string) : bool :=
  match s with
  | EmptyString => true
  | String c s => plain_char c && plain s
  end.

Lemma split_at_separator s1 s2 c t1 t2 :
  plain s1 = true → plain s2 = true → plain_char c = false →
  s1 +:+ String c t1 = s2 +:+ String c t2 → s1 = s2 ∧ t1 = t2.
Proof.
  intros H1 H2 Hc. revert s2 H2.
  induction s1 as [|a s1 IH]; intros [|b s2] H2; cbn in *; intros E; simplify_eq; auto.
  - apply andb_true_iff in H2 as [? _]. congruence.
  - apply andb_true_iff in H1 as [? _]. congruence.
  - apply andb_true_iff in H1 as [_ P1], H2 as [_ P2]. destruct (IH P1 s2) as [-> ->]; auto.
Qed.

Lemma show_byte_plain n : in_width 8 n → plain (show_Z n) = true.
Proof.
  intros [H1 H2].
  assert (forallb (λ k, plain (show_Z (Z.of_nat k))) (seq 0 256) = true) as H by (vm_compute; reflexivity).
  rewrite forallb_forall in H. specialize (H (Z.to_nat n)). rewrite Z2Nat.id in H by done.
  apply H, in_seq. lia.
Qed.

Lemma show_Z_inj x y : 0 <= x → 0 <= y → show_Z x = show_Z y → x = y.
Proof. intros ?? E%pretty_N_inj. lia. Qed.

Lemma string_app_assoc (s t u : string) : (s +:+ t) +:+ u = s +:+ (t +:+ u).
Proof. induction s as [|c s IH]; [done|]. change (String c ((s +:+ t) +:+ u) = String c (s +:+ (t +:+ u))). by rewrite IH. Qed.

Ltac peel_label H :=
  apply split_at_separator in H as [?Hs H]; [|by apply show_byte_plain..|done];
  apply show_Z_inj in Hs; [subst|solve [unfold in_width in *; lia]..].

Lemma show_ipv4_inj x y l l' p p' :
  length l = 4%nat → length l' = 4%nat → Forall (in_width 8) l → Forall (in_width 8) l' →
  0 <= p → 0 <= p' →
  show_ipv4 (l ++ x) +:+ ":" +:+ show_Z p = show_ipv4 (l' ++ y) +:+ ":" +:+ show_Z p' → l = l' ∧ p = p'.
Proof.
  intros Hl Hl' Hw Hw' Hp Hp'.
  destruct l as [|a [|b [|c [|d []]]]]; try done. destruct l' as [|a' [|b' [|c' [|d' []]]]]; try done.
  repeat (apply Forall_cons in Hw as [? Hw]). repeat (apply Forall_cons in Hw' as [? Hw']).
  cbn [show_ipv4 app]. rewrite !string_app_assoc. intros E.
  peel_label E. peel_label E. peel_label E. peel_label E.
  apply show_Z_inj in E; [by subst|done..].
Qed.

Lemma ipv4_padding l :
  length l = 16%nat → Forall (in_width 8) l → drop 4 l = replicate 12 0 →
  ∃ o, length o = 4%nat ∧ l = o ++ replicate 12 0 ∧ Forall (in_width 8) o.
Proof.
  intros Hl Hf Hd. exists (take 4 l). rewrite <- Hd, take_drop. split_and!; [|done|by apply Forall_take].
  rewrite length_take. lia.
Qed.

(** The text form of a backend, which keys its circuit breaker, its protocol
cache and its metrics, determines the address and port of an IPv4 backend and
tells IPv4 from IPv6 backends. *)
Theorem backend_label_injective b1 b2 :
  backend_wf b1 → backend_wf b2 → is_ipv6 b1 = false →
  backend_to_string b1 = backend_to_string b2 → is_ipv6 b2 = false ∧ ip b1 = ip b2 ∧ port b1 = port b2.
Proof.
  intros (L1 & F1 & [P1 _] & _ & Z1) (L2 & F2 & [P2 _] & _ & Z2) E1. unfold backend_to_string. rewrite E1.
  destruct (ipv4_padding (ip b1) L1 F1 (Z1 E1)) as (l1 & T1 & -> & G1).
  destruct (is_ipv6 b2) eqn:E2.
  - intros E. exfalso. destruct l1 as [|a l]; [done|]. apply Forall_cons in G1 as [Ha _].
    destruct l as [|b [|c [|d []]]]; try done. cbn [show_ipv4 app] in E.
    pose proof (show_byte_plain a Ha) as Hp. destruct (show_Z a) as [|ch s] eqn:Es; [done|].
    injection E as Ech _. subst ch.
    assert (forallb (λ k, match show_Z (Z.of_nat k) with String c _ => negb (Ascii.eqb c "[") | _ => true end)
              (seq 0 256) = true) as H by (vm_compute; reflexivity).
    rewrite forallb_forall in H. destruct Ha as [Ha1 Ha2]. specialize (H (Z.to_nat a)).
    rewrite Z2Nat.id, Es in H by done. discriminate H. apply in_seq. lia.
  - destruct (ipv4_padding (ip b2) L2 F2 (Z2 eq_refl)) as (l2 & T2 & -> & G2).
    intros [-> ->]%show_ipv4_inj; done.
Qed.

Lemma backend_label_injective_witness :
  let b1 := from_ipv4 (mk_ipv4 10 0 0 1) 80 100 in
  let b2 := from_ipv4 (mk_ipv4 10 0 0 1) 80 50 in
  is_ipv6 b2 = false ∧ ip b1 = ip b2 ∧ port b1 = port b2.
Proof.
  apply (backend_label_injective (from_ipv4 (mk_ipv4 10 0 0 1) 80 100) (from_ipv4 (mk_ipv4 10 0 0 1) 80 50));
    [apply from_ipv4_wf..|reflexivity|reflexivity].
  1,4: repeat constructor; vm_compute; discriminate.
  all: split; [discriminate|reflexivity].
Defined.
