(* ===== verification/Maglev.v ===== *)
(** * Maglev: consistent-hash lookup tables of [common/src/lib.rs]

The two table builders ([maglev_build_table] over 65537 slots with optional
entries, [maglev_build_compact_table] over 4099 slots with weighted backends),
their permutations by double hashing, and the two lookups.  The [while] loops
carry fuel; a builder returns [None] only if the fuel ran out, and the theorems
show that one round per slot is always enough. *)

From S2P Require Import Prelude Common.
From Stdlib Require Import Znumtheory.

#[local] Open Scope Z_scope.
#[local] Open Scope rauta_scope.

(** ** Constants *)
Definition MAX_BACKENDS : Z := 32.
Definition MAGLEV_TABLE_SIZE : Z := 65537.
Definition COMPACT_MAGLEV_SIZE : Z := 4099.

(** ** Permutations *)
Definition to_be_bytes_u16 (x : Z) : list Z := [wrap 8 (Z.shiftr x 8); wrap 8 x].

(** The key that both generators hash: the sixteen address bytes and the port. *)
Definition backend_key (b : Backend) : Z :=
  fnv1a_hash (ip_bytes b ++ to_be_bytes_u16 (port b)).

(** [(offset + j * skip) % size] for [j] in [0..size], in [usize] arithmetic. *)
Definition permutation_from (size offset skip : Z) : list nat :=
  (λ j, Z.to_nat (wrap 64 (offset + wrap 64 (j * skip)) mod size)) <$> seqZ 0 size.

Definition generate_permutation (b : Backend) (backend_idx : Z) : list nat :=
  let key := backend_key b in
  let offset := hash_backend key backend_idx mod MAGLEV_TABLE_SIZE in
  let skip := hash_backend key (backend_idx + 1) mod (MAGLEV_TABLE_SIZE - 1) + 1 in
  permutation_from MAGLEV_TABLE_SIZE offset skip.

Definition generate_permutation_compact (b : Backend) (backend_idx : Z) : list nat :=
  let key := backend_key b in
  let offset := hash_backend key backend_idx mod COMPACT_MAGLEV_SIZE in
  let skip := hash_backend key (backend_idx + 1) mod (COMPACT_MAGLEV_SIZE - 1) + 1 in
  permutation_from COMPACT_MAGLEV_SIZE offset skip.

(** ** Filling: the [Option] table *)
Fixpoint fill_row (size : nat) (perms : list (Z * list nat)) (n : nat)
    (table : list (option Z)) (filled : nat) : list (option Z) * nat :=
  match perms with
  | [] => (table, filled)
  | (backend_idx, perm) :: rest =>
      let c := default 0%nat (perm !! (n mod size)%nat) in
      match table !! c with
      | Some None =>
          let table := <[c := Some backend_idx]> table in
          let filled := S filled in
          if (filled =? size)%nat then (table, filled)
          else fill_row size rest n table filled
      | _ => fill_row size rest n table filled
      end
  end.

Fixpoint fill_loop (fuel size : nat) (perms : list (Z * list nat)) (n : nat)
    (table : list (option Z)) (filled : nat) : option (list (option Z)) :=
  if (filled <? size)%nat then
    match fuel with
    | O => None
    | S fuel =>
        let '(table, filled) := fill_row size perms n table filled in
        fill_loop fuel size perms (S n) table filled
    end
  else Some table.

(** [enumerate], with the index as the code casts it. *)
Definition enumerate {A} (l : list A) : list (Z * A) := imap (λ i x, (Z.of_nat i, x)) l.

Definition maglev_build_table (backends : list Backend) : option (list (option Z)) :=
  let size := Z.to_nat MAGLEV_TABLE_SIZE in
  if bool_decide (backends = []) then Some (replicate size None)
  else
    let permutations :=
      (λ '(i, backend), (wrap 32 i, generate_permutation backend (wrap 32 i)))
        <$> enumerate backends in
    fill_loop size size permutations 0 (replicate size None) 0.

Definition maglev_lookup (flow_key : Z) (table : list (option Z)) : option Z :=
  if bool_decide (table = []) then None
  else
    let idx := Z.to_nat (flow_key mod Z.of_nat (length table)) in
    match table !! idx with
    | Some e => e
    | None => None
    end.

(** ** Filling: the compact table and its separate [filled] vector *)
Fixpoint fill_row_compact (size : nat) (perms : list (Z * list nat)) (n : nat)
    (table : list Z) (filled : list bool) (filled_count : nat) : list Z * list bool * nat :=
  match perms with
  | [] => (table, filled, filled_count)
  | (backend_idx, perm) :: rest =>
      let c := default 0%nat (perm !! (n mod size)%nat) in
      match filled !! c with
      | Some false =>
          let table := <[c := backend_idx]> table in
          let filled := <[c := true]> filled in
          let filled_count := S filled_count in
          if (filled_count =? size)%nat then (table, filled, filled_count)
          else fill_row_compact size rest n table filled filled_count
      | _ => fill_row_compact size rest n table filled filled_count
      end
  end.

Fixpoint fill_loop_compact (fuel size : nat) (perms : list (Z * list nat)) (n : nat)
    (table : list Z) (filled : list bool) (filled_count : nat) : option (list Z) :=
  if (filled_count <? size)%nat then
    match fuel with
    | O => None
    | S fuel =>
        let '(table, filled, filled_count) :=
          fill_row_compact size perms n table filled filled_count in
        fill_loop_compact fuel size perms (S n) table filled filled_count
    end
  else Some table.

(** Normalised weight: [weight / 10], at least one repetition. *)
Definition repetitions (b : Backend) : Z := Z.max (weight b / 10) 1.

Definition weighted_permutations (backends : list Backend) : list (Z * list nat) :=
  flat_map (λ '(i, backend),
      (λ rep, (wrap 8 i, generate_permutation_compact backend (wrap 32 (i * 100 + rep))))
        <$> seqZ 0 (repetitions backend))
    (enumerate backends).

Definition maglev_build_compact_table (backends : list Backend) : outcome (option (list Z)) :=
  let size := Z.to_nat COMPACT_MAGLEV_SIZE in
  if bool_decide (backends = []) then Ret (Some (replicate size 0))
  else if MAX_BACKENDS <? Z.of_nat (length backends) then Panic
  else Ret (fill_loop_compact size size (weighted_permutations backends) 0
              (replicate size 0) (replicate size false) 0).

(** [table[idx]] panics out of range: that is the [Panic] here. *)
Definition maglev_lookup_compact (flow_key : Z) (table : list Z) : outcome Z :=
  if bool_decide (table = []) then Ret 0
  else
    match table !! Z.to_nat (flow_key mod COMPACT_MAGLEV_SIZE) with
    | Some e => Ret e
    | None => Panic
    end.

(** ** Primality of the table sizes *)
Lemma prime_by_trial p m :
  1 < p → p < (m + 1) * (m + 1) → 0 <= m →
  forallb (λ d, negb (p mod d =? 0)) (seqZ 2 (m - 1)) = true → prime p.
Proof.
  intros Hp Hm H0 Hall.
  destruct (prime_dec p) as [|Hn]; [done|exfalso].
  apply not_prime_divide in Hn as (d & Hd & [q Hq]); [|done].
  rewrite forallb_forall in Hall.
  assert (∀ x, 1 < x <= m → (x | p) → False) as Hno.
  { intros x Hx Hdiv. specialize (Hall x).
    rewrite <- list_elem_of_In, elem_of_seqZ in Hall.
    specialize (Hall ltac:(lia)). apply negb_true_iff, Z.eqb_neq in Hall.
    apply Hall, Z.mod0_divide, Hdiv. }
  assert (1 < q) by nia.
  destruct (Z.le_gt_cases d m) as [?|?].
  - apply (Hno d); [lia|by exists q].
  - apply (Hno q); [nia|]. exists d. lia.
Qed.

Lemma maglev_table_size_prime : prime MAGLEV_TABLE_SIZE.
Proof. by apply (prime_by_trial _ 256). Qed.

Lemma compact_maglev_size_prime : prime COMPACT_MAGLEV_SIZE.
Proof. by apply (prime_by_trial _ 64). Qed.

(** ** A permutation visits every slot once *)
Section permutation.
Context (size offset skip : Z).
Context (Hprime : prime size) (Hsize : size < 2 ^ 31).
Context (Hoffset : 0 <= offset < size) (Hskip : 1 <= skip < size).

Lemma slot_eq j :
  0 <= j < size → wrap 64 (offset + wrap 64 (j * skip)) mod size = (offset + j * skip) mod size.
Proof.
  intros Hj. assert (0 <= j * skip <= size * size) by nia.
  assert (size * size <= 2 ^ 31 * 2 ^ 31) by (apply Z.mul_le_mono_nonneg; lia).
  rewrite (wrap_small 64 (j * skip)) by (unfold in_width; lia).
  by rewrite wrap_small by (unfold in_width; lia).
Qed.

Lemma slot_inj j k :
  0 <= j < size → 0 <= k < size →
  (offset + j * skip) mod size = (offset + k * skip) mod size → j = k.
Proof.
  intros Hj Hk E.
  assert ((size | (j - k) * skip)) as Hd.
  { apply Z.mod_divide; [lia|].
    replace ((j - k) * skip) with ((offset + j * skip) - (offset + k * skip)) by lia.
    by rewrite Zminus_mod, E, Z.sub_diag, Z.mod_0_l by lia. }
  apply prime_mult in Hd as [[q Hq]|[q Hq]]; [| |done].
  - assert (q = 0) by nia. lia.
  - assert (q = 0 ∨ q <= -1 ∨ 1 <= q) as [?|[?|?]] by lia; nia.
Qed.

Lemma permutation_from_perm : permutation_from size offset skip ≡ₚ seq 0 (Z.to_nat size).
Proof.
  assert (NoDup (permutation_from size offset skip)) as Hnd.
  { unfold permutation_from. apply NoDup_fmap_2_strong; [|apply NoDup_seqZ].
    intros j k Hj%elem_of_seqZ Hk%elem_of_seqZ. rewrite !slot_eq by lia.
    intros E. apply Z2Nat.inj in E; [|apply Z.mod_pos_bound; lia..].
    apply slot_inj; [lia..|done]. }
  apply NoDup_Permutation_bis; [by apply NoDup_ListNoDup| |].
  - unfold permutation_from. rewrite length_fmap, length_seqZ, length_seq. lia.
  - intros c. rewrite <- !list_elem_of_In. unfold permutation_from.
    intros (j & -> & Hj%elem_of_seqZ)%list_elem_of_fmap_1.
    rewrite slot_eq by lia. pose proof (Z.mod_pos_bound (offset + j * skip) size).
    apply elem_of_seq. lia.
Qed.
End permutation.

(** ** The filling loop ends with a full table *)
Definition claimed (table : list (option Z)) : nat := length (filter is_Some table).

Lemma claimed_le table : (claimed table <= length table)%nat.
Proof. apply length_filter. Qed.

Lemma claimed_replicate n : claimed (replicate n None) = 0%nat.
Proof.
  unfold claimed. induction n as [|n IH]; [done|]. cbn [replicate].
  rewrite filter_cons_False; [done|]. by intros [? ?].
Qed.

Lemma claimed_insert table c x :
  table !! c = Some None → claimed (<[c := Some x]> table) = S (claimed table).
Proof.
  intros Hc. rewrite insert_take_drop by (by eapply lookup_lt_Some).
  rewrite <- (take_drop_middle table c None Hc) at 3.
  unfold claimed. rewrite !filter_app, !length_app, filter_cons_True by eauto.
  rewrite filter_cons_False by (by intros [? ?]). simpl. lia.
Qed.

Lemma claimed_full table :
  (∀ c, (c < length table)%nat → ∃ i, table !! c = Some (Some i)) → claimed table = length table.
Proof.
  unfold claimed. induction table as [|e table IH]; intros H; [done|].
  destruct (H 0%nat) as [i [= ->]]; [simpl; lia|].
  rewrite filter_cons_True by eauto. cbn [length]. f_equal. apply IH.
  intros c Hc. apply (H (S c)). simpl. lia.
Qed.

Lemma claimed_full_inv table c :
  claimed table = length table → (c < length table)%nat → ∃ i, table !! c = Some (Some i).
Proof.
  unfold claimed. revert c. induction table as [|e table IH]; intros c E Hc; cbn [length] in *; [lia|].
  rewrite filter_cons in E. case_decide as He; cbn [length] in E.
  - destruct c as [|c]; simpl; [destruct He as [i ->]; eauto|]. apply IH; lia.
  - pose proof (length_filter is_Some table). lia.
Qed.

(** What a row keeps: the length, the count, the claims made so far, and only
indices of the entries it was given. *)
Record row_ok (size : nat) (ids : list Z) (table : list (option Z)) (filled : nat) : Prop := {
  row_length : length table = size;
  row_count : filled = claimed table;
  row_ids : ∀ c i, table !! c = Some (Some i) → i ∈ ids
}.

Lemma row_ok_claim size ids table filled c i :
  row_ok size ids table filled → table !! c = Some None → i ∈ ids →
  row_ok size ids (<[c := Some i]> table) (S filled).
Proof.
  intros [Hl Hf Hi] Hc Hin. split.
  - by rewrite length_insert.
  - by rewrite claimed_insert, Hf.
  - intros c' i' H. destruct (decide (c = c')) as [->|Hne].
    + rewrite list_lookup_insert_eq in H by (by eapply lookup_lt_Some). naive_solver.
    + rewrite list_lookup_insert_ne in H by done. eauto.
Qed.

Lemma fill_row_ok size ids perms n table filled table' filled' :
  row_ok size ids table filled → (∀ e, e ∈ perms → e.1 ∈ ids) →
  fill_row size perms n table filled = (table', filled') →
  row_ok size ids table' filled' ∧
  ∀ c i, table !! c = Some (Some i) → table' !! c = Some (Some i).
Proof.
  revert table filled. induction perms as [|[i perm] rest IH]; intros table filled Hok Hids E.
  { simplify_eq/=. eauto. }
  assert (∀ e, e ∈ rest → e.1 ∈ ids) by (intros; apply Hids; by right).
  cbn [fill_row] in E. set (c := default 0%nat (perm !! (n mod size)%nat)) in E.
  destruct (table !! c) as [[j|]|] eqn:Hc; [by eapply IH| |by eapply IH].
  assert (row_ok size ids (<[c := Some i]> table) (S filled)) as Hok'.
  { apply row_ok_claim; [done..|]. apply (Hids (i, perm)). by left. }
  assert (∀ c' j, table !! c' = Some (Some j) → <[c := Some i]> table !! c' = Some (Some j)) as Hmono.
  { intros c' j Hj. rewrite list_lookup_insert_ne; [done|]. intros ->. congruence. }
  case_if; simplify_eq; [by eauto|]. destruct (IH _ _ Hok' H E) as [??]. eauto.
Qed.

(** The first backend's slot of round [n] is taken after that round. *)
Lemma fill_row_head size ids i perm rest n c table filled table' filled' :
  row_ok size ids table filled → (∀ e, e ∈ (i, perm) :: rest → e.1 ∈ ids) →
  perm !! (n mod size)%nat = Some c → (c < size)%nat →
  fill_row size ((i, perm) :: rest) n table filled = (table', filled') →
  ∃ j, table' !! c = Some (Some j).
Proof.
  intros Hok Hids Hp Hc E. cbn [fill_row] in E. rewrite Hp in E. cbn [default from_option id] in E.
  assert (∀ e, e ∈ rest → e.1 ∈ ids) by (intros; apply Hids; by right).
  destruct (lookup_lt_is_Some_2 table c) as [e He]; [by rewrite (row_length _ _ _ _ Hok)|].
  rewrite He in E. destruct e as [j|].
  { exists j. eapply fill_row_ok in E as [_ G]; eauto. }
  assert (<[c := Some i]> table !! c = Some (Some i)) as Hins.
  { apply list_lookup_insert_eq. by eapply lookup_lt_Some. }
  exists i. case_if; simplify_eq; [done|].
  eapply fill_row_ok in E as [_ G]; [by eapply G| |done].
  apply row_ok_claim; [done..|]. apply (Hids (i, perm)). by left.
Qed.

Lemma row_ok_stop size ids table filled :
  row_ok size ids table filled → ~ (filled < size)%nat → claimed table = size.
Proof. intros [Hl -> _] ?. pose proof (claimed_le table). lia. Qed.

Lemma fill_loop_total size ids i perm rest fuel n table filled :
  perm ≡ₚ seq 0 size → (∀ e, e ∈ (i, perm) :: rest → e.1 ∈ ids) →
  row_ok size ids table filled → (size <= fuel + n)%nat →
  (∀ k c, (k < n)%nat → perm !! k = Some c → ∃ j, table !! c = Some (Some j)) →
  ∃ t, fill_loop fuel size ((i, perm) :: rest) n table filled = Some t ∧
       length t = size ∧ ∀ c, (c < size)%nat → ∃ j, t !! c = Some (Some j) ∧ j ∈ ids.
Proof.
  intros Hperm Hids. revert n table filled.
  assert (∀ table filled, row_ok size ids table filled → claimed table = size →
    length table = size ∧ ∀ c, (c < size)%nat → ∃ j, table !! c = Some (Some j) ∧ j ∈ ids) as Hend.
  { intros table filled [Hl Hf Hi] Hfull. split; [done|]. intros c Hc.
    destruct (claimed_full_inv table c) as [j Hj]; [congruence|lia|]. eauto. }
  induction fuel as [|fuel IH]; intros n table filled Hok Hfuel Hdone; cbn [fill_loop];
    destruct (filled <? size)%nat eqn:Hlt;
    try (apply Nat.ltb_ge in Hlt; exists table; split; [done|];
         eapply Hend; [done|]; eapply row_ok_stop; [done|lia]).
  - exfalso. apply Nat.ltb_lt in Hlt. destruct Hok as [Hl -> Hi].
    rewrite claimed_full in Hlt; [lia|]. intros c Hc.
    assert (c ∈ perm) as [k Hk]%list_elem_of_lookup.
    { rewrite Hperm. apply elem_of_seq. lia. }
    apply (Hdone k c); [|done]. apply lookup_lt_Some in Hk.
    rewrite Hperm, length_seq in Hk. lia.
  - destruct (fill_row size ((i, perm) :: rest) n table filled) as [table' filled'] eqn:E.
    destruct (fill_row_ok _ ids _ _ _ _ _ _ Hok Hids E) as [Hok' Hmono].
    apply IH; [done|lia|]. intros k c Hk Hc.
    destruct (decide (k = n)) as [->|?]; [|edestruct (Hdone k c); [lia|done|eauto]].
    assert (c ∈ seq 0 size) as Hin by (rewrite <- Hperm; by eapply list_elem_of_lookup_2).
    apply elem_of_seq in Hin.
    assert (n < size)%nat.
    { apply lookup_lt_Some in Hc. by rewrite Hperm, length_seq in Hc. }
    eapply fill_row_head; [exact Hok|exact Hids| |lia|exact E].
    by rewrite Nat.mod_small.
Qed.

(** ** The compact fill simulates the [Option] fill *)
Definition abs_table (table : list Z) (filled : list bool) : list (option Z) :=
  zip_with (λ t f, if (f : bool) then Some t else None) table filled.

Lemma abs_table_lookup table filled c :
  length table = length filled →
  abs_table table filled !! c =
    match filled !! c with
    | Some true => Some (table !! c)
    | Some false => Some None
    | None => None
    end.
Proof.
  intros Hl. unfold abs_table. rewrite lookup_zip_with.
  destruct (table !! c) as [t|] eqn:Ht; simpl.
  - destruct (filled !! c) as [[]|]; done.
  - apply lookup_ge_None in Ht. by rewrite (lookup_ge_None_2 filled c) by lia.
Qed.

Lemma fill_row_compact_sim size perms n table filled count :
  length table = length filled →
  let '(t, f, k) := fill_row_compact size perms n table filled count in
  length t = length f ∧ fill_row size perms n (abs_table table filled) count = (abs_table t f, k).
Proof.
  revert table filled count. induction perms as [|[i perm] rest IH]; intros table filled count Hl;
    [done|].
  cbn [fill_row_compact fill_row]. set (c := default 0%nat _).
  rewrite abs_table_lookup by done.
  destruct (filled !! c) as [[]|] eqn:Hc; [| |by apply IH].
  - destruct (lookup_lt_is_Some_2 table c) as [t ->]; [|by apply IH].
    rewrite Hl. by eapply lookup_lt_Some.
  - assert (<[c := Some i]> (abs_table table filled)
            = abs_table (<[c := i]> table) (<[c := true]> filled)) as ->
      by (apply (insert_zip_with (λ t f, if (f : bool) then Some t else None) _ _ c i true)).
    case_if; [by rewrite !length_insert|]. apply IH. by rewrite !length_insert.
Qed.

Lemma fill_loop_compact_sim fuel size perms n table filled count t :
  length table = length filled →
  fill_loop fuel size perms n (abs_table table filled) count = Some t →
  ∃ t' f', fill_loop_compact fuel size perms n table filled count = Some t' ∧
           t = abs_table t' f' ∧ length t' = length f'.
Proof.
  revert n table filled count. induction fuel as [|fuel IH];
    intros n table filled count Hl; cbn [fill_loop fill_loop_compact];
    case_if; try done; try (intros [= <-]; eauto).
  pose proof (fill_row_compact_sim size perms n table filled count Hl) as Hs.
  destruct (fill_row_compact _ _ _ _ _ _) as [[t1 f1] k1]. destruct Hs as [Hl1 ->].
  by apply IH.
Qed.

Lemma abs_table_replicate n : abs_table (replicate n 0) (replicate n false) = replicate n None.
Proof. unfold abs_table. by rewrite zip_with_replicate. Qed.

(** ** The entries given to the two loops *)
Lemma generate_permutation_perm b i :
  generate_permutation b i ≡ₚ seq 0 (Z.to_nat MAGLEV_TABLE_SIZE).
Proof.
  apply permutation_from_perm; [apply maglev_table_size_prime|done| |].
  - by apply Z.mod_pos_bound.
  - pose proof (Z.mod_pos_bound (hash_backend (backend_key b) (i + 1)) (MAGLEV_TABLE_SIZE - 1)).
    unfold MAGLEV_TABLE_SIZE in *. lia.
Qed.

Lemma generate_permutation_compact_perm b i :
  generate_permutation_compact b i ≡ₚ seq 0 (Z.to_nat COMPACT_MAGLEV_SIZE).
Proof.
  apply permutation_from_perm; [apply compact_maglev_size_prime|done| |].
  - by apply Z.mod_pos_bound.
  - pose proof (Z.mod_pos_bound (hash_backend (backend_key b) (i + 1)) (COMPACT_MAGLEV_SIZE - 1)).
    unfold COMPACT_MAGLEV_SIZE in *. lia.
Qed.

Lemma elem_of_enumerate {A} (l : list A) i x :
  (i, x) ∈ enumerate l ↔ 0 <= i ∧ l !! Z.to_nat i = Some x.
Proof.
  unfold enumerate. rewrite elem_of_lookup_imap. split.
  - intros (j & y & [= -> ->] & Hj). by rewrite Nat2Z.id; split; [lia|].
  - intros [Hi Hl]. exists (Z.to_nat i), x. split; [|done]. f_equal. lia.
Qed.

Lemma enumerate_cons_head {A} (x : A) l : ∃ rest, enumerate (x :: l) = (0, x) :: rest.
Proof. unfold enumerate. rewrite imap_cons. eauto. Qed.

(** The indices that entries of a list of [k] backends may carry. *)
Definition backend_ids {A} (backends : list A) : list Z := seqZ 0 (Z.of_nat (length backends)).

Lemma weighted_permutations_ids backends e :
  Z.of_nat (length backends) <= MAX_BACKENDS →
  e ∈ weighted_permutations backends → e.1 ∈ backend_ids backends.
Proof.
  unfold weighted_permutations, MAX_BACKENDS. intros Hlen He.
  apply list_elem_of_In, in_flat_map in He as ([i b] & Hi & He).
  apply list_elem_of_In, elem_of_enumerate in Hi as [Hi Hb].
  apply list_elem_of_In, list_elem_of_fmap_1 in He as (rep & -> & _). cbn [fst].
  apply lookup_lt_Some in Hb. apply elem_of_seqZ.
  rewrite wrap_small by (unfold in_width; lia). lia.
Qed.

Lemma weighted_permutations_head b backends :
  ∃ i perm rest, weighted_permutations (b :: backends) = (i, perm) :: rest ∧
                 perm ≡ₚ seq 0 (Z.to_nat COMPACT_MAGLEV_SIZE).
Proof.
  unfold weighted_permutations. destruct (enumerate_cons_head b backends) as [rest ->].
  cbn [flat_map]. unfold repetitions. rewrite (seqZ_cons 0) by lia. cbn [fmap list_fmap app].
  do 3 eexists. split; [done|]. apply generate_permutation_compact_perm.
Qed.

(** ** Correct tables *)
Definition compact_ok {A} (backends : list A) (table : list Z) : Prop :=
  length table = Z.to_nat COMPACT_MAGLEV_SIZE ∧
  Forall (λ e, 0 <= e < Z.of_nat (length backends)) table.

Lemma row_ok_initial size ids : row_ok size ids (replicate size None) 0.
Proof.
  split; [apply length_replicate|by rewrite claimed_replicate|].
  intros c i [? ?]%lookup_replicate_1. done.
Qed.

Lemma maglev_build_compact_total backends :
  backends ≠ [] → Z.of_nat (length backends) <= MAX_BACKENDS →
  ∃ t, maglev_build_compact_table backends = Ret (Some t) ∧ compact_ok backends t.
Proof.
  intros Hne Hlen. unfold maglev_build_compact_table.
  rewrite bool_decide_false by done. destruct (MAX_BACKENDS <? _) eqn:Hlt; zbool; [lia|].
  set (size := Z.to_nat COMPACT_MAGLEV_SIZE).
  destruct backends as [|b bs]; [done|].
  pose proof (λ e, weighted_permutations_ids (b :: bs) e Hlen) as Hids.
  destruct (weighted_permutations_head b bs) as (i & perm & rest & E & Hperm). rewrite E in *.
  destruct (fill_loop_total size (backend_ids (b :: bs)) i perm rest size 0 (replicate size None) 0)
    as (t & Et & Hl & Hfull); [done..|apply row_ok_initial|lia|lia|].
  rewrite <- abs_table_replicate in Et.
  apply fill_loop_compact_sim in Et as (t' & f' & -> & -> & Hl'); [|by rewrite !length_replicate].
  exists t'. split; [done|].
  assert (length t' = size) as Hlen'.
  { unfold abs_table in Hl. rewrite length_zip_with in Hl. lia. }
  split; [done|]. apply Forall_lookup. intros c e He.
  destruct (Hfull c) as (j & Hj & Hin); [apply lookup_lt_Some in He; lia|].
  rewrite abs_table_lookup in Hj by done. destruct (f' !! c) as [[]|]; simplify_eq.
  apply elem_of_seqZ in Hin. lia.
Qed.

Lemma nil_length_size (size : Z) A : length (@nil A) = Z.to_nat size → 0 < size → False.
Proof. cbn [length]. lia. Qed.

Lemma compact_ok_lookup {A} (backends : list A) table flow_key :
  compact_ok backends table →
  ∃ i, maglev_lookup_compact flow_key table = Ret i ∧ 0 <= i < Z.of_nat (length backends).
Proof.
  intros [Hl Hall]. unfold maglev_lookup_compact.
  rewrite bool_decide_false by (intros ->; by apply (nil_length_size _ _ Hl)).
  pose proof (Z.mod_pos_bound flow_key COMPACT_MAGLEV_SIZE ltac:(done)).
  destruct (lookup_lt_is_Some_2 table (Z.to_nat (flow_key mod COMPACT_MAGLEV_SIZE))) as [e He].
  { rewrite Hl. lia. }
  rewrite He. exists e. split; [done|]. by eapply Forall_lookup in Hall.
Qed.

(** C7: the compact table builder has exactly three outcomes: a zeroed table for
no backends, the assertion failure above [MAX_BACKENDS], and otherwise its loop
ends, within one round per slot, with 4099 entries such that every flow key
looks up the index of a backend of the list. *)
Theorem maglev_compact_correct backends :
  (backends = [] →
     maglev_build_compact_table backends =
       Ret (Some (replicate (Z.to_nat COMPACT_MAGLEV_SIZE) 0))) ∧
  (MAX_BACKENDS < Z.of_nat (length backends) → maglev_build_compact_table backends = Panic) ∧
  (0 < Z.of_nat (length backends) <= MAX_BACKENDS →
     ∃ t, maglev_build_compact_table backends = Ret (Some t) ∧ compact_ok backends t ∧
       ∀ flow_key, ∃ i b, maglev_lookup_compact flow_key t = Ret i ∧
                          backends !! Z.to_nat i = Some b).
Proof.
  split; [|split].
  - by intros ->.
  - intros H. unfold maglev_build_compact_table.
    rewrite bool_decide_false by (intros ->; by vm_compute in H).
    destruct (_ <? _) eqn:E; zbool; [done|lia].
  - intros [H0 H]. destruct (maglev_build_compact_total backends) as (t & E & Hok); [|done|].
    { by intros ->. }
    exists t. do 2 (split; [done|]). intros k.
    destruct (compact_ok_lookup _ _ k Hok) as (i & Hi & Hr). exists i.
    destruct (lookup_lt_is_Some_2 backends (Z.to_nat i)) as [b Hb]; [lia|]. eauto.
Qed.

(** [maglev_build_table] terminates for every non-empty list of at most
[2^32] backends, fills all 65537 slots, and every flow key is mapped to the
index of a backend of the list. *)
Theorem maglev_table_correct backends :
  0 < Z.of_nat (length backends) <= 2 ^ 32 →
  ∃ t, maglev_build_table backends = Some t ∧ length t = Z.to_nat MAGLEV_TABLE_SIZE ∧
    ∀ flow_key, ∃ i b, maglev_lookup flow_key t = Some i ∧ backends !! Z.to_nat i = Some b.
Proof.
  intros [H0 Hlen]. unfold maglev_build_table.
  destruct backends as [|b0 bs]; [done|]. rewrite bool_decide_false by done.
  set (size := Z.to_nat MAGLEV_TABLE_SIZE). set (perms := fmap _ _).
  assert (∀ e, e ∈ perms → e.1 ∈ backend_ids (b0 :: bs)) as Hids.
  { intros e ([i b] & -> & Hi)%list_elem_of_fmap_1.
    apply elem_of_enumerate in Hi as [Hi Hb]. cbn [fst].
    apply lookup_lt_Some in Hb. apply elem_of_seqZ.
    rewrite wrap_small by (unfold in_width; lia). lia. }
  assert (∃ i perm rest, perms = (i, perm) :: rest ∧ perm ≡ₚ seq 0 size)
    as (i & perm & rest & E & Hperm).
  { unfold perms. destruct (enumerate_cons_head b0 bs) as [rest ->]. cbn [fmap list_fmap].
    do 3 eexists. split; [done|]. apply generate_permutation_perm. }
  rewrite E in *. clear E perms.
  destruct (fill_loop_total size (backend_ids (b0 :: bs)) i perm rest size 0 (replicate size None) 0)
    as (t & Et & Hl & Hfull); [done..|apply row_ok_initial|lia|lia|].
  exists t. do 2 (split; [done|]). intros k. unfold maglev_lookup.
  rewrite bool_decide_false by (intros ->; by apply (nil_length_size _ _ Hl)).
  pose proof (Z.mod_pos_bound k (Z.of_nat (length t)) ltac:(rewrite Hl; unfold size, MAGLEV_TABLE_SIZE; lia)).
  destruct (Hfull (Z.to_nat (k mod Z.of_nat (length t)))) as (j & -> & Hj); [lia|].
  apply elem_of_seqZ in Hj.
  destruct (lookup_lt_is_Some_2 (b0 :: bs) (Z.to_nat j)) as [b Hb]; [lia|]. eauto.
Qed.

Lemma maglev_table_correct_witness :
  ∃ t, maglev_build_table [from_ipv4 (mk_ipv4 10 0 1 1) 8080 100] = Some t ∧
    length t = Z.to_nat MAGLEV_TABLE_SIZE ∧
    ∀ flow_key, ∃ i b, maglev_lookup flow_key t = Some i ∧
      [from_ipv4 (mk_ipv4 10 0 1 1) 8080 100] !! Z.to_nat i = Some b.
Proof. apply maglev_table_correct. split; [reflexivity|discriminate]. Defined.
