(* ===== verification/CowMap.v ===== *)
(** * CowMap: a copy-on-write map of shared objects

[CircuitBreakerManager] ([circuit_breaker.rs]) and [RateLimiter]
([rate_limiter.rs]) keep their per-key objects in an
[ArcSwap<HashMap<String, Arc<T>>>] beside a [Mutex<()>].  Readers load the map in
one atomic access; writers lock the mutex, load the map, clone it, change the
clone, store it, and unlock.  This file models the accesses of any number of
threads, one atomic access per step, and shows that the mutex makes every store
a change of the map that is current when it happens.

A map holds handles ([nat]) of the shared objects: cloning the map clones the
handles, not the objects. *)

From S2P Require Import Prelude.

Abbreviation arc := nat.
Abbreviation arc_map := (gmap string nat).

(** What a writer does to its clone of the map. *)
Inductive edit : Type :=
| Create (id : string) (a : arc)
| Put (id : string) (a : arc)
| Del (id : string).

Definition apply_edit (e : edit) (m : arc_map) : arc_map :=
  match e with
  | Create id a | Put id a => <[id := a]> m
  | Del id => delete id m
  end.

(** Program points.  [Get] is [get_breaker], [Set] is [configure_route], [Rem] is
[remove_backend] and [remove_route]. *)
Inductive cow_pc : Type :=
| Rest
| GetFast (id : string)                      (* lock-free load *)
| GetLock (id : string)                      (* wait for the mutex *)
| GetCheck (id : string)                     (* load again, mutex held *)
| SetLock (id : string)
| SetLoad (id : string)
| RemLock (id : string)
| RemLoad (id : string)
| Store (e : edit) (snapshot : arc_map)      (* store the edited clone *)
| Unlock (res : option (string * arc))       (* drop the guard *)
| Got (id : string) (a : arc).               (* returned an [Arc] *)

Record cow : Type := mk_cow {
  cow_map : arc_map;
  cow_lock : option nat;       (* the thread that holds the mutex *)
  cow_next : arc;              (* the next fresh handle *)
  cow_threads : list cow_pc
}.

Definition cow_set (σ : cow) (i : nat) (p : cow_pc) : cow :=
  mk_cow (cow_map σ) (cow_lock σ) (cow_next σ) (<[i := p]> (cow_threads σ)).

(** The handle a [Get] returns after its store. *)
Definition stored (e : edit) : option (string * arc) :=
  match e with Create id a => Some (id, a) | _ => None end.

Definition after_unlock (res : option (string * arc)) : cow_pc :=
  match res with Some (id, a) => Got id a | None => Rest end.

(** One atomic access of thread [i]. *)
Inductive cow_step (σ : cow) : cow → Prop :=
| cow_call i p :
    cow_threads σ !! i = Some Rest →
    (∃ id, p = GetFast id ∨ p = SetLock id ∨ p = RemLock id) →
    cow_step σ (cow_set σ i p)
| cow_forget i id a :
    cow_threads σ !! i = Some (Got id a) → cow_step σ (cow_set σ i Rest)
| cow_fast_hit i id a :
    cow_threads σ !! i = Some (GetFast id) → cow_map σ !! id = Some a →
    cow_step σ (cow_set σ i (Got id a))
| cow_fast_miss i id :
    cow_threads σ !! i = Some (GetFast id) → cow_map σ !! id = None →
    cow_step σ (cow_set σ i (GetLock id))
| cow_acquire i id p p' :
    cow_threads σ !! i = Some p → cow_lock σ = None →
    (p, p') ∈ [(GetLock id, GetCheck id); (SetLock id, SetLoad id); (RemLock id, RemLoad id)] →
    cow_step σ (mk_cow (cow_map σ) (Some i) (cow_next σ) (<[i := p']> (cow_threads σ)))
| cow_check_hit i id a :
    cow_threads σ !! i = Some (GetCheck id) → cow_map σ !! id = Some a →
    cow_step σ (cow_set σ i (Unlock (Some (id, a))))
| cow_check_miss i id :
    cow_threads σ !! i = Some (GetCheck id) → cow_map σ !! id = None →
    cow_step σ (mk_cow (cow_map σ) (cow_lock σ) (S (cow_next σ))
                 (<[i := Store (Create id (cow_next σ)) (cow_map σ)]> (cow_threads σ)))
| cow_set_load i id :
    cow_threads σ !! i = Some (SetLoad id) →
    cow_step σ (mk_cow (cow_map σ) (cow_lock σ) (S (cow_next σ))
                 (<[i := Store (Put id (cow_next σ)) (cow_map σ)]> (cow_threads σ)))
| cow_rem_load i id :
    cow_threads σ !! i = Some (RemLoad id) →
    cow_step σ (cow_set σ i (Store (Del id) (cow_map σ)))
| cow_store i e snapshot :
    cow_threads σ !! i = Some (Store e snapshot) →
    cow_step σ (mk_cow (apply_edit e snapshot) (cow_lock σ) (cow_next σ)
                 (<[i := Unlock (stored e)]> (cow_threads σ)))
| cow_unlock i res :
    cow_threads σ !! i = Some (Unlock res) →
    cow_step σ (mk_cow (cow_map σ) None (cow_next σ) (<[i := after_unlock res]> (cow_threads σ))).

Definition cow_initial (n : nat) : cow := mk_cow ∅ None 0 (replicate n Rest).

(** ** Invariant *)

(** The points at which a thread holds the mutex. *)
Definition holds (p : cow_pc) : bool :=
  match p with
  | GetCheck _ | SetLoad _ | RemLoad _ | Store _ _ | Unlock _ => true
  | _ => false
  end.

(** A pending store starts from the current map; a handle in use is not fresh. *)
Definition pc_ok (m : arc_map) (next : arc) (p : cow_pc) : Prop :=
  match p with
  | Store (Create id a) s => s = m ∧ m !! id = None ∧ a < next ∧ (∀ id, m !! id ≠ Some a)
  | Store (Put _ a) s => s = m ∧ a < next ∧ (∀ id, m !! id ≠ Some a)
  | Store (Del _) s => s = m
  | Unlock (Some (_, a)) | Got _ a => a < next
  | _ => True
  end.

Record cow_ok (σ : cow) : Prop := {
  ok_mutex : ∀ i p, cow_threads σ !! i = Some p → holds p = true → cow_lock σ = Some i;
  ok_pcs : ∀ i p, cow_threads σ !! i = Some p → pc_ok (cow_map σ) (cow_next σ) p;
  ok_handles : ∀ id a, cow_map σ !! id = Some a → a < cow_next σ;
  ok_distinct : ∀ id id' a, cow_map σ !! id = Some a → cow_map σ !! id' = Some a → id = id'
}.

Lemma pc_ok_next m next p : pc_ok m next p → pc_ok m (S next) p.
Proof. destruct p as [| | | | | | | |[]|[[]|]|]; cbn; naive_solver lia. Qed.

(** A thread that does not hold the mutex has no pending store. *)
Lemma pc_ok_other m m' next p : holds p = false → pc_ok m next p → pc_ok m' next p.
Proof. by destruct p as [| | | | | | | | | |]. Qed.

Lemma lookup_insert_cases {A} (l : list A) i j x y :
  <[i := x]> l !! j = Some y → (i = j ∧ y = x) ∨ (i ≠ j ∧ l !! j = Some y).
Proof. intros [(-> & -> & _)|[? ?]]%list_lookup_insert_Some; auto. Qed.

(** Moving thread [i] to a point that is itself fine, with the map unchanged. *)
Lemma cow_ok_move σ i p next lock :
  cow_ok σ → pc_ok (cow_map σ) next p → (cow_next σ = next ∨ S (cow_next σ) = next) →
  (∀ j q, j ≠ i → cow_threads σ !! j = Some q → holds q = true → lock = Some j) →
  (holds p = true → lock = Some i) →
  cow_ok (mk_cow (cow_map σ) lock next (<[i := p]> (cow_threads σ))).
Proof.
  intros [M P H D] Hp Hn Ho Hh. split; cbn; [| | |exact D].
  - intros j q [[-> ->]|[? Hq]]%lookup_insert_cases; [done|]. by eapply Ho.
  - intros j q [[_ ->]|[_ Hq]]%lookup_insert_cases; [done|].
    destruct Hn as [<-|<-]; [|apply pc_ok_next]; by eapply P.
  - intros id a Ha. apply H in Ha. destruct Hn; lia.
Qed.

Lemma cow_ok_set σ i p q :
  cow_ok σ → cow_threads σ !! i = Some q → pc_ok (cow_map σ) (cow_next σ) p →
  (holds p = true → holds q = true) → cow_ok (cow_set σ i p).
Proof.
  intros Hok Hq Hp Hh. apply cow_ok_move; auto.
  - intros j r _ Hr ?. by eapply (ok_mutex σ Hok).
  - intros ?. eapply (ok_mutex σ Hok); eauto.
Qed.

Lemma cow_ok_store σ i e s :
  cow_ok σ → cow_threads σ !! i = Some (Store e s) →
  s = cow_map σ ∧
  cow_ok (mk_cow (apply_edit e s) (cow_lock σ) (cow_next σ) (<[i := Unlock (stored e)]> (cow_threads σ))).
Proof.
  intros [M P H D] Hi. assert (cow_lock σ = Some i) as Hl by (by eapply M).
  pose proof (P _ _ Hi) as Hp.
  assert (s = cow_map σ) as -> by (destruct e; cbn in Hp; naive_solver).
  split; [done|]. split; cbn.
  - intros j q [[-> ->]|[? Hq]]%lookup_insert_cases Hh; [done|by eapply M].
  - intros j q [[_ ->]|[Hne Hq]]%lookup_insert_cases; [destruct e; cbn in *; naive_solver|].
    eapply pc_ok_other; [|by eapply P].
    destruct (holds q) eqn:E; [|done]. exfalso. apply Hne.
    pose proof (M _ _ Hq E). congruence.
  - intros id a. destruct e as [id' a'|id' a'|id']; cbn in *.
    + rewrite lookup_insert_Some. naive_solver.
    + rewrite lookup_insert_Some. naive_solver.
    + rewrite lookup_delete_Some. naive_solver.
  - intros id id' a. destruct e as [k b|k b|k]; cbn in *.
    + rewrite !lookup_insert_Some. naive_solver.
    + rewrite !lookup_insert_Some. naive_solver.
    + rewrite !lookup_delete_Some. naive_solver.
Qed.

Lemma cow_fresh σ id : cow_ok σ → cow_map σ !! id ≠ Some (cow_next σ).
Proof. intros Hok Hid. apply (ok_handles σ Hok) in Hid. lia. Qed.

Lemma cow_ok_alloc σ i id q e :
  cow_ok σ → cow_threads σ !! i = Some q → holds q = true →
  e = Put id (cow_next σ) ∨ (e = Create id (cow_next σ) ∧ cow_map σ !! id = None) →
  cow_ok (mk_cow (cow_map σ) (cow_lock σ) (S (cow_next σ))
            (<[i := Store e (cow_map σ)]> (cow_threads σ))).
Proof.
  intros Hok Hq Hh He. apply cow_ok_move; [done| |by right| |].
  - destruct He as [->|[-> ?]]; cbn; split_and!; try done; try lia; intros ?; by apply cow_fresh.
  - intros j r _ Hr ?. by eapply (ok_mutex σ Hok).
  - intros _. by eapply (ok_mutex σ Hok).
Qed.

Lemma cow_step_ok σ σ' : cow_ok σ → cow_step σ σ' → cow_ok σ'.
Proof.
  intros Hok Hs. destruct Hs as [i p Hi Hp|i id a Hi|i id a Hi Ha|i id Hi Ha|i id p p' Hi Hl Hp|
    i id a Hi Ha|i id Hi Ha|i id Hi|i id Hi|i e s Hi|i res Hi].
  - eapply cow_ok_set; [done|exact Hi|naive_solver|naive_solver].
  - by eapply cow_ok_set.
  - eapply cow_ok_set; [done|exact Hi| |done]. by eapply (ok_handles σ Hok).
  - by eapply cow_ok_set.
  - apply cow_ok_move; [done| |by left| |done].
    + set_unfold. naive_solver.
    + intros j q _ Hq Hh. pose proof (ok_mutex σ Hok _ _ Hq Hh). congruence.
  - eapply cow_ok_set; [done|exact Hi| |done]. by eapply (ok_handles σ Hok).
  - eapply cow_ok_alloc; eauto.
  - eapply cow_ok_alloc; eauto.
  - by eapply cow_ok_set.
  - by apply cow_ok_store.
  - pose proof (ok_mutex σ Hok _ _ Hi eq_refl) as Hl. apply cow_ok_move; [done| |by left| |].
    + pose proof (ok_pcs σ Hok _ _ Hi). by destruct res as [[]|].
    + intros j q Hj Hq Hh. pose proof (ok_mutex σ Hok _ _ Hq Hh). congruence.
    + by destruct res as [[]|].
Qed.

Lemma cow_initial_ok n : cow_ok (cow_initial n).
Proof.
  split; cbn; try done.
  - intros i p [-> _]%lookup_replicate. done.
  - intros i p [-> _]%lookup_replicate. done.
Qed.

(** ** The edits that were stored

A run with the edits in the order of their stores. *)
Inductive cow_hstep : list edit * cow → list edit * cow → Prop :=
| hstep_store es σ σ' i e snapshot :
    cow_step σ σ' → cow_threads σ !! i = Some (Store e snapshot) → cow_threads σ' !! i = Some (Unlock (stored e)) →
    cow_hstep (es, σ) (es ++ [e], σ')
| hstep_other es σ σ' :
    cow_step σ σ' → (∀ i e snapshot, cow_threads σ !! i = Some (Store e snapshot) → cow_threads σ' !! i = Some (Store e snapshot)) →
    cow_hstep (es, σ) (es, σ').

(** The map that edits make, one after the other. *)
Definition replay (es : list edit) : arc_map := foldl (λ m e, apply_edit e m) ∅ es.

Lemma replay_snoc es e : replay (es ++ [e]) = apply_edit e (replay es).
Proof. unfold replay. by rewrite foldl_app. Qed.

(** An entry of the map at some time. *)
Definition was_stored (es : list edit) (id : string) (a : arc) : Prop := ∃ k, replay (take k es) !! id = Some a.

(** An edit that fits the map it is stored into: a handle that no entry has, and for the
creation of an entry no entry of its key. *)
Definition edit_fits (m : arc_map) (e : edit) : Prop :=
  match e with
  | Create id a => m !! id = None ∧ ∀ id', m !! id' ≠ Some a
  | Put id a => ∀ id', m !! id' ≠ Some a
  | Del id => True
  end.

Record history_ok (es : list edit) (σ : cow) : Prop := {
  ho_ok : cow_ok σ;
  ho_map : cow_map σ = replay es;
  ho_fits : ∀ before e after, es = before ++ e :: after → edit_fits (replay before) e;
  ho_got : ∀ i id a, cow_threads σ !! i = Some (Got id a) ∨ cow_threads σ !! i = Some (Unlock (Some (id, a))) → was_stored es id a
}.

Lemma was_stored_now es id a : replay es !! id = Some a → was_stored es id a.
Proof. intros H. exists (length es). by rewrite take_ge. Qed.

Lemma was_stored_snoc es e id a : was_stored es id a → was_stored (es ++ [e]) id a.
Proof.
  intros [k Hk]. destruct (decide (k <= length es)).
  - exists k. by rewrite take_app_le.
  - exists (length es). rewrite take_app_le, take_ge by lia. by rewrite take_ge in Hk by lia.
Qed.

(** What a thread returns next. *)
Definition returns (m : arc_map) (p : cow_pc) : Prop :=
  match p with Got id a | Unlock (Some (id, a)) => m !! id = Some a | _ => True end.

(** A step other than a store: the map stays, and what is returned is in it or was returned before. *)
Lemma cow_step_returns σ σ' :
  cow_ok σ → cow_step σ σ' →
  (∃ i e s, cow_threads σ !! i = Some (Store e s) ∧ cow_map σ' = apply_edit e (cow_map σ) ∧ edit_fits (cow_map σ) e ∧
     cow_threads σ' = <[i := Unlock (stored e)]> (cow_threads σ)) ∨
  (cow_map σ' = cow_map σ ∧
   (∀ i e s, cow_threads σ !! i = Some (Store e s) → cow_threads σ' !! i = Some (Store e s)) ∧
   ∀ j q, cow_threads σ' !! j = Some q →
     cow_threads σ !! j = Some q ∨ returns (cow_map σ) q ∨ ∃ id a, q = Got id a ∧ cow_threads σ !! j = Some (Unlock (Some (id, a)))).
Proof.
  intros Hok Hs.
  assert (∀ i p q, cow_threads σ !! i = Some q → (∀ e s, q ≠ Store e s) →
    returns (cow_map σ) p ∨ (∃ id a, p = Got id a ∧ q = Unlock (Some (id, a))) →
    (∀ i' e s, cow_threads σ !! i' = Some (Store e s) → <[i := p]> (cow_threads σ) !! i' = Some (Store e s)) ∧
    ∀ j r, <[i := p]> (cow_threads σ) !! j = Some r →
      cow_threads σ !! j = Some r ∨ returns (cow_map σ) r ∨ ∃ id a, r = Got id a ∧ cow_threads σ !! j = Some (Unlock (Some (id, a)))) as Hmove.
  { intros i p q Hi Hq Hp. split.
    - intros i' e s Hi'. destruct (decide (i = i')) as [<-|]; [|by rewrite list_lookup_insert_ne]. rewrite Hi in Hi'. injection Hi' as ->. by destruct (Hq e s).
    - intros j r [[-> ->]|[_ Hr]]%lookup_insert_cases; [|by left]. right. destruct Hp as [?|(id & a & -> & ->)]; [by left|]. right. by exists id, a. }
  destruct Hs as [i p Hi Hp|i id a Hi|i id a Hi Ha|i id Hi Ha|i id p p' Hi Hl Hp|
    i id a Hi Ha|i id Hi Ha|i id Hi|i id Hi|i e s Hi|i res Hi];
    try (right; split; [done|]; cbn [cow_set cow_threads]; eapply Hmove; [exact Hi|done|]; left; done).
  - right. split; [done|]. eapply Hmove; [exact Hi|done|]. left. by destruct Hp as [id [-> | [-> | ->]]].
  - right. split; [done|]. eapply Hmove; [exact Hi| |]; set_unfold in Hp; [|left]; naive_solver.
  - left. destruct (cow_ok_store σ i e s Hok Hi) as [-> _]. exists i, e, (cow_map σ). split_and!; [done..| |done].
    pose proof (ok_pcs σ Hok _ _ Hi) as Hp. destruct e; cbn in Hp |- *; [|tauto|done]. split; tauto.
  - right. split; [done|]. eapply Hmove; [exact Hi|done|]. destruct res as [[id a]|]; [right; by exists id, a|by left].
Qed.

Lemma cow_hstep_ok es σ es' σ' : cow_hstep (es, σ) (es', σ') → history_ok es σ → history_ok es' σ'.
Proof.
  intros Hh [Hok Hm Hf Hg].
  assert (cow_step σ σ') as Hs by (by inversion Hh). pose proof (cow_step_ok σ σ' Hok Hs) as Hok'.
  destruct (cow_step_returns σ σ' Hok Hs) as [(i & e & s & Hi & Hmap & Hfit & Hts)|(Hmap & Hkeep & Hret)].
  - assert (cow_threads σ' !! i = Some (Unlock (stored e))) as Hi' by (rewrite Hts; apply list_lookup_insert_eq; by eapply lookup_lt_Some).
    assert (es' = es ++ [e]) as ->.
    { inversion Hh as [es0 σ0 σ0' j e' s' _ Hj Hj'|es0 σ0 σ0' _ Hkeep]; subst.
      - destruct (decide (i = j)) as [<-|Hne]; [by rewrite Hi in Hj; injection Hj as ->|].
        rewrite Hts, list_lookup_insert_ne, Hj in Hj' by done. done.
      - rewrite (Hkeep _ _ _ Hi) in Hi'. done. }
    split; [done|by rewrite replay_snoc, Hmap, Hm| |].
    + intros before x after E. destruct after as [|y after _] using rev_ind.
      * apply app_inj_tail in E as [<- <-]. by rewrite <- Hm.
      * rewrite app_comm_cons, app_assoc in E. apply app_inj_tail in E as [-> _]. by eapply Hf.
    + intros j id a Hj. destruct (decide (i = j)) as [<-|Hne].
      * rewrite Hi' in Hj. destruct Hj as [|[= He]]; [done|]. apply was_stored_now. rewrite replay_snoc.
        destruct e; cbn in He; [|done|done]. injection He as <- <-. apply lookup_insert_eq.
      * rewrite Hts, list_lookup_insert_ne in Hj by done. by eapply was_stored_snoc, Hg.
  - assert (es' = es) as ->.
    { inversion Hh as [es0 σ0 σ0' j e' s' _ Hj Hj'|]; subst; [|done]. rewrite (Hkeep _ _ _ Hj) in Hj'. done. }
    split; [done|congruence|done|]. intros j id a Hj. destruct Hj as [Hj|Hj].
    + destruct (Hret _ _ Hj) as [?|[Hr|(id' & a' & [= <- <-] & ?)]]; [eauto| |eauto]. apply was_stored_now. by rewrite <- Hm.
    + destruct (Hret _ _ Hj) as [?|[Hr|(id' & a' & [=] & _)]]; [eauto|]. apply was_stored_now. by rewrite <- Hm.
Qed.

(** Every run has its history. *)
Lemma cow_step_history σ σ' es : cow_ok σ → cow_step σ σ' → ∃ es', cow_hstep (es, σ) (es', σ').
Proof.
  intros Hok Hs. destruct (cow_step_returns σ σ' Hok Hs) as [(i & e & s & Hi & _ & _ & Hts)|(_ & Hkeep & _)].
  - exists (es ++ [e]). eapply hstep_store; [done|exact Hi|]. rewrite Hts. apply list_lookup_insert_eq. by eapply lookup_lt_Some.
  - exists es. by apply hstep_other.
Qed.

Lemma history_run_ok s s' : rtc cow_hstep s s' → history_ok s.1 s.2 → history_ok s'.1 s'.2.
Proof. induction 1 as [|[es σ] [es' σ'] s3 Hs _ IH]; [done|]. intros Hok. apply IH. by eapply cow_hstep_ok. Qed.

Lemma history_initial n : history_ok [] (cow_initial n).
Proof.
  split; [apply cow_initial_ok|done|by intros [|]|]. by intros i id a [H|H]; apply lookup_replicate in H as [? _].
Qed.

(** C18: no update is lost.  In every run of any number of threads that get, configure and
remove entries, at most one thread is between the acquisition and the release of the
mutex; the map is what the edits make that were stored, one after the other in the order
of their stores; an edit is stored into a map of which no entry has its handle, and the
creation of an entry by [get_breaker] into one without an entry of its key, so that of
the threads that race to create an entry exactly one does; and the handle that
[get_breaker] returns was the entry of its key in the map at some time.  Every run has
such a history. *)
Theorem cow_updates_not_lost n es σ :
  rtc cow_hstep ([], cow_initial n) (es, σ) →
  (∀ i j p q, cow_threads σ !! i = Some p → cow_threads σ !! j = Some q → holds p = true → holds q = true → i = j) ∧
  cow_map σ = replay es ∧
  (∀ before e after, es = before ++ e :: after → edit_fits (replay before) e) ∧
  (∀ id id' a, cow_map σ !! id = Some a → cow_map σ !! id' = Some a → id = id') ∧
  (∀ i id a, cow_threads σ !! i = Some (Got id a) → was_stored es id a) ∧
  (∀ σ', cow_step σ σ' → ∃ es', cow_hstep (es, σ) (es', σ')).
Proof.
  intros Hr. pose proof (history_run_ok _ _ Hr (history_initial n)) as [Hok Hm Hf Hg]. cbn [fst snd] in *. split_and!; eauto using cow_step_history.
  - intros i j p q Hi Hj Hp Hq. pose proof (ok_mutex σ Hok _ _ Hi Hp). pose proof (ok_mutex σ Hok _ _ Hj Hq). congruence.
  - apply (ok_distinct σ Hok).
Qed.

(** Two threads race for the breaker of one backend: the second finds the entry
of the first when it checks again under the mutex. *)
Definition raced : cow := mk_cow {["a" := 0]} (Some 1) 1 [Got "a" 0; Unlock (Some ("a", 0))].

Lemma racing_run : rtc cow_hstep ([], cow_initial 2) ([Create "a" 0], raced).
Proof.
  assert (∀ es σ σ' s, cow_step σ σ' → (∀ i e x, cow_threads σ !! i ≠ Some (Store e x)) → rtc cow_hstep (es, σ') s → rtc cow_hstep (es, σ) s) as Hother.
  { intros es σ σ' s Hs Hn Hr. eapply rtc_l; [|exact Hr]. apply hstep_other; [done|]. by intros i e x Hi%Hn. }
  assert (∀ (p q : cow_pc) i e x, (∀ e x, p ≠ Store e x) → (∀ e x, q ≠ Store e x) → [p; q] !! i ≠ Some (Store e x)) as Hno.
  { intros p q [|[|i]] e x Hp Hq; cbn; [intros [= ->]; by edestruct Hp|intros [= ->]; by edestruct Hq|done]. }
  eapply Hother; [by apply (cow_call _ 0 (GetFast "a")); [|exists "a"; left]|intros i e x; by apply Hno|].
  eapply Hother; [by apply (cow_call _ 1 (GetFast "a")); [|exists "a"; left]|intros i e x; by apply Hno|].
  eapply Hother; [by apply (cow_fast_miss _ 0 "a")|intros i e x; by apply Hno|].
  eapply Hother; [by apply (cow_fast_miss _ 1 "a")|intros i e x; by apply Hno|].
  eapply Hother; [by apply (cow_acquire _ 0 "a" (GetLock "a") (GetCheck "a")); [..|set_solver]|intros i e x; by apply Hno|].
  eapply Hother; [exact (cow_check_miss (mk_cow ∅ (Some 0) 0 [GetCheck "a"; GetLock "a"]) 0 "a" eq_refl eq_refl)|intros i e x; by apply Hno|].
  eapply rtc_l; [eapply (hstep_store _ _ _ 0); [by apply (cow_store _ 0 (Create "a" 0) ∅)|reflexivity|reflexivity]|].
  eapply Hother; [by apply (cow_unlock _ 0 (Some ("a", 0)))|intros i e x; by apply Hno|].
  eapply Hother; [by apply (cow_acquire _ 1 "a" (GetLock "a") (GetCheck "a")); [..|set_solver]|intros i e x; by apply Hno|].
  eapply Hother; [by apply (cow_check_hit _ 1 "a" 0)|intros i e x; by apply Hno|].
  apply rtc_refl.
Qed.

Lemma cow_updates_not_lost_witness :
  cow_map raced = replay [Create "a" 0] ∧ edit_fits ∅ (Create "a" 0) ∧ was_stored [Create "a" 0] "a" 0.
Proof.
  destruct (cow_updates_not_lost 2 [Create "a" 0] raced racing_run) as (_ & Hm & Hf & _ & Hg & _).
  split; [exact Hm|]. split; [by apply (Hf [] (Create "a" 0) [])|by apply (Hg 0)].
Defined.
