(* ===== verification/CircuitBreaker.v ===== *)
(** * CircuitBreaker: [control/src/proxy/circuit_breaker.rs]

The lock-free breaker packs its state into one 64-bit word and changes it by
compare-and-swap loops.  The file has three layers:
- the bit layout ([pack_state], [unpack_*]) and the methods run to completion
  without interference ([allow_request], [record_success], [record_failure]);
- the same methods as threads of atomic accesses ([tstep]), interleaved by
  [cb_step]: loads, clock reads, stores and weak compare-and-swap, which may
  also fail spuriously;
- an abstract breaker ([spec_step]) that the threads refine.
Instants and durations are nanoseconds in [Z]; accesses to the two atomic words
are sequentially consistent.  [CircuitBreakerManager] keeps one breaker per
backend identifier, with its Prometheus counters and gauges. *)

From S2P Require Import Prelude.

#[local] Open Scope Z_scope.

(** ** Bit layout *)
Definition STATE_SHIFT : Z := 62.
Definition STATE_MASK : Z := Z.shiftl 0x3 STATE_SHIFT.
Definition FAILURE_SHIFT : Z := 32.
Definition FAILURE_MASK : Z := Z.shiftl 0xFFFF FAILURE_SHIFT.
Definition SUCCESS_SHIFT : Z := 16.
Definition SUCCESS_MASK : Z := Z.shiftl 0xFFFF SUCCESS_SHIFT.
Definition HALFOPEN_MASK : Z := 0xFFFF.

Definition STATE_CLOSED : Z := 0.
Definition STATE_OPEN : Z := 1.
Definition STATE_HALFOPEN : Z := 2.

Inductive CircuitState : Type := Closed | Open | HalfOpen.

#[export] Instance CircuitState_eq_dec : EqDecision CircuitState.
Proof. solve_decision. Defined.

Definition state_to_str (s : CircuitState) : string :=
  match s with Closed => "Closed" | Open => "Open" | HalfOpen => "HalfOpen" end.

Definition pack_state (state failures successes half_open_reqs : Z) : Z :=
  Z.lor (Z.lor (Z.lor (wrap 64 (Z.shiftl state STATE_SHIFT))
                      (wrap 64 (Z.shiftl (Z.land failures 0xFFFF) FAILURE_SHIFT)))
               (wrap 64 (Z.shiftl (Z.land successes 0xFFFF) SUCCESS_SHIFT)))
        (Z.land half_open_reqs 0xFFFF).

Definition unpack_state_field (packed : Z) : Z :=
  Z.shiftr (Z.land packed STATE_MASK) STATE_SHIFT.
Definition unpack_failures (packed : Z) : Z :=
  Z.shiftr (Z.land packed FAILURE_MASK) FAILURE_SHIFT.
Definition unpack_successes (packed : Z) : Z :=
  Z.shiftr (Z.land packed SUCCESS_MASK) SUCCESS_SHIFT.
Definition unpack_half_open_reqs (packed : Z) : Z := Z.land packed HALFOPEN_MASK.

Definition state_from_u64 (val : Z) : CircuitState :=
  if val =? STATE_OPEN then Open
  else if val =? STATE_HALFOPEN then HalfOpen
  else Closed.

Definition state_to_u64 (s : CircuitState) : Z :=
  match s with Closed => STATE_CLOSED | Open => STATE_OPEN | HalfOpen => STATE_HALFOPEN end.

(** ** The breaker *)
Record CircuitBreaker : Type := mk_breaker {
  packed : Z;
  last_failure_us : Z;
  created_at : Z;
  failure_threshold : Z;
  timeout : Z;
  half_open_max_requests : Z
}.

Definition set_packed (cb : CircuitBreaker) (p : Z) : CircuitBreaker :=
  mk_breaker p (last_failure_us cb) (created_at cb) (failure_threshold cb) (timeout cb)
    (half_open_max_requests cb).

Definition set_last_failure_us (cb : CircuitBreaker) (us : Z) : CircuitBreaker :=
  mk_breaker (packed cb) us (created_at cb) (failure_threshold cb) (timeout cb)
    (half_open_max_requests cb).

(** [CircuitBreaker::new], at the instant [now]. *)
Definition new (failure_threshold timeout now : Z) : CircuitBreaker :=
  mk_breaker (pack_state STATE_CLOSED 0 0 0) 0 now failure_threshold timeout 3.

(** [created_at.elapsed()] at [now]: a duration, saturating at zero. *)
Definition elapsed (cb : CircuitBreaker) (now : Z) : Z := Z.max 0 (now - created_at cb).

(** [should_attempt_reset] after its load of [last_failure_us]. *)
Definition should_attempt_reset (cb : CircuitBreaker) (last_failure_us now : Z) : bool :=
  if last_failure_us =? 0 then false
  else
    let last_failure_duration := (last_failure_us - 1) * 1000 in
    let elapsed_since_creation := elapsed cb now in
    if last_failure_duration <? elapsed_since_creation
    then timeout cb <=? elapsed_since_creation - last_failure_duration
    else false.

(** One iteration of a loop, from the word it loaded: return, or try a swap. *)
Inductive attempt (R : Type) : Type :=
| Return (r : R)
| Swap (new : Z) (r : R).
Arguments Return {R} r.
Arguments Swap {R} new r.

Definition allow_body (cb : CircuitBreaker) (last_failure_us now current : Z) : attempt bool :=
  let state := unpack_state_field current in
  if state =? STATE_CLOSED then Return true
  else if state =? STATE_OPEN then
    if should_attempt_reset cb last_failure_us now
    then Swap (pack_state STATE_HALFOPEN 0 0 1) true
    else Return false
  else if state =? STATE_HALFOPEN then
    let half_open_reqs := unpack_half_open_reqs current in
    if half_open_reqs <? half_open_max_requests cb then
      let failures := unpack_failures current in
      let successes := unpack_successes current in
      Swap (pack_state STATE_HALFOPEN failures successes (half_open_reqs + 1)) true
    else Return false
  else Return false.

(** The flag of a swap says whether [last_failure_us] is cleared afterwards. *)
Definition success_body (cb : CircuitBreaker) (current : Z) : attempt bool :=
  let state := unpack_state_field current in
  if state =? STATE_CLOSED then Swap (pack_state STATE_CLOSED 0 0 0) false
  else if state =? STATE_HALFOPEN then
    let successes := unpack_successes current + 1 in
    let half_open_reqs := unpack_half_open_reqs current in
    if half_open_max_requests cb <=? successes
    then Swap (pack_state STATE_CLOSED 0 0 0) true
    else
      let failures := unpack_failures current in
      Swap (pack_state STATE_HALFOPEN failures successes half_open_reqs) false
  else Return false.

Definition failure_body (cb : CircuitBreaker) (current : Z) : attempt unit :=
  let state := unpack_state_field current in
  if state =? STATE_CLOSED then
    let failures := unpack_failures current + 1 in
    if failure_threshold cb <=? failures
    then Swap (pack_state STATE_OPEN failures 0 0) tt
    else Swap (pack_state STATE_CLOSED failures 0 0) tt
  else if state =? STATE_HALFOPEN then Swap (pack_state STATE_OPEN 0 0 0) tt
  else Return tt.

(** [created_at.elapsed().as_micros() as u64 + 1] *)
Definition failure_stamp (cb : CircuitBreaker) (now : Z) : Z :=
  wrap 64 (wrap 64 (elapsed cb now / 1000) + 1).

(** ** The methods without interference *)
Definition allow_request (cb : CircuitBreaker) (now : Z) : bool * CircuitBreaker :=
  match allow_body cb (last_failure_us cb) now (packed cb) with
  | Return r => (r, cb)
  | Swap new r => (r, set_packed cb new)
  end.

Definition record_success (cb : CircuitBreaker) : CircuitBreaker :=
  match success_body cb (packed cb) with
  | Return _ => cb
  | Swap new clear =>
      let cb := set_packed cb new in
      if clear then set_last_failure_us cb 0 else cb
  end.

Definition record_failure (cb : CircuitBreaker) (now : Z) : CircuitBreaker :=
  let cb := set_last_failure_us cb (failure_stamp cb now) in
  match failure_body cb (packed cb) with
  | Return _ => cb
  | Swap new _ => set_packed cb new
  end.

Definition state (cb : CircuitBreaker) : CircuitState :=
  state_from_u64 (unpack_state_field (packed cb)).

Definition failure_count (cb : CircuitBreaker) : Z := wrap 32 (unpack_failures (packed cb)).

(** ** The methods as threads of atomic accesses *)
Inductive pc : Type :=
| Idle                                   (* between calls *)
| AllowLoad                              (* loop head: load [packed] *)
| AllowStamp (current : Z)               (* load [last_failure_us] *)
| AllowClock (current stamp : Z)         (* read the clock *)
| AllowSwap (current new : Z)            (* compare_exchange_weak *)
| SuccessLoad
| SuccessSwap (current new : Z) (clear : bool)
| SuccessClear                           (* store 0 to [last_failure_us] *)
| FailureClock
| FailureStore (stamp : Z)               (* store to [last_failure_us] *)
| FailureLoad
| FailureSwap (current new : Z)
| AllowDone (r : bool).

#[export] Instance pc_eq_dec : EqDecision pc.
Proof. solve_decision. Defined.

(** What an iteration does next with its attempt. *)
Definition allow_next (current : Z) (a : attempt bool) : pc :=
  match a with Return r => AllowDone r | Swap new _ => AllowSwap current new end.
Definition success_next (current : Z) (a : attempt bool) : pc :=
  match a with Return _ => Idle | Swap new clear => SuccessSwap current new clear end.
Definition failure_next (current : Z) (a : attempt unit) : pc :=
  match a with Return _ => Idle | Swap new _ => FailureSwap current new end.

(** One atomic access of a thread at the instant [now]. *)
Inductive tstep (now : Z) (cb : CircuitBreaker) : pc → CircuitBreaker → pc → Prop :=
| t_allow_load_open :
    unpack_state_field (packed cb) = STATE_OPEN →
    tstep now cb AllowLoad cb (AllowStamp (packed cb))
| t_allow_load :
    unpack_state_field (packed cb) ≠ STATE_OPEN →
    tstep now cb AllowLoad cb (allow_next (packed cb) (allow_body cb 0 now (packed cb)))
| t_allow_stamp current :
    tstep now cb (AllowStamp current) cb (AllowClock current (last_failure_us cb))
| t_allow_clock current stamp :
    tstep now cb (AllowClock current stamp) cb
      (allow_next current (allow_body cb stamp now current))
| t_allow_swap_ok current new :
    packed cb = current →
    tstep now cb (AllowSwap current new) (set_packed cb new) (AllowDone true)
| t_allow_swap_fail current new :
    tstep now cb (AllowSwap current new) cb AllowLoad
| t_success_load :
    tstep now cb SuccessLoad cb (success_next (packed cb) (success_body cb (packed cb)))
| t_success_swap_ok current new clear :
    packed cb = current →
    tstep now cb (SuccessSwap current new clear) (set_packed cb new)
      (if clear : bool then SuccessClear else Idle)
| t_success_swap_fail current new clear :
    tstep now cb (SuccessSwap current new clear) cb SuccessLoad
| t_success_clear :
    tstep now cb SuccessClear (set_last_failure_us cb 0) Idle
| t_failure_clock :
    tstep now cb FailureClock cb (FailureStore (failure_stamp cb now))
| t_failure_store stamp :
    tstep now cb (FailureStore stamp) (set_last_failure_us cb stamp) FailureLoad
| t_failure_load :
    tstep now cb FailureLoad cb (failure_next (packed cb) (failure_body cb (packed cb)))
| t_failure_swap_ok current new :
    packed cb = current →
    tstep now cb (FailureSwap current new) (set_packed cb new) Idle
| t_failure_swap_fail current new :
    tstep now cb (FailureSwap current new) cb FailureLoad.

(** A system of threads over one breaker; time moves forward at will, an idle
thread may call any method, and a finished [allow_request] returns. *)
Record system : Type := mk_system { clock : Z; breaker : CircuitBreaker; threads : list pc }.

Inductive cb_step : system → system → Prop :=
| step_thread now cb ts i p cb' p' :
    ts !! i = Some p → tstep now cb p cb' p' →
    cb_step (mk_system now cb ts) (mk_system now cb' (<[i := p']> ts))
| step_call now cb ts i p :
    ts !! i = Some Idle → p ∈ [AllowLoad; SuccessLoad; FailureClock] →
    cb_step (mk_system now cb ts) (mk_system now cb (<[i := p]> ts))
| step_return now cb ts i r :
    ts !! i = Some (AllowDone r) →
    cb_step (mk_system now cb ts) (mk_system now cb (<[i := Idle]> ts))
| step_clock now now' cb ts :
    now <= now' → cb_step (mk_system now cb ts) (mk_system now' cb ts).

(** ** The abstract breaker *)
Inductive view : Type :=
| VClosed (failures : Z)
| VOpen (failures : Z)
| VHalfOpen (successes requests : Z).

Definition encode (v : view) : Z :=
  match v with
  | VClosed f => pack_state STATE_CLOSED f 0 0
  | VOpen f => pack_state STATE_OPEN f 0 0
  | VHalfOpen s r => pack_state STATE_HALFOPEN 0 s r
  end.

Definition decode (p : Z) : view :=
  match state_from_u64 (unpack_state_field p) with
  | Closed => VClosed (unpack_failures p)
  | Open => VOpen (unpack_failures p)
  | HalfOpen => VHalfOpen (unpack_successes p) (unpack_half_open_reqs p)
  end.

(** The counters a breaker with [threshold] and [max] may hold. *)
Definition view_ok (threshold max : Z) (v : view) : Prop :=
  match v with
  | VClosed f => 0 <= f < 2 ^ 16 ∧ f < Z.max threshold 1
  | VOpen f => 0 <= f < 2 ^ 16
  | VHalfOpen s r => 0 <= s < max ∧ 1 <= r <= max
  end.

Inductive event : Type := Probe | Admit | Success | Failure.

Inductive spec_step (threshold max : Z) : view → event → view → Prop :=
| spec_closed_success f : spec_step threshold max (VClosed f) Success (VClosed 0)
| spec_closed_failure f :
    f + 1 < threshold → spec_step threshold max (VClosed f) Failure (VClosed (f + 1))
| spec_trip f :
    threshold <= f + 1 → spec_step threshold max (VClosed f) Failure (VOpen (wrap 16 (f + 1)))
| spec_probe f : spec_step threshold max (VOpen f) Probe (VHalfOpen 0 1)
| spec_admit s r :
    r < max → spec_step threshold max (VHalfOpen s r) Admit (VHalfOpen s (r + 1))
| spec_half_open_success s r :
    s + 1 < max → spec_step threshold max (VHalfOpen s r) Success (VHalfOpen (s + 1) r)
| spec_close s r :
    max <= s + 1 → spec_step threshold max (VHalfOpen s r) Success (VClosed 0)
| spec_reopen s r : spec_step threshold max (VHalfOpen s r) Failure (VOpen 0).

(** A configuration the packed counters can represent. *)
Definition config_ok (cb : CircuitBreaker) : Prop :=
  0 <= failure_threshold cb <= 2 ^ 16 ∧ 1 <= half_open_max_requests cb < 2 ^ 16.

(** The breaker's word is the encoding of an admissible view. *)
Definition breaker_ok (cb : CircuitBreaker) : Prop :=
  ∃ v, packed cb = encode v ∧ view_ok (failure_threshold cb) (half_open_max_requests cb) v.

(** ** The layout *)
Lemma pack_state_eq st f s h :
  0 <= st < 4 →
  pack_state st f s h = st * 2 ^ 62 + wrap 16 f * 2 ^ 32 + wrap 16 s * 2 ^ 16 + wrap 16 h.
Proof.
  intros Hst. unfold pack_state, STATE_SHIFT, FAILURE_SHIFT, SUCCESS_SHIFT.
  change 0xFFFF with (Z.ones 16). rewrite !land_ones_wrap by lia.
  pose proof (wrap_range 16 f ltac:(lia)) as Hf. pose proof (wrap_range 16 s ltac:(lia)) as Hs.
  pose proof (wrap_range 16 h ltac:(lia)) as Hh. unfold in_width in *.
  generalize dependent (wrap 16 f). generalize dependent (wrap 16 s).
  generalize dependent (wrap 16 h). intros h' Hh s' Hs f' Hf.
  rewrite !(wrap_small 64) by (unfold in_width; rewrite Z.shiftl_mul_pow2 by lia; lia).
  rewrite (Z.shiftl_mul_pow2 f'), (Z.shiftl_mul_pow2 s') by lia.
  rewrite lor_disjoint by (unfold in_width; lia).
  replace (st * 2 ^ 62 + f' * 2 ^ 32) with (Z.shiftl (st * 2 ^ 30 + f') 32)
    by (rewrite Z.shiftl_mul_pow2; lia).
  rewrite lor_disjoint by (unfold in_width; lia).
  replace ((st * 2 ^ 30 + f') * 2 ^ 32 + s' * 2 ^ 16)
    with (Z.shiftl (st * 2 ^ 46 + f' * 2 ^ 16 + s') 16) by (rewrite Z.shiftl_mul_pow2; lia).
  rewrite lor_disjoint by (unfold in_width; lia). rewrite ?Z.shiftl_mul_pow2 by lia. lia.
Qed.

Lemma unpack_pack st f s h :
  0 <= st < 4 →
  unpack_state_field (pack_state st f s h) = st ∧
  unpack_failures (pack_state st f s h) = wrap 16 f ∧
  unpack_successes (pack_state st f s h) = wrap 16 s ∧
  unpack_half_open_reqs (pack_state st f s h) = wrap 16 h.
Proof.
  intros Hst. rewrite pack_state_eq by done.
  pose proof (wrap_range 16 f ltac:(lia)) as Hf. pose proof (wrap_range 16 s ltac:(lia)) as Hs.
  pose proof (wrap_range 16 h ltac:(lia)) as Hh. unfold in_width in *.
  generalize dependent (wrap 16 f). generalize dependent (wrap 16 s).
  generalize dependent (wrap 16 h). intros h' Hh s' Hs f' Hf.
  unfold unpack_state_field, unpack_failures, unpack_successes, unpack_half_open_reqs.
  change STATE_MASK with (Z.shiftl (Z.ones 2) 62). change FAILURE_MASK with (Z.shiftl (Z.ones 16) 32).
  change SUCCESS_MASK with (Z.shiftl (Z.ones 16) 16). change HALFOPEN_MASK with (Z.ones 16).
  unfold STATE_SHIFT, FAILURE_SHIFT, SUCCESS_SHIFT.
  rewrite !field_read, Z.land_ones by lia.
  Z.div_mod_to_equations. lia.
Qed.

Lemma unpack_state_pack st f s h :
  0 <= st < 4 → unpack_state_field (pack_state st f s h) = st.
Proof. intros H. exact (proj1 (unpack_pack st f s h H)). Qed.
Lemma unpack_failures_pack st f s h :
  0 <= st < 4 → unpack_failures (pack_state st f s h) = wrap 16 f.
Proof. intros H. exact (proj1 (proj2 (unpack_pack st f s h H))). Qed.
Lemma unpack_successes_pack st f s h :
  0 <= st < 4 → unpack_successes (pack_state st f s h) = wrap 16 s.
Proof. intros H. exact (proj1 (proj2 (proj2 (unpack_pack st f s h H)))). Qed.
Lemma unpack_half_open_pack st f s h :
  0 <= st < 4 → unpack_half_open_reqs (pack_state st f s h) = wrap 16 h.
Proof. intros H. exact (proj2 (proj2 (proj2 (unpack_pack st f s h H)))). Qed.

Create Rewrite HintDb layout.
#[export] Hint Rewrite unpack_state_pack unpack_failures_pack unpack_successes_pack
  unpack_half_open_pack using (vm_compute; split; [discriminate|reflexivity]) : layout.

(** ** The three loop bodies on an encoded view *)
Section bodies.
Context (cb : CircuitBreaker) (Hcfg : config_ok cb).
Abbreviation threshold := (failure_threshold cb).
Abbreviation max := (half_open_max_requests cb).

Lemma decode_encode v : view_ok threshold max v → decode (encode v) = v.
Proof.
  destruct Hcfg as [_ Hmax]. destruct v; cbn [encode view_ok]; unfold decode;
    intros; autorewrite with layout; cbn; rewrite !wrap_small by (unfold in_width; lia); done.
Qed.

Lemma encode_state v :
  unpack_state_field (encode v) =
    match v with VClosed _ => STATE_CLOSED | VOpen _ => STATE_OPEN | VHalfOpen _ _ => STATE_HALFOPEN end.
Proof. destruct v; cbn [encode]; by autorewrite with layout. Qed.

Lemma allow_body_encode v stamp now :
  view_ok threshold max v →
  allow_body cb stamp now (encode v) =
    match v with
    | VClosed _ => Return true
    | VOpen _ =>
        if should_attempt_reset cb stamp now then Swap (encode (VHalfOpen 0 1)) true else Return false
    | VHalfOpen s r =>
        if r <? max then Swap (encode (VHalfOpen s (r + 1))) true else Return false
    end.
Proof.
  destruct Hcfg as [_ Hmax]. intros Hv. unfold allow_body. rewrite encode_state.
  destruct v as [f|f|s r]; cbn; try done. cbn [view_ok] in Hv.
  autorewrite with layout. by rewrite !wrap_small by (unfold in_width; lia).
Qed.

Lemma success_body_encode v :
  view_ok threshold max v →
  success_body cb (encode v) =
    match v with
    | VClosed _ => Swap (encode (VClosed 0)) false
    | VOpen _ => Return false
    | VHalfOpen s r =>
        if max <=? s + 1 then Swap (encode (VClosed 0)) true
        else Swap (encode (VHalfOpen (s + 1) r)) false
    end.
Proof.
  destruct Hcfg as [_ Hmax]. intros Hv. unfold success_body. rewrite encode_state.
  destruct v as [f|f|s r]; cbn; try done. cbn [view_ok] in Hv.
  autorewrite with layout. by rewrite !wrap_small by (unfold in_width; lia).
Qed.

Lemma encode_open_wrap f : pack_state STATE_OPEN f 0 0 = encode (VOpen (wrap 16 f)).
Proof.
  cbn [encode]. rewrite !pack_state_eq by (vm_compute; split; [discriminate|reflexivity]).
  by rewrite wrap_idemp.
Qed.

Lemma failure_body_encode v :
  view_ok threshold max v →
  failure_body cb (encode v) =
    match v with
    | VClosed f =>
        if threshold <=? f + 1 then Swap (encode (VOpen (wrap 16 (f + 1)))) tt
        else Swap (encode (VClosed (f + 1))) tt
    | VOpen _ => Return tt
    | VHalfOpen s r => Swap (encode (VOpen 0)) tt
    end.
Proof.
  intros Hv. unfold failure_body. rewrite encode_state.
  destruct v as [f|f|s r]; cbn -[encode]; try done. cbn [view_ok] in Hv.
  cbn [encode]. autorewrite with layout. rewrite wrap_small by (unfold in_width; lia).
  by rewrite (encode_open_wrap (f + 1)).
Qed.

#[local] Opaque encode pack_state.

(** A thread's pending swap is an abstract step from the word it loaded. *)
Definition pending_ok (p : pc) : Prop :=
  match p with
  | AllowSwap current new =>
      ∀ v, view_ok threshold max v → current = encode v →
      ∃ v', new = encode v' ∧ (spec_step threshold max v Probe v' ∨ spec_step threshold max v Admit v')
  | SuccessSwap current new _ =>
      ∀ v, view_ok threshold max v → current = encode v →
      ∃ v', new = encode v' ∧ spec_step threshold max v Success v'
  | FailureSwap current new =>
      ∀ v, view_ok threshold max v → current = encode v →
      ∃ v', new = encode v' ∧ spec_step threshold max v Failure v'
  | _ => True
  end.

Lemma allow_next_pending current stamp now :
  pending_ok (allow_next current (allow_body cb stamp now current)).
Proof.
  unfold allow_next. destruct (allow_body cb stamp now current) eqn:E; [done|].
  intros v Hv ->. rewrite (allow_body_encode v) in E by done.
  destruct v; try done; case_if; simplify_eq; zbool; eexists; (split; [reflexivity|]);
    [left|right]; eauto using spec_step.
Qed.

Lemma success_next_pending current :
  pending_ok (success_next current (success_body cb current)).
Proof.
  unfold success_next. destruct (success_body cb current) eqn:E; [done|].
  intros v Hv ->. rewrite (success_body_encode v) in E by done.
  destruct v; try done; try case_if; simplify_eq; zbool; eexists; (split; [reflexivity|]);
    eauto using spec_step.
Qed.

Lemma failure_next_pending current :
  pending_ok (failure_next current (failure_body cb current)).
Proof.
  unfold failure_next. destruct (failure_body cb current) eqn:E; [done|].
  intros v Hv ->. rewrite (failure_body_encode v) in E by done.
  destruct v; try done; try case_if; simplify_eq; zbool; eexists; (split; [reflexivity|]);
    eauto using spec_step.
Qed.

Lemma spec_step_view_ok v e v' :
  spec_step threshold max v e v' → view_ok threshold max v → view_ok threshold max v'.
Proof.
  destruct Hcfg as [Ht Hmax].
  destruct 1; cbn [view_ok]; try lia; intros; pose proof (wrap_range 16 (f + 1) ltac:(lia)) as Hr;
    unfold in_width in Hr; lia.
Qed.
End bodies.

(** ** The threads refine the abstract breaker *)

(** The method that a thread is in, and the method that an event belongs to. *)
Inductive method : Type := MAllow | MSuccess | MFailure.

Definition called_method (p : pc) : option method :=
  match p with
  | Idle => None
  | AllowLoad | AllowStamp _ | AllowClock _ _ | AllowSwap _ _ | AllowDone _ => Some MAllow
  | SuccessLoad | SuccessSwap _ _ _ | SuccessClear => Some MSuccess
  | FailureClock | FailureStore _ | FailureLoad | FailureSwap _ _ => Some MFailure
  end.

Definition event_method (e : event) : method :=
  match e with Probe | Admit => MAllow | Success => MSuccess | Failure => MFailure end.

(** A thread at [p] leaves the word, or takes an abstract step of its own method. *)
Definition step_refines (p : pc) (cb cb' : CircuitBreaker) : Prop :=
  packed cb' = packed cb ∨
  ∃ v e v', packed cb = encode v ∧ packed cb' = encode v' ∧ called_method p = Some (event_method e) ∧
    view_ok (failure_threshold cb) (half_open_max_requests cb) v ∧
    spec_step (failure_threshold cb) (half_open_max_requests cb) v e v'.

(** The fields a method never writes. *)
Definition same_config (cb cb' : CircuitBreaker) : Prop :=
  failure_threshold cb' = failure_threshold cb ∧
  half_open_max_requests cb' = half_open_max_requests cb ∧
  timeout cb' = timeout cb ∧ created_at cb' = created_at cb.

Lemma swap_ok p cb v v' e :
  config_ok cb → packed cb = encode v → called_method p = Some (event_method e) →
  view_ok (failure_threshold cb) (half_open_max_requests cb) v →
  spec_step (failure_threshold cb) (half_open_max_requests cb) v e v' →
  breaker_ok (set_packed cb (encode v')) ∧ step_refines p cb (set_packed cb (encode v')).
Proof.
  intros Hcfg Hp Hm Hv Hs. split.
  - exists v'. split; [done|]. by eapply (spec_step_view_ok cb).
  - right. exists v, e, v'. done.
Qed.

Lemma tstep_same_config now cb p cb' p' : tstep now cb p cb' p' → same_config cb cb'.
Proof. by destruct 1. Qed.

Lemma tstep_ok now cb p cb' p' :
  tstep now cb p cb' p' → config_ok cb → breaker_ok cb → pending_ok cb p →
  breaker_ok cb' ∧ pending_ok cb' p' ∧ step_refines p cb cb'.
Proof.
  intros Hstep Hcfg [v [Hp Hv]] Hpend.
  destruct Hstep; cbn [pending_ok] in Hpend |- *;
    try (split; [by exists v|]; split; [|by left];
         auto using allow_next_pending, success_next_pending, failure_next_pending; done).
  - subst. destruct (Hpend v Hv Hp) as (v' & -> & [Hs|Hs]).
    + by destruct (swap_ok (AllowSwap (packed cb) (encode v')) cb v v' Probe Hcfg Hp eq_refl Hv Hs).
    + by destruct (swap_ok (AllowSwap (packed cb) (encode v')) cb v v' Admit Hcfg Hp eq_refl Hv Hs).
  - subst. destruct (Hpend v Hv Hp) as (v' & -> & Hs).
    destruct (swap_ok (SuccessSwap (packed cb) (encode v') clear) cb v v' Success Hcfg Hp eq_refl Hv Hs). by destruct clear.
  - subst. destruct (Hpend v Hv Hp) as (v' & -> & Hs).
    by destruct (swap_ok (FailureSwap (packed cb) (encode v')) cb v v' Failure Hcfg Hp eq_refl Hv Hs).
Qed.

Record system_ok (σ : system) : Prop := {
  sys_config : config_ok (breaker σ);
  sys_breaker : breaker_ok (breaker σ);
  sys_threads : Forall (pending_ok (breaker σ)) (threads σ)
}.

Lemma pending_ok_same_config cb cb' p : same_config cb cb' → pending_ok cb p → pending_ok cb' p.
Proof. intros (E1 & E2 & _). destruct p; cbn [pending_ok]; by rewrite ?E1, ?E2. Qed.

(** A step of the system leaves the word, or some thread takes a step of its method. *)
Definition system_refines (σ σ' : system) : Prop :=
  packed (breaker σ') = packed (breaker σ) ∨
  ∃ i p, threads σ !! i = Some p ∧ step_refines p (breaker σ) (breaker σ').

Lemma cb_step_ok σ σ' :
  cb_step σ σ' → system_ok σ → system_ok σ' ∧ system_refines σ σ' ∧
  same_config (breaker σ) (breaker σ').
Proof.
  intros Hstep [Hcfg Hb Ht]. destruct Hstep; cbn in *.
  - assert (pending_ok cb p) as Hp by (eapply Forall_lookup in Ht; done).
    pose proof (tstep_same_config _ _ _ _ _ H0) as Hsame.
    destruct (tstep_ok _ _ _ _ _ H0 Hcfg Hb Hp) as (Hb' & Hp' & Href).
    split; [|split; [right; by exists i, p|done]]. split; cbn; [|done|].
    + destruct Hsame as (E1 & E2 & _). unfold config_ok. by rewrite E1, E2.
    + apply Forall_insert; [|done]. eapply Forall_impl; [done|]. intros q.
      by apply pending_ok_same_config.
  - split; [|by split; [left|]]. split; [done..|]. apply Forall_insert; [done|].
    set_unfold in H0. by destruct H0 as [->|[->|[->|[]]]].
  - split; [|by split; [left|]]. split; [done..|]. by apply Forall_insert.
  - split; [done|]. by split; [left|].
Qed.

Definition initial (threshold timeout now : Z) (n : nat) : system :=
  mk_system now (new threshold timeout now) (replicate n Idle).

Lemma initial_ok threshold timeout now n :
  0 <= threshold <= 2 ^ 16 → system_ok (initial threshold timeout now n).
Proof.
  intros Ht. split; cbn.
  - split; [done|]. cbn. lia.
  - exists (VClosed 0). split; [done|]. cbn. lia.
  - by apply Forall_replicate.
Qed.

Lemma reachable_ok σ0 σ :
  rtc cb_step σ0 σ → system_ok σ0 → system_ok σ ∧ same_config (breaker σ0) (breaker σ).
Proof.
  induction 1 as [σ|σ1 σ2 σ3 Hstep _ IH]; intros Hok; [done|].
  destruct (cb_step_ok _ _ Hstep Hok) as (Hok2 & _ & Hsame).
  destruct (IH Hok2) as [? Hsame']. split; [done|].
  destruct Hsame as (?&?&?&?), Hsame' as (?&?&?&?). repeat split; congruence.
Qed.

(** ** The methods, run alone, are the functions *)
Definition solo (now : Z) : relation (CircuitBreaker * pc) :=
  λ '(cb, p) '(cb', p'), tstep now cb p cb' p'.

(** What a lone [allow_request] has seen at each point, for its start [cb]. *)
Definition allow_trail (now : Z) (cb : CircuitBreaker) (s : CircuitBreaker * pc) : Prop :=
  let '(c, p) := s in
  match p with
  | AllowLoad => c = cb
  | AllowStamp current => c = cb ∧ current = packed cb
  | AllowClock current stamp => c = cb ∧ current = packed cb ∧ stamp = last_failure_us cb
  | AllowSwap current new => c = cb ∧ current = packed cb ∧ (true, set_packed cb new) = allow_request cb now
  | AllowDone r => (r, c) = allow_request cb now
  | _ => False
  end.

Definition success_trail (cb : CircuitBreaker) (s : CircuitBreaker * pc) : Prop :=
  let '(c, p) := s in
  match p with
  | SuccessLoad => c = cb
  | SuccessSwap current new clear =>
      c = cb ∧ current = packed cb ∧
      (if clear then set_last_failure_us (set_packed cb new) 0 else set_packed cb new) = record_success cb
  | SuccessClear => set_last_failure_us c 0 = record_success cb
  | Idle => c = record_success cb
  | _ => False
  end.

Definition failure_trail (now : Z) (cb : CircuitBreaker) (s : CircuitBreaker * pc) : Prop :=
  let '(c, p) := s in
  let cb1 := set_last_failure_us cb (failure_stamp cb now) in
  match p with
  | FailureClock => c = cb
  | FailureStore stamp => c = cb ∧ stamp = failure_stamp cb now
  | FailureLoad => c = cb1
  | FailureSwap current new => c = cb1 ∧ current = packed cb ∧ set_packed cb1 new = record_failure cb now
  | Idle => c = record_failure cb now
  | _ => False
  end.

Lemma allow_body_not_open cb stamp stamp' now now' current :
  unpack_state_field current ≠ STATE_OPEN →
  allow_body cb stamp now current = allow_body cb stamp' now' current.
Proof.
  intros H%Z.eqb_neq. unfold allow_body. by rewrite H.
Qed.

Lemma allow_body_swap_true cb stamp now current new r :
  allow_body cb stamp now current = Swap new r → r = true.
Proof. unfold allow_body. repeat case_if; congruence. Qed.

Lemma allow_trail_next now cb stamp :
  allow_body cb stamp now (packed cb) = allow_body cb (last_failure_us cb) now (packed cb) →
  allow_trail now cb (cb, allow_next (packed cb) (allow_body cb stamp now (packed cb))).
Proof.
  intros ->. unfold allow_next, allow_trail, allow_request.
  destruct (allow_body _ _ _ _) as [r|w r] eqn:E; [done|].
  apply allow_body_swap_true in E as ->. done.
Qed.

Lemma allow_trail_step now cb s s' : allow_trail now cb s → solo now s s' → allow_trail now cb s'.
Proof.
  destruct s as [c p], s' as [c' p']. intros Ht Hs. unfold solo in Hs.
  destruct Hs; cbn [allow_trail] in Ht; try contradiction; destruct_and?; subst.
  - by split.
  - apply allow_trail_next. by apply allow_body_not_open.
  - by split_and!.
  - by apply allow_trail_next.
  - assumption.
  - reflexivity.
Qed.

Lemma success_trail_step now cb s s' :
  success_trail cb s → solo now s s' → success_trail cb s'.
Proof.
  destruct s as [c p], s' as [c' p']. intros Ht Hs. unfold solo in Hs.
  destruct Hs; cbn [success_trail] in Ht; try contradiction; destruct_and?; subst.
  - unfold success_next, record_success.
    destruct (success_body cb (packed cb)) eqn:E; cbn; unfold record_success; rewrite E; auto.
  - destruct clear; assumption.
  - reflexivity.
  - assumption.
Qed.

Lemma failure_trail_step now cb s s' :
  failure_trail now cb s → solo now s s' → failure_trail now cb s'.
Proof.
  destruct s as [c p], s' as [c' p']. intros Ht Hs. unfold solo in Hs.
  destruct Hs; cbn [failure_trail] in Ht; try contradiction; destruct_and?; subst.
  - by split.
  - reflexivity.
  - unfold failure_next. destruct (failure_body _ _) eqn:E; cbn [failure_trail];
      unfold record_failure; rewrite E; auto.
  - assumption.
  - reflexivity.
Qed.

Lemma trail_rtc (T : CircuitBreaker * pc → Prop) now s s' :
  (∀ a b, T a → solo now a b → T b) → T s → rtc (solo now) s s' → T s'.
Proof. intros Hpres Hs. induction 1; eauto. Qed.

(** A run exists: the swap succeeds when nothing interferes. *)
Lemma solo_l now cb p cb' p' s :
  tstep now cb p cb' p' → rtc (solo now) (cb', p') s → rtc (solo now) (cb, p) s.
Proof. intros ??. by apply rtc_l with (cb', p'). Qed.

Lemma allow_run now cb :
  rtc (solo now) (cb, AllowLoad) ((allow_request cb now).2, AllowDone (allow_request cb now).1).
Proof.
  assert (∀ stamp, allow_body cb stamp now (packed cb) = allow_body cb (last_failure_us cb) now (packed cb) →
    rtc (solo now) (cb, allow_next (packed cb) (allow_body cb stamp now (packed cb)))
      ((allow_request cb now).2, AllowDone (allow_request cb now).1)) as Hnext.
  { intros stamp ->. unfold allow_request. destruct (allow_body _ _ _ _) as [r|w r] eqn:E; [done|].
    apply allow_body_swap_true in E as ->. eapply solo_l; [by apply t_allow_swap_ok|reflexivity]. }
  destruct (decide (unpack_state_field (packed cb) = STATE_OPEN)) as [Ho|Ho].
  - eapply solo_l; [by apply t_allow_load_open|]. eapply solo_l; [apply t_allow_stamp|].
    eapply solo_l; [apply t_allow_clock|]. by apply Hnext.
  - eapply solo_l; [by apply t_allow_load|]. apply Hnext. by apply allow_body_not_open.
Qed.

Lemma success_run now cb : rtc (solo now) (cb, SuccessLoad) (record_success cb, Idle).
Proof.
  eapply solo_l; [apply t_success_load|]. unfold success_next, record_success.
  destruct (success_body cb (packed cb)) as [r|w []]; [done| |].
  - eapply solo_l; [by apply t_success_swap_ok|]. eapply solo_l; [apply t_success_clear|reflexivity].
  - eapply solo_l; [by apply t_success_swap_ok|reflexivity].
Qed.

Lemma failure_run now cb : rtc (solo now) (cb, FailureClock) (record_failure cb now, Idle).
Proof.
  eapply solo_l; [apply t_failure_clock|]. eapply solo_l; [apply t_failure_store|].
  eapply solo_l; [apply t_failure_load|]. unfold failure_next, record_failure.
  destruct (failure_body _ _) as [r|w r]; [done|]. eapply solo_l; [by apply t_failure_swap_ok|reflexivity].
Qed.

Lemma solo_in_system now ts i s s' :
  rtc (solo now) s s' → (i < length ts)%nat →
  rtc cb_step (mk_system now s.1 (<[i := s.2]> ts)) (mk_system now s'.1 (<[i := s'.2]> ts)).
Proof.
  intros Hr Hi. induction Hr as [s|[cb p] [cb1 p1] s3 Hs _ IH]; [reflexivity|].
  eapply rtc_l; [|exact IH]. cbn [fst snd].
  rewrite <- (list_insert_insert_eq ts i p1 p).
  apply step_thread with p; [by apply list_lookup_insert_eq|done].
Qed.

(** A thread that is idle may run a whole method while the others wait. *)
Lemma system_call now cb cb' ts i p :
  ts !! i = Some Idle → p ∈ [AllowLoad; SuccessLoad; FailureClock] →
  rtc (solo now) (cb, p) (cb', Idle) →
  rtc cb_step (mk_system now cb ts) (mk_system now cb' ts).
Proof.
  intros Hi Hp Hr. eapply rtc_l; [by apply step_call|].
  rewrite <- (list_insert_id ts i Idle Hi) at 2.
  apply (solo_in_system now ts i (cb, p) (cb', Idle)); [done|by eapply lookup_lt_Some].
Qed.

Lemma system_failure now cb ts i :
  ts !! i = Some Idle → rtc cb_step (mk_system now cb ts) (mk_system now (record_failure cb now) ts).
Proof. intros Hi. apply (system_call now cb _ ts i FailureClock); [done|set_solver|apply failure_run]. Qed.

Lemma system_success now cb ts i :
  ts !! i = Some Idle → rtc cb_step (mk_system now cb ts) (mk_system now (record_success cb) ts).
Proof. intros Hi. apply (system_call now cb _ ts i SuccessLoad); [done|set_solver|apply success_run]. Qed.

Lemma system_allow now cb ts i :
  ts !! i = Some Idle →
  rtc cb_step (mk_system now cb ts) (mk_system now (allow_request cb now).2 ts).
Proof.
  intros Hi. eapply rtc_l; [by apply (step_call _ _ _ i AllowLoad); [|set_solver]|].
  assert (i < length ts)%nat as Hlt by (by eapply lookup_lt_Some).
  etrans; [exact (solo_in_system now ts i _ _ (allow_run now cb) Hlt)|].
  cbn [fst snd]. apply rtc_once. rewrite <- (list_insert_id ts i Idle Hi) at 2.
  rewrite <- (list_insert_insert_eq ts i Idle (AllowDone (allow_request cb now).1)).
  by eapply step_return, list_lookup_insert_eq.
Qed.

Definition failures_at (cb : CircuitBreaker) (times : list Z) : CircuitBreaker :=
  foldl record_failure cb times.

Lemma system_failures cb ts i now k :
  ts !! i = Some Idle →
  rtc cb_step (mk_system now cb ts) (mk_system now (failures_at cb (replicate k now)) ts).
Proof.
  intros Hi. revert cb. induction k as [|k IH]; intros cb; [reflexivity|].
  etrans; [by apply (system_failure now cb ts i)|]. apply IH.
Qed.

(** ** Sequences of calls *)
Lemma record_failure_view cb now v :
  config_ok cb → packed cb = encode v →
  view_ok (failure_threshold cb) (half_open_max_requests cb) v →
  packed (record_failure cb now) =
    encode match v with
           | VClosed f =>
               if failure_threshold cb <=? f + 1 then VOpen (wrap 16 (f + 1)) else VClosed (f + 1)
           | VOpen f => VOpen f
           | VHalfOpen _ _ => VOpen 0
           end ∧
  last_failure_us (record_failure cb now) = failure_stamp cb now ∧
  same_config cb (record_failure cb now).
Proof.
  intros Hcfg Hp Hv. unfold record_failure. cbn [packed set_last_failure_us].
  rewrite Hp, (failure_body_encode (set_last_failure_us cb (failure_stamp cb now)) v) by done.
  cbn [failure_threshold set_last_failure_us].
  destruct v; try case_if; cbn; split_and!; done.
Qed.

Lemma failures_at_closed cb times f :
  config_ok cb → 1 <= failure_threshold cb → packed cb = encode (VClosed f) → 0 <= f →
  f + Z.of_nat (length times) < failure_threshold cb →
  packed (failures_at cb times) = encode (VClosed (f + Z.of_nat (length times))) ∧
  same_config cb (failures_at cb times).
Proof.
  intros Hcfg Ht. revert cb f Hcfg Ht. induction times as [|t times IH]; intros cb f Hcfg Ht Hp Hf Hlen;
    cbn [length] in *.
  { cbn. replace (f + Z.of_nat 0) with f by lia. split; [done|by split_and!]. }
  destruct (record_failure_view cb t (VClosed f)) as (Hp' & _ & Hsame); [done..| |].
  { destruct Hcfg. cbn. lia. }
  destruct Hsame as (E1 & E2 & E3 & E4).
  destruct (_ <=? _) eqn:E in Hp'; zbool; [lia|].
  destruct (IH (record_failure cb t) (f + 1)) as [Hr (F1 & F2 & F3 & F4)].
  - unfold config_ok in *. by rewrite E1, E2.
  - by rewrite E1.
  - done.
  - lia.
  - rewrite E1. lia.
  - change (failures_at cb (t :: times)) with (failures_at (record_failure cb t) times).
    rewrite Hr. split; [f_equal; f_equal; lia|]. split_and!; congruence.
Qed.

Lemma failures_at_open cb times f :
  config_ok cb → packed cb = encode (VOpen f) → 0 <= f < 2 ^ 16 →
  packed (failures_at cb times) = encode (VOpen f).
Proof.
  revert cb. induction times as [|t times IH]; intros cb Hcfg Hp Hf; [done|].
  destruct (record_failure_view cb t (VOpen f)) as (Hp' & _ & E1 & E2 & _); [done..|].
  apply (IH (record_failure cb t)); [|done..]. unfold config_ok in *. by rewrite E1, E2.
Qed.

Lemma state_encode cb v :
  packed cb = encode v →
  state cb = match v with VClosed _ => Closed | VOpen _ => Open | VHalfOpen _ _ => HalfOpen end.
Proof. intros Hp. unfold state. rewrite Hp, encode_state. by destruct v. Qed.

Lemma new_view threshold timeout now : packed (new threshold timeout now) = encode (VClosed 0).
Proof. done. Qed.

Lemma new_config_ok threshold timeout now :
  0 <= threshold <= 2 ^ 16 → config_ok (new threshold timeout now).
Proof. intros ?. split; [done|]. cbn. lia. Qed.

(** ** Theorems on one breaker *)

(** *** The instants of failures

A run with the instants at which [record_failure] read the clock. *)
Inductive timed_step : list Z * system → list Z * system → Prop :=
| timed_failure fs σ σ' i stamp :
    cb_step σ σ' → threads σ !! i = Some FailureClock → threads σ' !! i = Some (FailureStore stamp) →
    timed_step (fs, σ) (clock σ :: fs, σ')
| timed_other fs σ σ' :
    cb_step σ σ' → (∀ i, threads σ !! i = Some FailureClock → threads σ' !! i = Some FailureClock) →
    timed_step (fs, σ) (fs, σ').

(** A stamp of one of the failures. *)
Definition stamp_of (cb : CircuitBreaker) (fs : list Z) (stamp : Z) : Prop := ∃ t, t ∈ fs ∧ stamp = failure_stamp cb t.

(** What the threads of a run have seen. *)
Definition seen_ok (cb : CircuitBreaker) (fs : list Z) (now : Z) (p : pc) : Prop :=
  match p with
  | AllowStamp current => unpack_state_field current = STATE_OPEN
  | AllowClock current stamp => unpack_state_field current = STATE_OPEN ∧ (stamp = 0 ∨ stamp_of cb fs stamp)
  | AllowSwap current _ =>
      unpack_state_field current = STATE_OPEN →
      ∃ stamp read, read <= now ∧ stamp_of cb fs stamp ∧ should_attempt_reset cb stamp read = true
  | FailureStore stamp => stamp_of cb fs stamp
  | _ => True
  end.

Record timed_ok (fs : list Z) (σ : system) : Prop := {
  ti_instants : Forall (λ t, created_at (breaker σ) <= t <= clock σ) fs;
  ti_created : created_at (breaker σ) <= clock σ;
  ti_stamp : last_failure_us (breaker σ) = 0 ∨ stamp_of (breaker σ) fs (last_failure_us (breaker σ));
  ti_threads : Forall (seen_ok (breaker σ) fs (clock σ)) (threads σ)
}.

Lemma stamp_of_mono cb cb' fs fs' stamp :
  same_config cb cb' → (∀ t, t ∈ fs → t ∈ fs') → stamp_of cb fs stamp → stamp_of cb' fs' stamp.
Proof.
  intros (_ & _ & _ & E) Hsub (t & Ht & ->). exists t. split; [by apply Hsub|]. unfold failure_stamp, elapsed. by rewrite E.
Qed.

Lemma seen_ok_mono cb cb' fs fs' now now' p :
  same_config cb cb' → (∀ t, t ∈ fs → t ∈ fs') → now <= now' → seen_ok cb fs now p → seen_ok cb' fs' now' p.
Proof.
  intros Hsame Hsub Hle. pose proof (λ s, stamp_of_mono cb cb' fs fs' s Hsame Hsub) as Hm.
  destruct p; cbn [seen_ok]; try done; [naive_solver| |auto].
  intros Hs Ho. destruct (Hs Ho) as (stamp & read & ? & ? & Hr). exists stamp, read. split_and!; [lia|auto|].
  destruct Hsame as (_ & _ & E1 & E2). unfold should_attempt_reset, elapsed in *. by rewrite E1, E2.
Qed.

(** The next state of a thread that has just looked at the word and the time. *)
Lemma allow_next_seen cb fs now stamp current :
  unpack_state_field current = STATE_OPEN ∧ (stamp = 0 ∨ stamp_of cb fs stamp) ∨ unpack_state_field current ≠ STATE_OPEN →
  seen_ok cb fs now (allow_next current (allow_body cb stamp now current)).
Proof.
  intros Hc. unfold allow_next. destruct (allow_body cb stamp now current) as [r|w r] eqn:E; [done|]. cbn. intros Ho.
  destruct Hc as [[_ Hst]|]; [|done]. unfold allow_body in E. rewrite Ho in E. cbn in E.
  destruct (should_attempt_reset cb stamp now) eqn:Er; [|done]. exists stamp, now. split; [lia|]. split; [|done].
  destruct Hst as [->|?]; [done|done].
Qed.

Lemma success_next_seen cb fs now current a : seen_ok cb fs now (success_next current a).
Proof. by destruct a. Qed.

Lemma failure_next_seen cb fs now current a : seen_ok cb fs now (failure_next current a).
Proof. by destruct a. Qed.

(** One access of a thread, with the instant of a failure added when it reads the clock. *)
Lemma tstep_timed now cb fs p cb' p' :
  tstep now cb p cb' p' → last_failure_us cb = 0 ∨ stamp_of cb fs (last_failure_us cb) → seen_ok cb fs now p →
  let fs' := match p with FailureClock => now :: fs | _ => fs end in
  (last_failure_us cb' = 0 ∨ stamp_of cb' fs' (last_failure_us cb')) ∧ seen_ok cb' fs' now p'.
Proof.
  intros Hs Hl Hp. pose proof (tstep_same_config _ _ _ _ _ Hs) as Hsame.
  destruct Hs; cbn [seen_ok] in Hp |- *; cbn zeta; split; cbn [last_failure_us set_packed set_last_failure_us];
    auto using allow_next_seen, success_next_seen, failure_next_seen;
    try (destruct Hl as [|Hl]; [by left|right; eapply stamp_of_mono; [exact Hsame| |exact Hl]; set_solver]).
  - by destruct clear.
  - exists now. split; [by left|done].
Qed.

Lemma timed_thread fs now cb ts i p cb' p' :
  timed_ok fs (mk_system now cb ts) → ts !! i = Some p → tstep now cb p cb' p' →
  timed_ok (match p with FailureClock => now :: fs | _ => fs end) (mk_system now cb' (<[i := p']> ts)).
Proof.
  intros [Hi Hc Hl Ht] Hp Hs. cbn [breaker clock threads] in *. pose proof (tstep_same_config _ _ _ _ _ Hs) as Hsame.
  destruct Hsame as (E1 & E2 & E3 & E4). pose proof (Forall_lookup_1 _ _ _ _ Ht Hp) as Hseen.
  destruct (tstep_timed _ _ fs _ _ _ Hs Hl Hseen) as [Hl' Hp']. cbn zeta in Hl', Hp'. split; cbn [breaker clock threads].
  - rewrite E4. destruct p; try done. by constructor.
  - by rewrite E4.
  - done.
  - apply Forall_insert; [|done]. eapply Forall_impl; [exact Ht|]. intros q. apply seen_ok_mono; [done| |lia]. destruct p; set_solver.
Qed.

Lemma tstep_clock_read now cb p cb' p' : tstep now cb p cb' p' → p = FailureClock → ∃ stamp, p' = FailureStore stamp.
Proof. destruct 1; intros; try done. eauto. Qed.

Lemma timed_step_ok fs σ fs' σ' : timed_step (fs, σ) (fs', σ') → timed_ok fs σ → timed_ok fs' σ'.
Proof.
  assert (∀ σ σ', cb_step σ σ' → ∀ fs, timed_ok fs σ →
    (timed_ok fs σ' ∧ ∀ i, threads σ !! i = Some FailureClock → ∀ s, threads σ' !! i ≠ Some (FailureStore s)) ∨
    (timed_ok (clock σ :: fs) σ' ∧ ∃ i s, threads σ !! i = Some FailureClock ∧ threads σ' !! i = Some (FailureStore s))) as Hstep.
  { clear. intros σ σ' Hs fs Hok. destruct Hs as [now cb ts i p cb' p' Hp Ht|now cb ts i p Hp Hin|now cb ts i r Hp|now now' cb ts Hle].
    - pose proof (timed_thread fs now cb ts i p cb' p' Hok Hp Ht) as Hok'. destruct (decide (p = FailureClock)) as [->|Hne].
      + right. split; [exact Hok'|]. destruct (tstep_clock_read _ _ _ _ _ Ht eq_refl) as [s ->]. exists i, s. split; [done|]. cbn.
        apply list_lookup_insert_eq. by eapply lookup_lt_Some.
      + left. split; [by destruct p|]. cbn. intros j Hj s Hj'. destruct (decide (i = j)) as [<-|]; [congruence|].
        rewrite list_lookup_insert_ne in Hj' by done. congruence.
    - left. destruct Hok as [Hi Hc Hl Ht]. cbn [breaker clock threads] in *. split.
      + split; cbn [breaker clock threads]; [done..|]. apply Forall_insert; [done|]. set_unfold in Hin. by destruct Hin as [->|[->|[->|[]]]].
      + intros j Hj s Hj'. destruct (decide (i = j)) as [<-|]; [congruence|]. rewrite list_lookup_insert_ne in Hj' by done. congruence.
    - left. destruct Hok as [Hi Hc Hl Ht]. cbn [breaker clock threads] in *. split.
      + split; cbn [breaker clock threads]; [done..|]. by apply Forall_insert.
      + intros j Hj s Hj'. destruct (decide (i = j)) as [<-|]; [congruence|]. rewrite list_lookup_insert_ne in Hj' by done. congruence.
    - left. destruct Hok as [Hi Hc Hl Ht]. cbn [breaker clock threads] in *. split; [|intros j Hj s Hj'; congruence].
      split; cbn [breaker clock threads]; [|lia|done|].
      + eapply Forall_impl; [exact Hi|]. cbn. lia.
      + eapply Forall_impl; [exact Ht|]. intros q. by apply seen_ok_mono. }
  intros Hs Hok. inversion Hs as [fs0 σ0 σ0' i stamp Hstep' Hp Hp'|fs0 σ0 σ0' Hstep' Hkeep]; subst.
  - destruct (Hstep _ _ Hstep' _ Hok) as [[_ Hno]|[? _]]; [|done]. by destruct (Hno i Hp stamp).
  - destruct (Hstep _ _ Hstep' _ Hok) as [[? _]|(_ & i & s & Hp & Hp')]; [done|]. rewrite (Hkeep i Hp) in Hp'. done.
Qed.

(** Every run has its instants: the history does not restrict it. *)
Lemma cb_step_timed σ σ' fs : cb_step σ σ' → ∃ fs', timed_step (fs, σ) (fs', σ').
Proof.
  intros Hs. destruct (decide (Exists (λ i, threads σ !! i = Some FailureClock ∧ threads σ' !! i ≠ Some FailureClock) (seq 0 (length (threads σ))))) as [Hex|Hno].
  - apply Exists_exists in Hex as (i & _ & Hi & Hi').
    assert (∃ stamp, threads σ' !! i = Some (FailureStore stamp)) as [stamp E].
    { assert (∀ (ts : list pc) j q, ts !! i = Some FailureClock → <[j := q]> ts !! i ≠ Some FailureClock → j = i) as Hj.
      { intros ts j q Ei Ei'. destruct (decide (j = i)) as [|Hne]; [done|]. by rewrite list_lookup_insert_ne in Ei'. }
      destruct Hs as [now cb ts j p cb' p' Hp Ht|now cb ts j p Hp Hin|now cb ts j r Hp|]; cbn [threads] in *;
        [pose proof (Hj _ _ _ Hi Hi') as ->..|done]; rewrite Hi in Hp; [|done..].
      injection Hp as <-. destruct (tstep_clock_read _ _ _ _ _ Ht eq_refl) as [s ->]. exists s.
      apply list_lookup_insert_eq. by eapply lookup_lt_Some. }
    exists (clock σ :: fs). by eapply timed_failure.
  - exists fs. apply timed_other; [done|]. intros i Hi. destruct (decide (threads σ' !! i = Some FailureClock)) as [|Hne]; [done|].
    exfalso. apply Hno, Exists_exists. exists i. split; [|done]. apply elem_of_seq. apply lookup_lt_Some in Hi. lia.
Qed.

Lemma timed_run_ok s s' : rtc timed_step s s' →
  rtc cb_step s.2 s'.2 ∧ (timed_ok s.1 s.2 → timed_ok s'.1 s'.2).
Proof.
  induction 1 as [s|[fs1 σ1] [fs2 σ2] s3 Hs _ [IH1 IH2]]; [done|]. split.
  - eapply rtc_l; [|exact IH1]. by inversion Hs.
  - intros Hok. apply IH2. by eapply timed_step_ok.
Qed.

Lemma initial_timed threshold timeout now n : timed_ok [] (initial threshold timeout now n).
Proof. split; cbn; [by constructor|lia|by left|by apply Forall_replicate]. Qed.

(** Before the 64-bit microseconds wrap, a due reset is one after the timeout. *)
Lemma reset_due cb fs now stamp read :
  Forall (λ t, created_at cb <= t <= now) fs → now - created_at cb < 2 ^ 64 * 1000 - 1000 → read <= now →
  stamp_of cb fs stamp → should_attempt_reset cb stamp read = true → ∃ t, t ∈ fs ∧ timeout cb - 1000 < now - t.
Proof.
  intros Hf Hb Hr (t & Ht & ->) Hs. exists t. split; [done|]. eapply Forall_forall in Hf; [|exact Ht]. cbn in Hf.
  unfold should_attempt_reset in Hs. destruct (_ =? 0); [done|].
  assert (failure_stamp cb t = (t - created_at cb) / 1000 + 1) as E.
  { unfold failure_stamp, elapsed. rewrite Z.max_r by lia. assert (0 <= (t - created_at cb) / 1000 < 2 ^ 64 - 1).
    { split; [apply Z.div_pos; lia|]. apply Z.div_lt_upper_bound; lia. }
    rewrite (wrap_small 64 ((t - created_at cb) / 1000)), wrap_small by (unfold in_width; lia). done. }
  rewrite E in Hs. destruct (_ <? elapsed cb read) eqn:El; zbool; [|done].
  unfold elapsed in *. pose proof (Z.div_mod (t - created_at cb) 1000 ltac:(lia)) as Hd.
  pose proof (Z.mod_pos_bound (t - created_at cb) 1000 ltac:(lia)). lia.
Qed.

(** An admission without a swap sees a closed breaker. *)
Lemma admitted_closed now cb fs p cb' :
  tstep now cb p cb' (AllowDone true) → config_ok cb → breaker_ok cb → seen_ok cb fs now p →
  (∃ current new, p = AllowSwap current new ∧ current = packed cb ∧ cb' = set_packed cb new) ∨ ∃ f, packed cb = encode (VClosed f).
Proof.
  intros Hs Hcfg [v [Hp Hv]] Hseen.
  remember (AllowDone true) as q eqn:Eq. destruct Hs as [| | |current stamp|current new Hcur| | | | | | | | | |]; try discriminate Eq.
  - right. unfold allow_next in Eq. rewrite Hp, (allow_body_encode cb Hcfg) in Eq by done.
    destruct v as [f|f|s r]; [by exists f| |]; exfalso; revert Eq; case_if; discriminate.
  - exfalso. cbn [seen_ok] in Hseen. destruct Hseen as [Ho _]. revert Eq. unfold allow_next, allow_body. rewrite Ho.
    change (STATE_OPEN =? STATE_CLOSED) with false. change (STATE_OPEN =? STATE_OPEN) with true. cbv iota.
    destruct (should_attempt_reset _ _ _); discriminate.
  - left. by exists current, new.
  - exfalso. revert Eq. unfold success_next. destruct (success_body _ _); discriminate.
  - exfalso. destruct clear; discriminate Eq.
  - exfalso. revert Eq. unfold failure_next. destruct (failure_body _ _); discriminate.
Qed.

(** The open word of a swap is the open state. *)
Lemma probe_seen cb fs now current new v v' :
  config_ok cb → seen_ok cb fs now (AllowSwap current new) → current = encode v → spec_step (failure_threshold cb) (half_open_max_requests cb) v Probe v' →
  ∃ stamp read, read <= now ∧ stamp_of cb fs stamp ∧ should_attempt_reset cb stamp read = true.
Proof. intros Hcfg Hs -> Hstep. inversion Hstep; subst. apply Hs. by rewrite encode_state. Qed.

(** One step of a run, with the instants of its failures. *)
Lemma timed_refines fs σ σ' :
  system_ok σ → timed_ok fs σ → cb_step σ σ' →
  (packed (breaker σ') = packed (breaker σ) ∨
   ∃ i p v e v', threads σ !! i = Some p ∧ called_method p = Some (event_method e) ∧
     packed (breaker σ) = encode v ∧ packed (breaker σ') = encode v' ∧
     spec_step (failure_threshold (breaker σ)) (half_open_max_requests (breaker σ)) v e v' ∧
     (e = Probe → ∃ stamp read, read <= clock σ ∧ stamp_of (breaker σ) fs stamp ∧ should_attempt_reset (breaker σ) stamp read = true)) ∧
  (∀ i, threads σ !! i ≠ Some (AllowDone true) → threads σ' !! i = Some (AllowDone true) →
     (∃ v v' e, packed (breaker σ) = encode v ∧ packed (breaker σ') = encode v' ∧ (e = Probe ∨ e = Admit) ∧
        spec_step (failure_threshold (breaker σ)) (half_open_max_requests (breaker σ)) v e v') ∨
     ∃ f, packed (breaker σ) = encode (VClosed f)).
Proof.
  intros [Hcfg Hb Hth] [_ _ _ Hseen] Hs. destruct Hs as [now cb ts i p cb' p' Hp Ht|now cb ts i p Hp Hin|now cb ts i r Hp|now now' cb ts Hle];
    cbn [breaker clock threads] in *.
  - pose proof (Forall_lookup_1 _ _ _ _ Hth Hp) as Hpend. pose proof (Forall_lookup_1 _ _ _ _ Hseen Hp) as Hsn.
    destruct (tstep_ok _ _ _ _ _ Ht Hcfg Hb Hpend) as (_ & _ & Href). split.
    + destruct Href as [?|(v & e & v' & Hv & Hv' & Hm & Hok & Hstep)]; [by left|].
      destruct (decide (packed cb' = packed cb)) as [?|Hne]; [by left|]. right. exists i, p, v, e, v'. split_and!; try done.
      intros ->. destruct Ht; try discriminate Hm; try (by destruct Hne). eapply (probe_seen cb fs now _ _ v); [exact Hcfg|exact Hsn|congruence|exact Hstep].
    + intros j Hj Hj'. destruct (decide (i = j)) as [<-|Hne]; [|by rewrite list_lookup_insert_ne in Hj'].
      rewrite list_lookup_insert_eq in Hj' by (by eapply lookup_lt_Some). injection Hj' as ->.
      destruct (admitted_closed _ _ _ _ _ Ht Hcfg Hb Hsn) as [(current & new & -> & -> & ->)|?]; [left|by right].
      destruct Hb as (v & Hv & Hvok). destruct (Hpend v Hvok Hv) as (v' & -> & Hstep). exists v, v'. destruct Hstep; [exists Probe|exists Admit]; auto.
  - split; [by left|]. intros j Hj Hj'. destruct (decide (i = j)) as [<-|Hne]; [|by rewrite list_lookup_insert_ne in Hj'].
    rewrite list_lookup_insert_eq in Hj' by (by eapply lookup_lt_Some). injection Hj' as ->. set_unfold in Hin. by destruct Hin as [|[|[|[]]]].
  - split; [by left|]. intros j Hj Hj'. destruct (decide (i = j)) as [<-|Hne]; [|by rewrite list_lookup_insert_ne in Hj'].
    by rewrite list_lookup_insert_eq in Hj' by (by eapply lookup_lt_Some).
  - split; [by left|]. intros j Hj Hj'. congruence.
Qed.

(** C8: the lock-free breaker is a three-state circuit breaker.  Under every interleaving of
any number of threads that call the three methods, with spurious failures of the weak
compare-and-swap and a clock that moves forward, the word always encodes a legal state
(never the unused code 3, half-open admissions at most 3, closed failures below the
threshold); a step leaves the word or makes one transition of the abstract breaker, and
the thread that makes it is in the method that the transition belongs to: a probe or an
admission in [allow_request], a success in [record_success], a failure in
[record_failure].  A probe, out of the open state, comes more than the timeout less one
microsecond after an instant at which [record_failure] took the time of a failure (while
the 64-bit microseconds last).  And [allow_request] answers yes only by a probe, an
admission or in the closed state. *)
Theorem breaker_refines_spec threshold timeout now n fs σ σ' :
  0 <= threshold <= 2 ^ 16 →
  rtc timed_step ([], initial threshold timeout now n) (fs, σ) → cb_step σ σ' → clock σ - now < 2 ^ 64 * 1000 - 1000 →
  (∃ v, packed (breaker σ') = encode v ∧ view_ok threshold 3 v) ∧
  (packed (breaker σ') = packed (breaker σ) ∨
   ∃ i p v e v', threads σ !! i = Some p ∧ called_method p = Some (event_method e) ∧
     packed (breaker σ) = encode v ∧ packed (breaker σ') = encode v' ∧ spec_step threshold 3 v e v' ∧
     (e = Probe → ∃ t, t ∈ fs ∧ timeout - 1000 < clock σ - t)) ∧
  (∀ i, threads σ !! i ≠ Some (AllowDone true) → threads σ' !! i = Some (AllowDone true) →
     (∃ v v' e, packed (breaker σ) = encode v ∧ packed (breaker σ') = encode v' ∧ (e = Probe ∨ e = Admit) ∧ spec_step threshold 3 v e v') ∨
     ∃ f, packed (breaker σ) = encode (VClosed f)).
Proof.
  intros Ht Hr Hs Hclock. destruct (timed_run_ok _ _ Hr) as [Hrun Htimed]. cbn [fst snd] in *.
  specialize (Htimed (initial_timed _ _ _ _)). destruct (reachable_ok _ _ Hrun (initial_ok _ _ _ _ Ht)) as [Hok (E1 & E2 & E3 & E4)].
  destruct (cb_step_ok _ _ Hs Hok) as ([_ [w [Hw Hvw]] _] & _ & (F1 & F2 & _)).
  destruct (timed_refines fs σ σ' Hok Htimed Hs) as [Href Hadm]. cbn in E1, E2, E3, E4. rewrite F1, F2, E1, E2 in Hvw. rewrite E1, E2 in Href, Hadm.
  split; [by exists w|]. split; [|done]. destruct Href as [?|(i & p & v & e & v' & Hp & Hm & Hv & Hv' & Hstep & Hprobe)]; [by left|].
  right. exists i, p, v, e, v'. split_and!; try done. intros He. destruct (Hprobe He) as (stamp & read & Hle & Hst & Hdue).
  destruct Htimed as [Hi _ _ _]. rewrite <- E3. eapply reset_due; [exact Hi|by rewrite E4|exact Hle|exact Hst|exact Hdue].
Qed.

(** One failure opens a breaker of threshold one; two seconds later a thread probes. *)
Definition opened_word : Z := encode (VOpen 1).
Definition opened_breaker : CircuitBreaker := set_packed (set_last_failure_us (new 1 1000000000 0) 1) opened_word.
Definition probe_word : Z := encode (VHalfOpen 0 1).

Lemma opened_run :
  rtc timed_step ([], initial 1 1000000000 0 1) ([0], mk_system 2000000000 opened_breaker [AllowSwap opened_word probe_word]).
Proof.
  assert (∀ fs σ σ' s, cb_step σ σ' → (∀ i, threads σ !! i ≠ Some FailureClock) → rtc timed_step (fs, σ') s → rtc timed_step (fs, σ) s) as Hother.
  { intros fs σ σ' s Hs Hn Hr. eapply rtc_l; [|exact Hr]. apply timed_other; [done|]. by intros i Hi%Hn. }
  assert (∀ p i, p ≠ FailureClock → [p] !! i ≠ Some FailureClock) as Hno by (by intros p i Hp [_ ->]%list_lookup_singleton_Some).
  eapply Hother; [by eapply (step_call 0 _ _ 0%nat FailureClock); [|set_solver]|by intros [|]|].
  eapply rtc_l; [eapply (timed_failure _ _ _ 0%nat); [eapply (step_thread 0 _ _ 0%nat); [reflexivity|apply t_failure_clock]|reflexivity|reflexivity]|].
  cbn [clock initial]. eapply Hother; [eapply (step_thread 0 _ _ 0%nat); [reflexivity|apply t_failure_store]|intros i; by apply Hno|].
  eapply Hother; [eapply (step_thread 0 _ _ 0%nat); [reflexivity|apply t_failure_load]|intros i; by apply Hno|].
  eapply Hother; [eapply (step_thread 0 _ _ 0%nat); [reflexivity|by apply (t_failure_swap_ok _ _ 0 opened_word)]|intros i; by apply Hno|].
  eapply Hother; [by eapply (step_call 0 _ _ 0%nat AllowLoad); [|set_solver]|intros i; by apply Hno|].
  eapply Hother; [apply (step_clock 0 2000000000); lia|intros i; by apply Hno|].
  eapply Hother; [eapply (step_thread 2000000000 _ _ 0%nat); [reflexivity|by apply t_allow_load_open]|intros i; by apply Hno|].
  eapply Hother; [eapply (step_thread 2000000000 _ _ 0%nat); [reflexivity|by apply t_allow_stamp]|intros i; by apply Hno|].
  eapply Hother; [eapply (step_thread 2000000000 _ _ 0%nat); [reflexivity|by apply t_allow_clock]|intros i; by apply Hno|].
  apply rtc_refl.
Qed.

Lemma breaker_refines_spec_witness :
  ∃ i p v e v', [AllowSwap opened_word probe_word] !! i = Some p ∧ called_method p = Some (event_method e) ∧
    opened_word = encode v ∧ probe_word = encode v' ∧ spec_step 1 3 v e v' ∧
    (e = Probe → ∃ t, t ∈ [0] ∧ 1000000000 - 1000 < 2000000000 - t).
Proof.
  destruct (breaker_refines_spec 1 1000000000 0 1 [0] (mk_system 2000000000 opened_breaker [AllowSwap opened_word probe_word])
    (mk_system 2000000000 (set_packed opened_breaker probe_word) [AllowDone true])) as (_ & [Heq|H] & _).
  - split; discriminate.
  - exact opened_run.
  - apply (step_thread 2000000000 opened_breaker [AllowSwap opened_word probe_word] 0 (AllowSwap opened_word probe_word) _ (AllowDone true));
      [reflexivity|]. by apply t_allow_swap_ok.
  - cbn. lia.
  - exfalso. discriminate Heq.
  - exact H.
Defined.

(** Run alone, a thread that executes the atomic accesses of a method, with
any number of spurious compare-and-swap failures, can finish, and whenever it
finishes it has the result and the effect of the method's function. *)
Theorem breaker_methods_atomic now cb :
  (rtc (solo now) (cb, AllowLoad) ((allow_request cb now).2, AllowDone (allow_request cb now).1) ∧
   ∀ cb' r, rtc (solo now) (cb, AllowLoad) (cb', AllowDone r) → (r, cb') = allow_request cb now) ∧
  (rtc (solo now) (cb, SuccessLoad) (record_success cb, Idle) ∧
   ∀ cb', rtc (solo now) (cb, SuccessLoad) (cb', Idle) → cb' = record_success cb) ∧
  (rtc (solo now) (cb, FailureClock) (record_failure cb now, Idle) ∧
   ∀ cb', rtc (solo now) (cb, FailureClock) (cb', Idle) → cb' = record_failure cb now).
Proof.
  split_and!; auto using allow_run, success_run, failure_run.
  - intros cb' r Hr. exact (trail_rtc (allow_trail now cb) now (cb, AllowLoad) _ (allow_trail_step now cb) eq_refl Hr).
  - intros cb' Hr. exact (trail_rtc (success_trail cb) now (cb, SuccessLoad) _ (success_trail_step now cb) eq_refl Hr).
  - intros cb' Hr. exact (trail_rtc (failure_trail now cb) now (cb, FailureClock) _ (failure_trail_step now cb) eq_refl Hr).
Qed.

(** A fresh breaker trips exactly at its threshold: after any sequence of
failures it is Closed while fewer than [threshold] were recorded and Open from
then on, whatever their times. *)
Theorem breaker_trips_at_threshold threshold timeout now times :
  1 <= threshold <= 2 ^ 16 →
  state (failures_at (new threshold timeout now) times) =
    if Z.of_nat (length times) <? threshold then Closed else Open.
Proof.
  intros Ht. pose proof (new_config_ok threshold timeout now ltac:(lia)) as Hcfg.
  destruct (_ <? _) eqn:E; zbool.
  { destruct (failures_at_closed (new threshold timeout now) times 0) as [Hp _]; [done|cbn; lia|done|lia|cbn; lia|].
    by rewrite (state_encode _ _ Hp). }
  set (k := Z.to_nat (threshold - 1)).
  rewrite <- (take_drop k times). unfold failures_at. rewrite foldl_app.
  destruct (failures_at_closed (new threshold timeout now) (take k times) 0)
    as [Hp (E1 & E2 & _)]; [done|cbn; lia|done|lia|rewrite length_take; cbn; lia|].
  fold (failures_at (new threshold timeout now) (take k times)).
  set (cb := failures_at (new threshold timeout now) (take k times)) in *.
  cbn in E1, E2. rewrite length_take in Hp.
  replace (0 + Z.of_nat (k `min` length times)) with (threshold - 1) in Hp by lia.
  assert (config_ok cb) as Hcfg' by (unfold config_ok; by rewrite E1, E2).
  assert (∃ t rest, drop k times = t :: rest) as (t & rest & ->).
  { destruct (drop k times) eqn:Hd; [|eauto]. apply (f_equal length) in Hd.
    rewrite length_drop in Hd. cbn in Hd. lia. }
  cbn [foldl]. destruct (record_failure_view cb t (VClosed (threshold - 1)))
    as (Hp' & _ & F1 & F2 & _); [done..|cbn; lia|].
  rewrite E1 in Hp'. destruct (_ <=? _) eqn:Hle in Hp'; zbool; [|lia].
  rewrite (state_encode _ (VOpen (wrap 16 (threshold - 1 + 1)))); [done|].
  apply failures_at_open; [|done|by apply wrap_range].
  unfold config_ok. by rewrite F1, F2, E1, E2.
Qed.

Lemma breaker_trips_at_threshold_witness :
  state (failures_at (new 5 30000000000 0) [1; 2; 3; 4; 5]) = Open.
Proof. apply (breaker_trips_at_threshold 5). split; discriminate. Defined.

(** *** Recovery *)
Lemma open_rejects cb f now :
  config_ok cb → packed cb = encode (VOpen f) → 0 <= f < 2 ^ 16 →
  allow_request cb now =
    if should_attempt_reset cb (last_failure_us cb) now
    then (true, set_packed cb (encode (VHalfOpen 0 1))) else (false, cb).
Proof.
  intros Hcfg Hp Hf. unfold allow_request. rewrite Hp, (allow_body_encode cb Hcfg (VOpen f)) by done.
  by case_if.
Qed.

Lemma record_success_half_open cb s r :
  config_ok cb → packed cb = encode (VHalfOpen s r) →
  0 <= s < half_open_max_requests cb → 1 <= r <= half_open_max_requests cb →
  record_success cb =
    if half_open_max_requests cb <=? s + 1
    then set_last_failure_us (set_packed cb (encode (VClosed 0))) 0
    else set_packed cb (encode (VHalfOpen (s + 1) r)).
Proof.
  intros Hcfg Hp Hs Hr. unfold record_success.
  rewrite Hp, (success_body_encode cb Hcfg (VHalfOpen s r)) by (cbn; lia). by case_if.
Qed.

Lemma three_successes cb r :
  config_ok cb → half_open_max_requests cb = 3 → packed cb = encode (VHalfOpen 0 r) → 1 <= r <= 3 →
  record_success (record_success (record_success cb)) =
    set_last_failure_us (set_packed cb (encode (VClosed 0))) 0.
Proof.
  intros Hcfg Hmax Hp Hr.
  rewrite (record_success_half_open cb 0 r) by (assumption || lia). rewrite Hmax.
  change (3 <=? 0 + 1) with false. cbv iota.
  set (cb1 := set_packed cb _).
  rewrite (record_success_half_open cb1 1 r) by (assumption || reflexivity || (subst cb1; cbn [half_open_max_requests set_packed]; lia)).
  change (half_open_max_requests cb1) with (half_open_max_requests cb). rewrite Hmax.
  change (3 <=? 1 + 1) with false. cbv iota.
  set (cb2 := set_packed cb1 _).
  rewrite (record_success_half_open cb2 2 r) by (assumption || reflexivity || (subst cb1 cb2; cbn [half_open_max_requests set_packed]; lia)).
  change (half_open_max_requests cb2) with (half_open_max_requests cb). rewrite Hmax. reflexivity.
Qed.

(** The reset test around the timeout after a failure recorded at [t]. *)
Lemma reset_window cb t now :
  created_at cb <= t → (t - created_at cb) / 1000 + 1 < 2 ^ 64 → 1000 <= timeout cb →
  last_failure_us cb = failure_stamp cb t →
  (now <= t + timeout cb - 1000 → should_attempt_reset cb (last_failure_us cb) now = false) ∧
  (t + timeout cb <= now → should_attempt_reset cb (last_failure_us cb) now = true).
Proof.
  intros Hc Hw Hto Hl. unfold should_attempt_reset.
  assert (last_failure_us cb = (t - created_at cb) / 1000 + 1) as ->.
  { rewrite Hl. unfold failure_stamp, elapsed. rewrite Z.max_r by lia.
    pose proof (Z.div_pos (t - created_at cb) 1000 ltac:(lia) ltac:(lia)).
    rewrite (wrap_small 64 (_ / _)) by (unfold in_width; lia).
    by rewrite wrap_small by (unfold in_width; lia). }
  pose proof (Z.div_mod (t - created_at cb) 1000 ltac:(lia)).
  pose proof (Z.mod_pos_bound (t - created_at cb) 1000 ltac:(lia)).
  pose proof (Z.div_pos (t - created_at cb) 1000 ltac:(lia) ltac:(lia)).
  set (q := (t - created_at cb) / 1000) in *.
  replace (q + 1 - 1) with q by lia. unfold elapsed.
  destruct (q + 1 =? 0) eqn:E0; zbool; [lia|]. split; intros Hnow.
  - repeat case_if; zbool; try done; lia.
  - destruct (_ <? _) eqn:E1; zbool; [|lia]. destruct (_ <=? _) eqn:E2; zbool; [done|lia].
Qed.

(** An Open breaker whose last failure was recorded at [t] rejects until one
microsecond before [t + timeout], admits a probe from [t + timeout] on by moving
to Half-Open, and from there three recorded successes close it and clear the
failure stamp. *)
Theorem breaker_recovery cb f t now :
  config_ok cb → half_open_max_requests cb = 3 → packed cb = encode (VOpen f) → 0 <= f < 2 ^ 16 →
  created_at cb <= t → (t - created_at cb) / 1000 + 1 < 2 ^ 64 → 1000 <= timeout cb →
  last_failure_us cb = failure_stamp cb t →
  (now <= t + timeout cb - 1000 → allow_request cb now = (false, cb)) ∧
  (t + timeout cb <= now →
     ∃ probe, allow_request cb now = (true, probe) ∧ state probe = HalfOpen ∧
       let cb' := record_success (record_success (record_success probe)) in
       packed cb' = encode (VClosed 0) ∧ state cb' = Closed ∧ last_failure_us cb' = 0).
Proof.
  intros Hcfg Hmax Hp Hf Hc Hw Hto Hl. destruct (reset_window cb t now Hc Hw Hto Hl) as [W1 W2].
  rewrite (open_rejects cb f now Hcfg Hp Hf). split; intros Hnow; [by rewrite W1|]. rewrite W2 by done.
  eexists. split; [reflexivity|]. split; [by apply (state_encode _ (VHalfOpen 0 1))|].
  rewrite (three_successes (set_packed cb (encode (VHalfOpen 0 1))) 1) by (assumption || reflexivity || lia).
  cbn [packed last_failure_us set_last_failure_us set_packed].
  split; [reflexivity|]. split; [|reflexivity]. by apply (state_encode _ (VClosed 0)).
Qed.

Definition tripped : CircuitBreaker := failures_at (new 5 30000000000 0) [10; 20; 30; 40; 50].

Lemma breaker_recovery_witness :
  allow_request tripped 29000000050 = (false, tripped) ∧
  (∃ probe, allow_request tripped 30000000050 = (true, probe) ∧ state probe = HalfOpen ∧
     let cb' := record_success (record_success (record_success probe)) in
     packed cb' = encode (VClosed 0) ∧ state cb' = Closed ∧ last_failure_us cb' = 0).
Proof.
  split; [apply (breaker_recovery tripped 5 50 29000000050)|apply (breaker_recovery tripped 5 50 30000000050)];
    try (vm_compute; (reflexivity || discriminate)); split; try split; vm_compute;
    (discriminate || reflexivity || (split; (discriminate || reflexivity))).
Defined.

(** *** Half-open quota *)
Fixpoint allow_all (cb : CircuitBreaker) (times : list Z) : list bool * CircuitBreaker :=
  match times with
  | [] => ([], cb)
  | t :: times =>
      let '(r, cb) := allow_request cb t in
      let '(rs, cb) := allow_all cb times in (r :: rs, cb)
  end.

Lemma half_open_allow cb s r now :
  config_ok cb → packed cb = encode (VHalfOpen s r) →
  0 <= s < half_open_max_requests cb → 1 <= r <= half_open_max_requests cb →
  allow_request cb now =
    if r <? half_open_max_requests cb
    then (true, set_packed cb (encode (VHalfOpen s (r + 1)))) else (false, cb).
Proof.
  intros Hcfg Hp Hs Hr. unfold allow_request.
  rewrite Hp, (allow_body_encode cb Hcfg (VHalfOpen s r)) by (cbn; lia). by case_if.
Qed.

(** In Half-Open with [r] admissions used, further calls admit exactly
[max - r] requests and reject all the others at every later time; in particular
once the quota is used up, no call admits anything until a result is recorded,
because the Half-Open state has no timeout of its own. *)
Theorem half_open_quota cb s r times :
  config_ok cb → packed cb = encode (VHalfOpen s r) →
  0 <= s < half_open_max_requests cb → 1 <= r <= half_open_max_requests cb →
  let quota := Z.to_nat (half_open_max_requests cb - r) in
  (allow_all cb times).1 =
    replicate (quota `min` length times) true ++ replicate (length times - quota) false ∧
  packed (allow_all cb times).2 =
    encode (VHalfOpen s (Z.min (half_open_max_requests cb) (r + Z.of_nat (length times)))).
Proof.
  intros Hcfg Hp Hs. revert cb r Hcfg Hp Hs.
  induction times as [|t times IH]; intros cb r Hcfg Hp Hs Hr quota; cbn [allow_all length].
  { rewrite Nat.min_0_r. cbn. split; [done|]. by rewrite Z.min_r, Z.add_0_r by lia. }
  rewrite (half_open_allow cb s r t) by done. destruct (r <? _) eqn:E; zbool.
  - destruct (IH (set_packed cb (encode (VHalfOpen s (r + 1)))) (r + 1)) as [H1 H2]; [done..|cbn [half_open_max_requests set_packed]; lia|].
    destruct (allow_all _ times) as [rs cb']. cbn [fst snd] in *. cbn [half_open_max_requests set_packed] in *.
    replace quota with (S (Z.to_nat (half_open_max_requests cb - (r + 1)))) by (subst quota; lia).
    split; [by rewrite H1|]. rewrite H2. do 2 f_equal. lia.
  - destruct (IH cb r) as [H1 H2]; [done..|].
    destruct (allow_all _ times) as [rs cb']. cbn [fst snd] in *.
    split; [|rewrite H2; do 2 f_equal; lia]. rewrite H1.
    replace quota with 0%nat by (subst quota; lia).
    replace (Z.to_nat (half_open_max_requests cb - r)) with 0%nat by lia.
    cbn [Nat.min replicate app length]. by rewrite !Nat.sub_0_r.
Qed.

Lemma half_open_quota_witness :
  let cb := set_packed (new 5 30000000000 0) (encode (VHalfOpen 0 1)) in
  (allow_all cb [1; 2; 3; 99999999999999]).1 = [true; true; false; false] ∧
  packed (allow_all cb [1; 2; 3; 99999999999999]).2 = encode (VHalfOpen 0 3).
Proof.
  apply (half_open_quota (set_packed (new 5 30000000000 0) (encode (VHalfOpen 0 1))) 0 1).
  - split; split; vm_compute; (discriminate || reflexivity).
  - reflexivity.
  - split; [discriminate|reflexivity].
  - split; discriminate.
Defined.

(** *** The failure stamp is not part of the atomic word *)
Definition after_probe : CircuitBreaker :=
  record_success (record_success
    (allow_request (failures_at (new 5 30000000000 0) (replicate 5 0)) 30000000000).2).

(** The third success closes the breaker but is preempted before it clears the
stamp; five failures reopen it; then the stamp is cleared. *)
Definition stuck_open : CircuitBreaker :=
  set_last_failure_us
    (failures_at (set_packed after_probe (encode (VClosed 0))) (replicate 5 30000000000)) 0.

Lemma after_probe_reachable :
  rtc cb_step (initial 5 30000000000 0 2) (mk_system 30000000000 after_probe [Idle; Idle]).
Proof.
  etrans; [apply (system_failures _ _ 1 0 5); reflexivity|].
  eapply rtc_l; [apply (step_clock _ 30000000000); lia|].
  etrans; [apply (system_allow _ _ _ 0); reflexivity|].
  etrans; [apply (system_success _ _ _ 0); reflexivity|].
  apply (system_success _ _ _ 0). reflexivity.
Qed.

(** The clearing of [last_failure_us] after the closing exchange is not
atomic with it: two threads reach a state, both idle again, in which the breaker
is Open with a cleared stamp, and from then on [allow_request] rejects every
request at every time. *)
Theorem breaker_stuck_open :
  ∃ σ, rtc cb_step (initial 5 30000000000 0 2) σ ∧ threads σ = [Idle; Idle] ∧
    state (breaker σ) = Open ∧
    ∀ now, allow_request (breaker σ) now = (false, breaker σ).
Proof.
  exists (mk_system 30000000000 stuck_open [Idle; Idle]). cbn [threads breaker].
  split_and!; [|reflexivity|vm_compute; reflexivity|intros now; vm_compute; reflexivity].
  etrans; [exact after_probe_reachable|].
  eapply rtc_l; [apply (step_call _ _ _ 0 SuccessLoad); [reflexivity|set_solver]|]. cbn [insert list_insert].
  eapply rtc_l; [eapply (step_thread _ _ _ 0); [reflexivity|apply t_success_load]|]. cbn [insert list_insert].
  replace (success_next _ _) with (SuccessSwap (packed after_probe) (encode (VClosed 0)) true)
    by (vm_compute; reflexivity).
  eapply rtc_l; [eapply (step_thread _ _ _ 0); [reflexivity|by apply t_success_swap_ok]|]. cbn [insert list_insert].
  etrans; [apply (system_failures _ _ 1 _ 5); reflexivity|].
  apply rtc_once. exact (step_thread _ _ [SuccessClear; Idle] 0 _ _ _ eq_refl (t_success_clear _ _)).
Qed.

(** *** Thresholds the counter cannot reach *)
Lemma wide_threshold_step cb now :
  2 ^ 16 < failure_threshold cb → unpack_state_field (packed cb) = STATE_CLOSED →
  unpack_state_field (packed (record_failure cb now)) = STATE_CLOSED ∧
  same_config cb (record_failure cb now).
Proof.
  intros Ht Hs. unfold record_failure, failure_body. cbn [packed set_last_failure_us failure_threshold].
  rewrite Hs. change (STATE_CLOSED =? STATE_CLOSED) with true. cbv iota.
  assert (0 <= unpack_failures (packed cb) < 2 ^ 16) as Hf.
  { unfold unpack_failures, FAILURE_MASK. change 0xFFFF with (Z.ones 16).
    rewrite field_read by (unfold FAILURE_SHIFT; lia). apply Z.mod_pos_bound. lia. }
  destruct (_ <=? _) eqn:E; zbool; [lia|]. cbn [packed set_packed].
  split; [|by split_and!]. by rewrite unpack_state_pack by done.
Qed.

(** A threshold above 2^16 is accepted and never trips: the counter is sixteen
bits wide, so no number of consecutive failures opens such a breaker. *)
Theorem wide_threshold_never_trips threshold timeout now times :
  2 ^ 16 < threshold → state (failures_at (new threshold timeout now) times) = Closed.
Proof.
  intros Ht.
  assert (∀ cb, failure_threshold cb = threshold → unpack_state_field (packed cb) = STATE_CLOSED →
            unpack_state_field (packed (failures_at cb times)) = STATE_CLOSED) as G.
  { induction times as [|t times IH]; intros cb Hcb Hs; [done|].
    destruct (wide_threshold_step cb t) as [Hs' [E _]]; [by rewrite Hcb|done|].
    apply (IH (record_failure cb t)); [by rewrite E|done]. }
  unfold state. by rewrite G.
Qed.

Lemma wide_threshold_never_trips_witness :
  state (failures_at (new 100000 30000000000 0) (seqZ 0 300)) = Closed.
Proof. apply (wide_threshold_never_trips 100000). reflexivity. Defined.
