(* ===== verification/BreakerManager.v ===== *)
(** * BreakerManager: [CircuitBreakerManager] of [circuit_breaker.rs]

The per-backend registry of breakers with its Prometheus metrics.  The registry
is a map of handles into a heap of shared breakers ([Arc<CircuitBreaker>]); the
concurrent accesses to the map itself are modelled in [CowMap]. *)

From S2P Require Import Prelude CowMap CircuitBreaker.

#[local] Open Scope Z_scope.

(** ** Metrics

The four labelled metrics: a counter or gauge that was never touched has no
entry. *)
Record Metrics : Type := mk_metrics {
  requests_total : gmap (string * string) Z;
  state_gauge : gmap string Z;
  failures_total : gmap string Z;
  transitions_total : gmap (string * string * string) Z
}.

Definition inc `{Countable K} (k : K) (c : gmap K Z) : gmap K Z := <[k := default 0 (c !! k) + 1]> c.

Definition set_state_gauge (id : string) (s : CircuitState) (x : Metrics) : Metrics :=
  mk_metrics (requests_total x) (<[id := state_to_u64 s]> (state_gauge x))
    (failures_total x) (transitions_total x).

Definition inc_requests (id : string) (allowed : bool) (x : Metrics) : Metrics :=
  mk_metrics (inc (id, if allowed then "allowed" else "rejected") (requests_total x))
    (state_gauge x) (failures_total x) (transitions_total x).

Definition inc_failures (id : string) (x : Metrics) : Metrics :=
  mk_metrics (requests_total x) (state_gauge x) (inc id (failures_total x)) (transitions_total x).

Definition record_transition (id : string) (old new : CircuitState) (x : Metrics) : Metrics :=
  if decide (old = new) then x
  else mk_metrics (requests_total x) (state_gauge x) (failures_total x)
         (inc (id, state_to_str old, state_to_str new) (transitions_total x)).

(** ** The manager *)
Record Manager : Type := mk_manager {
  breakers : gmap string arc;
  arcs : list CircuitBreaker;
  default_failure_threshold : Z;
  default_timeout : Z;
  metrics : Metrics
}.

Definition manager_new (failure_threshold timeout : Z) : Manager :=
  mk_manager ∅ [] failure_threshold timeout (mk_metrics ∅ ∅ ∅ ∅).

Definition manager_default : Manager := manager_new 5 30000000000.

Definition deref (m : Manager) (a : arc) : CircuitBreaker := nth a (arcs m) (new 0 0 0).

(** A mutation of the breaker behind handle [a], seen through every clone of it. *)
Definition write_arc (m : Manager) (a : arc) (cb : CircuitBreaker) (x : Metrics) : Manager :=
  mk_manager (breakers m) (<[a := cb]> (arcs m)) (default_failure_threshold m) (default_timeout m) x.

Definition get_breaker (m : Manager) (id : string) (now : Z) : arc * Manager :=
  match breakers m !! id with
  | Some a => (a, m)
  | None =>
      let cb := new (default_failure_threshold m) (default_timeout m) now in
      let a := length (arcs m) in
      (a, mk_manager (<[id := a]> (breakers m)) (arcs m ++ [cb])
            (default_failure_threshold m) (default_timeout m) (metrics m))
  end.

Definition manager_allow_request (m : Manager) (id : string) (now : Z) : bool * Manager :=
  let '(a, m) := get_breaker m id now in
  let old_state := state (deref m a) in
  let '(allowed, cb) := allow_request (deref m a) now in
  let new_state := state cb in
  let x := inc_requests id allowed (metrics m) in
  let x := set_state_gauge id new_state x in
  (allowed, write_arc m a cb (record_transition id old_state new_state x)).

Definition manager_record_success (m : Manager) (id : string) (now : Z) : Manager :=
  let '(a, m) := get_breaker m id now in
  let old_state := state (deref m a) in
  let cb := record_success (deref m a) in
  let new_state := state cb in
  let x := set_state_gauge id new_state (metrics m) in
  write_arc m a cb (record_transition id old_state new_state x).

Definition manager_record_failure (m : Manager) (id : string) (now : Z) : Manager :=
  let '(a, m) := get_breaker m id now in
  let old_state := state (deref m a) in
  let cb := record_failure (deref m a) now in
  let new_state := state cb in
  let x := inc_failures id (metrics m) in
  let x := set_state_gauge id new_state x in
  write_arc m a cb (record_transition id old_state new_state x).

Definition get_state (m : Manager) (id : string) : option CircuitState :=
  (λ a, state (deref m a)) <$> breakers m !! id.

Record CircuitBreakerSnapshot : Type := mk_cb_snapshot {
  backend_id : string;
  cb_state : string;
  cb_failure_count : Z
}.

Definition snapshot_all (m : Manager) : list CircuitBreakerSnapshot :=
  (λ '(id, a), mk_cb_snapshot id (state_to_str (state (deref m a))) (failure_count (deref m a)))
    <$> map_to_list (breakers m).

Definition open_count (m : Manager) : nat :=
  length (filter (λ '(_, a), state (deref m a) = Open) (map_to_list (breakers m))).

Definition remove_backend (m : Manager) (id : string) : Manager :=
  mk_manager (delete id (breakers m)) (arcs m) (default_failure_threshold m) (default_timeout m)
    (metrics m).

(** ** Calls *)
Inductive call : Type :=
| CallAllow (id : string)
| CallSuccess (id : string)
| CallFailure (id : string)
| CallRemove (id : string).

Definition call_id (c : call) : string :=
  match c with CallAllow id | CallSuccess id | CallFailure id | CallRemove id => id end.

Definition is_remove (c : call) : bool := match c with CallRemove _ => true | _ => false end.
Definition is_failure (c : call) : bool := match c with CallFailure _ => true | _ => false end.
Definition is_allow (c : call) : bool := match c with CallAllow _ => true | _ => false end.

Definition run_call (m : Manager) (c : call * Z) : Manager :=
  match c with
  | (CallAllow id, now) => (manager_allow_request m id now).2
  | (CallSuccess id, now) => manager_record_success m id now
  | (CallFailure id, now) => manager_record_failure m id now
  | (CallRemove id, _) => remove_backend m id
  end.

Definition run_calls (m : Manager) (cs : list (call * Z)) : Manager := foldl run_call m cs.

(** ** Specification: one independent breaker per backend *)
Definition breaker_of (m : Manager) (id : string) : option CircuitBreaker :=
  deref m <$> breakers m !! id.

Definition apply_call (thr timeout : Z) (ob : option CircuitBreaker) (c : call * Z) : option CircuitBreaker :=
  let cb := default (new thr timeout c.2) ob in
  match c.1 with
  | CallAllow _ => Some (allow_request cb c.2).2
  | CallSuccess _ => Some (record_success cb)
  | CallFailure _ => Some (record_failure cb c.2)
  | CallRemove _ => None
  end.

(** The calls for one backend, in order. *)
Definition calls_for (id : string) (cs : list (call * Z)) : list (call * Z) :=
  filter (λ c, call_id c.1 = id) cs.

Record manager_ok (m : Manager) : Prop := {
  ok_range : ∀ id a, breakers m !! id = Some a → (a < length (arcs m))%nat;
  ok_inj : ∀ id id' a, breakers m !! id = Some a → breakers m !! id' = Some a → id = id'
}.

(** ** Lemmas *)
Lemma manager_new_ok thr timeout : manager_ok (manager_new thr timeout).
Proof. split; cbn; intros *; by rewrite lookup_empty. Qed.

Lemma get_breaker_spec m id now :
  manager_ok m →
  let '(a, m') := get_breaker m id now in
  manager_ok m' ∧ breakers m' !! id = Some a ∧ metrics m' = metrics m ∧
  default_failure_threshold m' = default_failure_threshold m ∧ default_timeout m' = default_timeout m ∧
  deref m' a = default (new (default_failure_threshold m) (default_timeout m) now) (breaker_of m id) ∧
  ∀ id', id' ≠ id → breaker_of m' id' = breaker_of m id'.
Proof.
  intros [R I]. unfold get_breaker, breaker_of.
  destruct (breakers m !! id) as [a|] eqn:E; [by split_and!|]. cbn.
  split_and!; [|by rewrite lookup_insert_eq|done..| |].
  - split; cbn.
    + intros id' b. rewrite lookup_insert_Some, length_app. cbn.
      intros [[_ <-]|[_ Hb]]; [lia|]. apply R in Hb. lia.
    + intros id1 id2 b. rewrite !lookup_insert_Some.
      intros [[<- <-]|[? H1]] [[<- H2]|[? H2]]; auto.
      * apply R in H2. lia.
      * subst. apply R in H1. lia.
      * by eapply I.
  - unfold deref. cbn. rewrite app_nth2 by lia. by rewrite Nat.sub_diag.
  - intros id' Hne. rewrite lookup_insert_ne by done.
    destruct (breakers m !! id') as [b|] eqn:Hb; [|done]. cbn. f_equal.
    unfold deref. cbn. apply app_nth1. by eapply R.
Qed.

Lemma write_arc_spec m id a cb x :
  manager_ok m → breakers m !! id = Some a →
  manager_ok (write_arc m a cb x) ∧ breaker_of (write_arc m a cb x) id = Some cb ∧
  ∀ id', id' ≠ id → breaker_of (write_arc m a cb x) id' = breaker_of m id'.
Proof.
  intros [R I] Ha. split_and!.
  - split; cbn; [|exact I]. intros id' b Hb. rewrite length_insert. by eapply R.
  - unfold breaker_of, deref. cbn. rewrite Ha. cbn. f_equal. rewrite nth_lookup.
    by rewrite list_lookup_insert_eq by (by eapply R).
  - intros id' Hne. unfold breaker_of, deref. cbn. destruct (breakers m !! id') as [b|] eqn:Hb; [|done].
    cbn. f_equal. rewrite !nth_lookup, list_lookup_insert_ne; [done|].
    intros ->. by apply Hne, (I id' id b).
Qed.

(** The metrics a call writes, given the breaker before and after it. *)
Definition call_metrics (c : call) (r : bool) (old new : CircuitState) (x : Metrics) : Metrics :=
  match c with
  | CallAllow id => record_transition id old new (set_state_gauge id new (inc_requests id r x))
  | CallSuccess id => record_transition id old new (set_state_gauge id new x)
  | CallFailure id => record_transition id old new (set_state_gauge id new (inc_failures id x))
  | CallRemove _ => x
  end.

Lemma run_call_spec m c now :
  manager_ok m →
  let id := call_id c in
  let cb0 := default (new (default_failure_threshold m) (default_timeout m) now) (breaker_of m id) in
  let m' := run_call m (c, now) in
  manager_ok m' ∧
  default_failure_threshold m' = default_failure_threshold m ∧ default_timeout m' = default_timeout m ∧
  breaker_of m' id =
    apply_call (default_failure_threshold m) (default_timeout m) (breaker_of m id) (c, now) ∧
  (∀ id', id' ≠ id → breaker_of m' id' = breaker_of m id') ∧
  metrics m' = call_metrics c (allow_request cb0 now).1 (state cb0)
                 (from_option state Closed (breaker_of m' id)) (metrics m).
Proof.
  intros Hok. destruct c as [id|id|id|id]; cbn [call_id run_call].
  1-3: unfold manager_allow_request, manager_record_success, manager_record_failure;
       pose proof (get_breaker_spec m id now Hok) as G; destruct (get_breaker m id now) as [a m1];
       destruct G as (Hok1 & Ha & Hx & Ht & Hto & Hd & Hoth); rewrite Hd, Hx.
  - destruct (allow_request _ now) as [r cb] eqn:E. cbn [fst snd].
    destruct (write_arc_spec m1 id a cb
      (record_transition id (state (default (new (default_failure_threshold m) (default_timeout m) now)
         (breaker_of m id))) (state cb) (set_state_gauge id (state cb) (inc_requests id r (metrics m)))) Hok1 Ha)
      as (W1 & W2 & W3).
    split_and!; [done|done|done| | |].
    + rewrite W2. unfold apply_call. cbn. by rewrite E.
    + intros id' Hne. rewrite W3 by done. by apply Hoth.
    + rewrite W2. reflexivity.
  - match goal with |- context [write_arc m1 a ?cb ?x] =>
      destruct (write_arc_spec m1 id a cb x Hok1 Ha) as (W1 & W2 & W3) end.
    split_and!; [done|done|done|by rewrite W2| |].
    + intros id' Hne. rewrite W3 by done. by apply Hoth.
    + rewrite W2. reflexivity.
  - match goal with |- context [write_arc m1 a ?cb ?x] =>
      destruct (write_arc_spec m1 id a cb x Hok1 Ha) as (W1 & W2 & W3) end.
    split_and!; [done|done|done|by rewrite W2| |].
    + intros id' Hne. rewrite W3 by done. by apply Hoth.
    + rewrite W2. reflexivity.
  - cbn. split_and!; [|done|done| | |done].
    + destruct Hok as [R I]. split; cbn; intros *; rewrite ?lookup_delete_Some; naive_solver.
    + unfold breaker_of. cbn. by rewrite lookup_delete_eq.
    + intros id' Hne. unfold breaker_of. cbn. by rewrite lookup_delete_ne.
Qed.

(** ** Counting *)
Definition count (id : string) (f : call → bool) (cs : list (call * Z)) : Z :=
  Z.of_nat (length (filter (λ c, f c.1 = true ∧ call_id c.1 = id) cs)).

Definition requests (x : Metrics) (id result : string) : Z := default 0 (requests_total x !! (id, result)).
Definition failures (x : Metrics) (id : string) : Z := default 0 (failures_total x !! id).
Definition transitions (x : Metrics) (id : string) (from to : CircuitState) : Z :=
  default 0 (transitions_total x !! (id, state_to_str from, state_to_str to)).

Definition all_states : list CircuitState := [Closed; Open; HalfOpen].

(** Recorded transitions into a state less those out of it. *)
Definition net (x : Metrics) (id : string) (s : CircuitState) : Z :=
  foldr (λ t acc, transitions x id t s - transitions x id s t + acc) 0 all_states.

Definition indicator (s t : CircuitState) : Z := if decide (s = t) then 1 else 0.

Lemma inc_lookup `{Countable K} (k k' : K) (c : gmap K Z) :
  default 0 (inc k c !! k') = default 0 (c !! k') + (if decide (k = k') then 1 else 0).
Proof.
  unfold inc. destruct (decide (k = k')) as [<-|Hne].
  - by rewrite lookup_insert_eq.
  - rewrite lookup_insert_ne by done. lia.
Qed.

Lemma state_to_str_inj s t : state_to_str s = state_to_str t → s = t.
Proof. by destruct s, t. Qed.

Lemma record_transition_lookup x id id' old new from to :
  transitions (record_transition id old new x) id' from to =
    transitions x id' from to +
      (if decide (id = id' ∧ old ≠ new ∧ old = from ∧ new = to) then 1 else 0).
Proof.
  unfold record_transition, transitions. destruct (decide (old = new)) as [E|E].
  { rewrite decide_False by naive_solver. lia. }
  cbn. rewrite inc_lookup. f_equal. apply decide_ext. split.
  - intros [= -> ?%state_to_str_inj ?%state_to_str_inj]. naive_solver.
  - intros (-> & _ & -> & ->). done.
Qed.

Lemma net_record_transition x id old new s :
  net (record_transition id old new x) id s = net x id s + indicator new s - indicator old s.
Proof.
  unfold net, indicator. cbn. rewrite !record_transition_lookup.
  destruct old, new, s; repeat (rewrite ?decide_True by naive_solver; rewrite ?decide_False by naive_solver);
    repeat case_decide; naive_solver lia.
Qed.

(** What the metrics of one backend say after its calls [cs] left it as [ob]. *)
Record metrics_ok (id : string) (cs : list (call * Z)) (ob : option CircuitBreaker) (x : Metrics) : Prop := {
  mx_gauge : state_gauge x !! id = state_to_u64 ∘ state <$> ob;
  mx_failures : failures x id = count id is_failure cs;
  mx_requests : requests x id "allowed" + requests x id "rejected" = count id is_allow cs;
  mx_net : ∀ s, net x id s = indicator (from_option state Closed ob) s - indicator Closed s
}.

Lemma count_snoc id f cs c :
  count id f (cs ++ [c]) = count id f cs + (if decide (f c.1 = true ∧ call_id c.1 = id) then 1 else 0).
Proof.
  unfold count. rewrite filter_app, length_app. cbn. case_decide; cbn; lia.
Qed.

Lemma record_transition_gauge id old new x :
  state_gauge (record_transition id old new x) = state_gauge x.
Proof. unfold record_transition. by case_decide. Qed.

Lemma record_transition_failures id old new x :
  failures_total (record_transition id old new x) = failures_total x.
Proof. unfold record_transition. by case_decide. Qed.

Lemma record_transition_requests id old new x :
  requests_total (record_transition id old new x) = requests_total x.
Proof. unfold record_transition. by case_decide. Qed.

#[local] Hint Rewrite record_transition_gauge record_transition_failures record_transition_requests
  : transition_fields.

(** A call for another backend does not touch the metrics of this one. *)
Lemma call_metrics_other id c r old new x :
  call_id c ≠ id →
  state_gauge (call_metrics c r old new x) !! id = state_gauge x !! id ∧
  failures (call_metrics c r old new x) id = failures x id ∧
  (∀ res, requests (call_metrics c r old new x) id res = requests x id res) ∧
  (∀ s, net (call_metrics c r old new x) id s = net x id s).
Proof.
  intros Hne.
  assert (∀ y s, net (record_transition (call_id c) old new y) id s = net y id s) as Hnet.
  { intros y s. unfold net. cbn. rewrite !record_transition_lookup.
    rewrite !decide_False by naive_solver. lia. }
  destruct c as [k|k|k|k]; cbn in *; unfold failures, requests;
    autorewrite with transition_fields;
    cbn; rewrite ?lookup_insert_ne, ?inc_lookup by done;
    repeat split; intros; rewrite ?Hnet, ?inc_lookup, ?decide_False by naive_solver; try done; lia.
Qed.

Lemma call_metrics_own id c r cb0 cb x cs ob now :
  call_id c = id → is_remove c = false → state cb0 = from_option state Closed ob →
  metrics_ok id cs ob x →
  metrics_ok id (cs ++ [(c, now)]) (Some cb) (call_metrics c r (state cb0) (state cb) x).
Proof.
  intros <- Hr Hcb [G F R N].
  split; [| | |intros s]; rewrite ?count_snoc; destruct c as [k|k|k|k]; try done; cbn [call_id call_metrics] in *;
    unfold failures, requests in *;
    autorewrite with transition_fields; rewrite ?net_record_transition; cbn [state_gauge set_state_gauge];
    rewrite ?lookup_insert_eq; try done; cbn [failures_total requests_total inc_failures inc_requests set_state_gauge];
    rewrite ?inc_lookup; cbn [fst is_failure is_allow call_id].
  all: try (rewrite ?decide_True by done; rewrite ?decide_False by naive_solver; lia).
  all: try (change (net _ k s) with (net x k s); rewrite N, Hcb; cbn; lia).
  destruct r; rewrite ?(decide_True (P := (k, _) = (k, _))) by done; rewrite ?(decide_False (P := (k, _) = (k, _))) by done;
    rewrite ?decide_True by done; lia.
Qed.

Lemma calls_for_snoc id cs c :
  calls_for id (cs ++ [c]) = calls_for id cs ++ (if decide (call_id c.1 = id) then [c] else []).
Proof. unfold calls_for. rewrite filter_app. f_equal. Qed.

Definition replay (thr timeout : Z) (cs : list (call * Z)) : option CircuitBreaker :=
  foldl (apply_call thr timeout) None cs.

Lemma run_calls_spec thr timeout cs :
  let m := run_calls (manager_new thr timeout) cs in
  manager_ok m ∧ default_failure_threshold m = thr ∧ default_timeout m = timeout ∧
  ∀ id, breaker_of m id = replay thr timeout (calls_for id cs).
Proof.
  induction cs as [|[c now] cs IH] using rev_ind; cbn in *.
  { by split_and!. }
  unfold run_calls in *. rewrite foldl_app. cbn [foldl].
  set (m := foldl run_call _ cs) in *. destruct IH as (Hok & Ht & Hto & Hb).
  destruct (run_call_spec m c now Hok) as (Hok' & Ht' & Hto' & Hown & Hoth & _).
  split_and!; [done|congruence|congruence|].
  intros id. rewrite calls_for_snoc. cbn [fst]. case_decide as E.
  - subst id. rewrite Hown, Hb, Ht, Hto. unfold replay. by rewrite foldl_app.
  - rewrite app_nil_r, <- Hb. by apply Hoth.
Qed.

(** The manager keeps one independent breaker per backend.  After any sequence
of calls, removals included, the breaker of a backend is the one its own calls
alone produce, and the next [allow_request] answers as that breaker does. *)
Theorem manager_isolates_backends thr timeout cs id now :
  let m := run_calls (manager_new thr timeout) cs in
  let own := replay thr timeout (calls_for id cs) in
  breaker_of m id = own ∧ get_state m id = state <$> own ∧
  (manager_allow_request m id now).1 = (allow_request (default (new thr timeout now) own) now).1.
Proof.
  intros m own. destruct (run_calls_spec thr timeout cs) as (Hok & Ht & Hto & Hb). fold m in Hok, Ht, Hto, Hb.
  split_and!; [apply Hb| |].
  - unfold own. rewrite <- Hb. unfold get_state, breaker_of. by destruct (breakers m !! id).
  - unfold manager_allow_request. pose proof (get_breaker_spec m id now Hok) as G.
    destruct (get_breaker m id now) as [a m1]. destruct G as (_ & _ & _ & _ & _ & -> & _).
    rewrite Hb, Ht, Hto. fold own. by destruct (allow_request _ now).
Qed.

Lemma apply_call_some thr timeout ob c now :
  is_remove c = false → ∃ cb, apply_call thr timeout ob (c, now) = Some cb.
Proof. destruct c; cbn; eauto; done. Qed.

Lemma state_new thr timeout now : state (new thr timeout now) = Closed.
Proof. reflexivity. Qed.

(** The metrics of a backend that is not removed are exact after any sequence
of calls: the gauge is its current state, the failure counter counts its
[record_failure] calls, allowed plus rejected counts its [allow_request] calls,
and transitions are conserved: those into a state less those out of it is one for
the current state, counted from Closed. *)
Theorem manager_metrics_exact thr timeout cs id :
  Forall (λ c, call_id c.1 = id → is_remove c.1 = false) cs →
  let m := run_calls (manager_new thr timeout) cs in
  metrics_ok id cs (breaker_of m id) (metrics m).
Proof.
  induction cs as [|[c now] cs IH] using rev_ind; cbn.
  { intros _. unfold breaker_of. cbn. split; try done; by intros []. }
  intros [Hcs [Hc _]%Forall_cons_1]%Forall_app. specialize (IH Hcs). cbn in IH.
  destruct (run_calls_spec thr timeout cs) as (Hok & _). unfold run_calls in *. rewrite foldl_app. cbn [foldl].
  set (m := foldl run_call _ cs) in *.
  destruct (run_call_spec m c now Hok) as (_ & _ & _ & Hown & Hoth & ->).
  destruct (decide (call_id c = id)) as [<-|Hne].
  - destruct (apply_call_some (default_failure_threshold m) (default_timeout m) (breaker_of m (call_id c)) c now)
      as [cb Hcb]; [by apply Hc|]. rewrite Hown, Hcb. cbn [from_option].
    apply call_metrics_own with (ob := breaker_of m (call_id c)); [done|by apply Hc| |done].
    by destruct (breaker_of m (call_id c)).
  - rewrite (Hoth id) by done. destruct IH as [G F R N].
    destruct (call_metrics_other id c
      (allow_request (default (new (default_failure_threshold m) (default_timeout m) now) (breaker_of m (call_id c))) now).1
      (state (default (new (default_failure_threshold m) (default_timeout m) now) (breaker_of m (call_id c))))
      (from_option state Closed (breaker_of (run_call m (c, now)) (call_id c))) (metrics m) Hne) as (E1 & E2 & E3 & E4).
    split; [by rewrite E1| | |]; intros; rewrite ?count_snoc, ?decide_False, ?E2, ?E3, ?E4 by naive_solver;
      [by rewrite F; lia|rewrite R; lia|apply N].
Qed.

Definition sample_calls : list (call * Z) :=
  [(CallAllow "10.0.0.1:80", 1); (CallFailure "10.0.0.1:80", 2); (CallRemove "10.0.0.2:80", 3)].

Lemma manager_metrics_exact_witness :
  let m := run_calls (manager_new 1 1000) sample_calls in
  metrics_ok "10.0.0.1:80" sample_calls (breaker_of m "10.0.0.1:80") (metrics m).
Proof.
  apply (manager_metrics_exact 1 1000 sample_calls "10.0.0.1:80").
  repeat constructor; cbn; try done; discriminate.
Defined.
