(* ===== verification/Float.v ===== *)
(** * Float: Rust's [f64]

IEEE 754 binary64 on the executable specification of the standard library
([SpecFloat], precision 53, exponent bound 1024), with the conversions the proxy
uses: [as f64] (round to nearest even) and the saturating casts of a float to an
integer. *)

From S2P Require Import Prelude.
From Stdlib Require Export SpecFloat.

#[local] Open Scope Z_scope.

Abbreviation f64 := spec_float.

Definition f64_of_Z (n : Z) : f64 := binary_normalize 53 1024 n 0 false.
Definition f64_mul (x y : f64) : f64 := SFmul 53 1024 x y.
Definition f64_div (x y : f64) : f64 := SFdiv 53 1024 x y.
Definition f64_leb (x y : f64) : bool := SFleb x y.
Definition f64_ltb (x y : f64) : bool := SFltb x y.

(** [f64::min]: the other operand when one of them is not a number. *)
Definition f64_min (x y : f64) : f64 :=
  match x, y with
  | S754_nan, _ => y
  | _, S754_nan => x
  | _, _ => if f64_ltb y x then y else x
  end.

(** The integer part of a finite float, towards zero. *)
Definition f64_trunc (m : positive) (e : Z) : Z :=
  match e with
  | Z0 => Zpos m
  | Zpos _ => Z.shiftl (Zpos m) e
  | Zneg k => Z.shiftr (Zpos m) (Zpos k)
  end.

(** [x as u64] and [x as i64]: not a number gives 0, and the rest saturates. *)
Definition f64_as_u64 (x : f64) : Z :=
  match x with
  | S754_nan | S754_zero _ | S754_finite true _ _ | S754_infinity true => 0
  | S754_infinity false => 2 ^ 64 - 1
  | S754_finite false m e => Z.min (f64_trunc m e) (2 ^ 64 - 1)
  end.

Definition f64_as_i64 (x : f64) : Z :=
  match x with
  | S754_nan | S754_zero _ => 0
  | S754_infinity s => if s then - 2 ^ 63 else 2 ^ 63 - 1
  | S754_finite false m e => Z.min (f64_trunc m e) (2 ^ 63 - 1)
  | S754_finite true m e => Z.max (- f64_trunc m e) (- 2 ^ 63)
  end.

(** [f64::ceil] and [f64::floor]: the next integer, which a double holds exactly. *)
Definition f64_ceil (x : f64) : f64 :=
  match x with
  | S754_finite negative m (Zneg k) =>
      let q := Z.shiftr (Zpos m) (Zpos k) in
      let exact := Z.shiftl q (Zpos k) =? Zpos m in
      if negative then binary_normalize 53 1024 (- q) 0 true
      else f64_of_Z (if exact then q else q + 1)
  | _ => x
  end.

Definition f64_floor (x : f64) : f64 :=
  match x with
  | S754_finite negative m (Zneg k) =>
      let q := Z.shiftr (Zpos m) (Zpos k) in
      let exact := Z.shiftl q (Zpos k) =? Zpos m in
      if negative then f64_of_Z (- (if exact then q else q + 1)) else f64_of_Z q
  | _ => x
  end.

Definition f64_sub (x y : f64) : f64 := SFsub 53 1024 x y.

(** [f64::max]: the other operand when one of them is not a number. *)
Definition f64_max (x y : f64) : f64 :=
  match x, y with
  | S754_nan, _ => y
  | _, S754_nan => x
  | _, _ => if f64_ltb x y then y else x
  end.

(** ** Small integers are exact *)

(** [p] shifted left by [k] bits. *)
Fixpoint zeros (k : nat) (p : positive) : positive :=
  match k with
  | O => p
  | S k => xO (zeros k p)
  end.

Lemma zeros_Z k p : Zpos (zeros k p) = Zpos p * 2 ^ Z.of_nat k.
Proof.
  induction k as [|k IH]; [cbn; lia|].
  change (Zpos (zeros (S k) p)) with (2 * Zpos (zeros k p)).
  rewrite IH, Nat2Z.inj_succ, Z.pow_succ_r by lia. lia.
Qed.

Lemma digits_bound p : (Zpos p < 2 ^ Zpos (digits2_pos p)) ∧ 2 ^ (Zpos (digits2_pos p) - 1) <= Zpos p.
Proof.
  induction p as [p IH|p IH|]; cbn [digits2_pos]; [| |cbn; lia];
    rewrite Pos2Z.inj_succ, Z.pow_succ_r by lia;
    replace (Z.succ (Zpos (digits2_pos p)) - 1) with (Z.succ (Zpos (digits2_pos p) - 1)) by lia;
    rewrite Z.pow_succ_r by lia; lia.
Qed.

Lemma digits_small p n : 0 < n → Zpos p < 2 ^ n → Zpos (digits2_pos p) <= n.
Proof.
  intros Hn Hp. destruct (digits_bound p) as [_ Hl].
  destruct (Z.le_gt_cases (Zpos (digits2_pos p)) n) as [|Hgt]; [done|].
  assert (2 ^ n <= 2 ^ (Zpos (digits2_pos p) - 1)) by (apply Z.pow_le_mono_r; lia). lia.
Qed.

Lemma digits_zeros k p : Zpos (digits2_pos (zeros k p)) = Z.of_nat k + Zpos (digits2_pos p).
Proof. induction k as [|k IH]; cbn [zeros digits2_pos]; lia. Qed.

Lemma iter_zeros k p : Pos.iter xO p k = zeros (Pos.to_nat k) p.
Proof.
  induction k as [|k IH] using Pos.peano_ind; [done|].
  rewrite Pos.iter_succ, IH, Pos2Nat.inj_succ. done.
Qed.

(** A mantissa of 53 digits in the normal range is not rounded. *)
Definition in_range (e : Z) : Prop := -1074 <= e <= 971.

Lemma shr_fexp_normal m e :
  Zpos (digits2_pos m) = 53 → in_range e →
  shr_fexp 53 1024 (Zpos m) e loc_Exact = (Build_shr_record (Zpos m) false false, e).
Proof.
  intros Hm [??]. unfold shr_fexp, fexp, emin. cbn [Zdigits2 shr_record_of_loc]. rewrite Hm.
  replace (_ - e) with 0 by lia. done.
Qed.

Lemma round_normal m e :
  Zpos (digits2_pos m) = 53 → in_range e →
  binary_round_aux 53 1024 false (Zpos m) e loc_Exact = S754_finite false m e.
Proof.
  intros Hm He. unfold binary_round_aux. rewrite shr_fexp_normal by done.
  cbn [shr_m loc_of_shr_record round_nearest_even]. rewrite shr_fexp_normal by done. cbn [shr_m].
  destruct (_ <=? _) eqn:E; zbool; [done|]. unfold in_range in He. lia.
Qed.

(** The 52 zero digits of a product with a power of two are shifted out exactly. *)
Lemma round_shifted m e :
  Zpos (digits2_pos m) = 53 → in_range e → in_range (e + 52) →
  binary_round_aux 53 1024 false (Zpos (zeros 52 m)) e loc_Exact = S754_finite false m (e + 52).
Proof.
  intros Hm He He'. unfold binary_round_aux.
  assert (shr_fexp 53 1024 (Zpos (zeros 52 m)) e loc_Exact
          = (Build_shr_record (Zpos m) false false, e + 52)) as ->.
  { unfold shr_fexp, fexp, emin. cbn [Zdigits2 shr_record_of_loc]. rewrite digits_zeros, Hm.
    unfold in_range in *. replace (_ - e) with 52 by lia. reflexivity. }
  cbn [shr_m loc_of_shr_record round_nearest_even]. rewrite shr_fexp_normal by done. cbn [shr_m].
  destruct (_ <=? _) eqn:E; zbool; [done|]. unfold in_range in He'. lia.
Qed.

(** The normalised float of a positive integer of fewer than 53 bits. *)
Definition normal (p : positive) : f64 :=
  let d := Zpos (digits2_pos p) in S754_finite false (zeros (Z.to_nat (53 - d)) p) (d - 53).

Lemma digits_normal p :
  Zpos (digits2_pos p) <= 53 → Zpos (digits2_pos (zeros (Z.to_nat (53 - Zpos (digits2_pos p))) p)) = 53.
Proof. intros ?. rewrite digits_zeros. lia. Qed.

Lemma f64_of_pos p : Zpos p < 2 ^ 52 → f64_of_Z (Zpos p) = normal p.
Proof.
  intros Hp%digits_small; [|lia]. unfold f64_of_Z, normal. cbn [binary_normalize].
  unfold binary_round, shl_align, fexp, emin.
  pose proof (digits_normal p ltac:(lia)) as Hn. set (d := Zpos (digits2_pos p)) in *.
  assert (0 < d) by (unfold d; lia).
  replace (Z.max _ _) with (d - 53) by lia. rewrite Z.sub_0_r.
  destruct (d - 53) as [|k|k] eqn:Ek; [lia|lia|]. rewrite iter_zeros.
  replace (Pos.to_nat k) with (Z.to_nat (53 - d)) by lia.
  apply round_normal; [done|]. unfold in_range. lia.
Qed.

Definition pow16 : f64 := f64_of_Z 65536.

Lemma pow16_eq : pow16 = S754_finite false (zeros 52 1) (-36).
Proof. reflexivity. Qed.

(** Scaling an integer of at most 52 bits by 2^16 is exact. *)
Lemma f64_mul_pow16 n : 0 <= n < 2 ^ 48 → f64_as_u64 (f64_mul (f64_of_Z n) pow16) = n * 2 ^ 16.
Proof.
  intros [Hn Hb]. destruct n as [|p|p]; [done| |lia].
  rewrite f64_of_pos, pow16_eq by lia. apply digits_small in Hb as Hd; [|lia].
  unfold f64_mul, normal. cbn [SFmul xorb]. set (d := Zpos (digits2_pos p)) in *.
  set (m := zeros (Z.to_nat (53 - d)) p). assert (0 < d) by (unfold d; lia).
  assert (m * zeros 52 1 = zeros 52 m)%positive as ->.
  { apply Pos2Z.inj. rewrite Pos2Z.inj_mul, !zeros_Z. lia. }
  rewrite round_shifted; [|subst m d; apply digits_normal; lia|unfold in_range; lia|unfold in_range; lia].
  assert (f64_trunc m (d - 53 + -36 + 52) = Zpos p * 2 ^ 16) as Et; [|cbn [f64_as_u64]; rewrite Et, Z.min_l; [done|lia]].
  replace (d - 53 + -36 + 52) with (d - 37) by lia. subst m. unfold f64_trunc.
  destruct (d - 37) as [|k|k] eqn:Ek.
  - rewrite zeros_Z. do 2 f_equal. lia.
  - rewrite Z.shiftl_mul_pow2, zeros_Z by lia. rewrite <- Z.mul_assoc, <- Z.pow_add_r by lia.
    do 2 f_equal. lia.
  - rewrite Z.shiftr_div_pow2, zeros_Z by lia.
    replace (Z.of_nat (Z.to_nat (53 - d))) with (16 + Zpos k) by lia.
    rewrite Z.pow_add_r, Z.mul_assoc by lia. apply Z.div_mul. lia.
Qed.

(** ** Division rounds to nearest *)
Lemma digits_eq p n : 0 < n → 2 ^ (n - 1) <= Zpos p < 2 ^ n → Zpos (digits2_pos p) = n.
Proof.
  intros Hn [Hl Hu]. apply digits_small in Hu; [|done]. destruct (digits_bound p) as [Hd _].
  destruct (Z.le_gt_cases n (Zpos (digits2_pos p))) as [|Hgt]; [lia|].
  assert (2 ^ Zpos (digits2_pos p) <= 2 ^ (n - 1)) by (apply Z.pow_le_mono_r; lia). lia.
Qed.

(** The position of the remainder [r] between two quotients of [m]. *)
Definition locate (m r : Z) : location :=
  if r =? 0 then loc_Exact else loc_Inexact (2 * r ?= m).

Lemma new_location_spec m r : 0 <= r < m → new_location m r = locate m r.
Proof.
  intros Hr. unfold new_location, new_location_even, new_location_odd, locate.
  destruct (Z.even m) eqn:E; destruct (r =? 0) eqn:E0; zbool; try done.
  assert (2 * r ≠ m) as Hne by (intros <-; by rewrite Z.even_mul in E). f_equal.
  destruct (2 * r + 1 ?= m) eqn:E1; [apply Z.compare_eq_iff in E1|rewrite Z.compare_lt_iff in E1|
    rewrite Z.compare_gt_iff in E1]; symmetry; [apply Z.compare_lt_iff|apply Z.compare_lt_iff|apply Z.compare_gt_iff]; lia.
Qed.

Lemma round_even_spec q r m :
  0 <= r < m →
  let q' := round_nearest_even q (locate m r) in
  (q' = q ∨ q' = q + 1) ∧ 2 * Z.abs (q' * m - (q * m + r)) <= m.
Proof.
  intros Hr. unfold locate. destruct (r =? 0) eqn:E; zbool; cbn [round_nearest_even]; [lia|].
  destruct (2 * r ?= m) eqn:E1; [apply Z.compare_eq_iff in E1|rewrite Z.compare_lt_iff in E1|
    rewrite Z.compare_gt_iff in E1]; [destruct (Z.even q)|..]; lia.
Qed.

Lemma shr_1_pos x r s :
  shr_1 (Build_shr_record (Zpos x) r s) = Build_shr_record (Zpos x / 2) (Z.odd (Zpos x)) (r || s).
Proof. rewrite <- Z.div2_div. by destruct x. Qed.

(** A 54-digit quotient gives up its last digit to the remainder. *)
Lemma shr_1_locate q r m :
  0 <= r < m → 0 < q →
  ∃ r', shr_1 (shr_record_of_loc q (locate m r)) =
        shr_record_of_loc (q / 2) (locate (2 * m) r') ∧
    0 <= r' < 2 * m ∧ q * m + r = (q / 2) * (2 * m) + r'.
Proof.
  intros Hr Hq. exists ((q mod 2) * m + r).
  pose proof (Z.div_mod q 2 ltac:(lia)). pose proof (Z.mod_pos_bound q 2 ltac:(lia)).
  split; [|split; [nia|nia]].
  destruct q as [|q|q]; [lia| |lia]. unfold locate. rewrite Zmod_odd.
  assert (∀ c, shr_1 (shr_record_of_loc (Zpos q) (loc_Inexact c)) =
            Build_shr_record (Zpos q / 2) (Z.odd (Zpos q)) true) as Hin.
  { intros []; cbn [shr_record_of_loc]; by rewrite shr_1_pos. }
  destruct (r =? 0) eqn:E; zbool; [cbn [shr_record_of_loc]; rewrite shr_1_pos|rewrite Hin];
    destruct (Z.odd (Zpos q)); destruct (_ =? 0) eqn:E'; zbool; try lia; try done;
    rename E' into Hnz.
  - by replace (2 * (1 * m + r) ?= 2 * m) with Eq by (symmetry; apply Z.compare_eq_iff; lia).
  - by replace (2 * (1 * m + r) ?= 2 * m) with Gt by (symmetry; apply Z.compare_gt_iff; lia).
  - by replace (2 * (0 * m + r) ?= 2 * m) with Lt by (symmetry; apply Z.compare_lt_iff; lia).
Qed.

(** The second normalisation after rounding: at most one carry. *)
Lemma round_carry q e :
  2 ^ 52 <= q <= 2 ^ 53 → in_range e → in_range (e + 1) →
  ∃ m j, 0 <= j <= 1 ∧ Zpos m * 2 ^ j = q ∧ Zpos (digits2_pos m) = 53 ∧
    shr_fexp 53 1024 q e loc_Exact = (Build_shr_record (Zpos m) false false, e + j).
Proof.
  intros Hq He He'. destruct q as [|q|q]; [lia| |lia].
  destruct (decide (Zpos q = 2 ^ 53)) as [E|E].
  - exists (2 ^ 52)%positive, 1. split; [lia|]. split; [by rewrite E|]. split; [done|]. rewrite E.
    unfold shr_fexp, fexp, emin. cbn [Zdigits2 shr_record_of_loc]. change (Zdigits2 (2 ^ 53)) with 54.
    unfold in_range in *. replace (_ - e) with 1 by lia. reflexivity.
  - exists q, 0. split; [lia|]. split; [lia|]. rewrite Z.add_0_r.
    assert (Zpos (digits2_pos q) = 53) as Hd by (apply digits_eq; lia).
    split; [done|]. by apply shr_fexp_normal.
Qed.

Lemma round_finish q e :
  2 ^ 52 <= q <= 2 ^ 53 → in_range e → in_range (e + 1) →
  ∃ m j, 0 <= j <= 1 ∧ Zpos m * 2 ^ j = q ∧ Zpos (digits2_pos m) = 53 ∧
    (let '(mrs, e') := shr_fexp 53 1024 q e loc_Exact in
     match shr_m mrs with
     | Z0 => S754_zero false
     | Zpos m => if e' <=? 1024 - 53 then S754_finite false m e' else S754_infinity false
     | Zneg _ => S754_nan
     end) = S754_finite false m (e + j).
Proof.
  intros Hq He He'. destruct (round_carry q e Hq He He') as (m & j & Hj & Hm & Hd & ->).
  exists m, j. split_and!; try done; try lia. cbn [shr_m].
  destruct (_ <=? _) eqn:E; zbool; [done|]. unfold in_range in *. lia.
Qed.

Lemma loc_of_record q l : loc_of_shr_record (shr_record_of_loc q l) = l.
Proof. by destruct l as [|[]]. Qed.

Lemma shr_m_record q l : shr_m (shr_record_of_loc q l) = q.
Proof. by destruct l as [|[]]. Qed.

(** Rounding the quotient [q], remainder [r] of a number by [m]. *)
Lemma round_quotient q r m e :
  0 <= r < m → 2 ^ 52 <= q < 2 ^ 54 → in_range e → in_range (e + 2) →
  ∃ x j, 0 <= j <= 2 ∧ Zpos (digits2_pos x) = 53 ∧
    binary_round_aux 53 1024 false q e (locate m r) = S754_finite false x (e + j) ∧
    2 * Z.abs (Zpos x * 2 ^ j * m - (q * m + r)) <= 2 ^ j * m.
Proof.
  intros Hr Hq He He2. unfold in_range in *. unfold binary_round_aux.
  destruct (Z.lt_ge_cases q (2 ^ 53)) as [Hlt|Hge].
  - assert (shr_fexp 53 1024 q e (locate m r) = (shr_record_of_loc q (locate m r), e)) as ->.
    { destruct q as [|q|q]; [lia| |lia]. unfold shr_fexp, fexp, emin. cbn [Zdigits2].
      rewrite (digits_eq q 53) by lia. replace (_ - e) with 0 by lia. done. }
    rewrite shr_m_record, loc_of_record. destruct (round_even_spec q r m Hr) as [Hq' Herr].
    set (q' := round_nearest_even _ _) in *.
    destruct (round_finish q' e) as (x & j & Hj & Hx & Hd & ->); [lia|unfold in_range; lia..|].
    exists x, j. split_and!; [lia|lia|done|done|]. rewrite Hx.
    assert (j = 0 ∨ j = 1) as [->| ->] by lia; lia.
  - destruct (shr_1_locate q r m Hr ltac:(lia)) as (r' & Hs & Hr' & Hn).
    assert (shr_fexp 53 1024 q e (locate m r) = (shr_record_of_loc (q / 2) (locate (2 * m) r'), e + 1)) as ->.
    { rewrite <- Hs. destruct q as [|q|q]; [lia| |lia]. unfold shr_fexp, fexp, emin. cbn [Zdigits2].
      rewrite (digits_eq q 54) by lia. replace (_ - e) with 1 by lia. done. }
    rewrite shr_m_record, loc_of_record. destruct (round_even_spec (q / 2) r' (2 * m) Hr') as [Hq' Herr].
    set (q' := round_nearest_even _ _) in *.
    pose proof (Z.div_mod q 2 ltac:(lia)). pose proof (Z.mod_pos_bound q 2 ltac:(lia)).
    destruct (round_finish q' (e + 1)) as (x & j & Hj & Hx & Hd & ->); [lia|unfold in_range; lia..|].
    exists x, (j + 1). rewrite Z.pow_add_r by lia. change (2 ^ 1) with 2.
    split_and!; [lia|lia|done|f_equal; lia|]. rewrite Z.mul_assoc, Hx, Hn.
    assert (j = 0 ∨ j = 1) as [->| ->] by lia; lia.
Qed.

Lemma f64_div_nearest a b :
  0 < a < 2 ^ 52 → 0 < b < 2 ^ 52 →
  ∃ m k, 0 <= k ∧ Zpos (digits2_pos m) = 53 ∧
    f64_div (f64_of_Z a) (f64_of_Z b) = S754_finite false m (- k) ∧
    2 * Z.abs (Zpos m * b - a * 2 ^ k) <= b.
Proof.
  intros [Ha1 Ha2] [Hb1 Hb2]. destruct a as [|a|a]; [lia| |lia]. destruct b as [|b|b]; [lia| |lia].
  rewrite !f64_of_pos by done. apply digits_small in Ha2 as Hda, Hb2 as Hdb; [|lia..].
  pose proof (digits_normal a ltac:(lia)) as Na. pose proof (digits_normal b ltac:(lia)) as Nb.
  pose proof (zeros_Z (Z.to_nat (53 - Zpos (digits2_pos a))) a) as Za.
  pose proof (zeros_Z (Z.to_nat (53 - Zpos (digits2_pos b))) b) as Zb.
  unfold normal. set (da := Zpos (digits2_pos a)) in *. set (db := Zpos (digits2_pos b)) in *.
  assert (1 <= da) by (unfold da; lia). assert (1 <= db) by (unfold db; lia).
  rewrite Z2Nat.id in Za, Zb by lia.
  set (ma := zeros _ a) in *. set (mb := zeros _ b) in *.
  unfold f64_div. cbn [SFdiv xorb]. unfold SFdiv_core_binary. cbn [Zdigits2]. rewrite Na, Nb.
  unfold fexp, emin.
  replace (Z.min _ _) with (da - db - 53) by lia.
  replace (da - 53 - (db - 53) - (da - db - 53)) with 53 by lia. cbv iota beta.
  rewrite Z.shiftl_mul_pow2 by lia.
  pose proof (Z.div_mod (Zpos ma * 2 ^ 53) (Zpos mb) ltac:(lia)) as Hdm.
  pose proof (Z.mod_pos_bound (Zpos ma * 2 ^ 53) (Zpos mb) ltac:(lia)) as Hr.
  unfold Z.div, Z.modulo in Hdm, Hr.
  destruct (Z.div_eucl (Zpos ma * 2 ^ 53) (Zpos mb)) as [q r].
  rewrite new_location_spec by done.
  pose proof (digits_bound ma) as [Ba1 Ba2]. pose proof (digits_bound mb) as [Bb1 Bb2]. rewrite Na in *. rewrite Nb in *.
  change (2 ^ (53 - 1)) with (2 ^ 52) in *.
  destruct (round_quotient q r (Zpos mb) (da - db - 53)) as (m & j & Hj & Hd & -> & Herr);
    [done|split; nia|unfold in_range; lia|unfold in_range; lia|].
  exists m, (53 + db - da - j). split; [lia|]. split; [done|]. split; [f_equal; lia|].
  (* scale the error bound down by the common powers of two *)
  assert (q * Zpos mb + r = Zpos a * 2 ^ (53 + db - da - j) * 2 ^ j * 2 ^ (53 - db)) as E.
  { rewrite Z.mul_comm, <- Hdm, Za. rewrite <- !Z.mul_assoc, <- !Z.pow_add_r by lia. do 2 f_equal. lia. }
  rewrite E, Zb in Herr.
  replace (Zpos m * 2 ^ j * (Zpos b * 2 ^ (53 - db)) - Zpos a * 2 ^ (53 + db - da - j) * 2 ^ j * 2 ^ (53 - db))
    with ((Zpos m * Zpos b - Zpos a * 2 ^ (53 + db - da - j)) * (2 ^ j * 2 ^ (53 - db))) in Herr by lia.
  assert (0 < 2 ^ j * 2 ^ (53 - db)) as Hpos by (apply Z.mul_pos_pos; apply Z.pow_pos_nonneg; lia).
  rewrite Z.abs_mul, (Z.abs_eq (2 ^ j * _)) in Herr by lia. nia.
Qed.

(** The literal [0.5]. *)
Definition half : f64 := S754_finite false 4503599627370496 (-53).

Lemma normal_mantissa m : Zpos (digits2_pos m) = 53 → 2 ^ 52 <= Zpos m < 2 ^ 53.
Proof. intros Hd. destruct (digits_bound m) as [Hu Hl]. rewrite Hd in *. done. Qed.

Lemma compare_mantissa m n : Pos.compare_cont Eq m n = (Zpos m ?= Zpos n).
Proof. reflexivity. Qed.

(** Comparing a ratio of small integers with one half is exact. *)
Lemma f64_ratio_half a b :
  0 <= a < 2 ^ 50 → 0 < b < 2 ^ 50 → SFcompare (f64_div (f64_of_Z a) (f64_of_Z b)) half = Some (2 * a ?= b).
Proof.
  intros Ha Hb. destruct (decide (a = 0)) as [->|Hne].
  { destruct b as [|b|b]; [lia| |lia]. rewrite (f64_of_pos b) by lia. reflexivity. }
  destruct (f64_div_nearest a b) as (m & k & Hk & Hd & -> & Herr); [lia..|].
  apply normal_mantissa in Hd. unfold half. cbn [SFcompare].
  destruct (Z.lt_trichotomy k 53) as [Hlt|[->|Hgt]].
  - replace (- k ?= -53) with Gt by (symmetry; apply Z.compare_gt_iff; lia). f_equal. symmetry. apply Z.compare_gt_iff.
    assert (2 ^ k <= 2 ^ 52) by (apply Z.pow_le_mono_r; lia). nia.
  - change (- (53) ?= -53) with Eq. cbv iota. rewrite compare_mantissa. f_equal. symmetry.
    destruct (Z.compare_spec (Zpos m) 4503599627370496) as [E|E|E];
      [apply Z.compare_eq_iff; nia|lia|apply Z.compare_gt_iff; nia].
  - replace (- k ?= -53) with Lt by (symmetry; apply Z.compare_lt_iff; lia). f_equal. symmetry. apply Z.compare_lt_iff.
    assert (2 ^ 54 <= 2 ^ k) by (apply Z.pow_le_mono_r; lia). nia.
Qed.

(** The literal [1.0]; comparing a ratio with it is exact. *)
Definition f64_one : f64 := S754_finite false 4503599627370496 (-52).

Lemma f64_ratio_one a b :
  0 <= a < 2 ^ 50 → 0 < b < 2 ^ 50 → SFcompare (f64_div (f64_of_Z a) (f64_of_Z b)) f64_one = Some (a ?= b).
Proof.
  intros Ha Hb. destruct (decide (a = 0)) as [->|Hne].
  { destruct b as [|b|b]; [lia| |lia]. rewrite (f64_of_pos b) by lia. reflexivity. }
  destruct (f64_div_nearest a b) as (m & k & Hk & Hd & -> & Herr); [lia..|].
  apply normal_mantissa in Hd. unfold f64_one. cbn [SFcompare].
  destruct (Z.lt_trichotomy k 52) as [Hlt|[->|Hgt]].
  - replace (- k ?= -52) with Gt by (symmetry; apply Z.compare_gt_iff; lia). f_equal. symmetry. apply Z.compare_gt_iff.
    assert (2 ^ k <= 2 ^ 51) by (apply Z.pow_le_mono_r; lia). nia.
  - change (- (52) ?= -52) with Eq. cbv iota. rewrite compare_mantissa. f_equal. symmetry.
    destruct (Z.compare_spec (Zpos m) 4503599627370496) as [E|E|E];
      [apply Z.compare_eq_iff; nia|lia|apply Z.compare_gt_iff; nia].
  - replace (- k ?= -52) with Lt by (symmetry; apply Z.compare_lt_iff; lia). f_equal. symmetry. apply Z.compare_lt_iff.
    assert (2 ^ 53 <= 2 ^ k) by (apply Z.pow_le_mono_r; lia). nia.
Qed.

Lemma f64_ratio_nonneg a b :
  0 <= a < 2 ^ 50 → 0 < b < 2 ^ 50 → f64_leb (f64_of_Z 0) (f64_div (f64_of_Z a) (f64_of_Z b)) = true.
Proof.
  intros Ha Hb. destruct (decide (a = 0)) as [->|Hne].
  { destruct b as [|b|b]; [lia| |lia]. rewrite (f64_of_pos b) by lia. reflexivity. }
  by destruct (f64_div_nearest a b) as (m & k & Hk & Hd & -> & Herr); [lia..|].
Qed.

Lemma f64_ratio_le_half a b :
  0 <= a < 2 ^ 50 → 0 < b < 2 ^ 50 → f64_leb (f64_div (f64_of_Z a) (f64_of_Z b)) half = (2 * a <=? b).
Proof. intros Ha Hb. unfold f64_leb, SFleb. rewrite f64_ratio_half by done. by unfold Z.leb. Qed.

Lemma f64_ratio_lt_half a b :
  0 <= a < 2 ^ 50 → 0 < b < 2 ^ 50 → f64_ltb (f64_div (f64_of_Z a) (f64_of_Z b)) half = (2 * a <? b).
Proof. intros Ha Hb. unfold f64_ltb, SFltb. rewrite f64_ratio_half by done. by unfold Z.ltb. Qed.

(** Scaling a normal float below 2^48 by 2^16 and truncating. *)
Lemma f64_scale_trunc m k :
  Zpos (digits2_pos m) = 53 → 16 <= k <= 1000 →
  f64_as_u64 (f64_mul (S754_finite false m (- k)) pow16) = Zpos m * 2 ^ 16 / 2 ^ k.
Proof.
  intros Hd Hk. rewrite pow16_eq. unfold f64_mul. cbn [SFmul xorb].
  assert (m * zeros 52 1 = zeros 52 m)%positive as ->.
  { apply Pos2Z.inj. rewrite Pos2Z.inj_mul, !zeros_Z. lia. }
  rewrite round_shifted; [|done|unfold in_range; lia..].
  replace (- k + -36 + 52) with (- (k - 16)) by lia. pose proof (normal_mantissa m Hd) as [Hm1 Hm2].
  assert (f64_trunc m (- (k - 16)) = Zpos m * 2 ^ 16 / 2 ^ k) as E.
  { replace k with ((k - 16) + 16) at 2 by lia. rewrite Z.pow_add_r, Z.div_mul_cancel_r by lia.
    destruct (k - 16) as [|n|n] eqn:En; [by rewrite Z.div_1_r| |lia].
    change (f64_trunc m (- Zpos n)) with (Z.shiftr (Zpos m) (Zpos n)). by rewrite Z.shiftr_div_pow2 by lia. }
  cbn [f64_as_u64]. rewrite E, Z.min_l; [done|].
  assert (Zpos m * 2 ^ 16 / 2 ^ k <= Zpos m * 2 ^ 16 / 2 ^ 16).
  { apply Z.div_le_compat_l; [lia|]. split; [lia|]. apply Z.pow_le_mono_r; lia. }
  rewrite Z.div_mul in * by lia. lia.
Qed.

(** ** Rounding an exact integer *)
Lemma iter_pos_nat {A} (f : A → A) n x : iter_pos f n x = Nat.iter (Pos.to_nat n) f x.
Proof.
  revert x. induction n as [n IH|n IH|]; intros x; cbn [iter_pos]; [| |done].
  - rewrite !IH, <- Nat.iter_add, Pos2Nat.inj_xI. replace (S (2 * _)) with ((Pos.to_nat n + Pos.to_nat n) + 1)%nat by lia.
    by rewrite (Nat.iter_add (Pos.to_nat n + Pos.to_nat n) 1).
  - rewrite !IH, <- Nat.iter_add, Pos2Nat.inj_xO. f_equal. lia.
Qed.

Lemma shr_locate n : ∀ q r m,
  0 <= r < m → 2 ^ Z.of_nat n <= q →
  ∃ r', Nat.iter n shr_1 (shr_record_of_loc q (locate m r)) =
        shr_record_of_loc (q / 2 ^ Z.of_nat n) (locate (2 ^ Z.of_nat n * m) r') ∧
    0 <= r' < 2 ^ Z.of_nat n * m ∧ q * m + r = (q / 2 ^ Z.of_nat n) * (2 ^ Z.of_nat n * m) + r'.
Proof.
  induction n as [|n IH]; intros q r m Hr Hq.
  { change (2 ^ Z.of_nat 0) with 1. rewrite Z.div_1_r, Z.mul_1_l. exists r. done. }
  rewrite Nat2Z.inj_succ, Z.pow_succ_r in * by lia.
  destruct (IH q r m Hr) as (r1 & E1 & Hr1 & Hs1); [lia|]. rewrite Nat.iter_succ, E1.
  set (p := 2 ^ Z.of_nat n) in *. assert (0 < p) by (unfold p; lia).
  destruct (shr_1_locate (q / p) r1 (p * m)) as (r2 & E2 & Hr2 & Hs2).
  { done. } { apply Z.div_str_pos. lia. }
  exists r2. rewrite E2, Z.div_div by lia. rewrite (Z.mul_comm p 2).
  replace (2 * p * m) with (2 * (p * m)) by lia. split_and!; [done|lia|lia|].
  rewrite Z.div_div, (Z.mul_comm p 2) in Hs2 by lia. lia.
Qed.

(** An exact integer of more than 53 digits is rounded to its first 53. *)
Lemma round_exact q e n :
  0 < n → 2 ^ 52 * 2 ^ n <= q < 2 ^ 53 * 2 ^ n → in_range (e + n) → in_range (e + n + 1) →
  ∃ x j, 0 <= j <= 1 ∧ Zpos (digits2_pos x) = 53 ∧
    binary_round_aux 53 1024 false q e loc_Exact = S754_finite false x (e + n + j) ∧
    2 * Z.abs (Zpos x * 2 ^ j * 2 ^ n - q) <= 2 ^ n.
Proof.
  intros Hn Hq He He1. unfold in_range in *. assert (0 < 2 ^ n) as Hp by (apply Z.pow_pos_nonneg; lia).
  destruct (shr_locate (Z.to_nat n) q 0 1) as (r & Es & Hr & Hs); [lia|rewrite Z2Nat.id by lia; nia|].
  rewrite Z2Nat.id in * by lia. rewrite Z.mul_1_r in *.
  assert (shr_fexp 53 1024 q e loc_Exact = (shr_record_of_loc (q / 2 ^ n) (locate (2 ^ n) r), e + n)) as E.
  { change loc_Exact with (locate 1 0). rewrite <- Es. destruct q as [|q|q]; [lia| |lia].
    unfold shr_fexp, fexp, emin. cbn [Zdigits2]. rewrite (digits_eq q (53 + n)); [|lia|].
    - replace (_ - e) with n by lia. destruct n as [|n|n]; [lia| |lia]. cbn [shr].
      rewrite iter_pos_nat. rewrite Z2Nat.inj_pos. f_equal.
    - replace (53 + n - 1) with (52 + n) by lia. rewrite !Z.pow_add_r by lia. done. }
  unfold binary_round_aux. rewrite E, shr_m_record, loc_of_record.
  destruct (round_even_spec (q / 2 ^ n) r (2 ^ n) Hr) as [Hq' Herr]. set (q' := round_nearest_even _ _) in *.
  assert (2 ^ 52 <= q / 2 ^ n) by (apply Z.div_le_lower_bound; lia).
  assert (q / 2 ^ n < 2 ^ 53) by (apply Z.div_lt_upper_bound; lia).
  destruct (round_finish q' (e + n)) as (x & j & Hj & Hx & Hd & ->); [lia|unfold in_range; lia..|].
  exists x, j. split_and!; [lia|lia|done|done|]. rewrite Hx. lia.
Qed.

(** ** Integer parts *)
Lemma normal_shift p : Zpos p < 2 ^ 52 → ∃ m k, normal p = S754_finite false m (Zneg k) ∧ Zpos m = Zpos p * 2 ^ Zpos k.
Proof.
  intros Hp. apply digits_small in Hp as Hd; [|lia]. unfold normal. set (d := Zpos (digits2_pos p)) in *.
  assert (0 < d) by (unfold d; lia). destruct (d - 53) as [|k|k] eqn:Ek; [lia|lia|].
  eexists _, k. split; [done|]. rewrite zeros_Z. do 2 f_equal. lia.
Qed.

(** Whole numbers below 2^52 survive the way through a float. *)
Lemma f64_whole n : 0 <= n < 2 ^ 52 → f64_as_u64 (f64_of_Z n) = n.
Proof.
  intros Hn. destruct n as [|p|p]; [done| |lia]. rewrite f64_of_pos by lia.
  destruct (normal_shift p) as (m & k & -> & Hm); [lia|]. cbn [f64_as_u64 f64_trunc].
  rewrite Z.shiftr_div_pow2, Hm, Z.div_mul by lia. apply Z.min_l. lia.
Qed.

Lemma ceil_whole p : Zpos p < 2 ^ 52 → f64_as_u64 (f64_ceil (f64_of_Z (Zpos p))) = Zpos p.
Proof.
  intros Hp. rewrite f64_of_pos by done. destruct (normal_shift p Hp) as (m & k & -> & Hm). cbn [f64_ceil].
  rewrite Z.shiftr_div_pow2, Hm, Z.div_mul, Z.shiftl_mul_pow2, Z.eqb_refl by lia. apply f64_whole. lia.
Qed.

Lemma floor_as_u64 x c :
  Zpos (digits2_pos x) = 53 → 1 <= c → f64_as_u64 (f64_floor (S754_finite false x (- c))) = Zpos x / 2 ^ c.
Proof.
  intros Hx Hc. apply normal_mantissa in Hx. destruct c as [|c|c]; [lia| |lia].
  change (f64_floor (S754_finite false x (- Zpos c))) with (f64_of_Z (Z.shiftr (Zpos x) (Zpos c))).
  rewrite Z.shiftr_div_pow2 by lia. apply f64_whole. split; [apply Z.div_pos; lia|].
  apply Z.div_lt_upper_bound; [lia|]. assert (2 ^ 1 <= 2 ^ Zpos c) by (apply Z.pow_le_mono_r; lia). lia.
Qed.

(** The ceiling of a quotient of small integers is exact. *)
Lemma ceil_quotient a b :
  0 < a < 2 ^ 20 → 0 < b < 2 ^ 52 →
  f64_ceil (f64_div (f64_of_Z a) (f64_of_Z b)) = f64_of_Z ((a + b - 1) / b).
Proof.
  intros Ha Hb. destruct (f64_div_nearest a b) as (m & k & Hk & Hd & -> & Herr); [lia..|].
  apply normal_mantissa in Hd. set (c := (a + b - 1) / b).
  assert ((c - 1) * b < a <= c * b) as Hc.
  { pose proof (Z.div_mod (a + b - 1) b ltac:(lia)). pose proof (Z.mod_pos_bound (a + b - 1) b ltac:(lia)). unfold c. lia. }
  assert (0 < 2 ^ k) as Hp by (apply Z.pow_pos_nonneg; lia).
  assert (2 ^ 31 * b <= 2 ^ k) as Hbig by nia.
  assert (Zpos m <= c * 2 ^ k) by nia. assert ((c - 1) * 2 ^ k < Zpos m) by nia.
  destruct k as [|k|k]; [cbn in *; nia| |lia].
  change (f64_ceil (S754_finite false m (- Zpos k))) with
    (f64_of_Z (if Z.shiftl (Z.shiftr (Zpos m) (Zpos k)) (Zpos k) =? Zpos m then Z.shiftr (Zpos m) (Zpos k)
               else Z.shiftr (Zpos m) (Zpos k) + 1)).
  rewrite Z.shiftr_div_pow2, Z.shiftl_mul_pow2 by lia. f_equal.
  destruct (_ =? _) eqn:E; zbool.
  - assert (c <= Zpos m / 2 ^ Zpos k) by nia. assert (Zpos m / 2 ^ Zpos k <= c) by (apply Z.div_le_upper_bound; lia). lia.
  - pose proof (Z.div_mod (Zpos m) (2 ^ Zpos k) ltac:(lia)). pose proof (Z.mod_pos_bound (Zpos m) (2 ^ Zpos k) ltac:(lia)).
    nia.
Qed.

(** ** Not a number never comes from finite operands *)
Lemma shr_1_nonneg r : 0 <= shr_m r → 0 <= shr_m (shr_1 r).
Proof. destruct r as [[|[| |]|p] ? ?]; cbn; lia. Qed.

Lemma shr_fexp_nonneg m e l : 0 <= m → 0 <= shr_m (shr_fexp 53 1024 m e l).1.
Proof.
  intros Hm. unfold shr_fexp, shr. assert (0 <= shr_m (shr_record_of_loc m l)) as H by (by rewrite shr_m_record).
  destruct (_ - e) as [|n|n]; cbn [fst]; [done| |done]. rewrite iter_pos_nat.
  induction (Pos.to_nat n) as [|k IH]; [done|]. rewrite Nat.iter_succ. by apply shr_1_nonneg.
Qed.

Lemma round_not_nan s m e l : 0 <= m → binary_round_aux 53 1024 s m e l ≠ S754_nan.
Proof.
  intros Hm. unfold binary_round_aux. pose proof (shr_fexp_nonneg m e l Hm) as H1.
  destruct (shr_fexp 53 1024 m e l) as [r1 e1]. cbn [fst] in H1.
  assert (0 <= round_nearest_even (shr_m r1) (loc_of_shr_record r1)) as H2.
  { unfold round_nearest_even. repeat case_match; lia. }
  pose proof (shr_fexp_nonneg _ e1 loc_Exact H2) as H3.
  destruct (shr_fexp 53 1024 (round_nearest_even _ _) e1 loc_Exact) as [r2 e2]. cbn [fst] in H3.
  destruct (shr_m r2); [done| |lia]. by destruct (_ <=? _).
Qed.

Definition is_finite (x : f64) : bool := match x with S754_zero _ | S754_finite _ _ _ => true | _ => false end.

Lemma normalize_not_nan m e s : binary_normalize 53 1024 m e s ≠ S754_nan.
Proof.
  unfold binary_normalize. destruct m as [|p|p]; [done|..]; unfold binary_round;
    destruct (shl_align _ _ _) as [mz ez]; by apply round_not_nan.
Qed.

Lemma f64_sub_not_nan x y : is_finite x = true → is_finite y = true → f64_sub x y ≠ S754_nan.
Proof.
  destruct x as [sx|sx| |sx mx ex], y as [sy|sy| |sy my ey]; try done; intros _ _; unfold f64_sub; cbn [SFsub SFopp];
    try done; try (destruct sx, sy; done). apply normalize_not_nan.
Qed.

(** ** The order of floats that are numbers *)
Definition rank (x : f64) : Z * Z * Z :=
  match x with
  | S754_infinity true => (-2, 0, 0)
  | S754_finite true m e => (-1, - e, - Zpos m)
  | S754_zero _ | S754_nan => (0, 0, 0)
  | S754_finite false m e => (1, e, Zpos m)
  | S754_infinity false => (2, 0, 0)
  end.

Definition rank_lt (a b : Z * Z * Z) : Prop :=
  a.1.1 < b.1.1 ∨ a.1.1 = b.1.1 ∧ (a.1.2 < b.1.2 ∨ a.1.2 = b.1.2 ∧ a.2 < b.2).

Lemma ltb_rank x y : x ≠ S754_nan → y ≠ S754_nan → f64_ltb x y = true ↔ rank_lt (rank x) (rank y).
Proof.
  intros Hx Hy. unfold f64_ltb, SFltb, rank_lt.
  destruct x as [[]|[]| |[] m e], y as [[]|[]| |[] m' e']; try done; cbn [SFcompare rank fst snd]; try (split; [done|lia]); try (split; [lia|done]).
  - destruct (Z.compare_spec e e') as [->|H|H]; [|split; [done|lia]|split; [lia|done]].
    rewrite compare_mantissa. destruct (Z.compare_spec (Zpos m) (Zpos m')); cbn; split; done || lia.
  - destruct (Z.compare_spec e e') as [->|H|H]; [|split; [lia|done]|split; [done|lia]].
    rewrite compare_mantissa. destruct (Z.compare_spec (Zpos m) (Zpos m')); cbn; split; done || lia.
Qed.

(** Not being smaller is transitive. *)
Lemma not_ltb_trans x y z :
  x ≠ S754_nan → y ≠ S754_nan → z ≠ S754_nan → f64_ltb x y = false → f64_ltb y z = false → f64_ltb x z = false.
Proof.
  intros Hx Hy Hz. rewrite <- !not_true_iff_false, !ltb_rank by done. unfold rank_lt. lia.
Qed.
