(* ===== verification/PacketData.v ===== *)
(** * PacketData: the shared data of a packet data plane ([common/src/lib.rs])

[common] also holds the data of a data plane below the proxy: route keys by path hash,
lists of backends and tables of a fixed size, and counters with two ratios. *)

From S2P Require Import Prelude Common Float Maglev.

#[local] Open Scope Z_scope.

(** [RouteKey] of [common], by the hash of the path. *)
Record HashedRouteKey : Type := mk_hashed_key { hk_method : HttpMethod; hk_path_hash : Z }.

Definition hashed_key_new (method : HttpMethod) (path_hash : Z) : HashedRouteKey := mk_hashed_key method path_hash.

Record BackendList : Type := mk_backend_list { bl_backends : list Backend; bl_count : Z }.

Definition ZERO_BACKEND : Backend := mk_backend (replicate 16 0) 0 0 false.

Definition backend_list_empty : BackendList := mk_backend_list (replicate (Z.to_nat MAX_BACKENDS) ZERO_BACKEND) 0.

Record CompactMaglevTable : Type := mk_compact_table { ct_table : list Z }.

Definition compact_table_empty : CompactMaglevTable := mk_compact_table (replicate (Z.to_nat COMPACT_MAGLEV_SIZE) 0).

Record Metrics : Type := mk_packet_metrics {
  packets_total : Z;
  packets_tier1 : Z;
  packets_tier2 : Z;
  packets_tier3 : Z;
  packets_dropped : Z;
  http_parse_errors : Z;
  last_updated_ns : Z
}.

Definition metrics_new : Metrics := mk_packet_metrics 0 0 0 0 0 0 0.

Definition tier1_hit_rate (m : Metrics) : f64 :=
  if packets_total m =? 0 then f64_of_Z 0 else f64_div (f64_of_Z (packets_tier1 m)) (f64_of_Z (packets_total m)).

Definition drop_rate (m : Metrics) : f64 :=
  if packets_total m =? 0 then f64_of_Z 0 else f64_div (f64_of_Z (packets_dropped m)) (f64_of_Z (packets_total m)).

(** A rate lies between 0.0 and 1.0 exactly if its part does not exceed the whole. *)
Lemma ratio_in_unit a b :
  0 <= a < 2 ^ 50 → 0 < b < 2 ^ 50 →
  f64_leb (f64_of_Z 0) (f64_div (f64_of_Z a) (f64_of_Z b)) = true ∧
  f64_leb (f64_div (f64_of_Z a) (f64_of_Z b)) f64_one = (a <=? b).
Proof.
  intros Ha Hb. split; [by apply f64_ratio_nonneg|]. unfold f64_leb, SFleb. rewrite f64_ratio_one by done. by unfold Z.leb.
Qed.

(** The rates of the packet counters are rates.  For counters below 2^50, both are at
least 0.0, and at most 1.0 exactly if the packets they count are not more than all. *)
Theorem packet_rates_in_unit m :
  0 <= packets_tier1 m < 2 ^ 50 → 0 <= packets_dropped m < 2 ^ 50 → 0 <= packets_total m < 2 ^ 50 →
  let in_unit x n := f64_leb (f64_of_Z 0) x = true ∧
    f64_leb x f64_one = (packets_total m =? 0) || (n <=? packets_total m) in
  in_unit (tier1_hit_rate m) (packets_tier1 m) ∧ in_unit (drop_rate m) (packets_dropped m).
Proof.
  intros H1 Hd Ht in_unit. unfold in_unit, tier1_hit_rate, drop_rate. destruct (Z.eqb_spec (packets_total m) 0); [done|].
  cbn [orb]. split; apply ratio_in_unit; lia.
Qed.

Lemma packet_rates_in_unit_witness :
  let m := mk_packet_metrics 3 2 0 0 4 0 0 in
  f64_leb (tier1_hit_rate m) f64_one = true ∧ f64_leb (drop_rate m) f64_one = false.
Proof.
  destruct (packet_rates_in_unit (mk_packet_metrics 3 2 0 0 4 0 0)) as [[_ E1] [_ E2]]; [vm_compute; split; congruence..|].
  split; [exact E1|exact E2].
Defined.

(** An empty table names the first backend of an empty list for every flow: callers test
the count. *)
Theorem empty_table_names_nobody flow :
  maglev_lookup_compact flow (ct_table compact_table_empty) = Ret 0 ∧ bl_count backend_list_empty = 0 ∧
  bl_backends backend_list_empty !! 0%nat = Some ZERO_BACKEND.
Proof.
  split; [|done]. unfold maglev_lookup_compact. case_bool_decide as E; [done|]. cbn [compact_table_empty ct_table].
  rewrite lookup_replicate_2; [done|]. pose proof (Z.mod_pos_bound flow COMPACT_MAGLEV_SIZE ltac:(done)). lia.
Qed.
