(* ===== verification/RateLimiter.v ===== *)
(** * RateLimiter: the token buckets of [rate_limiter.rs]

A bucket packs its tokens (16.16 fixed point) and the time of its last refill
(milliseconds since its creation, 32 bits) into one atomic word; [try_acquire_n]
refills and takes tokens in one compare-and-swap.  [RateLimiter] keeps one bucket
per route and counts its decisions.

Times are nanoseconds of the monotonic clock; [u64] arithmetic is that of a
release build (wrapping). *)

From S2P Require Import Prelude Float.

#[local] Open Scope Z_scope.

(** ** Fixed point *)
Definition FIXED_SHIFT : Z := 16.
Definition FIXED_ONE : Z := Z.shiftl 1 FIXED_SHIFT.

Definition float_to_fixed (f : f64) : Z := f64_as_u64 (f64_mul f (f64_of_Z FIXED_ONE)).
Definition fixed_to_float (fixed : Z) : f64 := f64_div (f64_of_Z fixed) (f64_of_Z FIXED_ONE).

Definition pack_bucket (tokens_fixed refill_offset_ms : Z) : Z :=
  Z.lor (wrap 64 (Z.shiftl tokens_fixed 32)) (Z.land refill_offset_ms 0xFFFFFFFF).
Definition unpack_tokens (packed : Z) : Z := Z.shiftr packed 32.
Definition unpack_refill_offset (packed : Z) : Z := Z.land packed 0xFFFFFFFF.

(** ** Buckets *)
Record TokenBucket : Type := mk_bucket {
  packed : Z;
  capacity_fixed : Z;
  refill_rate_per_ms_fixed : Z;
  created_at : Z;
  capacity_f64 : f64
}.

Definition set_packed (b : TokenBucket) (p : Z) : TokenBucket :=
  mk_bucket p (capacity_fixed b) (refill_rate_per_ms_fixed b) (created_at b) (capacity_f64 b).

Definition bucket_new (rate : f64) (burst now : Z) : TokenBucket :=
  let clamped_burst := Z.min burst 65535 in
  let capacity := f64_of_Z clamped_burst in
  let capacity_fixed := float_to_fixed capacity in
  let refill_rate_per_ms_fixed := float_to_fixed (f64_div rate (f64_of_Z 1000)) in
  mk_bucket (pack_bucket capacity_fixed 0) capacity_fixed refill_rate_per_ms_fixed now capacity.

(** [self.created_at.elapsed().as_millis() as u32 as u64] *)
Definition now_ms (b : TokenBucket) (now : Z) : Z :=
  wrap 32 (Z.max 0 (now - created_at b) / 1000000).

(** The tokens of the word [current], refilled at [now_ms]. *)
Definition refilled (b : TokenBucket) (current now_ms : Z) : Z :=
  let old_tokens := unpack_tokens current in
  let old_refill_ms := unpack_refill_offset current in
  let elapsed_ms := wrap 32 (wrap 32 now_ms - wrap 32 old_refill_ms) in
  let tokens_to_add := wrap 64 (elapsed_ms * refill_rate_per_ms_fixed b) in
  Z.min (wrap 64 (old_tokens + tokens_to_add)) (capacity_fixed b).

(** One iteration of the loop: the word to store and the answer. *)
Definition acquire_body (b : TokenBucket) (n_fixed now_ms current : Z) : Z * bool :=
  let new_tokens := refilled b current now_ms in
  if n_fixed <=? new_tokens
  then (pack_bucket (new_tokens - n_fixed) now_ms, true)
  else (pack_bucket new_tokens now_ms, false).

(** A call that no other thread interferes with. *)
Definition try_acquire_n (b : TokenBucket) (n : f64) (now : Z) : bool * TokenBucket :=
  if f64_leb n (S754_zero false) then (true, b)
  else
    let '(new, r) := acquire_body b (float_to_fixed n) (now_ms b now) (packed b) in
    (r, set_packed b new).

Definition one : f64 := f64_of_Z 1.

Definition try_acquire (b : TokenBucket) (now : Z) : bool * TokenBucket := try_acquire_n b one now.

Definition available_tokens (b : TokenBucket) (now : Z) : f64 :=
  f64_min (fixed_to_float (refilled b (packed b) (now_ms b now))) (capacity_f64 b).

Definition capacity (b : TokenBucket) : f64 := capacity_f64 b.

Definition refill_rate (b : TokenBucket) : f64 :=
  f64_mul (fixed_to_float (refill_rate_per_ms_fixed b)) (f64_of_Z 1000).

(** ** Threads

The clock is read once, before the loop; every iteration loads the word and
tries to replace it.  A failed exchange retries when there were tokens and
returns [false] when there were not. *)
Inductive acquire_pc : Type :=
| Ready
| Loop (now_ms : Z)
| Exchange (now_ms current new : Z) (r : bool)
| Done (r : bool).

Inductive acquire_step (now : Z) (b : TokenBucket) : acquire_pc → TokenBucket → acquire_pc → Prop :=
| acquire_clock : acquire_step now b Ready b (Loop (now_ms b now))
| acquire_load t :
    acquire_step now b (Loop t) b
      (let '(new, r) := acquire_body b (float_to_fixed one) t (packed b) in
       Exchange t (packed b) new r)
| acquire_ok t current new r :
    packed b = current → acquire_step now b (Exchange t current new r) (set_packed b new) (Done r)
| acquire_retry t current new :
    acquire_step now b (Exchange t current new true) b (Loop t)
| acquire_drop t current new :
    acquire_step now b (Exchange t current new false) b (Done false).

Record bucket_system : Type := mk_bsystem { clock : Z; bucket : TokenBucket; threads : list acquire_pc }.

Inductive bucket_step : bucket_system → bucket_system → Prop :=
| b_thread now b ts i p b' p' :
    ts !! i = Some p → acquire_step now b p b' p' →
    bucket_step (mk_bsystem now b ts) (mk_bsystem now b' (<[i := p']> ts))
| b_clock now now' b ts :
    now <= now' → bucket_step (mk_bsystem now b ts) (mk_bsystem now' b ts).

(** ** Per-route limiter *)
Record LimiterMetrics : Type := mk_lmetrics {
  rl_requests_total : gmap (string * string) Z;
  rl_tokens_available : gmap string Z
}.

Record RateLimiter : Type := mk_limiter {
  buckets : gmap string TokenBucket;
  rl_metrics : LimiterMetrics
}.

Definition limiter_new : RateLimiter := mk_limiter ∅ (mk_lmetrics ∅ ∅).

Definition configure_route (l : RateLimiter) (route : string) (rate : f64) (burst now : Z) : RateLimiter :=
  mk_limiter (<[route := bucket_new rate burst now]> (buckets l)) (rl_metrics l).

Definition rl_inc (route result : string) (x : LimiterMetrics) : LimiterMetrics :=
  mk_lmetrics (<[(route, result) := default 0 (rl_requests_total x !! (route, result)) + 1]>
                 (rl_requests_total x)) (rl_tokens_available x).

Definition rl_set_tokens (route : string) (tokens : Z) (x : LimiterMetrics) : LimiterMetrics :=
  mk_lmetrics (rl_requests_total x) (<[route := tokens]> (rl_tokens_available x)).

Definition check_rate_limit (l : RateLimiter) (route : string) (now : Z) : bool * RateLimiter :=
  match buckets l !! route with
  | Some bucket =>
      let '(allowed, bucket) := try_acquire bucket now in
      let x := rl_inc route (if allowed then "allowed" else "rejected") (rl_metrics l) in
      let x := rl_set_tokens route (f64_as_i64 (available_tokens bucket now)) x in
      (allowed, mk_limiter (<[route := bucket]> (buckets l)) x)
  | None => (true, mk_limiter (buckets l) (rl_inc route "allowed" (rl_metrics l)))
  end.

Definition remove_route (l : RateLimiter) (route : string) : RateLimiter :=
  mk_limiter (delete route (buckets l)) (rl_metrics l).

Definition limiter_available_tokens (l : RateLimiter) (route : string) (now : Z) : option f64 :=
  (λ b, available_tokens b now) <$> buckets l !! route.

Record RateLimiterSnapshot : Type := mk_rl_snapshot {
  rl_route : string;
  rl_tokens : f64;
  rl_capacity : f64;
  rl_refill_rate : f64
}.

Definition limiter_snapshot_all (l : RateLimiter) (now : Z) : list RateLimiterSnapshot :=
  (λ '(route, b), mk_rl_snapshot route (available_tokens b now) (capacity b) (refill_rate b))
    <$> map_to_list (buckets l).

Definition exhausted_count (l : RateLimiter) (now : Z) : nat :=
  length (filter (λ '(_, b), f64_leb (available_tokens b now) (S754_zero false) = true)
            (map_to_list (buckets l))).

(** ** The layout *)
Lemma pack_bucket_eq tok ms :
  in_width 32 tok → pack_bucket tok ms = tok * 2 ^ 32 + wrap 32 ms.
Proof.
  intros [??]. unfold pack_bucket. change 0xFFFFFFFF with (Z.ones 32).
  rewrite land_ones_wrap by lia. rewrite wrap_small.
  - apply lor_disjoint; [lia|]. by apply wrap_range.
  - rewrite Z.shiftl_mul_pow2 by lia. unfold in_width. lia.
Qed.

Lemma unpack_tokens_pack tok ms : in_width 32 tok → unpack_tokens (pack_bucket tok ms) = tok.
Proof.
  intros Ht. rewrite pack_bucket_eq by done. unfold unpack_tokens.
  pose proof (wrap_range 32 ms ltac:(lia)) as [??]. rewrite Z.shiftr_div_pow2 by lia.
  rewrite Z.add_comm, Z.div_add, Z.div_small by lia. lia.
Qed.

Lemma unpack_offset_pack tok ms :
  in_width 32 tok → unpack_refill_offset (pack_bucket tok ms) = wrap 32 ms.
Proof.
  intros Ht. rewrite pack_bucket_eq by done. unfold unpack_refill_offset.
  change 0xFFFFFFFF with (Z.ones 32). rewrite land_ones_wrap by lia.
  pose proof (wrap_range 32 ms ltac:(lia)). unfold wrap at 1.
  rewrite Z.add_comm, Z.mod_add by lia. by apply wrap_small.
Qed.

#[local] Hint Rewrite unpack_tokens_pack unpack_offset_pack using done : bucket_layout.

(** ** Construction *)
Lemma float_to_fixed_small n : 0 <= n < 2 ^ 48 → float_to_fixed (f64_of_Z n) = n * 2 ^ 16.
Proof. apply f64_mul_pow16. Qed.

Lemma one_fixed : float_to_fixed one = 2 ^ 16.
Proof. reflexivity. Qed.

(** The rate a configured [rate] becomes: 1/65536 tokens per millisecond. *)
Definition rate_fixed (rate : f64) : Z := float_to_fixed (f64_div rate (f64_of_Z 1000)).

Lemma f64_as_u64_range x : in_width 64 (f64_as_u64 x).
Proof.
  assert (∀ m e, 0 <= f64_trunc m e) as H.
  { intros m [|k|k]; cbn [f64_trunc]; [lia|apply Z.shiftl_nonneg; lia|apply Z.shiftr_nonneg; lia]. }
  destruct x as [s|[]| |[] m e]; cbn [f64_as_u64]; unfold in_width; try lia.
  specialize (H m e). lia.
Qed.

Lemma bucket_new_fields rate burst now :
  0 <= burst →
  capacity_fixed (bucket_new rate burst now) = Z.min burst 65535 * 2 ^ 16 ∧
  refill_rate_per_ms_fixed (bucket_new rate burst now) = rate_fixed rate ∧
  created_at (bucket_new rate burst now) = now ∧
  packed (bucket_new rate burst now) = pack_bucket (Z.min burst 65535 * 2 ^ 16) 0.
Proof.
  intros ?. unfold bucket_new. cbn [capacity_fixed refill_rate_per_ms_fixed created_at packed].
  rewrite float_to_fixed_small by lia. done.
Qed.

(** ** Invariant *)
Record bucket_ok (b : TokenBucket) : Prop := {
  bo_capacity : in_width 32 (capacity_fixed b);
  bo_rate : 0 <= refill_rate_per_ms_fixed b;
  bo_packed : ∃ tok ms, 0 <= tok <= capacity_fixed b ∧ packed b = pack_bucket tok ms
}.

Lemma bucket_new_ok rate burst now : 0 <= burst → bucket_ok (bucket_new rate burst now).
Proof.
  intros Hb. destruct (bucket_new_fields rate burst now Hb) as (E1 & E2 & E3 & E4).
  split; rewrite ?E1, ?E2, ?E4.
  - unfold in_width. lia.
  - apply f64_as_u64_range.
  - eexists _, _. split; [|done]. lia.
Qed.

Lemma refilled_range b tok ms t :
  bucket_ok b → 0 <= tok <= capacity_fixed b →
  0 <= refilled b (pack_bucket tok ms) t <= capacity_fixed b ∧
  refilled b (pack_bucket tok ms) t <= tok + refill_rate_per_ms_fixed b * wrap 32 (t - ms).
Proof.
  intros [[C1 C2] R _] Ht. unfold refilled.
  rewrite unpack_tokens_pack, unpack_offset_pack by (unfold in_width; lia).
  rewrite wrap_idemp by lia.
  assert (wrap 32 (wrap 32 t - wrap 32 ms) = wrap 32 (t - ms)) as ->.
  { unfold wrap. by rewrite <- Zminus_mod. }
  pose proof (wrap_range 32 (t - ms) ltac:(lia)) as [E1 E2]. set (e := wrap 32 (t - ms)) in *.
  pose proof (wrap_range 64 (e * refill_rate_per_ms_fixed b) ltac:(lia)) as [T1 _].
  assert (wrap 64 (e * refill_rate_per_ms_fixed b) <= e * refill_rate_per_ms_fixed b).
  { unfold wrap. apply Z.mod_le; nia. }
  set (a := wrap 64 (e * _)) in *.
  pose proof (wrap_range 64 (tok + a) ltac:(lia)) as [S1 _].
  assert (wrap 64 (tok + a) <= tok + a) by (unfold wrap; apply Z.mod_le; lia).
  nia.
Qed.

(** One iteration on a well-formed word: the tokens kept and the answer. *)
Lemma acquire_body_spec b tok ms n t :
  bucket_ok b → 0 <= tok <= capacity_fixed b → 0 <= n →
  let f := refilled b (pack_bucket tok ms) t in
  ∃ tok', acquire_body b n t (pack_bucket tok ms) = (pack_bucket tok' t, n <=? f) ∧
    0 <= tok' <= capacity_fixed b ∧ tok' = f - (if n <=? f then n else 0).
Proof.
  intros Hok Ht Hn f. destruct (refilled_range b tok ms t Hok Ht) as [Hf _]. fold f in Hf.
  unfold acquire_body. fold f. destruct (n <=? f) eqn:E; zbool; eexists; split; try reflexivity; lia.
Qed.

Definition same_bucket (b b' : TokenBucket) : Prop :=
  capacity_fixed b' = capacity_fixed b ∧ refill_rate_per_ms_fixed b' = refill_rate_per_ms_fixed b ∧
  created_at b' = created_at b.

Lemma set_packed_ok b tok ms :
  bucket_ok b → 0 <= tok <= capacity_fixed b → bucket_ok (set_packed b (pack_bucket tok ms)).
Proof. intros [C R _] Ht. split; cbn; try done. by exists tok, ms. Qed.

(** The word a thread is about to store is well formed. *)
Definition exchange_ok (b : TokenBucket) (p : acquire_pc) : Prop :=
  match p with
  | Exchange _ _ new _ => ∃ tok ms, 0 <= tok <= capacity_fixed b ∧ new = pack_bucket tok ms
  | _ => True
  end.

Lemma acquire_step_ok now b p b' p' :
  bucket_ok b → exchange_ok b p → acquire_step now b p b' p' →
  bucket_ok b' ∧ exchange_ok b' p' ∧ same_bucket b b'.
Proof.
  intros Hok Hp Hs. assert (same_bucket b b) as Hsame by (split_and!; reflexivity).
  destruct Hs as [|t|t cur new r Hcur|t cur new|t cur new].
  1,4,5: split_and!; [assumption|exact I|assumption].
  - destruct (bo_packed b Hok) as (tok & ms & Ht & ->).
    destruct (acquire_body_spec b tok ms (float_to_fixed one) t Hok Ht ltac:(rewrite one_fixed; lia))
      as (tok' & -> & Ht' & _). split_and!; [assumption| |assumption]. exists tok', t. by split.
  - destruct Hp as (tok & ms & Ht & ->).
    split_and!; [by apply set_packed_ok|exact I|split_and!; reflexivity].
Qed.

Definition bsystem_ok (σ : bucket_system) : Prop :=
  bucket_ok (bucket σ) ∧ Forall (exchange_ok (bucket σ)) (threads σ).

Lemma bucket_step_ok σ σ' :
  bsystem_ok σ → bucket_step σ σ' → bsystem_ok σ' ∧ same_bucket (bucket σ) (bucket σ').
Proof.
  intros [Hb Ht] Hs. destruct Hs as [now b ts i p b' p' Hi Hs|now now' b ts Hle]; [|done].
  cbn [bucket threads] in *.
  destruct (acquire_step_ok now b p b' p') as (Hb' & Hp' & Hsame); [done| |done|].
  { by eapply Forall_lookup_1. }
  split; [split|]; cbn [bucket threads]; [done| |done]. apply Forall_insert; [|done].
  eapply Forall_impl; [exact Ht|]. intros q Hq. destruct Hsame as (E & _).
  destruct q; cbn in *; try done. by rewrite E.
Qed.

Definition bucket_initial (rate : f64) (burst now : Z) (n : nat) : bucket_system :=
  mk_bsystem now (bucket_new rate burst now) (replicate n Ready).

Lemma bucket_initial_ok rate burst now n : 0 <= burst → bsystem_ok (bucket_initial rate burst now n).
Proof. intros ?. split; cbn; [by apply bucket_new_ok|]. by apply Forall_replicate. Qed.

Lemma bucket_reachable_ok σ0 σ :
  rtc bucket_step σ0 σ → bsystem_ok σ0 → bsystem_ok σ ∧ same_bucket (bucket σ0) (bucket σ).
Proof.
  induction 1 as [σ|σ σ1 σ2 Hs _ IH]; intros Hok; [done|].
  destruct (bucket_step_ok _ _ Hok Hs) as [Hok1 (E1 & E2 & E3)].
  destruct (IH Hok1) as [Hok2 (F1 & F2 & F3)]. split; [done|]. split_and!; congruence.
Qed.

(** Whatever the rate, the burst and the interleaving of the threads' loads,
exchanges and clock readings, the bucket never holds more than its capacity of
[min burst 65535] tokens. *)
Theorem bucket_tokens_bounded rate burst now n σ :
  0 <= burst → rtc bucket_step (bucket_initial rate burst now n) σ →
  0 <= unpack_tokens (packed (bucket σ)) <= Z.min burst 65535 * 2 ^ 16.
Proof.
  intros Hb Hr. destruct (bucket_reachable_ok _ _ Hr (bucket_initial_ok rate burst now n Hb)) as [[Hok _] (E & _)].
  destruct (bucket_new_fields rate burst now Hb) as (C & _). cbn [bucket bucket_initial] in E. rewrite C in E.
  destruct Hok as [HC _ (tok & ms & Ht & ->)].
  rewrite unpack_tokens_pack by (unfold in_width in *; lia). lia.
Qed.

Lemma bucket_tokens_bounded_witness :
  0 <= unpack_tokens (packed (bucket (bucket_initial (f64_of_Z 10) 70000 0 2))) <= Z.min 70000 65535 * 2 ^ 16.
Proof.
  apply (bucket_tokens_bounded (f64_of_Z 10) 70000 0 2); [discriminate|]. apply rtc_refl.
Defined.

(** ** Sequences of calls *)
Fixpoint acquire_all (b : TokenBucket) (times : list Z) : list bool * TokenBucket :=
  match times with
  | [] => ([], b)
  | t :: times =>
      let '(r, b) := try_acquire b t in
      let '(rs, b) := acquire_all b times in (r :: rs, b)
  end.

(** Milliseconds since creation, without the truncation to 32 bits. *)
Definition real_ms (b : TokenBucket) (now : Z) : Z := (now - created_at b) / 1000000.

Definition admitted (rs : list bool) : Z := Z.of_nat (length (filter (λ r, r = true) rs)).

(** Times that do not go back, from [t0] on. *)
Fixpoint ascending (t0 : Z) (times : list Z) : Prop :=
  match times with
  | [] => True
  | t :: times => t0 <= t ∧ ascending t times
  end.

Lemma one_positive : f64_leb one (S754_zero false) = false.
Proof. reflexivity. Qed.

Lemma now_ms_real b t : created_at b <= t → now_ms b t = wrap 32 (real_ms b t) ∧ 0 <= real_ms b t.
Proof.
  intros ?. unfold now_ms, real_ms. rewrite Z.max_r by lia. split; [done|]. apply Z.div_pos; lia.
Qed.

Lemma pack_bucket_wrap tok ms : in_width 32 tok → pack_bucket tok (wrap 32 ms) = pack_bucket tok ms.
Proof. intros ?. rewrite !pack_bucket_eq by done. by rewrite wrap_idemp by lia. Qed.

(** A call on a bucket that was last refilled at the real time [ms]. *)
Lemma try_acquire_spec b tok ms t :
  bucket_ok b → 0 <= tok <= capacity_fixed b → packed b = pack_bucket tok ms → created_at b <= t →
  let f := refilled b (pack_bucket tok ms) (real_ms b t) in
  ∃ tok' b', try_acquire b t = (2 ^ 16 <=? f, b') ∧ bucket_ok b' ∧ same_bucket b b' ∧
    0 <= tok' <= capacity_fixed b ∧ packed b' = pack_bucket tok' (real_ms b t) ∧
    tok' = f - (if 2 ^ 16 <=? f then 2 ^ 16 else 0).
Proof.
  intros Hok Ht Hp Hc f. destruct (now_ms_real b t Hc) as [En Hr].
  unfold try_acquire, try_acquire_n. rewrite one_positive, one_fixed, Hp, En.
  destruct (acquire_body_spec b tok ms (2 ^ 16) (wrap 32 (real_ms b t)) Hok Ht ltac:(lia))
    as (tok' & Eb & Ht' & Etok).
  assert (refilled b (pack_bucket tok ms) (wrap 32 (real_ms b t)) = refilled b (pack_bucket tok ms) (real_ms b t)) as Ef.
  { unfold refilled. by rewrite wrap_idemp by lia. }
  rewrite Ef in Eb, Etok. fold f in Eb, Etok.
  rewrite Eb. destruct (bo_capacity b Hok) as [C1 C2].
  assert (in_width 32 tok') as Hw by (unfold in_width; lia).
  rewrite pack_bucket_wrap by exact Hw.
  eexists tok', _. split; [reflexivity|]. split; [by apply set_packed_ok|].
  split; [split_and!; reflexivity|]. split; [exact Ht'|]. split; [reflexivity|exact Etok].
Qed.

Lemma same_bucket_real_ms b b' t : same_bucket b b' → real_ms b' t = real_ms b t.
Proof. intros (_ & _ & E). unfold real_ms. by rewrite E. Qed.

Lemma real_ms_mono b t t' : t <= t' → real_ms b t <= real_ms b t'.
Proof. intros ?. apply Z.div_le_mono; lia. Qed.

Lemma wrap_32_le x : 0 <= x → wrap 32 x <= x.
Proof. intros ?. apply Z.mod_le; lia. Qed.

Lemma admitted_cons r rs : admitted (r :: rs) = (if r then 1 else 0) + admitted rs.
Proof. unfold admitted. rewrite filter_cons. destruct r; cbn; case_decide; try done; cbn; lia. Qed.

Lemma last_cons (t : Z) ts d : List.last (t :: ts) d = List.last ts t.
Proof.
  revert t d. induction ts as [|x ts IH]; intros t d; [done|].
  change (List.last (t :: x :: ts) d) with (List.last (x :: ts) d). by rewrite !IH.
Qed.

(** What is admitted is paid for by the tokens at hand and the refill since. *)
Lemma acquire_all_bound times : ∀ b tok t0,
  bucket_ok b → 0 <= tok <= capacity_fixed b → created_at b <= t0 →
  packed b = pack_bucket tok (real_ms b t0) → ascending t0 times →
  admitted (acquire_all b times).1 * 2 ^ 16 <=
    tok + refill_rate_per_ms_fixed b * (real_ms b (List.last times t0) - real_ms b t0).
Proof.
  induction times as [|t times IH]; intros b tok t0 Hok Ht Hc Hp Ha; cbn [acquire_all].
  { change (admitted ([], b).1) with 0. cbn. lia. }
  destruct Ha as [Hle Ha].
  destruct (try_acquire_spec b tok _ t Hok Ht Hp ltac:(lia)) as (tok' & b' & -> & Hok' & Hs & Ht' & Hp' & Et).
  destruct (refilled_range b tok (real_ms b t0) (real_ms b t) Hok Ht) as [F1 F2].
  set (f := refilled _ _ _) in *. pose proof Hs as (E1 & E2 & E3).
  specialize (IH b' tok' t Hok' ltac:(lia) ltac:(lia)).
  rewrite (same_bucket_real_ms b b' t Hs), (same_bucket_real_ms b b' (List.last times t) Hs), E2 in IH.
  specialize (IH Hp' Ha).
  destruct (acquire_all b' times) as [rs b'']. cbn [fst] in *. rewrite admitted_cons.
  pose proof (wrap_32_le (real_ms b t - real_ms b t0) ltac:(pose proof (real_ms_mono b t0 t Hle); lia)).
  rewrite last_cons.
  pose proof (bo_rate b Hok).
  destruct (2 ^ 16 <=? f); nia.
Qed.

Lemma acquire_all_app ts ts' : ∀ b,
  acquire_all b (ts ++ ts') =
    ((acquire_all b ts).1 ++ (acquire_all (acquire_all b ts).2 ts').1, (acquire_all (acquire_all b ts).2 ts').2).
Proof.
  induction ts as [|t ts IH]; intros b; cbn [app acquire_all]; [cbn [fst snd]; apply surjective_pairing|].
  destruct (try_acquire b t) as [r b']. rewrite IH. destruct (acquire_all b' ts) as [rs b'']. cbn [fst snd].
  by destruct (acquire_all b'' ts').
Qed.

Lemma acquire_all_length ts : ∀ b, length (acquire_all b ts).1 = length ts.
Proof.
  induction ts as [|t ts IH]; intros b; [done|]. cbn [acquire_all]. destruct (try_acquire b t) as [r b']. specialize (IH b').
  destruct (acquire_all b' ts). cbn in *. lia.
Qed.

(** The bucket after some calls: some tokens, refilled at the last call. *)
Lemma acquire_all_state times : ∀ b tok t0,
  bucket_ok b → 0 <= tok <= capacity_fixed b → created_at b <= t0 →
  packed b = pack_bucket tok (real_ms b t0) → ascending t0 times →
  ∃ tok', bucket_ok (acquire_all b times).2 ∧ same_bucket b (acquire_all b times).2 ∧ 0 <= tok' <= capacity_fixed b ∧
    packed (acquire_all b times).2 = pack_bucket tok' (real_ms b (List.last times t0)) ∧ created_at b <= List.last times t0.
Proof.
  induction times as [|t times IH]; intros b tok t0 Hok Ht Hc Hp Ha; cbn [acquire_all].
  { exists tok. cbn; split; [done|]; split; [by split_and!|]; done. }
  destruct Ha as [Hle Ha]. rewrite last_cons.
  destruct (try_acquire_spec b tok _ t Hok Ht Hp ltac:(lia)) as (tok1 & b' & -> & Hok' & Hs & Ht' & Hp' & _).
  pose proof Hs as (E1 & E2 & E3).
  destruct (IH b' tok1 t Hok' ltac:(lia) ltac:(lia)) as (tok' & Hok'' & Hs'' & Ht'' & Hp'' & Hc'').
  { by rewrite (same_bucket_real_ms b b' t Hs). }
  { done. }
  destruct (acquire_all b' times) as [rs b'']. cbn [snd] in *. exists tok'. destruct Hs'' as (F1 & F2 & F3).
  rewrite (same_bucket_real_ms b b' _ Hs) in Hp''. split; [done|]. split; [unfold same_bucket; split_and!; congruence|].
  split; [lia|]. split; [exact Hp''|lia].
Qed.

Lemma ascending_app t0 ts t ts' : ascending t0 (ts ++ t :: ts') → ascending t0 ts ∧ List.last ts t0 <= t ∧ ascending t ts'.
Proof.
  revert t0. induction ts as [|x ts IH]; intros t0; [by intros [??]|]. cbn [app ascending]. rewrite last_cons.
  intros [? (? & ? & ?)%IH]. done.
Qed.

(** C9: rate conformance over every interval.  For every sequence of calls one after the
other in the order of time, of any length and with any gaps (also past the 49.7 days
after which the 32-bit refill time wraps), and every part of it: the requests admitted
by the calls from the first to the last of the part do not exceed the burst plus what
the configured rate refills between these two, in whole milliseconds. *)
Theorem bucket_conformance rate burst now before t during after :
  0 <= burst → ascending now (before ++ t :: during ++ after) →
  let answers := (acquire_all (bucket_new rate burst now) (before ++ t :: during ++ after)).1 in
  admitted (take (S (length during)) (drop (length before) answers)) * 2 ^ 16 <=
    Z.min burst 65535 * 2 ^ 16 +
    rate_fixed rate * ((List.last during t - now) / 1000000 - (t - now) / 1000000).
Proof.
  intros Hb Ha. cbn zeta. set (b := bucket_new rate burst now).
  destruct (bucket_new_fields rate burst now Hb) as (E1 & E2 & E3 & E4). fold b in E1, E2, E3, E4.
  apply ascending_app in Ha as (Ha1 & Hle & Ha2).
  assert (ascending t during) as Ha3.
  { clear -Ha2. revert t Ha2. induction during as [|x xs IH]; intros t; [done|]. cbn. intros [??]. split; [done|]. by apply IH. }
  assert (real_ms b now = 0) as E0 by (unfold real_ms; by rewrite E3, Z.sub_diag).
  destruct (acquire_all_state before b (Z.min burst 65535 * 2 ^ 16) now (bucket_new_ok rate burst now Hb)
    ltac:(rewrite E1; lia) ltac:(lia) ltac:(by rewrite E0) Ha1) as (tok & Hok & Hs & Ht & Hp & Hc).
  rewrite acquire_all_app. cbn [fst]. rewrite drop_app_length' by (by rewrite acquire_all_length).
  set (b1 := (acquire_all b before).2) in *. change (t :: during ++ after) with ((t :: during) ++ after).
  rewrite acquire_all_app. cbn [fst]. rewrite take_app_length' by (by rewrite acquire_all_length). cbn [acquire_all].
  pose proof Hs as (F1 & F2 & F3). rewrite <- (same_bucket_real_ms b b1 _ Hs) in Hp.
  destruct (try_acquire_spec b1 tok _ t Hok ltac:(lia) Hp ltac:(lia)) as (tok' & b' & -> & Hok' & Hs' & Ht' & Hp' & Et).
  destruct (refilled_range b1 tok (real_ms b1 (List.last before now)) (real_ms b1 t) Hok ltac:(lia)) as [R1 R2].
  set (f := refilled _ _ _) in *. pose proof Hs' as (G1 & G2 & G3).
  pose proof (acquire_all_bound during b' tok' t Hok' ltac:(lia) ltac:(lia)) as Hbound.
  rewrite !(same_bucket_real_ms b1 b' _ Hs'), !(same_bucket_real_ms b b1 _ Hs), G2, F2, E2 in Hbound.
  rewrite (same_bucket_real_ms b b1 t Hs) in Hp'. specialize (Hbound Hp' Ha3).
  destruct (acquire_all b' during) as [rs b'']. cbn [fst] in *. rewrite admitted_cons. unfold real_ms in Hbound. rewrite E3 in Hbound.
  destruct (2 ^ 16 <=? f); lia.
Qed.

(** From the second call to the fourth: two requests, and a tenth of a second later one. *)
Lemma bucket_conformance_witness :
  let answers := (acquire_all (bucket_new (f64_of_Z 10) 2 0) ([0] ++ 1000000000 :: [1000000000; 1100000000] ++ [9000000000])).1 in
  admitted (take 3 (drop 1 answers)) * 2 ^ 16 <=
    Z.min 2 65535 * 2 ^ 16 + rate_fixed (f64_of_Z 10) * ((1100000000 - 0) / 1000000 - (1000000000 - 0) / 1000000).
Proof.
  apply (bucket_conformance (f64_of_Z 10) 2 0 [0] 1000000000 [1000000000; 1100000000] [9000000000]); cbn; lia.
Defined.

(** ** The ideal token bucket *)
Fixpoint ideal_all (cap rate tok last : Z) (ms : list Z) : list bool :=
  match ms with
  | [] => []
  | t :: ms =>
      let f := Z.min cap (tok + rate * (t - last)) in
      if 2 ^ 16 <=? f then true :: ideal_all cap rate (f - 2 ^ 16) t ms
      else false :: ideal_all cap rate f t ms
  end.

(** Calls no further apart than the 32-bit refill time can tell. *)
Fixpoint close_calls (b : TokenBucket) (t0 : Z) (times : list Z) : Prop :=
  match times with
  | [] => True
  | t :: times => t0 <= t ∧ real_ms b t - real_ms b t0 < 2 ^ 32 ∧ close_calls b t times
  end.

Lemma refilled_ideal b tok ms t :
  bucket_ok b → refill_rate_per_ms_fixed b <= 2 ^ 31 → 0 <= tok <= capacity_fixed b →
  0 <= t - ms < 2 ^ 32 →
  refilled b (pack_bucket tok ms) t =
    Z.min (capacity_fixed b) (tok + refill_rate_per_ms_fixed b * (t - ms)).
Proof.
  intros [[C1 C2] R _] Hr Ht He. unfold refilled.
  rewrite unpack_tokens_pack, unpack_offset_pack by (unfold in_width; lia). rewrite wrap_idemp by lia.
  assert (wrap 32 (wrap 32 t - wrap 32 ms) = t - ms) as ->.
  { unfold wrap. rewrite <- Zminus_mod. by apply Z.mod_small. }
  rewrite (wrap_small 64 (_ * _)) by (unfold in_width; nia).
  rewrite wrap_small by (unfold in_width; nia). lia.
Qed.

Lemma acquire_all_ideal times : ∀ b tok t0,
  bucket_ok b → refill_rate_per_ms_fixed b <= 2 ^ 31 → 0 <= tok <= capacity_fixed b →
  created_at b <= t0 → packed b = pack_bucket tok (real_ms b t0) → close_calls b t0 times →
  (acquire_all b times).1 =
    ideal_all (capacity_fixed b) (refill_rate_per_ms_fixed b) tok (real_ms b t0) (real_ms b <$> times).
Proof.
  induction times as [|t times IH]; intros b tok t0 Hok Hr Ht Hc Hp Ha; [reflexivity|].
  destruct Ha as (Hle & Hgap & Ha). cbn [acquire_all fmap list_fmap ideal_all].
  destruct (try_acquire_spec b tok _ t Hok Ht Hp ltac:(lia)) as (tok' & b' & -> & Hok' & Hs & Ht' & Hp' & Et).
  pose proof (real_ms_mono b t0 t Hle).
  rewrite (refilled_ideal b tok (real_ms b t0) (real_ms b t) Hok Hr Ht ltac:(lia)) in *.
  set (f := Z.min _ _) in *. pose proof Hs as (E1 & E2 & E3).
  assert (real_ms b' = real_ms b) as Em by (unfold real_ms; by rewrite E3).
  assert ((acquire_all b' times).1 =
    ideal_all (capacity_fixed b) (refill_rate_per_ms_fixed b) tok' (real_ms b t) (real_ms b <$> times)) as E.
  { rewrite <- E1, <- E2, <- Em. apply (IH b' tok' t); rewrite ?Em; try done; try lia.
    clear -Ha E3. revert t Ha. induction times as [|x times IHt]; intros t; [done|]. cbn.
    intros (? & ? & ?). split_and!; [done| |by apply IHt]. unfold real_ms in *. by rewrite E3. }
  destruct (acquire_all b' times) as [rs b'']. cbn [fst] in *. subst rs tok'.
  destruct (2 ^ 16 <=? f); [done|by rewrite Z.sub_0_r].
Qed.

(** C19: up to 2^31/65.536 requests per second and with calls less than 2^32
milliseconds apart, the packed, wrapping bucket admits exactly the requests the
ideal token bucket (unbounded integers, capped refill) admits. *)
Theorem bucket_refines_ideal rate burst now times :
  0 <= burst → rate_fixed rate <= 2 ^ 31 →
  let b := bucket_new rate burst now in
  close_calls b now times →
  let cap := Z.min burst 65535 * 2 ^ 16 in
  (acquire_all b times).1 =
    ideal_all cap (rate_fixed rate) cap 0 ((λ t, (t - now) / 1000000) <$> times).
Proof.
  intros Hb Hr b Ha cap. destruct (bucket_new_fields rate burst now Hb) as (E1 & E2 & E3 & E4).
  fold b in E1, E2, E3, E4.
  assert (real_ms b now = 0) as E0 by (unfold real_ms; by rewrite E3, Z.sub_diag).
  assert ((λ t, (t - now) / 1000000) <$> times = real_ms b <$> times) as ->
    by (unfold real_ms; by rewrite E3).
  rewrite (acquire_all_ideal times b cap now); rewrite ?E0, ?E1, ?E2; try assumption; try reflexivity; try lia.
  by apply bucket_new_ok.
Qed.

Lemma bucket_refines_ideal_witness :
  (acquire_all (bucket_new (f64_of_Z 10) 2 0) [0; 0; 0; 200000000]).1 =
    ideal_all (2 * 2 ^ 16) (rate_fixed (f64_of_Z 10)) (2 * 2 ^ 16) 0
      ((λ t, (t - 0) / 1000000) <$> [0; 0; 0; 200000000]).
Proof.
  apply (bucket_refines_ideal (f64_of_Z 10) 2 0 [0; 0; 0; 200000000]);
    [discriminate|vm_compute; discriminate|].
  repeat split; vm_compute; (reflexivity || discriminate).
Defined.

(** ** A clock reading older than the last refill *)

(** The clock is read once before the loop while the refill time moves on:
the 32-bit subtraction then wraps and refills the bucket completely.  With one
request per second and a burst of one, two threads are both admitted within one
millisecond. *)
Theorem stale_clock_refills :
  ∃ σ, rtc bucket_step (bucket_initial one 1 0 2) σ ∧
    clock σ = 1000000 ∧ threads σ = [Done true; Done true].
Proof.
  assert (∀ now b ts i p q b' σ,
    ts !! i = Some p → acquire_step now b p b' q →
    rtc bucket_step (mk_bsystem now b' (<[i := q]> ts)) σ → rtc bucket_step (mk_bsystem now b ts) σ) as step.
  { intros. eapply rtc_l; [by eapply b_thread|done]. }
  eexists. split; [|split].
  - unfold bucket_initial. cbn [replicate].
    eapply (step _ _ _ 0%nat); [reflexivity|apply acquire_clock|].
    eapply rtc_l; [apply (b_clock _ 1000000); lia|].
    eapply (step _ _ _ 1%nat); [reflexivity|apply acquire_clock|].
    eapply (step _ _ _ 1%nat); [reflexivity|apply acquire_load|].
    eapply (step _ _ _ 1%nat); [reflexivity|by apply acquire_ok|].
    eapply (step _ _ _ 0%nat); [reflexivity|apply acquire_load|].
    eapply (step _ _ _ 0%nat); [reflexivity|by apply acquire_ok|]. apply rtc_refl.
  - reflexivity.
  - vm_compute. reflexivity.
Qed.

(** ** Rates that truncate to zero *)

(** 0.01 requests per second: the float nearest to 1/100. *)
Definition rate_0_01 : f64 := f64_div (f64_of_Z 1) (f64_of_Z 100).

(** A rate of 0.01 per second becomes zero tokens per millisecond, so such a
bucket never refills: over any time it admits at most its burst. *)
Theorem slow_rate_never_refills burst now times :
  0 <= burst → ascending now times →
  rate_fixed rate_0_01 = 0 ∧
  admitted (acquire_all (bucket_new rate_0_01 burst now) times).1 <= Z.min burst 65535.
Proof.
  intros Hb Ha. assert (rate_fixed rate_0_01 = 0) as E by (vm_compute; reflexivity). split; [exact E|].
  destruct (bucket_new_fields rate_0_01 burst now Hb) as (E1 & E2 & E3 & E4).
  set (b := bucket_new _ _ _) in *.
  assert (real_ms b now = 0) as E0 by (unfold real_ms; by rewrite E3, Z.sub_diag).
  pose proof (acquire_all_bound times b (Z.min burst 65535 * 2 ^ 16) now (bucket_new_ok _ burst now Hb)) as H.
  rewrite E0, E2, E in H. specialize (H ltac:(rewrite E1; lia) ltac:(lia) E4 Ha). lia.
Qed.

Lemma slow_rate_never_refills_witness :
  rate_fixed rate_0_01 = 0 ∧
  admitted (acquire_all (bucket_new rate_0_01 1 0) [0; 1000000000000000]).1 <= Z.min 1 65535.
Proof. apply (slow_rate_never_refills 1 0 [0; 1000000000000000]); cbn; lia. Defined.

(** ** The limiter *)
Fixpoint check_all (l : RateLimiter) (calls : list (string * Z)) : list bool * RateLimiter :=
  match calls with
  | [] => ([], l)
  | (route, now) :: calls =>
      let '(r, l) := check_rate_limit l route now in
      let '(rs, l) := check_all l calls in (r :: rs, l)
  end.

(** The answers given to one route, and the times it was asked. *)
Fixpoint answers_for (route : string) (calls : list (string * Z)) (rs : list bool) : list bool :=
  match calls, rs with
  | (k, _) :: calls, r :: rs =>
      if decide (k = route) then r :: answers_for route calls rs else answers_for route calls rs
  | _, _ => []
  end.

Fixpoint times_for (route : string) (calls : list (string * Z)) : list Z :=
  match calls with
  | [] => []
  | (k, t) :: calls => if decide (k = route) then t :: times_for route calls else times_for route calls
  end.

Definition rl_requests (x : LimiterMetrics) (route result : string) : Z :=
  default 0 (rl_requests_total x !! (route, result)).

Lemma rl_inc_requests x k res route result :
  rl_requests (rl_inc k res x) route result =
    rl_requests x route result + (if decide ((k, res) = (route, result)) then 1 else 0).
Proof.
  unfold rl_requests, rl_inc. cbn. case_decide as E.
  - injection E as -> ->. by rewrite lookup_insert_eq.
  - rewrite lookup_insert_ne by done. lia.
Qed.

(** A check of route [k] seen from route [route]. *)
Lemma check_rate_limit_spec l k now route b :
  buckets l !! route = Some b →
  let '(r, l') := check_rate_limit l k now in
  (k ≠ route → buckets l' !! route = Some b ∧
     rl_requests (rl_metrics l') route "allowed" = rl_requests (rl_metrics l) route "allowed") ∧
  (k = route → r = (try_acquire b now).1 ∧ buckets l' !! route = Some (try_acquire b now).2 ∧
     rl_requests (rl_metrics l') route "allowed" =
       rl_requests (rl_metrics l) route "allowed" + (if r then 1 else 0)).
Proof.
  intros Hb. unfold check_rate_limit. destruct (decide (k = route)) as [->|Hne].
  - rewrite Hb. destruct (try_acquire b now) as [r b']. split; [done|]. intros _. cbn [fst snd].
    split_and!; [reflexivity|cbn [buckets]; by rewrite lookup_insert_eq|].
    cbn [rl_metrics]. change (rl_requests (rl_set_tokens _ _ ?x) route "allowed") with (rl_requests x route "allowed").
    rewrite rl_inc_requests. destruct r; [by rewrite decide_True|by rewrite decide_False].
  - destruct (buckets l !! k) as [c|] eqn:Hk.
    + destruct (try_acquire c now) as [r c']. split; [|done]. intros _. cbn [buckets rl_metrics].
      rewrite lookup_insert_ne by done. split; [exact Hb|].
      change (rl_requests (rl_set_tokens _ _ ?x) route "allowed") with (rl_requests x route "allowed").
      rewrite rl_inc_requests, decide_False by congruence. lia.
    + split; [|done]. intros _. cbn [buckets rl_metrics]. split; [exact Hb|].
      rewrite rl_inc_requests, decide_False by congruence. lia.
Qed.

Lemma check_all_isolated calls : ∀ l route b,
  buckets l !! route = Some b →
  answers_for route calls (check_all l calls).1 = (acquire_all b (times_for route calls)).1 ∧
  rl_requests (rl_metrics (check_all l calls).2) route "allowed" =
    rl_requests (rl_metrics l) route "allowed" + admitted (answers_for route calls (check_all l calls).1).
Proof.
  induction calls as [|[k t] calls IH]; intros l route b Hb.
  { split; [reflexivity|]. cbn. unfold admitted. cbn. lia. }
  cbn [check_all times_for]. pose proof (check_rate_limit_spec l k t route b Hb) as S.
  destruct (check_rate_limit l k t) as [r l']. destruct S as [Sne Seq].
  destruct (decide (k = route)) as [->|Hne].
  - destruct (Seq eq_refl) as (-> & Hb' & Hm). destruct (IH l' route _ Hb') as [I1 I2].
    cbn [acquire_all]. destruct (try_acquire b t) as [r b']. cbn [fst snd] in *.
    destruct (check_all l' calls) as [rs l'']. destruct (acquire_all b' _) as [rs' b'']. cbn [fst snd] in *.
    cbn [answers_for]. rewrite decide_True by done. rewrite I2, Hm, admitted_cons, I1. split; [done|lia].
  - destruct (Sne Hne) as (Hb' & Hm). destruct (IH l' route _ Hb') as [I1 I2].
    destruct (check_all l' calls) as [rs l'']. cbn [fst snd] in *.
    cbn [answers_for]. rewrite decide_False by done. by rewrite I2, Hm.
Qed.

Lemma ascending_weaken t0 t1 times : t0 <= t1 → ascending t1 times → ascending t0 times.
Proof. destruct times; cbn; [done|]. intros ? [??]. split; [lia|done]. Qed.

Lemma times_for_ascending route calls : ∀ t0,
  ascending t0 calls.*2 → ascending t0 (times_for route calls) ∧
  t0 <= List.last (times_for route calls) t0 <= List.last calls.*2 t0.
Proof.
  induction calls as [|[k t] calls IH]; intros t0; [cbn; lia|]. cbn [fmap list_fmap ascending times_for snd].
  intros [Hle Ha]. destruct (IH t Ha) as [I1 I2]. rewrite last_cons. destruct (decide (k = route)).
  - cbn [ascending]. rewrite last_cons. split; [done|]. lia.
  - split; [by eapply ascending_weaken|].
    destruct (times_for route calls) as [|x xs]; [cbn in *; lia|]. rewrite last_cons in *.
    destruct I1 as [? _]. lia.
Qed.

(** After a route is configured, whatever other routes are checked in between,
the requests the limiter admits on it respect its own burst and rate, and the
counter of allowed requests grows by exactly the number admitted. *)
Theorem limiter_conformance l route rate burst now calls :
  0 <= burst → ascending now calls.*2 →
  let l1 := configure_route l route rate burst now in
  let own := answers_for route calls (check_all l1 calls).1 in
  admitted own * 2 ^ 16 <=
    Z.min burst 65535 * 2 ^ 16 + rate_fixed rate * ((List.last calls.*2 now - now) / 1000000) ∧
  rl_requests (rl_metrics (check_all l1 calls).2) route "allowed" =
    rl_requests (rl_metrics l) route "allowed" + admitted own.
Proof.
  intros Hb Ha l1 own. destruct (times_for_ascending route calls now Ha) as [Ht Hl].
  destruct (check_all_isolated calls l1 route (bucket_new rate burst now)) as [I1 I2].
  { unfold l1. cbn [configure_route buckets]. by rewrite lookup_insert_eq. }
  fold own in I1, I2. split; [|exact I2]. rewrite I1.
  destruct (bucket_new_fields rate burst now Hb) as (E1 & E2 & E3 & E4). set (b := bucket_new _ _ _) in *.
  assert (real_ms b now = 0) as E0 by (unfold real_ms; by rewrite E3, Z.sub_diag).
  pose proof (acquire_all_bound (times_for route calls) b (Z.min burst 65535 * 2 ^ 16) now
                (bucket_new_ok _ burst now Hb)) as H.
  rewrite E0, E2, Z.sub_0_r in H. unfold real_ms in H. rewrite E3 in H.
  specialize (H ltac:(rewrite E1; lia) ltac:(lia) E4 Ht).
  pose proof (f64_as_u64_range (f64_mul (f64_div rate (f64_of_Z 1000)) (f64_of_Z FIXED_ONE))) as [R _].
  fold (float_to_fixed (f64_div rate (f64_of_Z 1000))) in R. fold (rate_fixed rate) in R.
  assert ((List.last (times_for route calls) now - now) / 1000000 <= (List.last calls.*2 now - now) / 1000000)
    by (apply Z.div_le_mono; lia). nia.
Qed.

Lemma limiter_conformance_witness :
  let calls := [("/a", 0); ("/b", 0); ("/a", 1)] in
  let own := answers_for "/a" calls (check_all (configure_route limiter_new "/a" one 1 0) calls).1 in
  admitted own * 2 ^ 16 <= Z.min 1 65535 * 2 ^ 16 + rate_fixed one * ((1 - 0) / 1000000) ∧
  rl_requests (rl_metrics (check_all (configure_route limiter_new "/a" one 1 0) calls).2) "/a" "allowed" =
    rl_requests (rl_metrics limiter_new) "/a" "allowed" + admitted own.
Proof.
  apply (limiter_conformance limiter_new "/a" one 1 0 [("/a", 0); ("/b", 0); ("/a", 1)]); cbn; lia.
Defined.

(** ** The configured rate *)
Lemma rate_quotient r m k :
  0 < r < 2 ^ 28 → 2 ^ 52 <= m < 2 ^ 53 → 16 <= k →
  2 * Z.abs (m * 1000 - r * 2 ^ k) <= 1000 → m * 2 ^ 16 / 2 ^ k = r * 2 ^ 16 / 1000.
Proof.
  intros Hr Hm Hk Herr.
  assert (30 <= k) as Hk30.
  { destruct (Z.le_gt_cases 30 k); [done|]. assert (2 ^ k <= 2 ^ 29) by (apply Z.pow_le_mono_r; lia). nia. }
  assert (2 ^ 30 <= 2 ^ k) as Hp by (apply Z.pow_le_mono_r; lia).
  pose proof (Z.div_mod (r * 2 ^ 16) 1000 ltac:(lia)) as Hdm.
  pose proof (Z.mod_pos_bound (r * 2 ^ 16) 1000 ltac:(lia)) as Hrho.
  set (F := r * 2 ^ 16 / 1000) in *. set (rho := (r * 2 ^ 16) mod 1000) in *.
  assert (∃ c, rho = 8 * c) as [c Hc].
  { exists (r * 2 ^ 13 - 125 * F). lia. }
  symmetry. apply (Z.div_unique _ _ _ (m * 2 ^ 16 - F * 2 ^ k)); [|lia].
  left. destruct (decide (c = 0)) as [->|Hc0].
  - assert (2 ^ k = 8 * 2 ^ (k - 3)) as E8.
    { change 8 with (2 ^ 3). rewrite <- Z.pow_add_r by lia. f_equal. lia. }
    assert (125 | r) as [u Hu].
    { apply (Z.gauss 125 (2 ^ 13)); [exists F; lia|reflexivity]. }
    assert (m = u * 2 ^ (k - 3)) by nia. nia.
  - nia.
Qed.

(** For a whole number of requests per second below 2^28 the two roundings and
the truncation lose nothing beyond the fixed point: the bucket refills exactly
[floor (rate * 65536 / 1000)] units of 1/65536 token per millisecond. *)
Lemma rate_fixed_floor r : 0 <= r < 2 ^ 28 → rate_fixed (f64_of_Z r) = r * 2 ^ 16 / 1000.
Proof.
  intros Hr. destruct (decide (r = 0)) as [->|Hne]; [reflexivity|].
  unfold rate_fixed, float_to_fixed.
  destruct (f64_div_nearest r 1000) as (m & k & Hk & Hd & -> & Herr); [lia..|].
  change (f64_of_Z FIXED_ONE) with pow16. apply normal_mantissa in Hd as Hm.
  assert (16 <= k).
  { destruct (Z.le_gt_cases 16 k); [done|]. assert (2 ^ k <= 2 ^ 15) by (apply Z.pow_le_mono_r; lia). nia. }
  assert (k <= 1000).
  { destruct (Z.le_gt_cases k 1000); [done|]. assert (2 ^ 100 <= 2 ^ k) by (apply Z.pow_le_mono_r; lia). nia. }
  rewrite f64_scale_trunc by (done || lia). apply rate_quotient; lia.
Qed.
