(* ===== verification/BackendPool.v ===== *)
(** * BackendPool: the HTTP/2 connection pools ([backend_pool.rs])

Each worker owns a pool of HTTP/2 connections per backend.  A pool hands out the
connections that are ready in turn, opens new ones up to a limit, and keeps a
health state of its own: connection failures first halve its limit and then close
it for a while.

A sender of the [hyper] crate is a handle; whether it is ready, and what a new
connection attempt gives, are inputs of each call, with the time before and after
the attempt (nanoseconds).  Counters of 32 and 64 bits wrap as in a release
build. *)

From S2P Require Import Prelude Common.

#[local] Open Scope Z_scope.

(** ** Data *)
Inductive ConnectionState : Type := Active | Draining | Failed.

#[export] Instance ConnectionState_eq_dec : EqDecision ConnectionState.
Proof. solve_decision. Defined.

Inductive HealthState : Type := Healthy | Degraded | Unhealthy.

#[export] Instance HealthState_eq_dec : EqDecision HealthState.
Proof. solve_decision. Defined.

Inductive PoolError : Type :=
| CircuitBreakerOpen
| ConnectionFailed (message : string)
| HandshakeFailed (message : string)
| NoCapacity
| QueueTimeout.

Record Http2Connection : Type := mk_connection {
  sender : nat;
  active_streams : Z;
  max_streams : Z;
  total_requests : Z;
  conn_state : ConnectionState;
  conn_created_at : Z;
  last_used : Z;
  consecutive_errors : Z;
  last_error : option Z
}.

Record PoolMetrics : Type := mk_pool_metrics {
  requests_total : Z;
  requests_queued : Z;
  connections_created : Z;
  connections_failed : Z
}.

Record Http2Pool : Type := mk_pool {
  backend : Backend;
  worker_id : Z;
  connections : list Http2Connection;
  max_connections : nat;
  max_streams_per_conn : Z;
  next_conn_index : nat;
  header_table_size : Z;
  health_state : HealthState;
  consecutive_failures : Z;
  last_success : Z;
  metrics : PoolMetrics
}.

(** The process-wide metrics, by backend and worker labels. *)
Record PoolRegistry : Type := mk_registry {
  pool_connections_active : gmap (string * string) Z;
  pool_max_concurrent_streams : gmap (string * string) Z;
  pool_connections_created : gmap (string * string) Z;
  pool_connections_failed : gmap (string * string) Z;
  pool_requests_queued : gmap (string * string) Z
}.

Definition registry_new : PoolRegistry := mk_registry ∅ ∅ ∅ ∅ ∅.

(** What the network does during a call. *)
Inductive connect_outcome : Type :=
| ConnectTimeout
| ConnectError (e : string)
| HandshakeError (e : string)
| Connects (s : nat).

Record Env : Type := mk_env {
  now : Z;
  later : Z;
  ready : nat → bool;
  connect : connect_outcome
}.

(** ** Updates of fields *)
Definition set_connections (p : Http2Pool) (cs : list Http2Connection) : Http2Pool :=
  mk_pool (backend p) (worker_id p) cs (max_connections p) (max_streams_per_conn p) (next_conn_index p)
    (header_table_size p) (health_state p) (consecutive_failures p) (last_success p) (metrics p).
Definition set_next_index (p : Http2Pool) (i : nat) : Http2Pool :=
  mk_pool (backend p) (worker_id p) (connections p) (max_connections p) (max_streams_per_conn p) i
    (header_table_size p) (health_state p) (consecutive_failures p) (last_success p) (metrics p).
Definition set_health (p : Http2Pool) (h : HealthState) (failures : Z) : Http2Pool :=
  mk_pool (backend p) (worker_id p) (connections p) (max_connections p) (max_streams_per_conn p)
    (next_conn_index p) (header_table_size p) h failures (last_success p) (metrics p).
Definition set_max_connections (p : Http2Pool) (n : nat) : Http2Pool :=
  mk_pool (backend p) (worker_id p) (connections p) n (max_streams_per_conn p) (next_conn_index p)
    (header_table_size p) (health_state p) (consecutive_failures p) (last_success p) (metrics p).
Definition set_last_success (p : Http2Pool) (t : Z) : Http2Pool :=
  mk_pool (backend p) (worker_id p) (connections p) (max_connections p) (max_streams_per_conn p)
    (next_conn_index p) (header_table_size p) (health_state p) (consecutive_failures p) t (metrics p).
Definition set_metrics (p : Http2Pool) (x : PoolMetrics) : Http2Pool :=
  mk_pool (backend p) (worker_id p) (connections p) (max_connections p) (max_streams_per_conn p)
    (next_conn_index p) (header_table_size p) (health_state p) (consecutive_failures p) (last_success p) x.

Definition touch (c : Http2Connection) (t : Z) : Http2Connection :=
  mk_connection (sender c) (active_streams c) (max_streams c) (total_requests c) (conn_state c)
    (conn_created_at c) t (consecutive_errors c) (last_error c).

(** ** Labels *)

(** [Display for SocketAddr] of the standard library, without a scope. *)
Definition show_socket_addr (a : SocketAddr) : string :=
  match a with
  | V4 ip port => show_ipv4 (octets ip) +:+ ":" +:+ show_Z port
  | V6 ip port _ _ => "[" +:+ show_ipv6 ip +:+ "]:" +:+ show_Z port
  end.

Definition format_backend (b : Backend) : string := show_socket_addr (to_socket_addr b).

Definition labels (p : Http2Pool) : string * string := (format_backend (backend p), show_Z (worker_id p)).

Definition bump `{Countable K} (k : K) (m : gmap K Z) : gmap K Z := <[k := default 0 (m !! k) + 1]> m.

Definition set_active (k : string * string) (n : Z) (x : PoolRegistry) : PoolRegistry :=
  mk_registry (<[k := n]> (pool_connections_active x)) (pool_max_concurrent_streams x)
    (pool_connections_created x) (pool_connections_failed x) (pool_requests_queued x).
Definition inc_created (k : string * string) (x : PoolRegistry) : PoolRegistry :=
  mk_registry (pool_connections_active x) (pool_max_concurrent_streams x)
    (bump k (pool_connections_created x)) (pool_connections_failed x) (pool_requests_queued x).
Definition inc_failed (k : string * string) (x : PoolRegistry) : PoolRegistry :=
  mk_registry (pool_connections_active x) (pool_max_concurrent_streams x)
    (pool_connections_created x) (bump k (pool_connections_failed x)) (pool_requests_queued x).
Definition inc_queued (k : string * string) (x : PoolRegistry) : PoolRegistry :=
  mk_registry (pool_connections_active x) (pool_max_concurrent_streams x)
    (pool_connections_created x) (pool_connections_failed x) (bump k (pool_requests_queued x)).
Definition set_streams (k : string * string) (n : Z) (x : PoolRegistry) : PoolRegistry :=
  mk_registry (pool_connections_active x) (<[k := n]> (pool_max_concurrent_streams x))
    (pool_connections_created x) (pool_connections_failed x) (pool_requests_queued x).

(** ** Operations of a pool *)
Definition pool_new (b : Backend) (worker_id now : Z) (x : PoolRegistry) : Http2Pool * PoolRegistry :=
  (mk_pool b worker_id [] 8 500 0 8192 Healthy 0 now (mk_pool_metrics 0 0 0 0),
   set_streams (backend_to_string b, show_Z worker_id) 500 x).

Definition record_success (p : Http2Pool) (t : Z) : Http2Pool :=
  let p := set_last_success (set_health p (health_state p) 0) t in
  if decide (health_state p = Degraded) then set_health p Healthy (consecutive_failures p) else p.

Definition record_failure (p : Http2Pool) (x : PoolRegistry) : Http2Pool * PoolRegistry :=
  let p := set_health p (health_state p) (wrap 32 (consecutive_failures p + 1)) in
  let mt := metrics p in
  let p := set_metrics p (mk_pool_metrics (requests_total mt) (requests_queued mt) (connections_created mt)
                            (wrap 64 (connections_failed mt + 1))) in
  let x := inc_failed (labels p) x in
  let p :=
    if (5 <=? consecutive_failures p) && bool_decide (health_state p = Healthy)
    then set_max_connections (set_health p Degraded (consecutive_failures p))
           (Nat.max (max_connections p) 1 / 2)%nat
    else p in
  let p := if 10 <=? consecutive_failures p then set_health p Unhealthy (consecutive_failures p) else p in
  (p, x).

Definition create_connection (p : Http2Pool) (x : PoolRegistry) (env : Env)
  : result Http2Connection PoolError * (Http2Pool * PoolRegistry) :=
  match connect env with
  | ConnectTimeout => (Err (ConnectionFailed "Connection timeout after 5s"), record_failure p x)
  | ConnectError e => (Err (ConnectionFailed e), record_failure p x)
  | HandshakeError e => (Err (HandshakeFailed e), record_failure p x)
  | Connects s =>
      let p := record_success p (later env) in
      let mt := metrics p in
      let p := set_metrics p (mk_pool_metrics (requests_total mt) (requests_queued mt)
                                (wrap 64 (connections_created mt + 1)) (connections_failed mt)) in
      let x := inc_created (labels p) x in
      let x := set_active (labels p) (Z.of_nat (length (connections p)) + 1) x in
      (Ok (mk_connection s 0 (max_streams_per_conn p) 0 Active (later env) (later env) 0 None), (p, x))
  end.

(** The round-robin search over the [remaining] positions from the [i]-th on. *)
Fixpoint find_ready (env : Env) (cs : list Http2Connection) (start i remaining : nat) : option nat :=
  match remaining with
  | O => None
  | S remaining =>
      let idx := ((start + i) mod length cs)%nat in
      match cs !! idx with
      | Some c =>
          if bool_decide (conn_state c = Active) && ready env (sender c) then Some idx
          else find_ready env cs start (S i) remaining
      | None => None
      end
  end.

(** The circuit breaker at the start of [get_connection]. *)
Definition check_breaker (p : Http2Pool) (env : Env) : option Http2Pool :=
  if decide (health_state p = Unhealthy)
  then if 30000000000 <? Z.max 0 (now env - last_success p) then Some (set_health p Degraded 0) else None
  else Some p.

Definition cleanup (p : Http2Pool) (x : PoolRegistry) : Http2Pool * PoolRegistry :=
  let cs := filter (λ c, conn_state c ≠ Failed) (connections p) in
  (set_connections p cs,
   if (length (connections p) =? length cs)%nat then x
   else set_active (labels p) (Z.of_nat (length cs)) x).

Definition get_connection (p : Http2Pool) (x : PoolRegistry) (env : Env)
  : result nat PoolError * (Http2Pool * PoolRegistry) :=
  match check_breaker p env with
  | None => (Err CircuitBreakerOpen, (p, x))
  | Some p =>
      let '(p, x) := cleanup p x in
      let num_conns := length (connections p) in
      match find_ready env (connections p) (next_conn_index p) 0 num_conns with
      | Some idx =>
          match connections p !! idx with
          | Some c =>
              let p := set_connections p (<[idx := touch c (now env)]> (connections p)) in
              (Ok (sender c), (set_next_index p ((idx + 1) mod num_conns)%nat, x))
          | None => (Err NoCapacity, (p, x))
          end
      | None =>
          if (num_conns <? max_connections p)%nat then
            match create_connection p x env with
            | (Ok c, (p, x)) =>
                let c := touch c (later env) in
                (Ok (sender c), (set_connections p (connections p ++ [c]), x))
            | (Err e, (p, x)) => (Err e, (p, x))
            end
          else
            let mt := metrics p in
            let p := set_metrics p (mk_pool_metrics (requests_total mt) (wrap 64 (requests_queued mt + 1))
                                      (connections_created mt) (connections_failed mt)) in
            (Err NoCapacity, (p, inc_queued (labels p) x))
      end
  end.

(** [for i in 0..max_connections]: one attempt per element until one fails. *)
Fixpoint prewarm_loop (p : Http2Pool) (x : PoolRegistry) (envs : list Env) : Http2Pool * PoolRegistry :=
  match envs with
  | [] => (p, x)
  | env :: envs =>
      match create_connection p x env with
      | (Ok c, (p, x)) => prewarm_loop (set_connections p (connections p ++ [c])) x envs
      | (Err _, (p, x)) => (p, x)
      end
  end.

Definition prewarm (p : Http2Pool) (x : PoolRegistry) (envs : nat → Env) : Http2Pool * PoolRegistry :=
  prewarm_loop p x (envs <$> seq 0 (max_connections p)).

Definition should_close (c : Http2Connection) (env : Env) : bool :=
  bool_decide (conn_state c = Failed) || (3600000000000 <? Z.max 0 (now env - conn_created_at c)) ||
  (10000 <? total_requests c) || negb (ready env (sender c)).

(** ** The pools of a worker *)
Record BackendKey : Type := mk_backend_key { key_ip : list Z; key_port : Z }.

#[export] Instance BackendKey_eq_dec : EqDecision BackendKey.
Proof. solve_decision. Defined.

#[export] Instance BackendKey_countable : Countable BackendKey.
Proof. apply (inj_countable' (λ k, (key_ip k, key_port k)) (λ '(i, p), mk_backend_key i p)). by intros []. Defined.

Definition backend_key_from (b : Backend) : BackendKey := mk_backend_key (ip_bytes b) (port b).

Record BackendConnectionPools : Type := mk_pools {
  pools_worker_id : Z;
  pools : gmap BackendKey Http2Pool
}.

Definition pools_new (worker_id : Z) : BackendConnectionPools := mk_pools worker_id ∅.

Definition get_or_create_pool (ps : BackendConnectionPools) (b : Backend) (now : Z) (x : PoolRegistry)
  : Http2Pool * (BackendConnectionPools * PoolRegistry) :=
  match pools ps !! backend_key_from b with
  | Some p => (p, (ps, x))
  | None =>
      let '(p, x) := pool_new b (pools_worker_id ps) now x in
      (p, (mk_pools (pools_worker_id ps) (<[backend_key_from b := p]> (pools ps)), x))
  end.

Definition prewarm_pool (ps : BackendConnectionPools) (b : Backend) (x : PoolRegistry) (envs : nat → Env)
  : BackendConnectionPools * PoolRegistry :=
  match pools ps !! backend_key_from b with
  | Some p =>
      if decide (connections p = []) then
        let '(p, x) := prewarm p x envs in
        (mk_pools (pools_worker_id ps) (<[backend_key_from b := p]> (pools ps)), x)
      else (ps, x)
  | None => (ps, x)
  end.

(** ** Runs and the invariant *)
Fixpoint gets (p : Http2Pool) (x : PoolRegistry) (envs : list Env)
  : list (result nat PoolError) * (Http2Pool * PoolRegistry) :=
  match envs with
  | [] => ([], (p, x))
  | env :: envs =>
      let '(r, (p, x)) := get_connection p x env in
      let '(rs, px) := gets p x envs in (r :: rs, px)
  end.

Record pool_ok (p : Http2Pool) : Prop := {
  ok_active : Forall (λ c, conn_state c = Active) (connections p);
  ok_length : (length (connections p) <= 8)%nat;
  ok_max : (max_connections p <= 8)%nat
}.

Definition none_ready (p : Http2Pool) (env : Env) : Prop :=
  Forall (λ c, ready env (sender c) = false) (connections p).

Lemma pool_new_ok b w now x : pool_ok (pool_new b w now x).1.
Proof. split; cbn; [constructor|lia..]. Qed.

Lemma set_connections_id p : set_connections p (connections p) = p.
Proof. by destruct p. Qed.

(** No operation marks a connection as failed, so the cleanup removes none. *)
Lemma cleanup_id p x : Forall (λ c, conn_state c = Active) (connections p) → cleanup p x = (p, x).
Proof.
  intros Ha. unfold cleanup. assert (filter (λ c, conn_state c ≠ Failed) (connections p) = connections p) as ->.
  { induction Ha as [|c cs Hc _ IH]; [done|]. rewrite filter_cons, decide_True, IH by (by rewrite Hc). done. }
  by rewrite Nat.eqb_refl, set_connections_id.
Qed.

Lemma find_ready_sound env cs start : ∀ remaining i idx,
  find_ready env cs start i remaining = Some idx →
  ∃ c, cs !! idx = Some c ∧ conn_state c = Active ∧ ready env (sender c) = true.
Proof.
  induction remaining as [|n IH]; intros i idx; cbn [find_ready]; [done|].
  destruct (cs !! ((start + i) mod length cs)%nat) as [c|] eqn:Hc; [|done].
  destruct (bool_decide _ && _) eqn:E; [|apply IH]. intros [= <-]. apply andb_true_iff in E as [E1 E2].
  apply bool_decide_eq_true in E1. eauto.
Qed.

Lemma find_ready_none env cs start : ∀ remaining i,
  Forall (λ c, conn_state c = Active) cs → find_ready env cs start i remaining = None →
  ∀ j c, (j < remaining)%nat → cs !! ((start + (i + j)) mod length cs)%nat = Some c → ready env (sender c) = false.
Proof.
  induction remaining as [|n IH]; intros i Ha Hn j c Hj Hc; [lia|]. cbn [find_ready] in Hn.
  destruct (cs !! ((start + i) mod length cs)%nat) as [c0|] eqn:Hc0.
  - pose proof (Forall_lookup_1 _ _ _ _ Ha Hc0) as Hact. rewrite bool_decide_true in Hn by done.
    destruct (ready env (sender c0)) eqn:Hr; [done|]. destruct j as [|j].
    + rewrite Nat.add_0_r in Hc. congruence.
    + apply (IH (S i) Ha Hn j c); [lia|]. by replace (S i + j)%nat with (i + S j)%nat by lia.
  - apply lookup_ge_None in Hc0. assert (length cs = 0)%nat as ->%nil_length_inv; [|done].
    destruct (length cs) as [|k]; [done|]. pose proof (Nat.mod_upper_bound (start + i) (S k)). lia.
Qed.

(** Every position is reached from every start. *)
Lemma rotation_covers start n idx : (idx < n)%nat → ∃ j, (j < n)%nat ∧ idx = ((start + j) mod n)%nat.
Proof.
  intros Hi. pose proof (Nat.mod_upper_bound start n ltac:(lia)) as Hs.
  assert (∀ j, (start + j) mod n = (start mod n + j) mod n)%nat as E
    by (intros j; by rewrite Nat.Div0.add_mod_idemp_l).
  destruct (Nat.le_gt_cases (start mod n) idx).
  - exists (idx - start mod n)%nat. split; [lia|]. rewrite E, Nat.mod_small; lia.
  - exists (n + idx - start mod n)%nat. split; [lia|]. rewrite E.
    replace (start mod n + (n + idx - start mod n))%nat with (idx + 1 * n)%nat by lia.
    rewrite Nat.Div0.mod_add, Nat.mod_small; lia.
Qed.

Lemma find_ready_none_all env cs start :
  Forall (λ c, conn_state c = Active) cs → find_ready env cs start 0 (length cs) = None →
  Forall (λ c, ready env (sender c) = false) cs.
Proof.
  intros Ha Hn. apply Forall_lookup_2. intros idx c Hc.
  destruct (rotation_covers start (length cs) idx) as (j & Hj & ->); [by eapply lookup_lt_Some|].
  by apply (find_ready_none env cs start (length cs) 0 Ha Hn j c).
Qed.

Lemma find_ready_dead env cs start : ∀ remaining i,
  Forall (λ c, ready env (sender c) = false) cs → find_ready env cs start i remaining = None.
Proof.
  induction remaining as [|n IH]; intros i Hd; [done|]. cbn [find_ready].
  destruct (cs !! _) as [c|] eqn:Hc; [|done].
  by rewrite (Forall_lookup_1 _ _ _ _ Hd Hc : ready env (sender c) = false), andb_false_r, IH.
Qed.

(** The breaker only changes the health fields. *)
Lemma check_breaker_frame p env p' :
  check_breaker p env = Some p' →
  connections p' = connections p ∧ max_connections p' = max_connections p ∧
  next_conn_index p' = next_conn_index p ∧ health_state p' ≠ Unhealthy.
Proof.
  unfold check_breaker. case_decide as H; [case_match|]; intros [= <-]; done.
Qed.

Lemma record_failure_frame p x p' x' :
  record_failure p x = (p', x') →
  connections p' = connections p ∧ (max_connections p' <= max_connections p)%nat.
Proof.
  unfold record_failure. intros [= <- _].
  destruct (_ && _), (10 <=? _); cbn [connections max_connections set_max_connections set_health set_metrics];
    (split; [reflexivity|]); try lia;
    pose proof (Nat.div_le_upper_bound (Nat.max (max_connections p) 1) 2 (max_connections p)) as B;
    destruct (max_connections p) as [|k]; cbn [Nat.max] in *; try (cbn; lia); apply B; lia.
Qed.

Lemma record_success_frame p t :
  connections (record_success p t) = connections p ∧ max_connections (record_success p t) = max_connections p.
Proof. unfold record_success. by case_decide. Qed.

Definition failed_connect (o : connect_outcome) : option PoolError :=
  match o with
  | ConnectTimeout => Some (ConnectionFailed "Connection timeout after 5s")
  | ConnectError e => Some (ConnectionFailed e)
  | HandshakeError e => Some (HandshakeFailed e)
  | Connects _ => None
  end.

Lemma create_connection_spec p x env r p' x' :
  create_connection p x env = (r, (p', x')) →
  connections p' = connections p ∧ (max_connections p' <= max_connections p)%nat ∧
  match r with
  | Ok c => connect env = Connects (sender c) ∧ conn_state c = Active
  | Err e => failed_connect (connect env) = Some e
  end.
Proof.
  unfold create_connection. destruct (connect env) as [|e|e|s]; cbn [failed_connect].
  1-3: destruct (record_failure p x) as [pf xf] eqn:Hf; intros [= <- <- <-];
    destruct (record_failure_frame _ _ _ _ Hf); done.
  intros [= <- <- _]. destruct (record_success_frame p (later env)) as [E1 E2].
  cbn [connections max_connections set_metrics sender conn_state]. by rewrite E1, E2.
Qed.

(** The pool is open for business: not closed by its breaker, or closed for more
than thirty seconds since the last success. *)
Definition open_at (p : Http2Pool) (env : Env) : Prop :=
  health_state p = Unhealthy → last_success p + 30000000000 < now env.

Lemma check_breaker_open p env : is_Some (check_breaker p env) ↔ open_at p env.
Proof.
  unfold check_breaker, open_at. case_decide as H; [|naive_solver].
  destruct (_ <? _) eqn:E; zbool; split; intros G.
  - intros _. lia.
  - eauto.
  - by destruct G.
  - specialize (G H). lia.
Qed.

(** What one call may answer and do to the connections. *)
Definition get_spec (p : Http2Pool) (env : Env) (r : result nat PoolError) (p' : Http2Pool) : Prop :=
  match r with
  | Ok s =>
      (∃ i c, connections p !! i = Some c ∧ sender c = s ∧ ready env s = true ∧
         connections p' = <[i := touch c (now env)]> (connections p)) ∨
      (none_ready p env ∧ (length (connections p) < max_connections p)%nat ∧ connect env = Connects s ∧
         sender <$> connections p' = (sender <$> connections p) ++ [s])
  | Err CircuitBreakerOpen => ¬ open_at p env ∧ p' = p
  | Err NoCapacity =>
      none_ready p env ∧ (max_connections p <= length (connections p))%nat ∧ connections p' = connections p
  | Err QueueTimeout => False
  | Err e =>
      none_ready p env ∧ (length (connections p) < max_connections p)%nat ∧
      failed_connect (connect env) = Some e ∧ connections p' = connections p
  end.

Lemma get_connection_spec p x env r p' x' :
  pool_ok p → get_connection p x env = (r, (p', x')) →
  get_spec p env r p' ∧ pool_ok p' ∧ (max_connections p' <= max_connections p)%nat ∧
  (r ≠ Err CircuitBreakerOpen → open_at p env).
Proof.
  intros [Ha Hl Hm]. unfold get_connection. pose proof (check_breaker_open p env) as Hopen.
  destruct (check_breaker p env) as [p0|] eqn:Hb.
  2: { intros [= <- <- <-]. split_and!; try done. split; [|done]. intros [? ?]%Hopen. done. }
  assert (open_at p env) as Ho by (by apply Hopen).
  destruct (check_breaker_frame _ _ _ Hb) as (Ec & Em & En & _).
  rewrite cleanup_id by (by rewrite Ec). rewrite Ec, Em.
  destruct (find_ready env (connections p) (next_conn_index p0) 0 (length (connections p))) as [idx|] eqn:Hf.
  - destruct (find_ready_sound _ _ _ _ _ _ Hf) as (c & Hc & Hact & Hr). rewrite Hc. intros [= <- <- <-].
    cbn [connections max_connections set_next_index set_connections]. rewrite Em.
    split_and!; [left; by exists idx, c| |lia|done].
    split; cbn [connections max_connections set_next_index set_connections]; [|by rewrite length_insert|lia].
    by apply Forall_insert.
  - apply find_ready_none_all in Hf; [|done]. destruct (_ <? _)%nat eqn:Hlt.
    + apply Nat.ltb_lt in Hlt. destruct (create_connection p0 x env) as [rc [p1 x1]] eqn:Hcc.
      destruct (create_connection_spec _ _ _ _ _ _ Hcc) as (Ec1 & Em1 & Hr). rewrite Ec in Ec1. rewrite Em in Em1.
      destruct rc as [c|e]; intros [= <- <- <-].
      * destruct Hr as [Hconn Hact]. cbn [sender touch connections max_connections set_connections get_spec].
        split_and!; [right; split_and!; try done; by rewrite fmap_app, Ec1| |lia|done].
        split; cbn [connections max_connections set_connections]; rewrite ?Ec1; [|rewrite length_app; cbn; lia|lia].
        apply Forall_app. by repeat constructor.
      * assert (pool_ok p1) as Hok1 by (split; rewrite ?Ec1; (assumption || lia)).
        split_and!; [|done|lia|done]. cbn [get_spec].
        destruct (connect env); cbn in Hr |- *; simplify_eq; done.
    + apply Nat.ltb_ge in Hlt. intros [= <- <- <-].
      cbn [connections max_connections set_metrics get_spec]. rewrite Ec, Em. split_and!; [done..| |lia|done].
      split; cbn [connections max_connections set_metrics]; by rewrite ?Ec, ?Em.
Qed.

Lemma gets_ok envs : ∀ p x, pool_ok p →
  pool_ok (gets p x envs).2.1 ∧ (max_connections (gets p x envs).2.1 <= max_connections p)%nat.
Proof.
  induction envs as [|env envs IH]; intros p x Hok; [by split|]. cbn [gets].
  destruct (get_connection p x env) as [r [p' x']] eqn:Hg.
  destruct (get_connection_spec _ _ _ _ _ _ Hok Hg) as (_ & Hok' & Hm & _).
  destruct (IH p' x' Hok') as [Hok'' Hm']. destruct (gets p' x' envs) as [rs [p'' x'']]. cbn in *. split; [done|lia].
Qed.

Lemma prewarm_loop_ok envs : ∀ p x,
  pool_ok p → (length (connections p) + length envs <= 8)%nat → pool_ok (prewarm_loop p x envs).1.
Proof.
  induction envs as [|env envs IH]; intros p x Hok Hl; [done|]. cbn [prewarm_loop length] in *.
  destruct (create_connection p x env) as [rc [p1 x1]] eqn:Hcc.
  destruct (create_connection_spec _ _ _ _ _ _ Hcc) as (Ec & Em & Hr). destruct Hok as [Ha Hlen Hm].
  destruct rc as [c|e]; [|cbn [fst]; split; rewrite ?Ec; (assumption || lia)]. destruct Hr as [_ Hact].
  apply IH; [split|]; cbn [connections max_connections set_connections]; rewrite ?Ec, ?length_app; cbn [length]; try lia.
  apply Forall_app. by repeat constructor.
Qed.

(** A pool as a worker gets it: fresh, or prewarmed. *)
Definition start_pool (b : Backend) (w t : Z) (x : PoolRegistry) (warm : option (nat → Env)) : Http2Pool * PoolRegistry :=
  let '(p, x) := pool_new b w t x in
  match warm with
  | Some envs => prewarm p x envs
  | None => (p, x)
  end.

Lemma start_pool_ok b w t x warm : pool_ok (start_pool b w t x warm).1.
Proof.
  unfold start_pool. pose proof (pool_new_ok b w t x) as Hok. destruct (pool_new b w t x) as [p x'] eqn:E.
  destruct warm as [envs|]; [|done]. apply prewarm_loop_ok; [done|].
  unfold pool_new in E. injection E as <- _. cbn. lia.
Qed.

(** ** Theorems *)

(** C23: after any sequence of calls on a fresh or prewarmed pool, the next call does
what the pool promises: it hands out a connection of the pool that is ready;
opens a new one only if none is ready and the limit is not reached; reports a
failed attempt as its cause; reports a lack of capacity only if none is ready and
the limit is reached; and refuses as broken only while the pool is unhealthy
within thirty seconds of its last success, changing nothing.  A pool never holds
more than eight connections. *)
Theorem pool_get_correct b w t x0 warm envs env :
  let '(p0, x0) := start_pool b w t x0 warm in
  let '(_, (p, x)) := gets p0 x0 envs in
  let '(r, (p', _)) := get_connection p x env in
  get_spec p env r p' ∧ (length (connections p') <= 8)%nat.
Proof.
  pose proof (start_pool_ok b w t x0 warm) as Hok. destruct (start_pool b w t x0 warm) as [p0 x0'].
  destruct (gets_ok envs p0 x0' Hok) as [Hok' _]. destruct (gets p0 x0' envs) as [rs [p x]]. cbn in Hok'.
  destruct (get_connection p x env) as [r [p' x']] eqn:Hg.
  destruct (get_connection_spec _ _ _ _ _ _ Hok' Hg) as (Hs & Hok'' & _). split; [done|apply Hok''].
Qed.

(** *** Round robin *)
Definition sender_at (p : Http2Pool) (i : nat) : nat :=
  nth (i mod length (connections p)) (sender <$> connections p) 0%nat.

Lemma get_connection_ready p x env :
  pool_ok p → health_state p ≠ Unhealthy → connections p ≠ [] →
  Forall (λ c, ready env (sender c) = true) (connections p) →
  ∃ p', get_connection p x env = (Ok (sender_at p (next_conn_index p)), (p', x)) ∧ pool_ok p' ∧
    health_state p' = health_state p ∧ sender <$> connections p' = sender <$> connections p ∧
    (∀ i, sender_at p' (next_conn_index p' + i) = sender_at p (next_conn_index p + S i)).
Proof.
  intros Hok Hh Hne Hr. set (n := length (connections p)).
  assert (0 < n)%nat as Hn by (unfold n; destruct (connections p); [done|cbn; lia]).
  set (idx := (next_conn_index p mod n)%nat).
  assert (idx < n)%nat as Hidx by (apply Nat.mod_upper_bound; lia).
  destruct (lookup_lt_is_Some_2 (connections p) idx Hidx) as [c Hc].
  assert (sender_at p (next_conn_index p) = sender c) as Hs.
  { unfold sender_at. fold n idx. apply nth_lookup_Some. by rewrite list_lookup_fmap, Hc. }
  assert (get_connection p x env = (Ok (sender c),
    (set_next_index (set_connections p (<[idx := touch c (now env)]> (connections p))) ((idx + 1) mod n)%nat, x))) as Hg.
  { unfold get_connection, check_breaker. rewrite decide_False, cleanup_id by (done || apply Hok). fold n.
    assert (find_ready env (connections p) (next_conn_index p) 0 n = Some idx) as ->; [|by rewrite Hc].
    destruct n as [|k] eqn:En; [lia|]. cbn [find_ready]. rewrite Nat.add_0_r.
    replace (length (connections p)) with (S k) by done. fold idx. rewrite Hc.
    rewrite (Forall_lookup_1 _ _ _ _ Hr Hc : ready env (sender c) = true).
    by rewrite bool_decide_true by (by apply (Forall_lookup_1 _ _ _ _ (ok_active _ Hok) Hc)). }
  destruct (get_connection_spec _ _ _ _ _ _ Hok Hg) as (_ & Hok' & _).
  assert (sender <$> <[idx := touch c (now env)]> (connections p) = sender <$> connections p) as Hsend.
  { rewrite list_fmap_insert. cbn [sender touch]. apply list_insert_id. by rewrite list_lookup_fmap, Hc. }
  rewrite Hs. eexists. split; [exact Hg|]. split_and!; [done|done|done|]. intros i. unfold sender_at.
  cbn [connections next_conn_index set_next_index set_connections]. rewrite Hsend, length_insert. fold n. f_equal.
  rewrite Nat.Div0.add_mod_idemp_l. unfold idx.
  replace (next_conn_index p mod n + 1 + i)%nat with (next_conn_index p mod n + S i)%nat by lia.
  by rewrite Nat.Div0.add_mod_idemp_l.
Qed.

(** Round robin.  While all its connections stay ready, a pool that is not closed
answers a sequence of calls with the senders in circular order from where it
stopped, so every connection is used before one is used again. *)
Theorem pool_round_robin p x envs :
  pool_ok p → health_state p ≠ Unhealthy → connections p ≠ [] →
  Forall (λ env, Forall (λ s, ready env s = true) (sender <$> connections p)) envs →
  (gets p x envs).1 = (λ i, Ok (sender_at p (next_conn_index p + i))) <$> seq 0 (length envs).
Proof.
  revert p x. induction envs as [|env envs IH]; intros p x Hok Hh Hne Hr; [done|].
  apply Forall_cons in Hr as [Hr Hrs]. cbn [gets length seq fmap list_fmap].
  destruct (get_connection_ready p x env Hok Hh Hne) as (p' & -> & Hok' & Hh' & Hs & Hrot); [by apply Forall_fmap in Hr|].
  specialize (IH p' x Hok'). rewrite Hh', Hs in IH.
  destruct (gets p' x envs) as [rs px]. cbn [fst] in *. rewrite Nat.add_0_r. f_equal.
  rewrite IH; [|done| |done].
  - rewrite <- fmap_S_seq. rewrite <- list_fmap_compose. apply list_fmap_ext. intros i j _. cbn. by rewrite Hrot.
  - intros E. rewrite E in Hs. cbn in Hs. destruct (connections p); done.
Qed.

(** *** Connections that died stay in the pool *)
Lemma get_connection_none_ready p x env :
  pool_ok p → health_state p ≠ Unhealthy → none_ready p env →
  get_connection p x env =
    (if (length (connections p) <? max_connections p)%nat then
       match create_connection p x env with
       | (Ok c, (p, x)) => (Ok (sender c), (set_connections p (connections p ++ [touch c (later env)]), x))
       | (Err e, (p, x)) => (Err e, (p, x))
       end
     else
       let mt := metrics p in
       let p := set_metrics p (mk_pool_metrics (requests_total mt) (wrap 64 (requests_queued mt + 1))
                                 (connections_created mt) (connections_failed mt)) in
       (Err NoCapacity, (p, inc_queued (labels p) x))).
Proof.
  intros Hok Hh Hd. unfold get_connection, check_breaker. rewrite decide_False, cleanup_id by (done || apply Hok).
  by rewrite find_ready_dead.
Qed.

(** A pool whose connections have died and are as many as its limit answers
every later call with a lack of capacity, for ever: no operation marks a
connection as failed, so the cleanup keeps the dead ones and they count against
the limit. *)
Theorem dead_connections_exhaust_pool p x envs :
  pool_ok p → health_state p ≠ Unhealthy → (max_connections p <= length (connections p))%nat →
  Forall (none_ready p) envs →
  Forall (λ r, r = Err NoCapacity) (gets p x envs).1.
Proof.
  revert p x. induction envs as [|env envs IH]; intros p x Hok Hh Hm Hd; [constructor|].
  apply Forall_cons in Hd as [Hd Hds]. cbn [gets]. pose proof (get_connection_none_ready p x env Hok Hh Hd) as Hg.
  apply Nat.ltb_ge in Hm as Hm'. rewrite Hm' in Hg. cbv zeta in Hg. rewrite Hg.
  destruct (get_connection_spec _ _ _ _ _ _ Hok Hg) as (_ & Hok' & _).
  specialize (IH _ (inc_queued (labels p) x) Hok' Hh Hm Hds).
  change (labels (set_metrics p _)) with (labels p).
  destruct (gets _ _ envs) as [rs px]. by constructor.
Qed.

(** *** Capacity *)

(** A call during which no connection is ready and a new one cannot be opened. *)
Definition failing (p : Http2Pool) (env : Env) : Prop :=
  none_ready p env ∧ is_Some (failed_connect (connect env)).

Lemma get_connection_failing p x env :
  pool_ok p → health_state p ≠ Unhealthy → (length (connections p) < max_connections p)%nat → failing p env →
  ∃ e, get_connection p x env = (Err e, record_failure p x).
Proof.
  intros Hok Hh Hl [Hd [e He]]. exists e. rewrite get_connection_none_ready by done.
  apply Nat.ltb_lt in Hl. rewrite Hl. unfold create_connection.
  destruct (record_failure p x) as [pf xf].
  destruct (connect env); cbn [failed_connect] in He; by simplify_eq.
Qed.

(** A failure of a healthy pool, below and at the threshold of five. *)
Lemma record_failure_healthy p x :
  health_state p = Healthy → 0 <= consecutive_failures p < 5 →
  let p' := (record_failure p x).1 in
  consecutive_failures p' = consecutive_failures p + 1 ∧ connections p' = connections p ∧
  if consecutive_failures p =? 4
  then health_state p' = Degraded ∧ max_connections p' = (Nat.max (max_connections p) 1 / 2)%nat
  else health_state p' = Healthy ∧ max_connections p' = max_connections p.
Proof.
  intros Hh Hf. unfold record_failure. cbn [health_state consecutive_failures set_health set_metrics].
  rewrite (wrap_small 32) by (unfold in_width; lia). rewrite Hh, bool_decide_true, andb_true_r by done.
  destruct (consecutive_failures p =? 4) eqn:E4, (5 <=? consecutive_failures p + 1) eqn:E5; zbool; try lia;
    cbn [consecutive_failures set_health set_metrics set_max_connections];
    destruct (10 <=? consecutive_failures p + 1) eqn:E10; zbool; try lia; done.
Qed.

Lemma failing_run envs : ∀ p x,
  pool_ok p → health_state p = Healthy → 0 <= consecutive_failures p →
  consecutive_failures p + Z.of_nat (length envs) = 5 → envs ≠ [] →
  (length (connections p) < max_connections p)%nat → Forall (failing p) envs →
  let p' := (gets p x envs).2.1 in
  health_state p' = Degraded ∧ max_connections p' = (Nat.max (max_connections p) 1 / 2)%nat ∧
  consecutive_failures p' = 5.
Proof.
  induction envs as [|env envs IH]; intros p x Hok Hh Hf Hlen Hne Hl Hall; [done|].
  apply Forall_cons in Hall as [Hfail Hall]. cbn [gets length] in *.
  destruct (get_connection_failing p x env Hok ltac:(by rewrite Hh) Hl Hfail) as [e Hg].
  destruct (record_failure_healthy p x Hh ltac:(lia)) as (Ef & Ec & Hcase).
  destruct (record_failure p x) as [p1 x1]. cbn [fst] in *.
  destruct (get_connection_spec _ _ _ _ _ _ Hok Hg) as (_ & Hok1 & _). rewrite Hg.
  destruct (consecutive_failures p =? 4) eqn:E4; zbool; destruct Hcase as [Hh1 Hm1].
  - assert (envs = []) as -> by (destruct envs; [done|cbn in Hlen; lia]). cbn. split_and!; [done|done|lia].
  - specialize (IH p1 x1 Hok1 Hh1). rewrite Ef, Hm1 in IH. unfold failing, none_ready in *. rewrite Ec in IH.
    assert (envs ≠ []) as Hne1 by (intros ->; cbn in Hlen; lia).
    specialize (IH ltac:(lia) ltac:(lia) Hne1 Hl Hall).
    by destruct (gets p1 x1 envs) as [rs [p2 x2]].
Qed.

(** Lost capacity does not come back.  Five consecutive failed attempts of a
healthy pool halve its limit of connections, and after that no sequence of calls,
whatever recoveries it contains, gives a higher limit again. *)
Theorem capacity_never_restored p x envs :
  pool_ok p → health_state p = Healthy → consecutive_failures p = 0 →
  (length (connections p) < max_connections p)%nat → length envs = 5%nat → Forall (failing p) envs →
  let '(_, (p1, x1)) := gets p x envs in
  health_state p1 = Degraded ∧ max_connections p1 = (max_connections p / 2)%nat ∧
  ∀ calls, (max_connections (gets p1 x1 calls).2.1 <= max_connections p / 2)%nat.
Proof.
  intros Hok Hh Hf Hl Hlen Hall. pose proof (gets_ok envs p x Hok) as [Hok1 _].
  destruct (failing_run envs p x Hok Hh) as (H1 & H2 & _); [lia|lia|by destruct envs|done|done|].
  destruct (gets p x envs) as [rs [p1 x1]]. cbn [snd fst] in *. rewrite Nat.max_l in H2 by lia.
  split_and!; [done|done|]. intros calls. destruct (gets_ok calls p1 x1 Hok1) as [_ Hm]. lia.
Qed.

(** ** Witnesses *)
Definition sample_env (t : Z) (up : bool) (o : connect_outcome) : Env := mk_env t t (λ _, up) o.

Definition warm_pool : Http2Pool :=
  (start_pool (from_ipv4 (mk_ipv4 10 0 0 1) 80 100) 0 0 registry_new
     (Some (λ i, sample_env 1 true (Connects i)))).1.

Lemma warm_pool_ok : pool_ok warm_pool.
Proof. apply start_pool_ok. Qed.

Lemma pool_round_robin_witness :
  (gets warm_pool registry_new (replicate 3 (sample_env 2 true ConnectTimeout))).1 =
    (λ i, Ok (sender_at warm_pool (next_conn_index warm_pool + i))) <$> seq 0 3.
Proof.
  apply (pool_round_robin warm_pool registry_new (replicate 3 (sample_env 2 true ConnectTimeout))).
  - exact warm_pool_ok.
  - vm_compute. discriminate.
  - vm_compute. discriminate.
  - vm_compute. repeat constructor.
Defined.

Lemma dead_connections_exhaust_pool_witness :
  Forall (λ r, r = Err NoCapacity)
    (gets warm_pool registry_new
       [sample_env 2 false (Connects 9); sample_env (10 ^ 18) false (Connects 9)]).1.
Proof.
  apply (dead_connections_exhaust_pool warm_pool).
  - exact warm_pool_ok.
  - vm_compute. discriminate.
  - vm_compute. lia.
  - vm_compute. repeat constructor.
Defined.

Definition fresh_pool : Http2Pool := (start_pool (from_ipv4 (mk_ipv4 10 0 0 1) 80 100) 0 0 registry_new None).1.

Lemma capacity_never_restored_witness :
  let '(_, (p1, x1)) := gets fresh_pool registry_new (replicate 5 (sample_env 2 true ConnectTimeout)) in
  health_state p1 = Degraded ∧ max_connections p1 = 4%nat ∧
  ∀ calls, (max_connections (gets p1 x1 calls).2.1 <= 4)%nat.
Proof.
  apply (capacity_never_restored fresh_pool registry_new (replicate 5 (sample_env 2 true ConnectTimeout))).
  - apply start_pool_ok.
  - reflexivity.
  - reflexivity.
  - vm_compute. lia.
  - reflexivity.
  - repeat constructor; eexists; reflexivity.
Defined.
