(* ===== verification/Health.v ===== *)
(** * Health: passive health and draining ([route_snapshot.rs])

The per-backend window of the last hundred responses, the error-rate test on it
in floating point, draining deadlines, and the pair of maps the router shares
with its readers. *)

From S2P Require Import Prelude Common Float.

#[local] Open Scope Z_scope.

(** ** Draining *)
Record BackendDraining : Type := mk_draining { deadline : Z }.

Definition draining_new (drain_timeout now : Z) : BackendDraining := mk_draining (now + drain_timeout).
Definition is_expired (d : BackendDraining) (now : Z) : bool := deadline d <=? now.

(** ** The window: oldest response first, [true] for an error *)
Record BackendHealth : Type := mk_health { window : list bool }.

Definition WINDOW_SIZE : nat := 100.

Definition health_new : BackendHealth := mk_health [].

Definition errors (w : list bool) : nat := length (filter (λ e, e = true) w).

Definition is_healthy (h : BackendHealth) : bool :=
  let total := length (window h) in
  if (total =? 0)%nat then true
  else
    let error_count := errors (window h) in
    let error_rate := f64_div (f64_of_Z (Z.of_nat error_count)) (f64_of_Z (Z.of_nat total)) in
    f64_leb error_rate half.

Definition is_error_status (status_code : Z) : bool := (500 <=? status_code) && (status_code <? 600).

Definition record_response (h : BackendHealth) (status_code : Z) : BackendHealth :=
  let w := if (length (window h) =? WINDOW_SIZE)%nat then tail (window h) else window h in
  mk_health (w ++ [is_error_status status_code]).

(** ** The shared maps *)
Record HealthData : Type := mk_health_data {
  backend_health : gmap Backend BackendHealth;
  draining_backends : gmap Backend BackendDraining
}.

Definition health_data_new : HealthData := mk_health_data ∅ ∅.

(** ** The window holds the last responses *)
Definition responses (h : BackendHealth) (codes : list Z) : BackendHealth := foldl record_response h codes.

Definition last_n {A} (n : nat) (l : list A) : list A := drop (length l - n) l.

Lemma last_n_snoc {A} n (l : list A) x :
  (0 < n)%nat →
  last_n n (l ++ [x]) = (if (length (last_n n l) =? n)%nat then tail (last_n n l) else last_n n l) ++ [x].
Proof.
  intros Hn. unfold last_n. rewrite length_app, length_drop. cbn [length].
  destruct (Nat.eqb_spec (length l - (length l - n)) n) as [E|E].
  - replace (length l + 1 - n)%nat with (S (length l - n)) by lia.
    rewrite drop_app_le by lia. f_equal.
    replace (S (length l - n)) with (length l - n + 1)%nat by lia. rewrite <- drop_drop. by destruct (drop _ l).
  - replace (length l + 1 - n)%nat with 0%nat by lia. by replace (length l - n)%nat with 0%nat by lia.
Qed.

Lemma responses_window codes :
  window (responses health_new codes) = last_n WINDOW_SIZE (is_error_status <$> codes).
Proof.
  induction codes as [|c codes IH] using rev_ind; [done|].
  unfold responses in *. rewrite foldl_app, fmap_app. cbn [foldl fmap list_fmap].
  unfold record_response at 1. cbn [window]. rewrite IH. symmetry. apply last_n_snoc. unfold WINDOW_SIZE. lia.
Qed.

Lemma errors_le w : (errors w <= length w)%nat.
Proof. apply length_filter. Qed.

(** The floating-point test is the integer one. *)
Lemma is_healthy_exact h :
  Z.of_nat (length (window h)) < 2 ^ 50 →
  is_healthy h = (2 * Z.of_nat (errors (window h)) <=? Z.of_nat (length (window h))).
Proof.
  intros Hl. unfold is_healthy. pose proof (errors_le (window h)).
  destruct (Nat.eqb_spec (length (window h)) 0) as [E|E].
  - symmetry. apply Z.leb_le. lia.
  - apply f64_ratio_le_half; lia.
Qed.

(** After any sequence of responses, a backend is healthy exactly when at most
half of its last hundred responses (or of all, if fewer) were 5xx: the window
holds exactly those responses, and the floating-point comparison of the error
rate with 0.5 never errs. *)
Theorem passive_health_exact codes :
  let recent := last_n WINDOW_SIZE codes in
  let bad := length (filter (λ c, is_error_status c = true) recent) in
  is_healthy (responses health_new codes) = (2 * bad <=? length recent)%nat.
Proof.
  intros recent bad. assert (length recent <= 100)%nat as Hle.
  { unfold recent, last_n, WINDOW_SIZE. rewrite length_drop. lia. }
  assert (window (responses health_new codes) = is_error_status <$> recent) as Hw.
  { rewrite responses_window. unfold recent, last_n. by rewrite fmap_drop, length_fmap. }
  assert (∀ l, errors (is_error_status <$> l) = length (filter (λ c, is_error_status c = true) l)) as He.
  { unfold errors. induction l as [|c l IH]; [done|]. cbn [fmap list_fmap]. rewrite !filter_cons.
    repeat case_decide; try done; cbn [length]; by rewrite IH. }
  rewrite is_healthy_exact; rewrite Hw, length_fmap; [|lia]. rewrite He. fold bad.
  destruct (2 * bad <=? length recent)%nat eqn:E.
  - apply Nat.leb_le in E. apply Z.leb_le. lia.
  - apply Nat.leb_gt in E. apply Z.leb_gt. lia.
Qed.

(** ** Health of a backend in the shared maps *)

(** The two tests of the selection loops: a backend without an entry is healthy,
and one with a draining entry is draining even after its deadline. *)
Definition healthy_in (d : HealthData) (b : Backend) : bool :=
  match backend_health d !! b with
  | Some h => is_healthy h
  | None => true
  end.

Definition draining_in (d : HealthData) (b : Backend) : bool :=
  bool_decide (is_Some (draining_backends d !! b)).
