(* ===== verification/HealthChecker.v ===== *)
(** * HealthChecker: active probing ([health_checker.rs])

The hysteresis of one backend's probe results, the table of states, and one
iteration of the background loop with its metrics.  The TCP connection itself is
an input: a probe is a success, a connection error or a timeout. *)

From S2P Require Import Prelude Common.

#[local] Open Scope Z_scope.

Record HealthCheckConfig : Type := mk_hc_config {
  enabled : bool;
  interval : Z;
  timeout : Z;
  unhealthy_threshold : Z;
  healthy_threshold : Z
}.

Definition default_config : HealthCheckConfig := mk_hc_config false 5000000000 2000000000 3 2.

Inductive HealthStatus : Type := Healthy | Unhealthy.

#[export] Instance HealthStatus_eq_dec : EqDecision HealthStatus.
Proof. solve_decision. Defined.

Record BackendHealthState : Type := mk_hstate {
  status : HealthStatus;
  consecutive_successes : Z;
  consecutive_failures : Z;
  last_check : option Z;
  last_latency_ms : option Z
}.

Definition hstate_new : BackendHealthState := mk_hstate Healthy 0 0 None None.

(** [record_success]; the [u32] counter wraps. *)
Definition probe_success (s : BackendHealthState) (latency_ms : Z) (c : HealthCheckConfig) (now : Z)
  : BackendHealthState :=
  let successes := wrap 32 (consecutive_successes s + 1) in
  mk_hstate (if healthy_threshold c <=? successes then Healthy else status s)
    successes 0 (Some now) (Some latency_ms).

Definition probe_failure (s : BackendHealthState) (c : HealthCheckConfig) (now : Z) : BackendHealthState :=
  let failures := wrap 32 (consecutive_failures s + 1) in
  mk_hstate (if unhealthy_threshold c <=? failures then Unhealthy else status s)
    0 failures (Some now) (last_latency_ms s).

(** The result of [timeout(TcpStream::connect(..))]. *)
Inductive probe_outcome : Type := Connected | ConnectError | TimedOut.

Definition probe_label (r : probe_outcome) : string :=
  match r with Connected => "success" | ConnectError => "failure" | TimedOut => "timeout" end.

Definition status_label (s : HealthStatus) : string :=
  match s with Healthy => "healthy" | Unhealthy => "unhealthy" end.

Definition probe_update (c : HealthCheckConfig) (s : BackendHealthState) (r : probe_outcome) (latency_ms now : Z)
  : BackendHealthState :=
  match r with
  | Connected => probe_success s latency_ms c now
  | ConnectError | TimedOut => probe_failure s c now
  end.

(** ** The checker *)

(** The gauges and counters, and the observations of the histogram in
milliseconds (the code observes them divided by 1000). *)
Record HealthMetrics : Type := mk_hmetrics {
  backend_health_status : gmap (string * string) Z;
  health_check_probes_total : gmap (string * string) Z;
  health_check_duration : gmap (string * string) (list Z);
  health_check_consecutive_failures : gmap string Z;
  health_state_transitions_total : gmap (string * string * string) Z
}.

Record HealthChecker : Type := mk_checker {
  config : HealthCheckConfig;
  states : gmap Backend BackendHealthState;
  hmetrics : HealthMetrics
}.

Definition checker_new (c : HealthCheckConfig) : HealthChecker :=
  mk_checker c ∅ (mk_hmetrics ∅ ∅ ∅ ∅ ∅).

Definition checker_is_healthy (h : HealthChecker) (b : Backend) : bool :=
  match states h !! b with
  | Some s => bool_decide (status s = Healthy)
  | None => true
  end.

Definition get_all_statuses (h : HealthChecker) : gmap Backend HealthStatus := status <$> states h.

(** [entry(b).or_insert_with(BackendHealthState::new)] *)
Definition entry (m : gmap Backend BackendHealthState) (b : Backend) : BackendHealthState :=
  default hstate_new (m !! b).

Definition track (m : gmap Backend BackendHealthState) (b : Backend) : gmap Backend BackendHealthState :=
  <[b := entry m b]> m.

(** [start_checking]: the states it creates and the probing tasks it spawns. *)
Definition start_checking (h : HealthChecker) (backends : list Backend) : HealthChecker * list Backend :=
  if negb (enabled (config h)) then (h, [])
  else (mk_checker (config h) (foldl track (states h) backends) (hmetrics h), backends).

Definition bump `{Countable K} (k : K) (m : gmap K Z) : gmap K Z := <[k := default 0 (m !! k) + 1]> m.

(** One iteration of [check_backend_loop] after the tick of the timer. *)
Definition check_backend (h : HealthChecker) (b : Backend) (route_name : string) (r : probe_outcome)
    (latency_ms now : Z) : HealthChecker :=
  let label := backend_to_string b in
  let old := entry (states h) b in
  let new := probe_update (config h) old r latency_ms now in
  let states' := <[b := new]> (states h) in
  let x := hmetrics h in
  let transitions :=
    if decide (status old = status new) then health_state_transitions_total x
    else bump (label, status_label (status old), status_label (status new)) (health_state_transitions_total x) in
  mk_checker (config h) states'
    (mk_hmetrics
       (<[(label, route_name) := if decide (status new = Healthy) then 1 else 0]> (backend_health_status x))
       (bump (label, probe_label r) (health_check_probes_total x))
       (<[(label, probe_label r) := default [] (health_check_duration x !! (label, probe_label r)) ++ [latency_ms]]>
          (health_check_duration x))
       (<[label := default 0 (consecutive_failures <$> states' !! b)]> (health_check_consecutive_failures x))
       transitions).

(** ** Histories *)
Record probe_event : Type := mk_probe {
  probed : Backend;
  probe_route : string;
  probe_result : probe_outcome;
  latency : Z;
  probed_at : Z
}.

Definition run_probe (h : HealthChecker) (p : probe_event) : HealthChecker :=
  check_backend h (probed p) (probe_route p) (probe_result p) (latency p) (probed_at p).

Definition run_probes (h : HealthChecker) (ps : list probe_event) : HealthChecker := foldl run_probe h ps.

Definition probe_ok (r : probe_outcome) : bool := match r with Connected => true | _ => false end.

(** The results of one backend's probes, oldest first. *)
Fixpoint history (b : Backend) (ps : list probe_event) : list bool :=
  match ps with
  | [] => []
  | p :: ps => if decide (probed p = b) then probe_ok (probe_result p) :: history b ps else history b ps
  end.

(** [l] has [n] consecutive results [x] somewhere. *)
Definition has_run (n : nat) (x : bool) (l : list bool) : Prop := ∃ p s, l = p ++ replicate n x ++ s.

(** A backend is down when [u] failures in a row were not followed by [k]
successes in a row. *)
Definition down (u k : nat) (l : list bool) : Prop :=
  ∃ p s, l = p ++ replicate u false ++ s ∧ ¬ has_run k true s.

(** ** Trailing runs *)
Fixpoint trail (x : bool) (l : list bool) (acc : nat) : nat :=
  match l with
  | [] => acc
  | y :: l => trail x l (if decide (y = x) then S acc else 0)
  end.

(** The length of the run of [x] that [l] ends with. *)
Definition ending (x : bool) (l : list bool) : nat := trail x l 0.

Lemma ending_snoc x l y : ending x (l ++ [y]) = if decide (y = x) then S (ending x l) else 0%nat.
Proof.
  unfold ending.
  assert (∀ n, trail x (l ++ [y]) n = if decide (y = x) then S (trail x l n) else 0%nat) as H; [|done].
  induction l as [|z l IH]; intros n; cbn; [done|]. apply IH.
Qed.

Lemma ending_suffix x l n : (n <= ending x l)%nat ↔ replicate n x `suffix_of` l.
Proof.
  revert n. induction l as [|y l IH] using rev_ind; intros n.
  { cbn. split.
    - intros ?. assert (n = 0%nat) as -> by lia. apply suffix_nil.
    - intros [p Hp]. destruct n; [lia|]. by destruct p. }
  rewrite ending_snoc. destruct n as [|n]; [split; [intros _; apply suffix_nil|lia]|].
  rewrite replicate_S_end. case_decide as E.
  - subst. rewrite <- Nat.succ_le_mono, IH. split.
    + intros [p ->]. exists p. by rewrite app_assoc.
    + intros [p Hp]. rewrite app_assoc in Hp. apply app_inj_tail in Hp as [-> _]. by exists p.
  - split; [lia|]. intros [p Hp]. rewrite app_assoc in Hp. apply app_inj_tail in Hp as [_ Hp]. by subst.
Qed.

(** A run inside [l ++ [y]] is inside [l] or is where the list ends. *)
Lemma has_run_snoc n x l y : has_run n x (l ++ [y]) → has_run n x l ∨ replicate n x `suffix_of` l ++ [y].
Proof.
  intros (p & s & E). destruct s as [|z s _] using rev_ind.
  - right. exists p. by rewrite E, app_nil_r.
  - left. exists p, s. rewrite !app_assoc in E. apply app_inj_tail in E as [-> _]. by rewrite app_assoc.
Qed.

Lemma has_run_app n x l l' : has_run n x l → has_run n x (l ++ l').
Proof. intros (p & s & ->). exists p, (s ++ l'). by rewrite <- !app_assoc. Qed.

Lemma has_run_nil n x : (0 < n)%nat → ¬ has_run n x [].
Proof. intros Hn (p & s & E). destruct p; [|done]. by destruct n; [lia|]. Qed.

(** ** The effect of one more probe on [down] *)
Section down.
Context (u k : nat) (Hu : (0 < u)%nat) (Hk : (0 < k)%nat).

Lemma down_fail l : down u k (l ++ [false]) ↔ (u <= ending false (l ++ [false]))%nat ∨ down u k l.
Proof.
  rewrite ending_suffix. split.
  - intros (p & s & E & Hs). destruct s as [|z s _] using rev_ind.
    + left. exists p. by rewrite E, app_nil_r.
    + right. exists p, s. rewrite !app_assoc in E. apply app_inj_tail in E as [-> _].
      rewrite <- app_assoc. split; [done|]. intros ?. by apply Hs, has_run_app.
  - intros [[p Hp]|(p & s & -> & Hs)].
    + exists p, []. rewrite app_nil_r. split; [done|]. by apply has_run_nil.
    + exists p, (s ++ [false]). rewrite <- !app_assoc. split; [done|].
      intros [?|[q Hq]]%has_run_snoc; [done|]. destruct k as [|k']; [lia|].
      rewrite replicate_S_end, app_assoc in Hq. by apply app_inj_tail in Hq as [_ ?].
Qed.

(** A block of failures cannot overlap the successes at the end. *)
Lemma block_before_end p s l :
  p ++ replicate u false ++ s = l ++ replicate k true → has_run k true s.
Proof.
  intros E. destruct (Nat.le_gt_cases k (length s)) as [Hle|Hgt].
  - assert (suffix (replicate k true) s) as [q ->].
    { assert (replicate k true = drop (length s - k) s) as ->; [|apply suffix_drop].
      assert (length l + k = length p + u + length s)%nat as Hlen.
      { apply (f_equal length) in E. rewrite !length_app, !length_replicate in E. lia. }
      rewrite <- (drop_app_length l (replicate k true)), <- E.
      replace (length l) with (length (p ++ replicate u false) + (length s - k))%nat
        by (rewrite length_app, length_replicate; lia).
      rewrite app_assoc, <- drop_drop, drop_app_length. done. }
    exists q, []. by rewrite app_nil_r.
  - exfalso. assert ((p ++ replicate u false ++ s) !! (length p + (u - 1))%nat = Some false) as H1.
    { rewrite lookup_app_r by lia. rewrite lookup_app_l by (rewrite length_replicate; lia).
      apply lookup_replicate. split; [done|lia]. }
    assert (length l + k = length p + u + length s)%nat as Hlen.
    { apply (f_equal length) in E. rewrite !length_app, !length_replicate in E. lia. }
    rewrite E, lookup_app_r in H1 by lia. apply lookup_replicate in H1 as [? _]. done.
Qed.

Lemma down_ok l : down u k (l ++ [true]) ↔ (ending true (l ++ [true]) < k)%nat ∧ down u k l.
Proof.
  split.
  - intros (p & s & E & Hs). split.
    + destruct (Nat.lt_ge_cases (ending true (l ++ [true])) k) as [|Hge]; [done|].
      apply ending_suffix in Hge as [q Hq]. rewrite E in Hq. by apply block_before_end in Hq.
    + destruct s as [|z s _] using rev_ind.
      * exfalso. rewrite app_nil_r in E. destruct u as [|u']; [lia|].
        rewrite replicate_S_end, app_assoc in E. by apply app_inj_tail in E as [_ ?].
      * rewrite !app_assoc in E. apply app_inj_tail in E as [-> _]. exists p, s.
        rewrite <- app_assoc. split; [done|]. intros ?. by apply Hs, has_run_app.
  - intros [Hlt (p & s & -> & Hs)]. exists p, (s ++ [true]). rewrite <- !app_assoc. split; [done|].
    intros [?|Hsuf]%has_run_snoc; [done|].
    apply Nat.lt_nge in Hlt. apply Hlt, ending_suffix.
    destruct Hsuf as [q Hq]. exists (p ++ replicate u false ++ q). by rewrite <- !app_assoc, Hq.
Qed.

Lemma down_nil : ¬ down u k [].
Proof. intros (p & s & E & _). destruct p; [|done]. by destruct u; [lia|]. Qed.
End down.

(** ** The counters of a state are the runs its history ends with *)
Record tracks (c : HealthCheckConfig) (l : list bool) (s : BackendHealthState) : Prop := {
  tr_successes : consecutive_successes s = Z.of_nat (ending true l);
  tr_failures : consecutive_failures s = Z.of_nat (ending false l);
  tr_status : status s = Unhealthy ↔
                down (Z.to_nat (unhealthy_threshold c)) (Z.to_nat (healthy_threshold c)) l
}.

Definition thresholds_ok (c : HealthCheckConfig) : Prop :=
  1 <= unhealthy_threshold c ∧ 1 <= healthy_threshold c.

Lemma tracks_new c : thresholds_ok c → tracks c [] hstate_new.
Proof.
  intros [??]. split; [done|done|]. cbn [status hstate_new]. split; [done|].
  intros Hd. exfalso. revert Hd. apply down_nil; lia.
Qed.

Lemma ending_length x l : (ending x l <= length l)%nat.
Proof.
  pose proof (proj1 (ending_suffix x l (ending x l)) ltac:(lia)) as [p Hp].
  rewrite Hp at 2. rewrite length_app, length_replicate. lia.
Qed.

Lemma tracks_update c l s r lat now :
  thresholds_ok c → Z.of_nat (length l) + 1 < 2 ^ 32 → tracks c l s →
  tracks c (l ++ [probe_ok r]) (probe_update c s r lat now).
Proof.
  intros [Hu Hk] Hlen [T1 T2 T3].
  pose proof (ending_length true l). pose proof (ending_length false l).
  assert (∀ s', s' = probe_failure s c now → tracks c (l ++ [false]) s') as Hfail.
  { intros s' ->. unfold probe_failure. rewrite T2, wrap_small by (unfold in_width; lia).
    split; cbn [consecutive_successes consecutive_failures status].
    - by rewrite ending_snoc.
    - rewrite ending_snoc, decide_True by done. lia.
    - rewrite down_fail, ending_snoc, decide_True by (done || lia). rewrite <- T3.
      destruct (_ <=? _) eqn:E; zbool; [|naive_solver lia]. split; [|done]. intros _. left. lia. }
  destruct r; [|by apply Hfail..]. cbn [probe_update probe_ok]. unfold probe_success.
  rewrite T1, wrap_small by (unfold in_width; lia).
  split; cbn [consecutive_successes consecutive_failures status].
  - rewrite ending_snoc, decide_True by done. lia.
  - by rewrite ending_snoc.
  - rewrite down_ok, ending_snoc, decide_True by (done || lia). rewrite <- T3.
    destruct (_ <=? _) eqn:E; zbool; [|naive_solver lia]. split; [done|]. lia.
Qed.

Lemma history_snoc b ps p :
  history b (ps ++ [p]) = history b ps ++ (if decide (probed p = b) then [probe_ok (probe_result p)] else []).
Proof.
  induction ps as [|q ps IH]; cbn; [done|]. destruct (decide (probed q = b)); cbn; by rewrite IH.
Qed.

Lemma history_length b ps : (length (history b ps) <= length ps)%nat.
Proof. induction ps as [|p ps IH]; cbn; [done|]. case_decide; cbn; lia. Qed.

Lemma run_probes_tracks c ps b :
  thresholds_ok c → Z.of_nat (length ps) < 2 ^ 32 →
  config (run_probes (checker_new c) ps) = c ∧
  tracks c (history b ps) (entry (states (run_probes (checker_new c) ps)) b).
Proof.
  intros Hc. induction ps as [|p ps IH] using rev_ind; intros Hlen; [split; [done|by apply tracks_new]|].
  rewrite length_app in Hlen. cbn in Hlen. destruct IH as [Ec IH]; [lia|].
  unfold run_probes in *. rewrite foldl_app. cbn [foldl]. set (h := foldl run_probe _ ps) in *.
  unfold run_probe, check_backend. cbn [config states]. split; [done|]. rewrite history_snoc.
  pose proof (history_length b ps). case_decide as E.
  - subst b. unfold entry at 1. rewrite lookup_insert_eq. cbn [default from_option id]. rewrite Ec.
    apply tracks_update; [done|lia|done].
  - unfold entry. rewrite lookup_insert_ne, app_nil_r by done. exact IH.
Qed.

(** For thresholds of at least one and fewer than 2^32 probes, a backend is
reported unhealthy exactly when some [unhealthy_threshold] consecutive failures
of its own probes are not followed by [healthy_threshold] consecutive successes,
whatever probes of other backends lie in between. *)
Theorem hysteresis_exact c ps b :
  thresholds_ok c → Z.of_nat (length ps) < 2 ^ 32 →
  checker_is_healthy (run_probes (checker_new c) ps) b = false ↔
    down (Z.to_nat (unhealthy_threshold c)) (Z.to_nat (healthy_threshold c)) (history b ps).
Proof.
  intros Hc Hlen. destruct (run_probes_tracks c ps b Hc Hlen) as [_ [_ _ T]]. rewrite <- T.
  unfold checker_is_healthy, entry. destruct (states _ !! b) as [s|]; cbn; [|done].
  rewrite bool_decide_eq_false. destruct (status s); naive_solver.
Qed.

Definition sample_backend : Backend := from_ipv4 (mk_ipv4 10 0 0 1) 80 100.
Definition sample_probe (r : probe_outcome) : probe_event := mk_probe sample_backend "web" r 5 0.

Lemma hysteresis_exact_witness :
  checker_is_healthy (run_probes (checker_new default_config)
      (sample_probe <$> [ConnectError; TimedOut; ConnectError; Connected])) sample_backend = false ↔
    down 3 2 (history sample_backend (sample_probe <$> [ConnectError; TimedOut; ConnectError; Connected])).
Proof.
  apply (hysteresis_exact default_config); [split; discriminate|reflexivity].
Defined.
