(* ===== verification/HealthTasks.v ===== *)
(** * HealthTasks: the probing tasks ([start_checking], [shutdown] and [check_backend_loop] of [health_checker.rs])

Every call of [start_checking] spawns a task per backend.  A task waits for its timer
or for the cancellation, probes, updates the shared state of its backend under the
lock, and then updates the metrics one after the other.  A step is one access to
what the tasks share; the tasks run interleaved. *)

From S2P Require Import Prelude Common HealthChecker.

#[local] Open Scope Z_scope.

(** ** State *)

(** What a task still has to do to the metrics after a probe. *)
Inductive access : Type :=
| CountTransition (old new : HealthStatus)
| SetStatus (new : HealthStatus)
| CountProbe (r : probe_outcome)
| Observe (r : probe_outcome) (latency_ms : Z)
| LoadFailures
| SetFailures (n : Z).

Inductive phase : Type :=
| AtSelect
| Probing
| Reporting (todo : list access)
| Ended.

Record task : Type := mk_task { t_backend : Backend; t_route : string; t_phase : phase }.

(** [probes] records the probes in the order in which they took the lock. *)
Record probe_system : Type := mk_psystem {
  checker : HealthChecker;
  cancelled : bool;
  tasks : list task;
  probes : list probe_event
}.

Definition system_new (c : HealthCheckConfig) : probe_system := mk_psystem (checker_new c) false [] [].

Definition with_metrics (h : HealthChecker) (x : HealthMetrics) : HealthChecker := mk_checker (config h) (states h) x.

(** ** One access to the metrics, and what it leaves to do *)
Definition perform (h : HealthChecker) (b : Backend) (route : string) (a : access) : HealthChecker * list access :=
  let label := backend_to_string b in
  let x := hmetrics h in
  match a with
  | CountTransition old new =>
      (with_metrics h (mk_hmetrics (backend_health_status x) (health_check_probes_total x) (health_check_duration x)
         (health_check_consecutive_failures x)
         (bump (label, status_label old, status_label new) (health_state_transitions_total x))), [])
  | SetStatus new =>
      (with_metrics h (mk_hmetrics (<[(label, route) := if decide (new = Healthy) then 1 else 0]> (backend_health_status x))
         (health_check_probes_total x) (health_check_duration x) (health_check_consecutive_failures x)
         (health_state_transitions_total x)), [])
  | CountProbe r =>
      (with_metrics h (mk_hmetrics (backend_health_status x) (bump (label, probe_label r) (health_check_probes_total x))
         (health_check_duration x) (health_check_consecutive_failures x) (health_state_transitions_total x)), [])
  | Observe r latency_ms =>
      (with_metrics h (mk_hmetrics (backend_health_status x) (health_check_probes_total x)
         (<[(label, probe_label r) := default [] (health_check_duration x !! (label, probe_label r)) ++ [latency_ms]]>
            (health_check_duration x)) (health_check_consecutive_failures x) (health_state_transitions_total x)), [])
  | LoadFailures => (h, [SetFailures (default 0 (consecutive_failures <$> states h !! b))])
  | SetFailures n =>
      (with_metrics h (mk_hmetrics (backend_health_status x) (health_check_probes_total x) (health_check_duration x)
         (<[label := n]> (health_check_consecutive_failures x)) (health_state_transitions_total x)), [])
  end.

(** The state of the backend under the lock, and the report that follows. *)
Definition record_probe (h : HealthChecker) (b : Backend) (r : probe_outcome) (latency_ms now : Z)
    : HealthChecker * list access :=
  let old := entry (states h) b in
  let new := probe_update (config h) old r latency_ms now in
  (mk_checker (config h) (<[b := new]> (states h)) (hmetrics h),
   (if decide (status old = status new) then [] else [CountTransition (status old) (status new)]) ++
   [SetStatus (status new); CountProbe r; Observe r latency_ms; LoadFailures]).

(** ** Steps *)
Definition set_phase (t : task) (p : phase) : task := mk_task (t_backend t) (t_route t) p.

Inductive probe_step : probe_system → probe_system → Prop :=
| ps_start h c ts l backends route h' spawned :
    start_checking h backends = (h', spawned) →
    probe_step (mk_psystem h c ts l) (mk_psystem h' c (ts ++ ((λ b, mk_task b route AtSelect) <$> spawned)) l)
| ps_shutdown h c ts l : probe_step (mk_psystem h c ts l) (mk_psystem h true ts l)
| ps_tick h c ts l i t :
    ts !! i = Some t → t_phase t = AtSelect →
    probe_step (mk_psystem h c ts l) (mk_psystem h c (<[i := set_phase t Probing]> ts) l)
| ps_cancel h ts l i t :
    ts !! i = Some t → t_phase t = AtSelect →
    probe_step (mk_psystem h true ts l) (mk_psystem h true (<[i := set_phase t Ended]> ts) l)
| ps_result h c ts l i t r latency_ms now h' todo :
    ts !! i = Some t → t_phase t = Probing → record_probe h (t_backend t) r latency_ms now = (h', todo) →
    probe_step (mk_psystem h c ts l)
      (mk_psystem h' c (<[i := set_phase t (Reporting todo)]> ts) (l ++ [mk_probe (t_backend t) (t_route t) r latency_ms now]))
| ps_access h c ts l i t a todo h' more :
    ts !! i = Some t → t_phase t = Reporting (a :: todo) → perform h (t_backend t) (t_route t) a = (h', more) →
    probe_step (mk_psystem h c ts l) (mk_psystem h' c (<[i := set_phase t (Reporting (more ++ todo))]> ts) l)
| ps_loop h c ts l i t :
    ts !! i = Some t → t_phase t = Reporting [] →
    probe_step (mk_psystem h c ts l) (mk_psystem h c (<[i := set_phase t AtSelect]> ts) l).

Definition probing_reachable (c : HealthCheckConfig) (σ : probe_system) : Prop := rtc probe_step (system_new c) σ.

(** ** Invariant *)

(** The probes with a label and result that a task has yet to count. *)
Definition access_count (key : string * string) (b : Backend) (a : access) : nat :=
  match a with
  | CountProbe r => if decide ((backend_to_string b, probe_label r) = key) then 1 else 0
  | _ => 0
  end.

Definition uncounted (key : string * string) (t : task) : nat :=
  match t_phase t with
  | Reporting todo => sum_list_with (access_count key (t_backend t)) todo
  | _ => 0
  end.

Definition counted_probes (key : string * string) (l : list probe_event) : nat :=
  length (filter (λ p, (backend_to_string (probed p), probe_label (probe_result p)) = key) l).

Record psystem_ok (c : HealthCheckConfig) (σ : probe_system) : Prop := {
  po_config : config (checker σ) = c;
  po_states : ∀ b, entry (states (checker σ)) b = entry (states (run_probes (checker_new c) (probes σ))) b;
  po_count : ∀ key, default 0 (health_check_probes_total (hmetrics (checker σ)) !! key) +
    Z.of_nat (sum_list_with (uncounted key) (tasks σ)) = Z.of_nat (counted_probes key (probes σ));
  po_ended : Exists (λ t, t_phase t = Ended) (tasks σ) → cancelled σ = true
}.

(** ** Lemmas *)
Lemma foldl_track_entry l m b : entry (foldl track m l) b = entry m b.
Proof.
  revert m. induction l as [|x l IH]; intros m; [done|]. cbn. rewrite IH. unfold track, entry.
  destruct (decide (x = b)) as [->|E]; [by rewrite lookup_insert_eq|by rewrite lookup_insert_ne].
Qed.

Lemma start_checking_keeps h bs h' spawned :
  start_checking h bs = (h', spawned) →
  config h' = config h ∧ (∀ b, entry (states h') b = entry (states h) b) ∧ hmetrics h' = hmetrics h.
Proof.
  unfold start_checking. destruct (negb _); intros [= <- <-]; [done|]. cbn. split; [done|]. split; [|done].
  intros b. apply foldl_track_entry.
Qed.

Lemma perform_keeps h b route a h' more :
  perform h b route a = (h', more) → config h' = config h ∧ states h' = states h.
Proof. by destruct a; intros [= <- <-]. Qed.

(** Changing one task changes a sum over the tasks by its own share. *)
Lemma sum_insert (f : task → nat) ts i t t' :
  ts !! i = Some t → (sum_list_with f (<[i := t']> ts) + f t = sum_list_with f ts + f t')%nat.
Proof.
  revert i. induction ts as [|x ts IH]; intros [|i] Hi; [done..| |].
  - injection Hi as ->. cbn. lia.
  - cbn in Hi. specialize (IH i Hi). change (<[S i := t']> (x :: ts)) with (x :: <[i := t']> ts). cbn [sum_list_with]. lia.
Qed.

Lemma sum_same (f : task → nat) ts i t t' :
  ts !! i = Some t → f t' = f t → sum_list_with f (<[i := t']> ts) = sum_list_with f ts.
Proof. intros Hi E. pose proof (sum_insert f ts i t t' Hi). lia. Qed.

Lemma Exists_insert {P : task → Prop} ts i t t' :
  ts !! i = Some t → ¬ P t' → Exists P (<[i := t']> ts) → Exists P ts.
Proof.
  intros Hi Hn Hex. apply Exists_exists in Hex as (x & Hx & HP). apply list_elem_of_lookup in Hx as [j Hj].
  apply list_lookup_insert_Some in Hj as [(-> & <- & _)|[_ Hj]]; [done|].
  apply Exists_exists. exists x. split; [by eapply list_elem_of_lookup_2|done].
Qed.

Lemma bump_lookup {K} `{Countable K} (k k' : K) (m : gmap K Z) :
  default 0 (bump k m !! k') = default 0 (m !! k') + (if decide (k = k') then 1 else 0).
Proof.
  unfold bump. case_decide as E; [subst; by rewrite lookup_insert_eq|]. rewrite lookup_insert_ne by done. lia.
Qed.

Lemma record_probe_report h b route r lat now h' todo key :
  record_probe h b r lat now = (h', todo) →
  uncounted key (mk_task b route (Reporting todo)) = if decide ((backend_to_string b, probe_label r) = key) then 1%nat else 0%nat.
Proof.
  unfold record_probe. intros [= <- <-]. unfold uncounted. cbn [t_phase t_backend]. rewrite sum_list_with_app.
  replace (sum_list_with _ (if decide _ then [] else _)) with 0%nat by (by case_decide). cbn. case_decide; lia.
Qed.

Lemma perform_counts h b route a h' more todo key :
  perform h b route a = (h', more) →
  default 0 (health_check_probes_total (hmetrics h') !! key) + Z.of_nat (uncounted key (mk_task b route (Reporting (more ++ todo)))) =
  default 0 (health_check_probes_total (hmetrics h) !! key) + Z.of_nat (uncounted key (mk_task b route (Reporting (a :: todo)))).
Proof.
  intros E. unfold uncounted. cbn [t_phase t_backend]. destruct a; injection E as <- <-; try done.
  cbn [with_metrics hmetrics health_check_probes_total app sum_list_with]. rewrite bump_lookup.
  cbn [access_count]. case_decide; lia.
Qed.

(** The steps keep the invariant. *)
Lemma counted_snoc key l p :
  counted_probes key (l ++ [p]) =
    (counted_probes key l + if decide ((backend_to_string (probed p), probe_label (probe_result p)) = key) then 1 else 0)%nat.
Proof.
  unfold counted_probes. rewrite filter_app, length_app, filter_cons, filter_nil. by case_decide.
Qed.

Lemma run_probes_snoc h l p : run_probes h (l ++ [p]) = run_probe (run_probes h l) p.
Proof. unfold run_probes. by rewrite foldl_app. Qed.

Lemma record_probe_states h h0 b route r lat now h' todo b' :
  config h = config h0 → (∀ b, entry (states h) b = entry (states h0) b) → record_probe h b r lat now = (h', todo) →
  config h' = config h ∧ hmetrics h' = hmetrics h ∧
  entry (states h') b' = entry (states (run_probe h0 (mk_probe b route r lat now))) b'.
Proof.
  intros Ec Es [= <- <-]. split_and!; [done..|]. unfold run_probe, check_backend, entry. cbn [states probed probe_result latency probed_at].
  destruct (decide (b = b')) as [->|E].
  - rewrite !lookup_insert_eq. cbn. unfold entry in Es. by rewrite Ec, (Es b').
  - rewrite !lookup_insert_ne by done. apply Es.
Qed.

Lemma run_probes_config c l : config (run_probes (checker_new c) l) = c.
Proof. induction l as [|p l IH] using rev_ind; [done|]. by rewrite run_probes_snoc. Qed.

Lemma probe_step_ok c σ σ' : psystem_ok c σ → probe_step σ σ' → psystem_ok c σ'.
Proof.
  intros [Hc Hs Hn He] Hstep.
  destruct Hstep as [h x ts l bs route h' spawned Hst|h x ts l|h x ts l i t Hi Hp|h ts l i t Hi Hp
    |h x ts l i t r lat now h' todo Hi Hp Hr|h x ts l i t a todo h' more Hi Hp Ha|h x ts l i t Hi Hp];
    cbn [checker cancelled tasks probes] in *.
  - destruct (start_checking_keeps _ _ _ _ Hst) as (Ec & Ee & Em). split; cbn [checker cancelled tasks probes].
    + congruence.
    + intros b. by rewrite Ee.
    + intros key. rewrite Em, <- Hn, sum_list_with_app. do 2 f_equal. rewrite <- (Nat.add_0_r (sum_list_with _ ts)) at 2.
      f_equal. clear. by induction spawned as [|b l IH].
    + rewrite Exists_app. intros [Hx|Hx]; [by apply He|]. exfalso. apply Exists_fmap in Hx. clear -Hx.
      by induction Hx.
  - by split.
  - split; cbn [checker cancelled tasks probes]; [done|done| |].
    + intros key. erewrite sum_same; [apply Hn|done|]. unfold uncounted. by rewrite Hp.
    + intros Hx. apply He. eapply Exists_insert; [exact Hi| |exact Hx]. discriminate.
  - split; cbn [checker cancelled tasks probes]; [done|done| |done].
    intros key. erewrite sum_same; [apply Hn|done|]. unfold uncounted. by rewrite Hp.
  - pose proof (λ b', record_probe_states h (run_probes (checker_new c) l) _ (t_route t) _ _ _ _ _ b'
      (eq_trans Hc (eq_sym (run_probes_config c l))) Hs Hr) as Hrec.
    split; cbn [checker cancelled tasks probes].
    + destruct (Hrec (t_backend t)) as [-> _]. done.
    + intros b. rewrite run_probes_snoc. apply Hrec.
    + intros key. destruct (Hrec (t_backend t)) as (_ & -> & _). rewrite counted_snoc. cbn [probed probe_result].
      pose proof (sum_insert (uncounted key) ts i t (set_phase t (Reporting todo)) Hi) as Hsum.
      unfold set_phase in Hsum at 2. rewrite (record_probe_report _ _ _ _ _ _ _ _ key Hr) in Hsum.
      assert (uncounted key t = 0%nat) as E by (unfold uncounted; by rewrite Hp). specialize (Hn key). lia.
    + intros Hx. apply He. eapply Exists_insert; [exact Hi| |exact Hx]. discriminate.
  - destruct (perform_keeps _ _ _ _ _ _ Ha) as [Ec Es]. split; cbn [checker cancelled tasks probes].
    + congruence.
    + by rewrite Es.
    + intros key. rewrite <- Hn. pose proof (sum_insert (uncounted key) ts i t (set_phase t (Reporting (more ++ todo))) Hi) as Hsum.
      pose proof (perform_counts _ _ _ _ _ _ todo key Ha) as Hcount. unfold set_phase in Hsum at 2.
      replace (uncounted key (mk_task (t_backend t) (t_route t) (Reporting (a :: todo)))) with (uncounted key t) in Hcount
        by (unfold uncounted; by rewrite Hp). lia.
    + intros Hx. apply He. eapply Exists_insert; [exact Hi| |exact Hx]. discriminate.
  - split; cbn [checker cancelled tasks probes]; [done|done| |].
    + intros key. erewrite sum_same; [apply Hn|done|]. unfold uncounted. by rewrite Hp.
    + intros Hx. apply He. eapply Exists_insert; [exact Hi| |exact Hx]. discriminate.
Qed.

Lemma probing_reachable_ok c σ : probing_reachable c σ → psystem_ok c σ.
Proof.
  intros Hr. assert (psystem_ok c (system_new c)) as Hok by (split; [done|done|done|by intros ?%Exists_nil]).
  revert Hok. induction Hr; eauto using probe_step_ok.
Qed.

Lemma healthy_entry h b : checker_is_healthy h b = bool_decide (status (entry (states h) b) = Healthy).
Proof. unfold checker_is_healthy, entry. by destruct (states h !! b). Qed.

Lemma reachable_down c σ b :
  thresholds_ok c → Z.of_nat (length (probes σ)) < 2 ^ 32 → psystem_ok c σ →
  checker_is_healthy (checker σ) b = false ↔
    down (Z.to_nat (unhealthy_threshold c)) (Z.to_nat (healthy_threshold c)) (history b (probes σ)).
Proof.
  intros Hc Hl [_ Hs _ _]. rewrite healthy_entry, Hs, bool_decide_eq_false.
  destruct (run_probes_tracks c (probes σ) b Hc Hl) as [_ [_ _ <-]]. destruct (status _); naive_solver.
Qed.

(** *** The end of a task *)
Lemma insert_there {A} (l : list A) i x y : l !! i = Some x → <[i := y]> l !! i = Some y.
Proof. intros Hi. apply list_lookup_insert_eq. by eapply lookup_lt_Some. Qed.

Definition access_weight (a : access) : nat := match a with LoadFailures => 2 | _ => 1 end.

Lemma report_ends h c ts l i b route : ∀ n todo,
  (sum_list_with access_weight todo <= n)%nat → ts !! i = Some (mk_task b route (Reporting todo)) →
  ∃ h', rtc probe_step (mk_psystem h c ts l) (mk_psystem h' c (<[i := mk_task b route AtSelect]> ts) l).
Proof.
  intros n. revert h ts. induction n as [n IH] using lt_wf_ind. intros h ts todo Hn Hi. destruct todo as [|a todo].
  { exists h. apply rtc_once. by apply (ps_loop h c ts l i (mk_task b route (Reporting []))). }
  destruct (perform h b route a) as [h1 more] eqn:Ea.
  assert (sum_list_with access_weight (more ++ todo) < n)%nat as Hlt.
  { rewrite sum_list_with_app. cbn in Hn. destruct a; injection Ea as <- <-; cbn in *; lia. }
  set (t' := mk_task b route (Reporting (more ++ todo))).
  destruct (IH _ Hlt h1 (<[i := t']> ts) (more ++ todo)) as [h2 H2]; [done|by eapply insert_there|].
  exists h2. eapply rtc_l; [by eapply (ps_access h c ts l i (mk_task b route (Reporting (a :: todo))))|].
  by rewrite list_insert_insert_eq in H2.
Qed.

(** Whether a task is in a probe. *)
Definition in_probe (t : task) : nat := match t_phase t with Probing => 1 | _ => 0 end.

(** With the token cancelled a task can end, after at most the probe it is in. *)
Lemma task_can_end h ts l i t :
  ts !! i = Some t → ∃ h' l', rtc probe_step (mk_psystem h true ts l) (mk_psystem h' true (<[i := set_phase t Ended]> ts) (l ++ l')) ∧
    (length l' <= in_probe t)%nat.
Proof.
  intros Hi. destruct t as [b route p].
  assert (∀ h ts l, ts !! i = Some (mk_task b route AtSelect) →
    rtc probe_step (mk_psystem h true ts l) (mk_psystem h true (<[i := mk_task b route Ended]> ts) l)) as Hcancel.
  { intros h0 ts0 l0 H0. apply rtc_once. by apply (ps_cancel h0 ts0 l0 i (mk_task b route AtSelect)). }
  assert (∀ h ts l todo, ts !! i = Some (mk_task b route (Reporting todo)) → ∃ h',
    rtc probe_step (mk_psystem h true ts l) (mk_psystem h' true (<[i := mk_task b route Ended]> ts) l)) as Hreport.
  { intros h0 ts0 l0 todo H0. destruct (report_ends h0 true ts0 l0 i b route _ todo ltac:(done) H0) as [h1 H1].
    exists h1. etrans; [exact H1|]. rewrite <- (list_insert_insert_eq ts0 i (mk_task b route Ended) (mk_task b route AtSelect)).
    apply Hcancel. by eapply insert_there. }
  destruct p as [| |todo|]; cbn [set_phase t_backend t_route t_phase].
  - exists h, []. rewrite app_nil_r. split; [by apply Hcancel|done].
  - destruct (record_probe h b ConnectError 0 0) as [h1 todo] eqn:Er.
    destruct (Hreport h1 (<[i := mk_task b route (Reporting todo)]> ts) (l ++ [mk_probe b route ConnectError 0 0]) todo) as [h2 H2].
    { by eapply insert_there. }
    rewrite list_insert_insert_eq in H2. exists h2, [mk_probe b route ConnectError 0 0]. split; [|done].
    eapply rtc_l; [|exact H2]. by apply (ps_result h true ts l i (mk_task b route Probing)).
  - destruct (Hreport h ts l todo Hi) as [h1 H1]. exists h1, []. by rewrite app_nil_r.
  - exists h, []. rewrite app_nil_r, list_insert_id by done. split; [reflexivity|done].
Qed.

Lemma tasks_can_end h ts l k :
  (k <= length ts)%nat →
  ∃ h' l', rtc probe_step (mk_psystem h true ts l)
      (mk_psystem h' true (((λ t, set_phase t Ended) <$> take k ts) ++ drop k ts) (l ++ l')) ∧
    (length l' <= sum_list_with in_probe (take k ts))%nat.
Proof.
  induction k as [|k IH]; intros Hk.
  { exists h, []. rewrite drop_0, app_nil_r. split; [reflexivity|done]. }
  destruct IH as (h1 & l1 & H1 & Hl1); [lia|]. destruct (lookup_lt_is_Some_2 ts k) as [t Ht]; [lia|].
  set (done := (λ t, set_phase t Ended) <$> take k ts) in *.
  assert (length done = k) as Hlen by (unfold done; rewrite length_fmap, length_take; lia).
  destruct (task_can_end h1 (done ++ drop k ts) (l ++ l1) k t) as (h2 & l2 & H2 & Hl2).
  { rewrite lookup_app_r, Hlen, lookup_drop by lia. by rewrite Nat.sub_diag, Nat.add_0_r. }
  exists h2, (l1 ++ l2). rewrite app_assoc. split.
  - etrans; [exact H1|]. replace (_ ++ drop (S k) ts) with (<[k := set_phase t Ended]> (done ++ drop k ts)); [exact H2|].
    rewrite insert_app_r_alt, Hlen, Nat.sub_diag by lia. rewrite (drop_S ts t k Ht), (take_S_r ts k t Ht), fmap_app, <- app_assoc.
    reflexivity.
  - erewrite take_S_r by done. rewrite sum_list_with_app, length_app. cbn. lia.
Qed.

(** *** Tasks that pile up *)
Definition refused (b : Backend) (route : string) : probe_event := mk_probe b route ConnectError 0 0.

Definition has_reported (t : task) : Prop := ∃ todo, t_phase t = Reporting todo.

Lemma each_probes_once σ b route n k h :
  (k <= n)%nat → rtc probe_step σ (mk_psystem h false (replicate n (mk_task b route AtSelect)) []) →
  ∃ h' ts, rtc probe_step σ (mk_psystem h' false (ts ++ replicate (n - k) (mk_task b route AtSelect)) (replicate k (refused b route))) ∧
    length ts = k ∧ Forall has_reported ts.
Proof.
  intros Hk Hr. induction k as [|k IH]; [exists h, []; by rewrite Nat.sub_0_r|].
  destruct IH as (h1 & ts & H1 & Hlen & Hf); [lia|]. replace (n - k)%nat with (S (n - S k)) in H1 by lia.
  destruct (record_probe h1 b ConnectError 0 0) as [h2 todo] eqn:E.
  set (rest := replicate (n - S k) (mk_task b route AtSelect)) in *. cbn [replicate] in H1. fold rest in H1.
  exists h2, (ts ++ [mk_task b route (Reporting todo)]). split.
  - eapply rtc_r; [eapply rtc_r; [exact H1|]|].
    + apply (ps_tick h1 false _ _ k (mk_task b route AtSelect)); [|done]. by rewrite lookup_app_r, Hlen, Nat.sub_diag by lia.
    + rewrite replicate_S_end, <- app_assoc, insert_app_r_alt, Hlen, Nat.sub_diag by lia.
      pose proof (ps_result h1 false (ts ++ mk_task b route Probing :: rest) (replicate k (refused b route))
        k (mk_task b route Probing) ConnectError 0 0 h2 todo) as Hs.
      rewrite insert_app_r_alt, Hlen, Nat.sub_diag in Hs by lia. apply Hs; [|done|exact E].
      by rewrite lookup_app_r, Hlen, Nat.sub_diag by lia.
  - rewrite length_app. cbn. split; [lia|]. apply Forall_app. split; [done|]. repeat constructor. by exists todo.
Qed.

Lemma refused_down b route u k n :
  (u <= n)%nat → (0 < k)%nat → down u k (history b (replicate n (refused b route))).
Proof.
  intros Hu Hk. assert (history b (replicate n (refused b route)) = replicate n false) as ->.
  { induction n as [|n IH]; [done|]. cbn. rewrite decide_True by done. f_equal.
    clear -IH Hu. destruct (decide (u <= n)%nat); [by apply IH|]. clear. induction n as [|n IH]; [done|]. cbn. by rewrite decide_True, IH. }
  exists (replicate (n - u) false), []. rewrite app_nil_r, <- replicate_add. split; [f_equal; lia|].
  intros (p & s & E). destruct p, k; done || lia.
Qed.

(** C24: the probing tasks agree on one state.  However many tasks run interleaved, for
thresholds of at least one and fewer than 2^32 probes a backend is reported unhealthy
exactly if, in the order in which its probes took the lock, some unhealthy_threshold
consecutive failures are not followed by healthy_threshold consecutive successes; and
the counter of probes lags behind the probes by exactly those whose task has not yet
counted them. *)
Theorem probing_exact c σ :
  thresholds_ok c → Z.of_nat (length (probes σ)) < 2 ^ 32 → probing_reachable c σ →
  (∀ b, checker_is_healthy (checker σ) b = false ↔
     down (Z.to_nat (unhealthy_threshold c)) (Z.to_nat (healthy_threshold c)) (history b (probes σ))) ∧
  (∀ key, default 0 (health_check_probes_total (hmetrics (checker σ)) !! key) =
     Z.of_nat (counted_probes key (probes σ)) - Z.of_nat (sum_list_with (uncounted key) (tasks σ))).
Proof.
  intros Hc Hl Hr%probing_reachable_ok. split; [intros b; by apply reachable_down|].
  intros key. pose proof (po_count c σ Hr key). lia.
Qed.

(** Only the shutdown ends probing.  A task that has ended was cancelled, whatever
became of its route; and once the token is cancelled, all tasks can end with no more
probes than those under way. *)
Theorem shutdown_ends_probing c σ :
  probing_reachable c σ →
  (Exists (λ t, t_phase t = Ended) (tasks σ) → cancelled σ = true) ∧
  (cancelled σ = true → ∃ σ' l', rtc probe_step σ σ' ∧ Forall (λ t, t_phase t = Ended) (tasks σ') ∧
     length (tasks σ') = length (tasks σ) ∧ probes σ' = probes σ ++ l' ∧
     (length l' <= sum_list_with in_probe (tasks σ))%nat).
Proof.
  intros Hr%probing_reachable_ok. split; [apply (po_ended c σ Hr)|]. destruct σ as [h x ts l]. cbn. intros ->.
  destruct (tasks_can_end h ts l (length ts)) as (h' & l' & Hs & Hl); [done|].
  rewrite drop_all, app_nil_r in Hs. rewrite firstn_all in Hs, Hl. eexists _, l'. split; [exact Hs|].
  cbn. rewrite length_fmap. split_and!; [|done..]. by apply Forall_fmap, Forall_true.
Qed.

(** Repeated backends shorten the threshold.  A task is started for every entry of the
list, and the weighted lists of the controller repeat a backend.  If a list has as
many entries of a backend as the threshold, then one refused connection per task,
which takes one interval, marks the backend unhealthy. *)
Theorem repeated_backends_hasten c b route n :
  enabled c = true → thresholds_ok c → (Z.to_nat (unhealthy_threshold c) <= n)%nat → Z.of_nat n < 2 ^ 32 →
  let '(h, spawned) := start_checking (checker_new c) (replicate n b) in
  ∃ σ, rtc probe_step (mk_psystem h false ((λ b, mk_task b route AtSelect) <$> spawned) []) σ ∧
    length (tasks σ) = n ∧ Forall has_reported (tasks σ) ∧
    probes σ = replicate n (refused b route) ∧ checker_is_healthy (checker σ) b = false.
Proof.
  intros Hen Hth Hu Hn. destruct (start_checking (checker_new c) (replicate n b)) as [h spawned] eqn:E.
  pose proof (ps_start (checker_new c) false [] [] _ route h spawned E) as Hs.
  assert (spawned = replicate n b) as -> by (unfold start_checking in E; cbn in E; rewrite Hen in E; by injection E as _ <-).
  rewrite fmap_replicate in *. cbn [app] in Hs.
  destruct (each_probes_once (mk_psystem h false (replicate n (mk_task b route AtSelect)) []) b route n n h)
    as (h' & ts & Hr & Hlen & Hf); [done|reflexivity|].
  rewrite Nat.sub_diag, app_nil_r in Hr. eexists. split; [exact Hr|]. cbn. split_and!; [done..|].
  apply (reachable_down c (mk_psystem h' false ts (replicate n (refused b route)))); [done|cbn; by rewrite length_replicate|
    |cbn; destruct Hth; apply refused_down; lia].
  apply probing_reachable_ok. eapply rtc_l; [exact Hs|exact Hr].
Qed.

(** ** Witnesses *)
Definition probing_config : HealthCheckConfig := mk_hc_config true 5000000000 2000000000 3 2.

(** One task, between its first probe and the report of it. *)
Definition probed_once : probe_system :=
  let b := sample_backend in
  let h := (start_checking (checker_new probing_config) [b]).1 in
  let x := record_probe h b ConnectError 5 0 in
  mk_psystem x.1 false [mk_task b "web" (Reporting x.2)] [mk_probe b "web" ConnectError 5 0].

Lemma probed_once_reachable : probing_reachable probing_config probed_once.
Proof.
  eapply rtc_l; [eapply (ps_start _ _ _ _ [sample_backend] "web"); reflexivity|].
  eapply rtc_l; [apply (ps_tick _ _ _ _ 0 (mk_task sample_backend "web" AtSelect)); reflexivity|].
  apply rtc_once. set (h := (start_checking (checker_new probing_config) [sample_backend]).1).
  exact (ps_result h false [mk_task sample_backend "web" Probing] [] 0 (mk_task sample_backend "web" Probing) ConnectError 5 0
    (record_probe h sample_backend ConnectError 5 0).1 (record_probe h sample_backend ConnectError 5 0).2 eq_refl eq_refl eq_refl).
Qed.

Lemma probing_exact_witness :
  (∀ b, checker_is_healthy (checker probed_once) b = false ↔ down 3 2 (history b (probes probed_once))) ∧
  (∀ key, default 0 (health_check_probes_total (hmetrics (checker probed_once)) !! key) =
     Z.of_nat (counted_probes key (probes probed_once)) - Z.of_nat (sum_list_with (uncounted key) (tasks probed_once))).
Proof. apply (probing_exact probing_config); [split; discriminate|reflexivity|apply probed_once_reachable]. Defined.

Lemma shutdown_ends_probing_witness :
  let σ := mk_psystem (checker probed_once) true (tasks probed_once) (probes probed_once) in
  (Exists (λ t, t_phase t = Ended) (tasks σ) → cancelled σ = true) ∧
  (cancelled σ = true → ∃ σ' l', rtc probe_step σ σ' ∧ Forall (λ t, t_phase t = Ended) (tasks σ') ∧
     length (tasks σ') = length (tasks σ) ∧ probes σ' = probes σ ++ l' ∧
     (length l' <= sum_list_with in_probe (tasks σ))%nat).
Proof. apply (shutdown_ends_probing probing_config). eapply rtc_r; [apply probed_once_reachable|]. apply ps_shutdown. Defined.

Lemma repeated_backends_hasten_witness :
  let '(h, spawned) := start_checking (checker_new probing_config) (replicate 31 sample_backend) in
  ∃ σ, rtc probe_step (mk_psystem h false ((λ b, mk_task b "web" AtSelect) <$> spawned) []) σ ∧
    length (tasks σ) = 31%nat ∧ Forall has_reported (tasks σ) ∧
    probes σ = replicate 31 (refused sample_backend "web") ∧ checker_is_healthy (checker σ) sample_backend = false.
Proof. apply (repeated_backends_hasten probing_config); [reflexivity|split; discriminate|vm_compute; lia|reflexivity]. Defined.

(** One task alone needs three intervals. *)
Example one_task_one_refusal : checker_is_healthy (checker probed_once) sample_backend = true.
Proof. reflexivity. Qed.
