(* ===== verification/Filters.v ===== *)
(** * Filters: the HTTPRoute filters ([filters.rs]) and their application
([request_handler.rs])

Redirects, header modifiers, timeouts and the retry policy with its exponential
backoff.  Durations are nanoseconds; [u64] arithmetic is that of a release build.
The header types of the [http] crate are a class: the validation of names and
values and a multimap, with the laws the filters rely on. *)

From S2P Require Import Prelude Common.

#[local] Open Scope Z_scope.

(** ** Redirects *)
Inductive RedirectStatusCode : Type := MovedPermanently | Found.

Record RequestRedirect : Type := mk_redirect {
  status_code : RedirectStatusCode;
  scheme : option string;
  hostname : option string;
  redirect_port : option Z;
  path : option string
}.

Definition redirect_new : RequestRedirect := mk_redirect Found None None None None.
Definition redirect_status_code (r : RequestRedirect) (c : RedirectStatusCode) : RequestRedirect :=
  mk_redirect c (scheme r) (hostname r) (redirect_port r) (path r).
Definition redirect_scheme (r : RequestRedirect) (s : string) : RequestRedirect :=
  mk_redirect (status_code r) (Some s) (hostname r) (redirect_port r) (path r).
Definition redirect_hostname (r : RequestRedirect) (h : string) : RequestRedirect :=
  mk_redirect (status_code r) (scheme r) (Some h) (redirect_port r) (path r).
Definition redirect_with_port (r : RequestRedirect) (p : Z) : RequestRedirect :=
  mk_redirect (status_code r) (scheme r) (hostname r) (Some p) (path r).
Definition redirect_path (r : RequestRedirect) (p : string) : RequestRedirect :=
  mk_redirect (status_code r) (scheme r) (hostname r) (redirect_port r) (Some p).

(** What [build_redirect_response] reads of the request. *)
Record request_target : Type := mk_target {
  uri_scheme : option string;
  uri_host : option string;
  uri_port : option Z;
  uri_path : string;
  host_header : option string    (* the [host] header, when it is visible ASCII *)
}.

Definition or_else {A} (x y : option A) : option A := match x with Some _ => x | None => y end.

Definition redirect_status (c : RedirectStatusCode) : Z :=
  match c with MovedPermanently => 301 | Found => 302 end.

(** ** Header modifiers *)
Inductive HeaderModifierOp : Type :=
| Set_ (name value : string)
| Add (name value : string)
| Remove (name : string).

Record HeaderModifier : Type := mk_modifier { operations : list HeaderModifierOp }.

Definition modifier_new : HeaderModifier := mk_modifier [].
Definition modifier_set (m : HeaderModifier) (name value : string) : HeaderModifier :=
  mk_modifier (operations m ++ [Set_ name value]).
Definition modifier_add (m : HeaderModifier) (name value : string) : HeaderModifier :=
  mk_modifier (operations m ++ [Add name value]).
Definition modifier_remove (m : HeaderModifier) (name : string) : HeaderModifier :=
  mk_modifier (operations m ++ [Remove name]).

(** The [http] crate: names are validated and folded to lower case
([HeaderName::from_bytes]), values are validated ([HeaderValue::from_str], and
[HeaderValue::try_from] in a response builder), with the error's text, and a
header map is a multimap from names to values that is iterated with the values of
a name in order. *)
Class HeaderMap (H : Type) : Type := {
  header_name : string → result string string;
  header_value : string → result string string;
  builder_value : string → result string string;
  hm_empty : H;
  hm_iter : H → list (string * string);
  get_all : H → string → list string;
  hm_insert : H → string → string → H;
  hm_append : H → string → string → H;
  hm_remove : H → string → H;
  get_empty : ∀ k, get_all hm_empty k = [];
  get_insert : ∀ h n v k, get_all (hm_insert h n v) k = if decide (k = n) then [v] else get_all h k;
  get_append : ∀ h n v k, get_all (hm_append h n v) k = if decide (k = n) then get_all h k ++ [v] else get_all h k;
  get_remove : ∀ h n k, get_all (hm_remove h n) k = if decide (k = n) then [] else get_all h k;
  iter_get : ∀ h k, (filter (λ p, p.1 = k) (hm_iter h)).*2 = get_all h k
}.

Definition ok {A E} (r : result A E) : option A := match r with Ok x => Some x | Err _ => None end.

Section filters.
Context {H : Type} `{HeaderMap H}.

Definition apply_op (h : H) (op : HeaderModifierOp) : result H string :=
  match op with
  | Set_ name value =>
      match header_name name with
      | Err e => Err ("Invalid header name '" +:+ name +:+ "': " +:+ e)
      | Ok n =>
          match header_value value with
          | Err e => Err ("Invalid header value '" +:+ value +:+ "': " +:+ e)
          | Ok v => Ok (hm_insert h n v)
          end
      end
  | Add name value =>
      match header_name name with
      | Err e => Err ("Invalid header name '" +:+ name +:+ "': " +:+ e)
      | Ok n =>
          match header_value value with
          | Err e => Err ("Invalid header value '" +:+ value +:+ "': " +:+ e)
          | Ok v => Ok (hm_append h n v)
          end
      end
  | Remove name =>
      match header_name name with
      | Err e => Err ("Invalid header name '" +:+ name +:+ "': " +:+ e)
      | Ok n => Ok (hm_remove h n)
      end
  end.

(** The status and the [Location] of the answer, or the error. *)
Definition build_redirect_response (req : request_target) (r : RequestRedirect)
  : result (Z * string) string :=
  let scheme := default "http" (or_else (scheme r) (uri_scheme req)) in
  match or_else (hostname r) (or_else (uri_host req) (host_header req)) with
  | None => Err "Cannot determine redirect host"
  | Some host =>
      let port := default "" ((λ p, ":" +:+ show_Z p) <$> or_else (redirect_port r) (uri_port req)) in
      let path := default (uri_path req) (path r) in
      let location := scheme +:+ "://" +:+ host +:+ port +:+ path in
      match builder_value location with
      | Ok v => Ok (redirect_status (status_code r), v)
      | Err e => Err ("Failed to build redirect response: " +:+ e)
      end
  end.

Fixpoint apply_header_filters (h : H) (ops : list HeaderModifierOp) : result H string :=
  match ops with
  | [] => Ok h
  | op :: ops =>
      match apply_op h op with
      | Ok h => apply_header_filters h ops
      | Err e => Err e
      end
  end.

(** *** Specification: the values of one header after a list of operations *)
Definition op_name (op : HeaderModifierOp) : string :=
  match op with Set_ n _ | Add n _ | Remove n => n end.

Definition op_valid (op : HeaderModifierOp) : bool :=
  match op with
  | Set_ n v | Add n v => bool_decide (is_Some (ok (header_name n)) ∧ is_Some (ok (header_value v)))
  | Remove n => bool_decide (is_Some (ok (header_name n)))
  end.

Definition values_after (vals : list string) (op : HeaderModifierOp) : list string :=
  match op with
  | Set_ _ v => option_list (ok (header_value v))
  | Add _ v => vals ++ option_list (ok (header_value v))
  | Remove _ => []
  end.

Definition targets (k : string) (op : HeaderModifierOp) : bool :=
  match header_name (op_name op) with
  | Ok n => bool_decide (k = n)
  | Err _ => false
  end.

Lemma ok_Some {A E} (r : result A E) : is_Some (ok r) → ∃ x, r = Ok x.
Proof. intros [x Hx]. destruct r; naive_solver. Qed.

Lemma ok_None {A E} (r : result A E) : ¬ is_Some (ok r) → ∃ e, r = Err e.
Proof. destruct r; cbn; naive_solver. Qed.

Lemma apply_op_valid h op :
  op_valid op = true → ∃ h', apply_op h op = Ok h' ∧
    ∀ k, get_all h' k = if targets k op then values_after (get_all h k) op else get_all h k.
Proof.
  unfold targets. destruct op as [n v|n v|n]; cbn [op_valid apply_op op_name values_after];
    intros Hv%bool_decide_eq_true; [destruct Hv as [[k0 ->]%ok_Some [w ->]%ok_Some]..|destruct (ok_Some _ Hv) as [k0 ->]];
    eexists; (split; [reflexivity|]); intros k; cbn [ok option_list];
    rewrite ?get_insert, ?get_append, ?get_remove;
    (destruct (decide (k = k0)); [by rewrite bool_decide_true|by rewrite bool_decide_false]).
Qed.

Lemma apply_op_invalid h op : op_valid op = false → ∃ e, apply_op h op = Err e.
Proof.
  destruct op as [n v|n v|n]; cbn [op_valid apply_op]; intros Hv%bool_decide_eq_false;
    destruct (header_name n); eauto; try (destruct (header_value v); eauto); exfalso; apply Hv; cbn; eauto.
Qed.

(** Header modification.  If every operation names a valid header and value,
the filters succeed and each header ends with the values its own operations, in
order, produce from what it had (set replaces, add appends, remove empties),
whatever the other headers; otherwise they fail. *)
Theorem header_filters_spec h ops :
  match apply_header_filters h ops with
  | Ok h' =>
      forallb op_valid ops = true ∧
      ∀ k, get_all h' k = foldl values_after (get_all h k) (filter (λ op, targets k op = true) ops)
  | Err _ => forallb op_valid ops = false
  end.
Proof.
  revert h. induction ops as [|op ops IH]; intros h; [done|]. cbn [apply_header_filters forallb].
  destruct (op_valid op) eqn:Hv; [|destruct (apply_op_invalid h op Hv) as [e ->]; done].
  destruct (apply_op_valid h op Hv) as (h' & -> & Hg). specialize (IH h').
  destruct (apply_header_filters h' ops) as [h''|e]; [|done]. destruct IH as [Hok IH]. split; [done|].
  intros k. rewrite IH, Hg, filter_cons. destruct (targets k op); by case_decide.
Qed.
End filters.

(** A concrete header map: an association list in order of insertion. *)
Abbreviation assoc_headers := (list (string * string)).

Lemma filter_names (h : assoc_headers) n k :
  filter (λ p, p.1 = k) (filter (λ p, p.1 ≠ n) h) =
    if decide (k = n) then [] else filter (λ p, p.1 = k) h.
Proof.
  rewrite list_filter_filter. destruct (decide (k = n)) as [->|Hne].
  - induction h as [|p h IH]; [done|]. rewrite filter_cons, decide_False; [done|naive_solver].
  - apply list_filter_iff. naive_solver.
Qed.

#[export] Instance assoc_header_map : HeaderMap assoc_headers.
Proof.
  refine {|
    header_name n := if String.eqb n "" then Err "invalid HTTP header name" else Ok n;
    header_value v := Ok v;
    builder_value v := Ok v;
    hm_empty := [];
    hm_iter h := h;
    get_all h k := (filter (λ p, p.1 = k) h).*2;
    hm_insert h n v := filter (λ p, p.1 ≠ n) h ++ [(n, v)];
    hm_append h n v := h ++ [(n, v)];
    hm_remove h n := filter (λ p, p.1 ≠ n) h
  |}.
  - done.
  - intros h n v k. rewrite filter_app, fmap_app, filter_names, filter_cons. cbn [fst].
    repeat case_decide; subst; try done. by rewrite app_nil_r.
  - intros h n v k. rewrite filter_app, fmap_app, filter_cons. cbn [fst].
    repeat case_decide; subst; try done. by rewrite app_nil_r.
  - intros h n k. rewrite filter_names. by case_decide.
  - done.
Defined.

Lemma header_filters_spec_witness :
  let ops := [Set_ "x-a" "1"; Add "x-b" "2"; Add "x-a" "3"; Remove "x-c"] in
  match apply_header_filters [("x-a", "0"); ("x-c", "9")] ops with
  | Ok h' =>
      forallb op_valid ops = true ∧
      ∀ k, get_all h' k =
        foldl values_after (get_all [("x-a", "0"); ("x-c", "9")] k) (filter (λ op, targets k op = true) ops)
  | Err _ => forallb op_valid ops = false
  end.
Proof.
  apply (header_filters_spec (H0 := assoc_header_map) [("x-a", "0"); ("x-c", "9")]).
Defined.

(** ** Timeouts *)
Record Timeout : Type := mk_timeout {
  request_timeout : option Z;
  backend_request_timeout : option Z
}.

Definition timeout_new : Timeout := mk_timeout None None.
Definition timeout_request (t : Timeout) (d : Z) : Timeout := mk_timeout (Some d) (backend_request_timeout t).
Definition timeout_backend_request (t : Timeout) (d : Z) : Timeout := mk_timeout (request_timeout t) (Some d).

(** ** Retries *)
Record RetryConfig : Type := mk_retry {
  max_retries : Z;
  base_delay : Z;
  max_delay : Z;
  retry_on_5xx : bool;
  retry_on_connection_error : bool
}.

Definition retry_default : RetryConfig := mk_retry 3 25000000 1000000000 true true.

Definition retry_with_max_retries (c : RetryConfig) (count : Z) : RetryConfig :=
  mk_retry count (base_delay c) (max_delay c) (retry_on_5xx c) (retry_on_connection_error c).
Definition retry_with_base_delay (c : RetryConfig) (delay : Z) : RetryConfig :=
  mk_retry (max_retries c) delay (max_delay c) (retry_on_5xx c) (retry_on_connection_error c).
Definition retry_with_max_delay (c : RetryConfig) (delay : Z) : RetryConfig :=
  mk_retry (max_retries c) (base_delay c) delay (retry_on_5xx c) (retry_on_connection_error c).
Definition retry_with_5xx (c : RetryConfig) (enabled : bool) : RetryConfig :=
  mk_retry (max_retries c) (base_delay c) (max_delay c) enabled (retry_on_connection_error c).
Definition retry_with_connection_error (c : RetryConfig) (enabled : bool) : RetryConfig :=
  mk_retry (max_retries c) (base_delay c) (max_delay c) (retry_on_5xx c) enabled.

Definition as_millis (d : Z) : Z := d / 1000000.
Definition from_millis (ms : Z) : Z := ms * 1000000.

Definition calculate_delay (c : RetryConfig) (attempt : Z) : Z :=
  let delay_ms := wrap 64 (wrap 64 (as_millis (base_delay c)) * Z.shiftl 1 (Z.min attempt 10)) in
  Z.min (from_millis delay_ms) (max_delay c).

Definition should_retry_status (c : RetryConfig) (status_code : Z) : bool :=
  retry_on_5xx c && ((500 <=? status_code) && (status_code <? 600)).

Definition retry_wf (c : RetryConfig) : Prop :=
  0 <= base_delay c ∧ 0 <= max_delay c ∧ 0 <= max_retries c < 2 ^ 32.

(** The backoff of every attempt is at most the configured maximum, whatever
the base; and with a base below 2^54 ms (no overflow) it is the smaller of the
maximum and the base, cut to milliseconds, doubled per attempt up to ten times:
hence it never decreases from one attempt to the next. *)
Theorem calculate_delay_spec c attempt :
  retry_wf c → 0 <= attempt →
  0 <= calculate_delay c attempt <= max_delay c ∧
  (as_millis (base_delay c) < 2 ^ 54 →
     calculate_delay c attempt =
       Z.min (as_millis (base_delay c) * 2 ^ Z.min attempt 10 * 1000000) (max_delay c) ∧
     calculate_delay c attempt <= calculate_delay c (attempt + 1)).
Proof.
  intros (Hb & Hm & _) Ha.
  assert (∀ a, as_millis (base_delay c) < 2 ^ 54 → 0 <= a →
    calculate_delay c a = Z.min (as_millis (base_delay c) * 2 ^ Z.min a 10 * 1000000) (max_delay c)) as E.
  { intros a Hlt Ha'. unfold calculate_delay, from_millis. rewrite Z.shiftl_mul_pow2 by lia.
    assert (0 <= as_millis (base_delay c)) by (apply Z.div_pos; lia).
    assert (2 ^ Z.min a 10 <= 2 ^ 10) by (apply Z.pow_le_mono_r; lia).
    assert (0 < 2 ^ Z.min a 10) by (apply Z.pow_pos_nonneg; lia).
    rewrite (wrap_small 64 (as_millis _)) by (unfold in_width; lia).
    rewrite wrap_small by (unfold in_width; nia). by rewrite Z.mul_1_l. }
  split.
  - unfold calculate_delay, from_millis.
    pose proof (wrap_range 64 (wrap 64 (as_millis (base_delay c)) * Z.shiftl 1 (Z.min attempt 10)) ltac:(lia)) as [??].
    lia.
  - intros Hlt. rewrite !E by lia. split; [done|].
    assert (0 <= as_millis (base_delay c)) by (apply Z.div_pos; lia).
    assert (2 ^ Z.min attempt 10 <= 2 ^ Z.min (attempt + 1) 10) by (apply Z.pow_le_mono_r; lia). nia.
Qed.

Lemma calculate_delay_spec_witness :
  0 <= calculate_delay retry_default 4 <= 1000000000 ∧
  (25 < 2 ^ 54 →
     calculate_delay retry_default 4 = Z.min (25 * 2 ^ Z.min 4 10 * 1000000) 1000000000 ∧
     calculate_delay retry_default 4 <= calculate_delay retry_default (4 + 1)).
Proof.
  apply (calculate_delay_spec retry_default 4); [|discriminate].
  repeat split; vm_compute; (discriminate || reflexivity).
Defined.
