(* ===== verification/Matching.v ===== *)
(** * Matching: header and query-parameter matches ([router.rs])

The match configurations of a route, the global cache of compiled regular
expressions, and the two conjunctive matchers that use it.  The [regex] crate is
a class: compilation may fail, and a compiled expression answers on a string. *)

From S2P Require Import Prelude.

#[local] Open Scope Z_scope.

Class RegexEngine : Type := {
  Regex : Type;
  regex_new : string → option Regex;
  is_match : Regex → string → bool
}.

Inductive MatchType : Type := Exact | RegularExpression.

(** [HeaderMatch] and [QueryParamMatch] have the same fields. *)
Record HeaderMatch : Type := mk_header_match {
  hm_name : string;
  hm_value : string;
  hm_type : MatchType
}.

Record QueryParamMatch : Type := mk_query_match {
  qm_name : string;
  qm_value : string;
  qm_type : MatchType
}.

Definition to_ascii_lowercase (c : ascii) : ascii :=
  let n := byte_of_ascii c in
  if (65 <=? n) && (n <=? 90) then ascii_of_N (Z.to_N (n + 32)) else c.

Fixpoint eq_ignore_ascii_case (s t : string) : bool :=
  match s, t with
  | EmptyString, EmptyString => true
  | String a s, String b t =>
      Ascii.eqb (to_ascii_lowercase a) (to_ascii_lowercase b) && eq_ignore_ascii_case s t
  | _, _ => false
  end.

Definition MAX_REGEX_CACHE_SIZE : nat := 256.

Section matching.
Context `{RegexEngine}.

(** [REGEX_CACHE]: compiled expressions by pattern. *)
Abbreviation regex_cache := (gmap string Regex).

Definition get_cached_regex (cache : regex_cache) (pattern : string) : option Regex * regex_cache :=
  match cache !! pattern with
  | Some regex => (Some regex, cache)
  | None =>
      match regex_new pattern with
      | Some regex =>
          let cache := if (MAX_REGEX_CACHE_SIZE <=? size cache)%nat then ∅ else cache in
          (Some regex, <[pattern := regex]> cache)
      | None => (None, cache)
      end
  end.

(** The value test of one match, with the cache it leaves behind. *)
Definition value_matches (cache : regex_cache) (t : MatchType) (value req_value : string)
  : bool * regex_cache :=
  match t with
  | Exact => (String.eqb req_value value, cache)
  | RegularExpression =>
      let '(r, cache) := get_cached_regex cache value in
      (match r with Some regex => is_match regex req_value | None => false end, cache)
  end.

(** [any] over the request's pairs: stops at the first match. *)
Fixpoint any_match (same_name : string → bool) (t : MatchType) (value : string)
    (cache : regex_cache) (reqs : list (string * string)) : bool * regex_cache :=
  match reqs with
  | [] => (false, cache)
  | (n, v) :: reqs =>
      if negb (same_name n) then any_match same_name t value cache reqs
      else
        let '(found, cache) := value_matches cache t value v in
        if found then (true, cache) else any_match same_name t value cache reqs
  end.

Fixpoint headers_match (cache : regex_cache) (matches : list HeaderMatch) (reqs : list (string * string))
  : bool * regex_cache :=
  match matches with
  | [] => (true, cache)
  | m :: matches =>
      let '(found, cache) :=
        any_match (λ n, eq_ignore_ascii_case n (hm_name m)) (hm_type m) (hm_value m) cache reqs in
      if found then headers_match cache matches reqs else (false, cache)
  end.

Fixpoint query_params_match (cache : regex_cache) (matches : list QueryParamMatch)
    (reqs : list (string * string)) : bool * regex_cache :=
  match matches with
  | [] => (true, cache)
  | m :: matches =>
      let '(found, cache) :=
        any_match (λ n, String.eqb n (qm_name m)) (qm_type m) (qm_value m) cache reqs in
      if found then query_params_match cache matches reqs else (false, cache)
  end.

(** ** Specification: no cache *)
Definition value_ok (t : MatchType) (value v : string) : bool :=
  match t with
  | Exact => String.eqb v value
  | RegularExpression => match regex_new value with Some r => is_match r v | None => false end
  end.

Definition header_ok (reqs : list (string * string)) (m : HeaderMatch) : bool :=
  existsb (λ '(n, v), eq_ignore_ascii_case n (hm_name m) && value_ok (hm_type m) (hm_value m) v) reqs.

Definition query_ok (reqs : list (string * string)) (m : QueryParamMatch) : bool :=
  existsb (λ '(n, v), String.eqb n (qm_name m) && value_ok (qm_type m) (qm_value m) v) reqs.

(** A cache holds what compilation gives, in bounded number. *)
Record regex_cache_ok (c : regex_cache) : Prop := {
  rc_sound : ∀ p r, c !! p = Some r → regex_new p = Some r;
  rc_bound : (size c <= MAX_REGEX_CACHE_SIZE)%nat
}.

Lemma get_cached_regex_spec c p :
  regex_cache_ok c →
  (get_cached_regex c p).1 = regex_new p ∧ regex_cache_ok (get_cached_regex c p).2.
Proof.
  intros [S B]. unfold get_cached_regex. destruct (c !! p) as [r|] eqn:E.
  { split; [symmetry; by apply S|done]. }
  destruct (regex_new p) as [r|] eqn:En; [|done]. split; [done|]. cbn [snd].
  destruct (Nat.leb_spec MAX_REGEX_CACHE_SIZE (size c)).
  - split.
    + intros q s. rewrite lookup_insert_Some, lookup_empty. naive_solver.
    + rewrite insert_empty, map_size_singleton. unfold MAX_REGEX_CACHE_SIZE. lia.
  - split.
    + intros q s. rewrite lookup_insert_Some. naive_solver.
    + rewrite map_size_insert_None by done. lia.
Qed.

Lemma any_match_spec same t value reqs : ∀ c,
  regex_cache_ok c →
  (any_match same t value c reqs).1 = existsb (λ '(n, v), same n && value_ok t value v) reqs ∧
  regex_cache_ok (any_match same t value c reqs).2.
Proof.
  induction reqs as [|[n v] reqs IH]; intros c Hc; [done|]. cbn [any_match existsb].
  destruct (same n); cbn [negb andb]; [|by apply IH].
  assert ((value_matches c t value v).1 = value_ok t value v ∧ regex_cache_ok (value_matches c t value v).2) as [E Hc'].
  { destruct t; [done|]. cbn [value_matches value_ok]. destruct (get_cached_regex_spec c value Hc) as [<- ?].
    by destruct (get_cached_regex c value). }
  destruct (value_matches c t value v) as [found c']. cbn [fst snd] in *. rewrite <- E.
  destruct found; [done|]. by apply IH.
Qed.

Lemma headers_match_spec ms reqs : ∀ c,
  regex_cache_ok c →
  (headers_match c ms reqs).1 = forallb (header_ok reqs) ms ∧ regex_cache_ok (headers_match c ms reqs).2.
Proof.
  induction ms as [|m ms IH]; intros c Hc; [done|]. cbn [headers_match forallb]. unfold header_ok at 1.
  destruct (any_match_spec (λ n, eq_ignore_ascii_case n (hm_name m)) (hm_type m) (hm_value m) reqs c Hc) as [<- ?].
  destruct (any_match _ _ _ c reqs) as [found c']. cbn [fst snd] in *. destruct found; [by apply IH|done].
Qed.

Lemma query_params_match_spec ms reqs : ∀ c,
  regex_cache_ok c →
  (query_params_match c ms reqs).1 = forallb (query_ok reqs) ms ∧
  regex_cache_ok (query_params_match c ms reqs).2.
Proof.
  induction ms as [|m ms IH]; intros c Hc; [done|]. cbn [query_params_match forallb]. unfold query_ok at 1.
  destruct (any_match_spec (λ n, String.eqb n (qm_name m)) (qm_type m) (qm_value m) reqs c Hc) as [<- ?].
  destruct (any_match _ _ _ c reqs) as [found c']. cbn [fst snd] in *. destruct found; [by apply IH|done].
Qed.

Lemma regex_cache_ok_empty : regex_cache_ok ∅.
Proof. split; [intros p r; by rewrite lookup_empty|]. rewrite map_size_empty. lia. Qed.

(** A request to match: the headers and query parameters against their lists. *)
Definition match_request (c : regex_cache)
    (q : list HeaderMatch * list QueryParamMatch * list (string * string) * list (string * string))
  : bool * bool * regex_cache :=
  let '(hs, qs, headers, params) := q in
  let '(h, c) := headers_match c hs headers in
  let '(q, c) := query_params_match c qs params in (h, q, c).

Fixpoint match_requests (c : regex_cache) (qs : list (list HeaderMatch * list QueryParamMatch *
    list (string * string) * list (string * string))) : list (bool * bool) * regex_cache :=
  match qs with
  | [] => ([], c)
  | q :: qs =>
      let '(h, p, c) := match_request c q in
      let '(rs, c) := match_requests c qs in ((h, p) :: rs, c)
  end.

(** Over any sequence of requests, starting from the empty global cache, a
header (query) match succeeds exactly when every configured match is satisfied by
some header (parameter) of the request, compiled expressions being reused or not,
and invalid ones never matching; the cache never exceeds 256 entries. *)
Theorem matching_ignores_cache qs :
  (match_requests ∅ qs).1 =
    (λ '(hs, ps, headers, params), (forallb (header_ok headers) hs, forallb (query_ok params) ps)) <$> qs ∧
  (size (match_requests ∅ qs).2 <= MAX_REGEX_CACHE_SIZE)%nat.
Proof.
  assert (∀ c, regex_cache_ok c →
    (match_requests c qs).1 =
      (λ '(hs, ps, headers, params), (forallb (header_ok headers) hs, forallb (query_ok params) ps)) <$> qs ∧
    regex_cache_ok (match_requests c qs).2) as G.
  { induction qs as [|[[[hs ps] headers] params] qs IH]; intros c Hc; [done|].
    cbn [match_requests match_request fmap list_fmap].
    destruct (headers_match_spec hs headers c Hc) as [E1 H1].
    destruct (headers_match c hs headers) as [h c1]. cbn [fst snd] in *.
    destruct (query_params_match_spec ps params c1 H1) as [E2 H2].
    destruct (query_params_match c1 ps params) as [p c2]. cbn [fst snd] in *.
    destruct (IH c2 H2) as [E3 H3]. destruct (match_requests c2 qs) as [rs c3]. cbn [fst snd] in *.
    split; [by rewrite E1, E2, E3|done]. }
  destruct (G ∅ regex_cache_ok_empty) as [E Hc]. split; [done|]. apply Hc.
Qed.
End matching.

(** An engine whose expressions match themselves, and whose empty one is invalid. *)
Definition literal_engine : RegexEngine := {|
  Regex := string;
  regex_new p := if String.eqb p "" then None else Some p;
  is_match := String.eqb
|}.

Lemma matching_ignores_cache_witness :
  let qs := [([mk_header_match "X-Env" "prod" RegularExpression], [mk_query_match "v" "2" Exact],
              [("x-env", "prod")], [("v", "1")])] in
  (match_requests (H := literal_engine) ∅ qs).1 =
    (λ '(hs, ps, headers, params),
       (forallb (header_ok (H := literal_engine) headers) hs,
        forallb (query_ok (H := literal_engine) params) ps)) <$> qs ∧
  (size (match_requests (H := literal_engine) ∅ qs).2 <= MAX_REGEX_CACHE_SIZE)%nat.
Proof.
  apply (matching_ignores_cache (H := literal_engine)
    [([mk_header_match "X-Env" "prod" RegularExpression], [mk_query_match "v" "2" Exact],
      [("x-env", "prod")], [("v", "1")])]).
Defined.
