(* ===== verification/RouteCache.v ===== *)
(** * RouteCache: the LRU cache of route lookups ([RouteLruCache], [router.rs])

The cache keeps a hash map and, separately, the order of use.  The
specification keeps one list of pairs, least recently used first; the
refinement shows that the two structures of the code stay in step. *)

From S2P Require Import Prelude Common.

#[local] Open Scope Z_scope.

Record RouteKey : Type := mk_key { key_method : HttpMethod; path_hash : Z }.

#[export] Instance RouteKey_eq_dec : EqDecision RouteKey.
Proof. solve_decision. Defined.

#[export] Instance RouteKey_countable : Countable RouteKey.
Proof.
  apply (inj_countable' (λ k, (key_method k, path_hash k)) (λ '(m, h), mk_key m h)). by intros [].
Defined.

Record RouteLruCache : Type := mk_cache {
  entries : gmap RouteKey RouteKey;
  access_order : list RouteKey;
  hits : Z;
  misses : Z;
  max_size : nat
}.

Definition ROUTE_CACHE_MAX_SIZE : nat := 128.

Definition cache_new (max_size : nat) : RouteLruCache := mk_cache ∅ [] 0 0 max_size.

(** [if let Some(pos) = order.iter().position(..) { order.remove(pos) }] *)
Fixpoint remove_first (key : RouteKey) (l : list RouteKey) : list RouteKey :=
  match l with
  | [] => []
  | k :: l => if decide (k = key) then l else k :: remove_first key l
  end.

Definition cache_get (c : RouteLruCache) (key : RouteKey) : option RouteKey * RouteLruCache :=
  match entries c !! key with
  | Some resolved =>
      (Some resolved,
       mk_cache (entries c) (remove_first key (access_order c) ++ [key])
         (wrap 64 (hits c + 1)) (misses c) (max_size c))
  | None =>
      (None, mk_cache (entries c) (access_order c) (hits c) (wrap 64 (misses c + 1)) (max_size c))
  end.

Definition cache_insert (c : RouteLruCache) (lookup_key resolved_key : RouteKey) : RouteLruCache :=
  match entries c !! lookup_key with
  | Some _ =>
      mk_cache (<[lookup_key := resolved_key]> (entries c)) (access_order c) (hits c) (misses c) (max_size c)
  | None =>
      let '(es, order) :=
        if (max_size c <=? size (entries c))%nat then
          match access_order c with
          | oldest :: order => (delete oldest (entries c), order)
          | [] => (entries c, [])
          end
        else (entries c, access_order c) in
      mk_cache (<[lookup_key := resolved_key]> es) (order ++ [lookup_key]) (hits c) (misses c) (max_size c)
  end.

Definition cache_invalidate (c : RouteLruCache) (key : RouteKey) : RouteLruCache :=
  mk_cache (delete key (entries c)) (remove_first key (access_order c)) (hits c) (misses c) (max_size c).

Definition cache_clear (c : RouteLruCache) : RouteLruCache :=
  mk_cache ∅ [] (hits c) (misses c) (max_size c).

Definition cache_stats (c : RouteLruCache) : Z * Z := (hits c, misses c).
Definition cache_size (c : RouteLruCache) : nat := size (entries c).

(** ** Specification *)
Abbreviation lru := (list (RouteKey * RouteKey)).

Fixpoint lru_find (l : lru) (key : RouteKey) : option RouteKey :=
  match l with
  | [] => None
  | (k, v) :: l => if decide (k = key) then Some v else lru_find l key
  end.

Definition lru_without (l : lru) (key : RouteKey) : lru := filter (λ p, p.1 ≠ key) l.

Definition lru_get (l : lru) (key : RouteKey) : lru :=
  match lru_find l key with
  | Some v => lru_without l key ++ [(key, v)]
  | None => l
  end.

(** An entry that is there is overwritten where it is; a new one goes to the end,
after the oldest entry made room for it. *)
Definition lru_insert (max : nat) (l : lru) (key v : RouteKey) : lru :=
  match lru_find l key with
  | Some _ => (λ p, if decide (p.1 = key) then (key, v) else p) <$> l
  | None => (if (max <=? length l)%nat then tail l else l) ++ [(key, v)]
  end.

(** ** Invariant and abstraction *)
Record cache_ok (c : RouteLruCache) : Prop := {
  order_nodup : NoDup (access_order c);
  order_dom : ∀ k, k ∈ access_order c ↔ is_Some (entries c !! k)
}.

Definition view (es : gmap RouteKey RouteKey) (order : list RouteKey) : lru :=
  omap (λ k, (λ v, (k, v)) <$> es !! k) order.

Definition cache_view (c : RouteLruCache) : lru := view (entries c) (access_order c).

Lemma view_cons es k order :
  view es (k :: order) = match es !! k with Some v => (k, v) :: view es order | None => view es order end.
Proof. unfold view. cbn. by destruct (es !! k). Qed.

Lemma view_length es order : (∀ k, k ∈ order → is_Some (es !! k)) → length (view es order) = length order.
Proof.
  induction order as [|k order IH]; intros H; [done|]. rewrite view_cons.
  destruct (H k ltac:(left)) as [v ->]. cbn. f_equal. apply IH. intros ??. apply H. by right.
Qed.

Lemma view_app es o1 o2 : view es (o1 ++ o2) = view es o1 ++ view es o2.
Proof. apply omap_app. Qed.

(** The view depends on the map only at the keys in the order. *)
Lemma view_ext es es' order : (∀ k, k ∈ order → es !! k = es' !! k) → view es order = view es' order.
Proof.
  induction order as [|k order IH]; intros H; [done|]. rewrite !view_cons, (H k) by left.
  destruct (es' !! k); [f_equal|]; apply IH; intros ??; apply H; by right.
Qed.

Lemma remove_first_filter key l : NoDup l → remove_first key l = filter (λ k, k ≠ key) l.
Proof.
  induction 1 as [|k l Hk Hl IH]; [done|]. cbn [remove_first]. rewrite filter_cons.
  destruct (decide (k = key)) as [->|Hne].
  - rewrite decide_False by naive_solver. symmetry. clear IH Hl.
    induction l as [|x l IH]; [done|]. apply not_elem_of_cons in Hk as [? Hk].
    rewrite filter_cons, decide_True by done. by rewrite IH.
  - rewrite decide_True by done. by rewrite IH.
Qed.

Lemma view_filter es order key :
  view es (filter (λ k, k ≠ key) order) = lru_without (view es order) key.
Proof.
  unfold lru_without. induction order as [|k order IH]; [done|]. rewrite filter_cons, view_cons.
  destruct (es !! k) as [v|] eqn:E.
  - rewrite filter_cons. cbn [fst]. destruct (decide (k ≠ key)) as [Hne|Hne]; [|done].
    by rewrite view_cons, E, IH.
  - destruct (decide (k ≠ key)) as [Hne|Hne]; [|done]. by rewrite view_cons, E.
Qed.

Lemma lru_find_view es order key :
  key ∈ order → lru_find (view es order) key = es !! key.
Proof.
  induction order as [|k order IH]; intros Hin; [by apply not_elem_of_nil in Hin|]. rewrite view_cons.
  apply elem_of_cons in Hin as [->|Hin].
  - destruct (es !! k) as [v|] eqn:E; cbn; [by rewrite decide_True|].
    clear IH. induction order as [|x order IH]; [done|]. rewrite view_cons.
    destruct (es !! x) eqn:Ex; [|done]. cbn. rewrite decide_False; [done|]. intros ->. congruence.
  - destruct (es !! k) as [v|] eqn:E; cbn; [|auto]. case_decide; [by subst|auto].
Qed.

Lemma lru_find_cache c key : cache_ok c → lru_find (cache_view c) key = entries c !! key.
Proof.
  intros [_ D]. unfold cache_view. destruct (decide (key ∈ access_order c)) as [Hin|Hin].
  - by apply lru_find_view.
  - assert (entries c !! key = None) as ->.
    { destruct (entries c !! key) eqn:E; [|done]. exfalso. apply Hin, D. eauto. }
    revert Hin. generalize (access_order c). intros l. induction l as [|k l IH]; intros Hin; [done|].
    apply not_elem_of_cons in Hin as [? ?]. rewrite view_cons. destruct (entries c !! k); [|auto].
    cbn. rewrite decide_False by done. auto.
Qed.

Lemma order_size c : cache_ok c → length (access_order c) = size (entries c).
Proof.
  intros [N D].
  assert (list_to_set (access_order c) = dom (entries c)) as E.
  { apply set_eq. intros k. rewrite elem_of_list_to_set, elem_of_dom. apply D. }
  rewrite <- size_dom, <- E. by rewrite size_list_to_set.
Qed.

Lemma view_update es order key v :
  NoDup order → key ∈ order → is_Some (es !! key) →
  view (<[key := v]> es) order = (λ p, if decide (p.1 = key) then (key, v) else p) <$> view es order.
Proof.
  intros Hn _ Hs. induction Hn as [|k order Hk Hn IH]; [done|]. rewrite !view_cons.
  destruct (decide (k = key)) as [->|Hne].
  - rewrite lookup_insert_eq. destruct Hs as [w ->]. cbn. rewrite decide_True by done. f_equal. apply IH.
  - rewrite lookup_insert_ne by done. destruct (es !! k); cbn; [rewrite decide_False by done; f_equal|]; apply IH.
Qed.

(** ** Operations preserve the invariant and follow the specification *)
Lemma cache_new_ok n : cache_ok (cache_new n).
Proof. split; [constructor|]. intros k. cbn. rewrite lookup_empty. split; [by intros ?%not_elem_of_nil|by intros [? ?]]. Qed.

Lemma elem_of_moved (l : list RouteKey) key k :
  NoDup l → key ∈ l → k ∈ remove_first key l ++ [key] ↔ k ∈ l.
Proof.
  intros Hn Hin. rewrite remove_first_filter by done.
  rewrite elem_of_app, list_elem_of_singleton, list_elem_of_filter. destruct (decide (k = key)); naive_solver.
Qed.

Lemma cache_get_refines c key :
  cache_ok c →
  let '(r, c') := cache_get c key in
  cache_ok c' ∧ r = lru_find (cache_view c) key ∧ cache_view c' = lru_get (cache_view c) key.
Proof.
  intros Hok. pose proof (lru_find_cache c key Hok) as Hf. destruct Hok as [N D].
  unfold cache_get, lru_get. rewrite Hf. destruct (entries c !! key) as [v|] eqn:E.
  - assert (key ∈ access_order c) as Hin by (apply D; eauto). split_and!; [|done|].
    + split; cbn; [|intros k; rewrite elem_of_moved by done; apply D].
      rewrite remove_first_filter by done. apply NoDup_app. split_and!.
      * by apply NoDup_filter.
      * intros x. rewrite list_elem_of_filter, list_elem_of_singleton. naive_solver.
      * apply NoDup_singleton.
    + unfold cache_view. cbn [entries access_order]. rewrite view_app, remove_first_filter, view_filter by done.
      f_equal. rewrite view_cons, E. done.
  - split_and!; done.
Qed.

Lemma cache_insert_refines c key v :
  cache_ok c →
  cache_ok (cache_insert c key v) ∧
  cache_view (cache_insert c key v) = lru_insert (max_size c) (cache_view c) key v.
Proof.
  intros Hok. pose proof (lru_find_cache c key Hok) as Hf. pose proof (order_size c Hok) as Hsz.
  destruct Hok as [N D]. unfold cache_insert, lru_insert. rewrite Hf.
  assert (length (cache_view c) = size (entries c)) as Hlen.
  { unfold cache_view. rewrite view_length; [done|]. intros k. apply D. }
  rewrite Hlen. destruct (entries c !! key) as [w|] eqn:E.
  - assert (key ∈ access_order c) as Hin by (apply D; eauto). split.
    + split; cbn; [done|]. intros k. rewrite D. destruct (decide (k = key)) as [->|Hne].
      * rewrite lookup_insert_eq, E. naive_solver.
      * by rewrite lookup_insert_ne.
    + unfold cache_view. cbn [entries access_order]. apply view_update; eauto.
  - assert (key ∉ access_order c) as Hnin.
    { rewrite D, E. by intros [? ?]. }
    assert (∀ es order, NoDup order → (∀ k, k ∈ order ↔ is_Some (es !! k)) → es !! key = None →
      NoDup (order ++ [key]) ∧ (∀ k, k ∈ order ++ [key] ↔ is_Some (<[key := v]> es !! k)) ∧
      view (<[key := v]> es) (order ++ [key]) = view es order ++ [(key, v)]) as Hadd.
    { intros es order No Do Hnone. assert (key ∉ order) by (rewrite Do, Hnone; by intros [? ?]). split_and!.
      - apply NoDup_app. split_and!; [done| |apply NoDup_singleton].
        intros x ? ->%list_elem_of_singleton. done.
      - intros k. rewrite elem_of_app, list_elem_of_singleton, Do. destruct (decide (k = key)) as [->|Hne].
        + rewrite lookup_insert_eq. naive_solver.
        + rewrite lookup_insert_ne by done. naive_solver.
      - rewrite view_app, view_cons, lookup_insert_eq. f_equal. apply view_ext.
        intros k Hk. rewrite lookup_insert_ne; [done|]. by intros ->. }
    destruct (max_size c <=? size (entries c))%nat eqn:Hfull.
    + destruct (access_order c) as [|oldest order] eqn:Eo.
      * destruct (Hadd (entries c) []) as (A1 & A2 & A3); [constructor|done|done|].
        split; [by split|]. unfold cache_view. cbn [entries access_order]. by rewrite Eo, A3.
      * apply NoDup_cons in N as [N1 N2].
        destruct (Hadd (delete oldest (entries c)) order) as (A1 & A2 & A3); [done| | |].
        { intros k. rewrite lookup_delete_is_Some, <- D, elem_of_cons. naive_solver. }
        { apply lookup_delete_None. by right. }
        split; [by split|]. unfold cache_view. cbn [entries access_order]. rewrite Eo, A3. f_equal.
        rewrite view_cons. destruct (proj1 (D oldest) ltac:(left)) as [w Hw]. rewrite Hw. cbn [tail].
        apply view_ext. intros k Hk. rewrite lookup_delete_ne; [done|]. by intros ->.
    + destruct (Hadd (entries c) (access_order c)) as (A1 & A2 & A3); [done..|].
      split; [by split|]. unfold cache_view. cbn [entries access_order]. by rewrite A3.
Qed.

Lemma cache_invalidate_refines c key :
  cache_ok c →
  cache_ok (cache_invalidate c key) ∧ cache_view (cache_invalidate c key) = lru_without (cache_view c) key.
Proof.
  intros [N D]. unfold cache_invalidate. rewrite remove_first_filter by done. split.
  - split; cbn; [by apply NoDup_filter|]. intros k. rewrite list_elem_of_filter, lookup_delete_is_Some, D. naive_solver.
  - unfold cache_view. cbn [entries access_order]. rewrite <- view_filter. apply view_ext. intros k.
    rewrite list_elem_of_filter. intros [? _]. by rewrite lookup_delete_ne.
Qed.

(** ** Sequences of operations *)
Inductive cache_op : Type :=
| OpGet (key : RouteKey)
| OpInsert (key v : RouteKey)
| OpInvalidate (key : RouteKey)
| OpClear.

Definition cache_run (c : RouteLruCache) (op : cache_op) : option RouteKey * RouteLruCache :=
  match op with
  | OpGet k => cache_get c k
  | OpInsert k v => (None, cache_insert c k v)
  | OpInvalidate k => (None, cache_invalidate c k)
  | OpClear => (None, cache_clear c)
  end.

Definition lru_run (max : nat) (l : lru) (op : cache_op) : option RouteKey * lru :=
  match op with
  | OpGet k => (lru_find l k, lru_get l k)
  | OpInsert k v => (None, lru_insert max l k v)
  | OpInvalidate k => (None, lru_without l k)
  | OpClear => (None, [])
  end.

Fixpoint cache_runs (c : RouteLruCache) (ops : list cache_op) : list (option RouteKey) * RouteLruCache :=
  match ops with
  | [] => ([], c)
  | op :: ops =>
      let '(r, c) := cache_run c op in
      let '(rs, c) := cache_runs c ops in (r :: rs, c)
  end.

Fixpoint lru_runs (max : nat) (l : lru) (ops : list cache_op) : list (option RouteKey) * lru :=
  match ops with
  | [] => ([], l)
  | op :: ops =>
      let '(r, l) := lru_run max l op in
      let '(rs, l) := lru_runs max l ops in (r :: rs, l)
  end.

Lemma cache_run_refines c op :
  cache_ok c →
  cache_ok (cache_run c op).2 ∧ max_size (cache_run c op).2 = max_size c ∧
  lru_run (max_size c) (cache_view c) op = ((cache_run c op).1, cache_view (cache_run c op).2).
Proof.
  intros Hok. destruct op as [k|k v|k|]; cbn [cache_run lru_run].
  - pose proof (cache_get_refines c k Hok) as G. destruct (cache_get c k) as [r c'] eqn:E.
    destruct G as (? & Er & Ev). cbn [fst snd]. rewrite Er, Ev. split_and!; [done| |done]. unfold cache_get in E.
    destruct (entries c !! k); by simplify_eq.
  - cbn [fst snd]. destruct (cache_insert_refines c k v Hok) as [? ->]. split_and!; [done| |done].
    unfold cache_insert. cbn. destruct (entries c !! k); [done|].
    destruct (_ <=? _)%nat; [|done]. by destruct (access_order c).
  - cbn [fst snd]. destruct (cache_invalidate_refines c k Hok) as [? ->]. done.
  - destruct (cache_new_ok 0) as [N D]. split_and!; [split; [exact N|exact D]|done|done].
Qed.

Lemma lru_run_bounded max l op :
  (1 <= max)%nat → (length l <= max)%nat → (length (lru_run max l op).2 <= max)%nat.
Proof.
  intros Hm Hl. destruct op as [k|k v|k|]; cbn [lru_run snd].
  - unfold lru_get. destruct (lru_find l k) as [v|] eqn:E; [|done]. rewrite length_app. cbn.
    assert (length (lru_without l k) < length l)%nat; [|lia]. clear Hm Hl. revert E.
    induction l as [|[x w] l IH]; [done|]. cbn [lru_find]. case_decide; unfold lru_without; rewrite filter_cons; cbn [fst].
    + intros _. rewrite decide_False by naive_solver. pose proof (length_filter (λ p, p.1 ≠ k) l). cbn. lia.
    + intros E. rewrite decide_True by done. cbn. apply IH in E. unfold lru_without in E. lia.
  - unfold lru_insert. destruct (lru_find l k); [by rewrite length_fmap|]. rewrite length_app. cbn.
    destruct (Nat.leb_spec max (length l)); [|lia]. destruct l; cbn in *; lia.
  - etrans; [apply length_filter|done].
  - cbn. lia.
Qed.

(** C25: for every sequence of lookups, insertions, invalidations and clears on a
cache of capacity [max >= 1], the map and the order queue of the code stay in
step: the answers and the entries in order of use are those of the list
specification of an LRU cache, and the cache never holds more than [max]
entries. *)
Theorem route_cache_refines_lru max ops :
  (1 <= max)%nat →
  let '(rs, c) := cache_runs (cache_new max) ops in
  lru_runs max [] ops = (rs, cache_view c) ∧ (cache_size c <= max)%nat ∧
  length (access_order c) = cache_size c.
Proof.
  intros Hm.
  assert (∀ c, cache_ok c → max_size c = max → (length (cache_view c) <= max)%nat →
    let '(rs, c') := cache_runs c ops in
    cache_ok c' ∧ lru_runs max (cache_view c) ops = (rs, cache_view c') ∧ (length (cache_view c') <= max)%nat) as G.
  { induction ops as [|op ops IH]; intros c Hok Hmax Hlen; [done|]. cbn [cache_runs lru_runs].
    destruct (cache_run_refines c op Hok) as (Hok' & Hmax' & E). rewrite Hmax in *.
    pose proof (lru_run_bounded max (cache_view c) op Hm Hlen) as Hb. rewrite E in *.
    destruct (cache_run c op) as [r c1]. cbn [fst snd] in *. specialize (IH c1 Hok' Hmax' Hb).
    destruct (cache_runs c1 ops) as [rs c2]. destruct IH as (? & -> & ?). done. }
  specialize (G (cache_new max) (cache_new_ok max) eq_refl ltac:(cbn; lia)).
  destruct (cache_runs (cache_new max) ops) as [rs c]. destruct G as (Hok & E & Hlen).
  pose proof (order_size c Hok) as Hsz. unfold cache_size. split_and!; [done| |done].
  rewrite <- Hsz. unfold cache_view in Hlen. rewrite view_length in Hlen; [done|].
  intros k. apply (order_dom c Hok).
Qed.

Lemma route_cache_refines_lru_witness :
  let k := mk_key GET in
  let ops := [OpInsert (k 1) (k 1); OpInsert (k 2) (k 2); OpGet (k 1); OpInsert (k 3) (k 1);
              OpGet (k 2); OpGet (k 1)] in
  let '(rs, c) := cache_runs (cache_new 2) ops in
  lru_runs 2 [] ops = (rs, cache_view c) ∧ (cache_size c <= 2)%nat ∧ length (access_order c) = cache_size c.
Proof.
  apply (route_cache_refines_lru 2
    [OpInsert (mk_key GET 1) (mk_key GET 1); OpInsert (mk_key GET 2) (mk_key GET 2); OpGet (mk_key GET 1);
     OpInsert (mk_key GET 3) (mk_key GET 1); OpGet (mk_key GET 2); OpGet (mk_key GET 1)]). lia.
Defined.
