(* ===== verification/Matchit.v ===== *)
(** * Matchit: the radix-tree router the code depends on

[matchit] is a third-party crate; this file states what the router relies on as a
class: insertion of a pattern that is there already fails, and a lookup returns
the value of the most specific inserted pattern that matches.  The patterns the
code inserts are a literal, or a literal followed by the catch-all [{*rest}],
which matches one or more further characters.  An instance on lists shows that
the laws can be met. *)

From S2P Require Import Prelude.

(** [split_catch p] is the literal before a final catch-all. *)
Fixpoint split_catch (p : string) : option string :=
  if String.eqb p "{*rest}" then Some ""
  else match p with
       | EmptyString => None
       | String c p => String c <$> split_catch p
       end.

Definition literal (p : string) : string := default p (split_catch p).

Definition pat_match (p s : string) : bool :=
  match split_catch p with
  | Some q => String.prefix q s && (String.length q <? String.length s)
  | None => String.eqb p s
  end.

Definition is_brace (c : ascii) : bool := Ascii.eqb c "{" || Ascii.eqb c "}".

Fixpoint no_brace (s : string) : bool :=
  match s with
  | EmptyString => true
  | String c s => negb (is_brace c) && no_brace s
  end.

(** Patterns without parameters other than the final catch-all. *)
Definition plain_pattern (p : string) : bool := no_brace (literal p).

Class Matchit (K M : Type) : Type := {
  mt_new : M;
  mt_insert : M → string → K → result M string;
  mt_at : M → string → option K;
  mt_routes : M → list (string * K);
  mt_routes_new : mt_routes mt_new = [];
  mt_insert_routes : ∀ m p k m', mt_insert m p k = Ok m' → mt_routes m' = (p, k) :: mt_routes m;
  mt_insert_conflict : ∀ m p k k', (p, k') ∈ mt_routes m → ∃ e, mt_insert m p k = Err e;
  mt_at_spec : ∀ m s,
    forallb plain_pattern (mt_routes m).*1 = true →
    match mt_at m s with
    | Some k =>
        ∃ p, (p, k) ∈ mt_routes m ∧ pat_match p s = true ∧
          ∀ p' k', (p', k') ∈ mt_routes m → pat_match p' s = true →
            String.length (literal p') <= String.length (literal p)
    | None => ∀ p k, (p, k) ∈ mt_routes m → pat_match p s = false
    end
}.

(** ** Lemmas on patterns *)
Lemma split_catch_app q : no_brace q = true → split_catch (q +:+ "{*rest}") = Some q.
Proof.
  induction q as [|c q IH]; intros Hq; [done|]. cbn in Hq. apply andb_true_iff in Hq as [Hc Hq].
  change (String c q +:+ "{*rest}") with (String c (q +:+ "{*rest}")). cbn [split_catch].
  destruct (String.eqb_spec (String c (q +:+ "{*rest}")) "{*rest}") as [E|E].
  - injection E as -> _. done.
  - by rewrite IH.
Qed.

Lemma split_catch_literal p : no_brace p = true → split_catch p = None.
Proof.
  induction p as [|c p IH]; intros Hp; [done|]. cbn in Hp. apply andb_true_iff in Hp as [Hc Hp].
  cbn [split_catch]. destruct (String.eqb_spec (String c p) "{*rest}") as [E|E].
  - injection E as -> _. done.
  - by rewrite IH.
Qed.

Lemma no_brace_app s t : no_brace (s +:+ t) = no_brace s && no_brace t.
Proof.
  induction s as [|c s IH]; [done|]. change (String c s +:+ t) with (String c (s +:+ t)). cbn [no_brace].
  by rewrite IH, andb_assoc.
Qed.

Lemma prefix_app q r : String.prefix q (q +:+ r) = true.
Proof.
  induction q as [|c q IH]; [by destruct r|]. change (String c q +:+ r) with (String c (q +:+ r)). cbn [String.prefix].
  destruct (ascii_dec c c); [exact IH|congruence].
Qed.

Lemma length_app_string q r : String.length (q +:+ r) = String.length q + String.length r.
Proof.
  induction q as [|c q IH]; [done|]. change (String c q +:+ r) with (String c (q +:+ r)). cbn [String.length].
  by rewrite IH.
Qed.

(** ** The instance on lists *)
Section list_router.
Context {K : Type}.

Definition better (s : string) (best : option (string * K)) (e : string * K) : option (string * K) :=
  if pat_match e.1 s then
    match best with
    | Some b => if String.length (literal b.1) <? String.length (literal e.1) then Some e else best
    | None => Some e
    end
  else best.

Definition list_at (m : list (string * K)) (s : string) : option (string * K) := foldl (better s) None m.

Definition list_insert_route (m : list (string * K)) (p : string) (k : K) : result (list (string * K)) string :=
  if decide (p ∈ m.*1) then Err "insertion failed due to conflict with previously registered route"
  else Ok ((p, k) :: m).

Lemma list_at_spec m s :
  match list_at m s with
  | Some (p, k) =>
      (p, k) ∈ m ∧ pat_match p s = true ∧
      ∀ p' k', (p', k') ∈ m → pat_match p' s = true → String.length (literal p') <= String.length (literal p)
  | None => ∀ p k, (p, k) ∈ m → pat_match p s = false
  end.
Proof.
  unfold list_at. induction m as [|[p k] m IH] using rev_ind.
  { intros p k Hin. by apply not_elem_of_nil in Hin. }
  rewrite foldl_app. cbn [foldl]. destruct (foldl (better s) None m) as [[b kb]|]; unfold better; cbn [fst].
  - destruct IH as (Hin & Hm & Hbest). destruct (pat_match p s) eqn:Ep.
    + destruct (Nat.ltb_spec (String.length (literal b)) (String.length (literal p))).
      * split_and!; [set_solver|done|]. intros p' k' [Hin'|Hin']%elem_of_app Hm'; [|set_solver].
        specialize (Hbest p' k' Hin' Hm'). lia.
      * split_and!; [set_solver|done|]. intros p' k' [Hin'|Hin']%elem_of_app Hm'; [by eauto|set_solver].
    + split_and!; [set_solver|done|]. intros p' k' [Hin'|Hin']%elem_of_app Hm'; [by eauto|].
      apply list_elem_of_singleton in Hin'. injection Hin' as -> ->. congruence.
  - destruct (pat_match p s) eqn:Ep.
    + split_and!; [set_solver|done|]. intros p' k' [Hin'|Hin']%elem_of_app Hm'.
      * rewrite (IH p' k') in Hm' by done. done.
      * apply list_elem_of_singleton in Hin'. injection Hin' as -> ->. done.
    + intros p' k' [Hin'|Hin']%elem_of_app; [by eauto|].
      apply list_elem_of_singleton in Hin'. injection Hin' as -> ->. done.
Qed.

Definition list_at_value (m : list (string * K)) (s : string) : option K := snd <$> list_at m s.
Definition list_routes (m : list (string * K)) : list (string * K) := m.

Lemma list_insert_routes m p k m' :
  list_insert_route m p k = Ok m' → list_routes m' = (p, k) :: list_routes m.
Proof. unfold list_insert_route. by case_decide; intros [= <-]. Qed.

Lemma list_insert_conflict m p k k' : (p, k') ∈ list_routes m → ∃ e, list_insert_route m p k = Err e.
Proof.
  intros Hin. unfold list_insert_route. rewrite decide_True; [by eexists|].
  apply list_elem_of_fmap. by exists (p, k').
Qed.

Lemma list_at_value_spec m s :
  forallb plain_pattern (list_routes m).*1 = true →
  match list_at_value m s with
  | Some k =>
      ∃ p, (p, k) ∈ list_routes m ∧ pat_match p s = true ∧
        ∀ p' k', (p', k') ∈ list_routes m → pat_match p' s = true →
          String.length (literal p') <= String.length (literal p)
  | None => ∀ p k, (p, k) ∈ list_routes m → pat_match p s = false
  end.
Proof.
  intros _. pose proof (list_at_spec m s) as H. unfold list_at_value.
  destruct (list_at m s) as [[p k]|]; cbn; [|done]. by exists p.
Qed.

Definition list_matchit : Matchit K (list (string * K)) :=
  Build_Matchit K (list (string * K)) [] list_insert_route list_at_value list_routes
    eq_refl list_insert_routes list_insert_conflict list_at_value_spec.
End list_router.
