(* ===== verification/Selection.v ===== *)
(** * Selection: the backend probing loops of [router.rs]

[select_backend] walks the Maglev table from the flow's slot and remembers the
indices it tried in a 32-bit mask; the header and query variants remember them in
a [HashSet].  Both are shown to return the first acceptable backend among the
probed slots. *)

From S2P Require Import Prelude Common Maglev.

#[local] Open Scope Z_scope.
#[local] Open Scope rauta_scope.

Section loops.
Context (backends : list Backend) (table : list Z) (ok : Backend → bool) (flow_hash : Z).

Definition lookup_at (attempt : Z) : outcome Z :=
  maglev_lookup_compact (wrap 64 (flow_hash + wrap 64 attempt)) table.

(** The loop of [select_backend]; [ok] is the health and draining test. *)
Fixpoint mask_loop (attempts : list Z) (tried_mask : Z) (tried_count : nat) : outcome (option Backend) :=
  match attempts with
  | [] => Ret None
  | attempt :: attempts =>
      backend_idx <-! lookup_at attempt ;;
      let bit := Z.shiftl 1 (Z.land backend_idx 31) in
      if negb (Z.land tried_mask bit =? 0) then mask_loop attempts tried_mask tried_count
      else
        let tried_mask := Z.lor tried_mask bit in
        let tried_count := S tried_count in
        match backends !! Z.to_nat backend_idx with
        | None => Ret None
        | Some backend =>
            if negb (ok backend) then
              if (tried_count =? length backends)%nat then Ret None
              else mask_loop attempts tried_mask tried_count
            else Ret (Some backend)
        end
  end.

(** The loop of the header and query variants. *)
Fixpoint set_loop (attempts : list Z) (tried_indices : gset Z) : outcome (option Backend) :=
  match attempts with
  | [] => Ret None
  | attempt :: attempts =>
      backend_idx <-! lookup_at attempt ;;
      if bool_decide (backend_idx ∈ tried_indices) then set_loop attempts tried_indices
      else
        let tried_indices := {[backend_idx]} ∪ tried_indices in
        match backends !! Z.to_nat backend_idx with
        | None => Ret None
        | Some backend =>
            if negb (ok backend) then
              if (size tried_indices =? length backends)%nat then Ret None
              else set_loop attempts tried_indices
            else Ret (Some backend)
        end
  end.

Definition attempts : list Z := seqZ 0 (Z.of_nat (length backends) * 10).

Definition select_mask : outcome (option Backend) := mask_loop attempts 0 0.
Definition select_set : outcome (option Backend) := set_loop attempts ∅.

(** *** Specification *)
Definition probe (attempt : Z) : option Backend :=
  match lookup_at attempt with
  | Ret i => backends !! Z.to_nat i
  | Panic => None
  end.

(** The first acceptable backend in the order of the probes. *)
Definition first_ok (attempts : list Z) : option Backend :=
  head (filter (λ b, ok b = true) (omap probe attempts)).

(** *** Proof *)
Context (Htable : compact_ok backends table) (Hmax : Z.of_nat (length backends) <= MAX_BACKENDS).

Lemma lookup_at_ok attempt :
  ∃ i b, lookup_at attempt = Ret i ∧ 0 <= i < Z.of_nat (length backends) ∧
    backends !! Z.to_nat i = Some b ∧ probe attempt = Some b.
Proof.
  destruct (compact_ok_lookup backends table (wrap 64 (flow_hash + wrap 64 attempt)) Htable) as (i & Hi & Hr).
  destruct (lookup_lt_is_Some_2 backends (Z.to_nat i)) as [b Hb]; [lia|].
  exists i, b. unfold probe, lookup_at. rewrite Hi. done.
Qed.

(** The indices tried so far are in range and none of them is acceptable. *)
Definition tried_ok (T : gset Z) : Prop :=
  ∀ i, i ∈ T → 0 <= i < Z.of_nat (length backends) ∧
    ∃ b, backends !! Z.to_nat i = Some b ∧ ok b = false.

Lemma tried_ok_add T i b :
  tried_ok T → 0 <= i < Z.of_nat (length backends) → backends !! Z.to_nat i = Some b → ok b = false →
  tried_ok ({[i]} ∪ T).
Proof. intros HT ??? j [->%elem_of_singleton|Hj]%elem_of_union; eauto. Qed.

(** When as many indices were tried as there are backends, none is acceptable. *)
Lemma tried_all T as_ : tried_ok T → size T = length backends → first_ok as_ = None.
Proof.
  intros HT Hsz.
  assert (T = list_to_set (seqZ 0 (Z.of_nat (length backends)))) as ->.
  { apply set_subseteq_size_eq.
    - intros i Hi. apply elem_of_list_to_set, elem_of_seqZ. destruct (HT i Hi). lia.
    - rewrite size_list_to_set, length_seqZ by apply NoDup_seqZ. lia. }
  unfold first_ok. induction as_ as [|a as_ IH]; [done|]. cbn [omap list_omap].
  destruct (lookup_at_ok a) as (i & b & _ & Hi & Hb & ->).
  rewrite filter_cons, decide_False; [done|].
  destruct (HT i) as (_ & b' & Hb' & Hno); [apply elem_of_list_to_set, elem_of_seqZ; lia|]. congruence.
Qed.

(** A backend that was tried already does not change the answer. *)
Lemma first_ok_skip a as_ i T :
  tried_ok T → i ∈ T → lookup_at a = Ret i → first_ok (a :: as_) = first_ok as_.
Proof.
  intros HT Hi Ha. unfold first_ok. cbn [omap list_omap]. unfold probe at 1. rewrite Ha.
  destruct (HT i Hi) as (_ & b & -> & Hno). rewrite filter_cons, decide_False by congruence. done.
Qed.

Lemma first_ok_cons a as_ b :
  probe a = Some b → first_ok (a :: as_) = if ok b then Some b else first_ok as_.
Proof.
  intros Hp. unfold first_ok. cbn [omap list_omap]. rewrite Hp, filter_cons.
  destruct (ok b) eqn:E; [by rewrite decide_True|by rewrite decide_False].
Qed.

Lemma set_loop_first as_ : ∀ T, tried_ok T → set_loop as_ T = Ret (first_ok as_).
Proof.
  induction as_ as [|a as_ IH]; intros T HT; [done|]. cbn [set_loop].
  destruct (lookup_at_ok a) as (i & b & Hi & Hr & Hb & Hp). rewrite Hi. cbn [obind].
  case_bool_decide as Hin.
  - rewrite IH by done. by rewrite (first_ok_skip a as_ i T).
  - rewrite Hb, (first_ok_cons a as_ b Hp). destruct (ok b) eqn:Eb; [done|]. cbn [negb].
    pose proof (tried_ok_add T i b HT Hr Hb Eb) as HT'.
    destruct (Nat.eqb_spec (size ({[i]} ∪ T)) (length backends)) as [E|E]; [|by apply IH].
    by rewrite (tried_all _ as_ HT' E).
Qed.

(** The mask is the set of tried indices. *)
Definition mask_of (m : Z) (T : gset Z) : Prop := ∀ i, 0 <= i < 32 → Z.testbit m i = bool_decide (i ∈ T).

Lemma land_bit m i : 0 <= i → (Z.land m (Z.shiftl 1 i) =? 0) = negb (Z.testbit m i).
Proof.
  intros Hi. destruct (Z.testbit m i) eqn:E; cbn [negb].
  - apply Z.eqb_neq. intros E0. assert (Z.testbit (Z.land m (Z.shiftl 1 i)) i = false) as Hb by (by rewrite E0, Z.bits_0).
    rewrite Z.land_spec, E, Z.shiftl_spec, Z.sub_diag in Hb by done. done.
  - apply Z.eqb_eq, Z.bits_inj'. intros j Hj. rewrite Z.land_spec, Z.shiftl_spec, Z.bits_0 by done.
    destruct (Z.eq_dec j i) as [->|Hne]; [by rewrite E|].
    change 1 with (2 ^ 0). rewrite Z.pow2_bits_false, andb_false_r by lia. done.
Qed.

Lemma mask_of_add m T i : 0 <= i < 32 → mask_of m T → mask_of (Z.lor m (Z.shiftl 1 i)) ({[i]} ∪ T).
Proof.
  intros Hi HM j Hj. rewrite Z.lor_spec, HM, Z.shiftl_spec by lia. change 1 with (2 ^ 0).
  destruct (Z.eq_dec j i) as [->|Hne].
  - rewrite Z.sub_diag, Z.pow2_bits_true by lia. rewrite orb_true_r. symmetry. apply bool_decide_eq_true. set_solver.
  - rewrite Z.pow2_bits_false, orb_false_r by lia. apply bool_decide_ext. set_solver.
Qed.

Lemma mask_loop_first as_ : ∀ m T,
  tried_ok T → mask_of m T → mask_loop as_ m (size T) = Ret (first_ok as_).
Proof.
  unfold MAX_BACKENDS in Hmax.
  induction as_ as [|a as_ IH]; intros m T HT HM; [done|]. cbn [mask_loop].
  destruct (lookup_at_ok a) as (i & b & Hi & Hr & Hb & Hp). rewrite Hi. cbn [obind].
  assert (Z.land i 31 = i) as ->.
  { change 31 with (Z.ones 5). rewrite land_ones_wrap by lia. apply wrap_small. unfold in_width. lia. }
  rewrite land_bit, negb_involutive, HM by lia. case_bool_decide as Hin.
  - rewrite (IH m T) by done. by rewrite (first_ok_skip a as_ i T).
  - rewrite Hb, (first_ok_cons a as_ b Hp). destruct (ok b) eqn:Eb; [done|]. cbn [negb].
    pose proof (tried_ok_add T i b HT Hr Hb Eb) as HT'.
    assert (S (size T) = size ({[i]} ∪ T)) as -> by (rewrite size_union, size_singleton; [done|set_solver]).
    destruct (Nat.eqb_spec (size ({[i]} ∪ T)) (length backends)) as [E|E].
    + by rewrite (tried_all _ as_ HT' E).
    + apply IH; [done|]. by apply mask_of_add; [lia|].
Qed.

Lemma tried_ok_empty : tried_ok ∅.
Proof. intros i Hi. by apply elem_of_empty in Hi. Qed.

Lemma mask_of_empty : mask_of 0 ∅.
Proof. intros i _. rewrite Z.bits_0. symmetry. by apply bool_decide_eq_false. Qed.

Lemma select_mask_first : select_mask = Ret (first_ok attempts).
Proof. apply (mask_loop_first attempts 0 ∅ tried_ok_empty mask_of_empty). Qed.

Lemma select_set_first : select_set = Ret (first_ok attempts).
Proof. apply (set_loop_first attempts ∅ tried_ok_empty). Qed.
End loops.

(** ** Properties of the first acceptable backend *)
Lemma first_ok_sound backends table ok flow as_ b :
  first_ok backends table ok flow as_ = Some b → b ∈ backends ∧ ok b = true.
Proof.
  unfold first_ok. intros H%head_Some_elem_of. apply list_elem_of_filter in H as [Hok H].
  split; [|done]. apply list_elem_of_omap in H as (a & _ & Ha). unfold probe in Ha.
  destruct (lookup_at table flow a); [|done]. by eapply list_elem_of_lookup_2.
Qed.

(** It is the first in the order of the probes: no earlier one has an acceptable backend. *)
Lemma first_ok_first backends table ok flow (n : Z) b : ∀ from,
  first_ok backends table ok flow (seqZ from n) = Some b →
  ∃ attempt, from <= attempt < from + n ∧ probe backends table flow attempt = Some b ∧ ok b = true ∧
    ∀ earlier b', from <= earlier < attempt → probe backends table flow earlier = Some b' → ok b' = false.
Proof.
  destruct (Z.le_gt_cases n 0) as [Hn|Hn]; [intros from; by rewrite seqZ_nil by lia|].
  pattern n. apply natlike_ind with (x := n); [intros from; by rewrite seqZ_nil by lia| |lia]. clear n Hn.
  intros n Hn IH from. rewrite seqZ_cons, Z.pred_succ by lia. unfold first_ok. cbn [omap list_omap].
  destruct (probe backends table flow from) as [b0|] eqn:E0.
  - rewrite filter_cons. case_decide as Hok.
    + intros [= ->]. exists from. split_and!; [lia|lia|done|done|]. intros e b' He. lia.
    + intros (a & Ha & Hp & Hb & Hf)%(IH (Z.succ from)). exists a. split_and!; [lia|lia|done|done|]. intros e b' He Hp'.
      destruct (decide (e = from)) as [->|]; [|by apply (Hf e); [lia|]]. rewrite E0 in Hp'. injection Hp' as <-. by destruct (ok b0).
  - intros (a & Ha & Hp & Hb & Hf)%(IH (Z.succ from)). exists a. split_and!; [lia|lia|done|done|]. intros e b' He Hp'.
    destruct (decide (e = from)) as [->|]; [congruence|]. by apply (Hf e); [lia|].
Qed.

Lemma first_ok_None backends table ok flow as_ a b :
  first_ok backends table ok flow as_ = None → a ∈ as_ → probe backends table flow a = Some b → ok b = false.
Proof.
  unfold first_ok. intros E Ha Hp. destruct (ok b) eqn:Eb; [|done]. exfalso.
  assert (b ∈ filter (λ b, ok b = true) (omap (probe backends table flow) as_)) as Hin.
  { apply list_elem_of_filter. split; [done|]. apply list_elem_of_omap. eauto. }
  destruct (filter _ _); [by apply not_elem_of_nil in Hin|done].
Qed.

(** ** Equivalence of the two loops *)

(** The zero-allocation bit-mask loop and the [HashSet] loop compute the same
function: for every route of at most 32 backends with its Maglev table, every
acceptance test and every flow hash, both return the first acceptable backend in
probe order and neither panics. *)
Theorem mask_loop_equals_set_loop bs table ok flow :
  compact_ok bs table → Z.of_nat (length bs) <= MAX_BACKENDS →
  select_mask bs table ok flow = select_set bs table ok flow ∧
  select_mask bs table ok flow = Ret (first_ok bs table ok flow (attempts bs)).
Proof.
  intros Hok Hmax. rewrite select_mask_first, select_set_first by done. done.
Qed.

(** ** Witness *)
Definition sample_backends : list Backend := [from_ipv4 (mk_ipv4 10 0 0 1) 80 100; from_ipv4 (mk_ipv4 10 0 0 2) 80 100].

(** A table that alternates between two backends. *)
Definition even_table : list Z := (λ i, i mod 2) <$> seqZ 0 COMPACT_MAGLEV_SIZE.

Lemma even_table_ok : compact_ok sample_backends even_table.
Proof.
  split; [unfold even_table; by rewrite length_fmap, length_seqZ|].
  apply Forall_fmap, Forall_forall. intros i _. apply (Z.mod_pos_bound i 2). lia.
Qed.

Lemma mask_loop_equals_set_loop_witness :
  let ok b := bool_decide (ip b = [10; 0; 0; 2] ++ replicate 12 0) in
  select_mask sample_backends even_table ok 7 = select_set sample_backends even_table ok 7 ∧
  select_mask sample_backends even_table ok 7 =
    Ret (first_ok sample_backends even_table ok 7 (attempts sample_backends)).
Proof.
  apply (mask_loop_equals_set_loop sample_backends even_table); [exact even_table_ok|vm_compute; discriminate].
Defined.
