(* ===== verification/Router.v ===== *)
(** * Router: route table and backend selection ([router.rs])

The route table (a hash map keyed by method and path hash), the prefix router
rebuilt from it, the LRU cache in front of both, and the selection of a healthy
backend.  [matchit] and the iteration order of a [HashMap] are parameters. *)

From S2P Require Import Prelude Common Maglev Float Health HealthChecker Filters Matching RouteCache Matchit.
From S2P Require Import Selection.

#[local] Open Scope Z_scope.
#[local] Open Scope rauta_scope.

(** ** Routes *)
Record Route : Type := mk_route {
  pattern : string;
  backends : list Backend;
  maglev_table : list Z;
  header_matches : list HeaderMatch;
  method_matches : option (list HttpMethod);
  query_param_matches : list QueryParamMatch;
  request_filters : option HeaderModifier;
  response_filters : option HeaderModifier;
  redirect : option RequestRedirect;
  timeout_config : option Timeout;
  retry : option RetryConfig
}.

Record RouteMatch : Type := mk_match {
  rm_backend : Backend;
  rm_pattern : string;
  rm_request_filters : option HeaderModifier;
  rm_response_filters : option HeaderModifier;
  rm_redirect : option RequestRedirect;
  rm_timeout : option Timeout;
  rm_retry : option RetryConfig
}.

Definition route_match (route : Route) (b : Backend) : RouteMatch :=
  mk_match b (pattern route) (request_filters route) (response_filters route) (redirect route)
    (timeout_config route) (retry route).

Definition get_method_prefix (m : HttpMethod) : string :=
  match m with
  | GET => "GET:" | POST => "POST:" | PUT => "PUT:" | DELETE => "DELETE:"
  | PATCH => "PATCH:" | HEAD => "HEAD:" | OPTIONS => "OPTIONS:" | ALL => ""
  end.

(** [trim_end_matches('/')] *)
Fixpoint trim_end_slashes (s : string) : string :=
  match s with
  | EmptyString => ""
  | String c s =>
      match trim_end_slashes s with
      | EmptyString => if Ascii.eqb c "/" then "" else String c ""
      | t => String c t
      end
  end.

Definition prefix_pattern (method_prefix path : string) : string :=
  if String.eqb path "/" then method_prefix +:+ "{*rest}"
  else method_prefix +:+ trim_end_slashes path +:+ "/{*rest}".

Definition route_key (method : HttpMethod) (path : string) : RouteKey :=
  mk_key method (fnv1a_hash (as_bytes path)).

(** The order in which a [HashMap] is iterated: some permutation of its entries. *)
Class MapOrder : Type := {
  iter : gmap RouteKey Route → list (RouteKey * Route);
  iter_perm : ∀ m, iter m ≡ₚ map_to_list m
}.

Section router.
Context {M : Type} `{!Matchit RouteKey M} `{!MapOrder}.

Record Router : Type := mk_router {
  routes : gmap RouteKey Route;
  prefix_router : M;
  health : HealthData;
  health_checker : HealthChecker;
  route_cache : RouteLruCache
}.

Definition set_routes (r : Router) (x : gmap RouteKey Route) : Router :=
  mk_router x (prefix_router r) (health r) (health_checker r) (route_cache r).
Definition set_prefix_router (r : Router) (x : M) : Router :=
  mk_router (routes r) x (health r) (health_checker r) (route_cache r).
Definition set_health (r : Router) (x : HealthData) : Router :=
  mk_router (routes r) (prefix_router r) x (health_checker r) (route_cache r).
Definition set_health_checker (r : Router) (x : HealthChecker) : Router :=
  mk_router (routes r) (prefix_router r) (health r) x (route_cache r).
Definition set_route_cache (r : Router) (x : RouteLruCache) : Router :=
  mk_router (routes r) (prefix_router r) (health r) (health_checker r) x.

Definition with_health_config (c : HealthCheckConfig) : Router :=
  mk_router ∅ mt_new health_data_new (checker_new c) (cache_new ROUTE_CACHE_MAX_SIZE).

Definition router_new : Router := with_health_config default_config.

Definition route_count (r : Router) : nat := size (routes r).

(** ** The prefix router is rebuilt from the whole table *)
Definition insert_route (method_prefix : string) (m : M) (key : RouteKey) (route : Route) : result M string :=
  let path_str := pattern route in
  match mt_insert m (method_prefix +:+ path_str) key with
  | Err e => Err ("Failed to add exact route " +:+ path_str +:+ ": " +:+ e)
  | Ok m =>
      match mt_insert m (prefix_pattern method_prefix path_str) key with
      | Err e => Err ("Failed to add prefix route " +:+ path_str +:+ ": " +:+ e)
      | Ok m => Ok m
      end
  end.

Fixpoint rebuild_loop (prefix_of : HttpMethod → string) (m : M) (entries : list (RouteKey * Route))
  : result M string :=
  match entries with
  | [] => Ok m
  | (key, route) :: entries =>
      match insert_route (prefix_of (key_method key)) m key route with
      | Ok m => rebuild_loop prefix_of m entries
      | Err e => Err e
      end
  end.

(** [add_route] prefixes the patterns with the method. *)
Definition rebuild (rs : gmap RouteKey Route) : result M string :=
  rebuild_loop get_method_prefix mt_new (iter rs).

(** The [add_route_with_*] variants do not ("/" becomes "/{*rest}"). *)
Definition plain_prefix_pattern (path : string) : string :=
  if String.eqb path "/" then "/{*rest}" else trim_end_slashes path +:+ "/{*rest}".

Fixpoint rebuild_plain_loop (m : M) (entries : list (RouteKey * Route)) : result M string :=
  match entries with
  | [] => Ok m
  | (key, route) :: entries =>
      let path_str := pattern route in
      match mt_insert m path_str key with
      | Err e => Err ("Failed to add exact route " +:+ path_str +:+ ": " +:+ e)
      | Ok m =>
          match mt_insert m (plain_prefix_pattern path_str) key with
          | Err e => Err ("Failed to add prefix route " +:+ path_str +:+ ": " +:+ e)
          | Ok m => rebuild_plain_loop m entries
          end
      end
  end.

Definition rebuild_plain (rs : gmap RouteKey Route) : result M string := rebuild_plain_loop mt_new (iter rs).

(** ** Adding routes *)
Definition plain_route (path : string) (bs : list Backend) (table : list Z) : Route :=
  mk_route path bs table [] None [] None None None None None.

(** The Maglev table, or the panic of its assertion.  That the construction ends
is [maglev_build_compact_total]. *)
Definition build_table (bs : list Backend) : outcome (list Z) :=
  match maglev_build_compact_table bs with
  | Ret (Some t) => Ret t
  | Ret None | Panic => Panic
  end.

Definition same_backends (r : Router) (key : RouteKey) (bs : list Backend) : bool :=
  match routes r !! key with
  | Some existing => bool_decide (backends existing = bs)
  | None => false
  end.

Definition add_route (r : Router) (method : HttpMethod) (path : string) (bs : list Backend)
  : outcome (result unit string * Router) :=
  let key := route_key method path in
  if same_backends r key bs then Ret (Ok (), r)
  else
    table <-! build_table bs ;;
    let r := set_health_checker r (start_checking (health_checker r) bs).1 in
    let r := set_routes r (<[key := plain_route path bs table]> (routes r)) in
    match rebuild (routes r) with
    | Err e => Ret (Err e, r)
    | Ok m =>
        let r := set_prefix_router r m in
        Ret (Ok (), set_route_cache r (cache_invalidate (route_cache r) key))
    end.

Definition update_route_backends (r : Router) (method : HttpMethod) (path : string) (bs : list Backend)
  : outcome (result unit string * Router) := add_route r method path bs.

(** The shape shared by the eight variants: store, rebuild without prefixes. *)
Definition add_route_plain (r : Router) (method : HttpMethod) (path : string) (bs : list Backend)
    (make : list Z → Route) : outcome (result unit string * Router) :=
  table <-! build_table bs ;;
  let r := set_routes r (<[route_key method path := make table]> (routes r)) in
  match rebuild_plain (routes r) with
  | Err e => Ret (Err e, r)
  | Ok m => Ret (Ok (), set_prefix_router r m)
  end.

Definition add_route_with_headers r method path bs (hs : list HeaderMatch) :=
  add_route_plain r method path bs (λ t, mk_route path bs t hs None [] None None None None None).
Definition add_route_with_methods r method path bs (ms : list HttpMethod) :=
  add_route_plain r method path bs (λ t, mk_route path bs t [] (Some ms) [] None None None None None).
Definition add_route_with_query_params r method path bs (qs : list QueryParamMatch) :=
  add_route_plain r method path bs (λ t, mk_route path bs t [] None qs None None None None None).
Definition add_route_with_filters r method path bs (f : HeaderModifier) :=
  add_route_plain r method path bs (λ t, mk_route path bs t [] None [] (Some f) None None None None).
Definition add_route_with_response_filters r method path bs (f : HeaderModifier) :=
  add_route_plain r method path bs (λ t, mk_route path bs t [] None [] None (Some f) None None None).
Definition add_route_with_redirect r method path bs (f : RequestRedirect) :=
  add_route_plain r method path bs (λ t, mk_route path bs t [] None [] None None (Some f) None None).
Definition add_route_with_timeout r method path bs (t : Timeout) :=
  add_route_plain r method path bs (λ table, mk_route path bs table [] None [] None None None (Some t) None).
Definition add_route_with_retry r method path bs (c : RetryConfig) :=
  add_route_plain r method path bs (λ t, mk_route path bs t [] None [] None None None None (Some c)).

(** ** Health *)
Definition drain_in (h : HealthData) (b : Backend) (drain_timeout now : Z) : HealthData :=
  mk_health_data (backend_health h) (<[b := draining_new drain_timeout now]> (draining_backends h)).

Definition drain_backend (r : Router) (b : Backend) (drain_timeout now : Z) : Router :=
  set_health r (drain_in (health r) b drain_timeout now).

Definition is_backend_draining (r : Router) (b : Backend) : bool := draining_in (health r) b.

Definition cleanup_expired_draining_backends (r : Router) (now : Z) : Router :=
  let h := health r in
  set_health r (mk_health_data (backend_health h)
    (filter (λ p, is_expired p.2 now = false) (draining_backends h))).

Definition record_response_in (h : HealthData) (b : Backend) (status_code : Z) : HealthData :=
  let bh := default health_new (backend_health h !! b) in
  mk_health_data (<[b := record_response bh status_code]> (backend_health h)) (draining_backends h).

Definition record_backend_response (r : Router) (b : Backend) (status_code : Z) : Router :=
  set_health r (record_response_in (health r) b status_code).

(** ** Lookup *)
Definition prefix_lookup (r : Router) (method : HttpMethod) (path : string) : option RouteKey :=
  match mt_at (prefix_router r) (get_method_prefix method +:+ path) with
  | Some key => Some key
  | None => if decide (method = ALL) then None else mt_at (prefix_router r) path
  end.

Definition has_route (r : Router) (key : RouteKey) : bool := bool_decide (is_Some (routes r !! key)).

Definition resolve (r : Router) (method : HttpMethod) (path : string) : option RouteKey :=
  let key := route_key method path in
  let all_key := route_key ALL path in
  if has_route r key then Some key
  else if bool_decide (method ≠ ALL) && has_route r all_key then Some all_key
  else prefix_lookup r method path.

(** Cache, then [resolve], caching what it finds. *)
Definition cached_resolve (r : Router) (method : HttpMethod) (path : string) : option RouteKey * Router :=
  let key := route_key method path in
  let '(cached, cache) := cache_get (route_cache r) key in
  let r := set_route_cache r cache in
  match cached with
  | Some k => (Some k, r)
  | None =>
      match resolve r method path with
      | Some k => (Some k, set_route_cache r (cache_insert (route_cache r) key k))
      | None => (None, r)
      end
  end.

(** [compute_flow_hash]: an address is [Some] with its 32-bit value or its sixteen
octets. *)
Inductive IpAddr : Type := IpV4 (a : Ipv4Addr) | IpV6 (o : list Z).

Definition u64_from_be_bytes (bs : list Z) : Z := foldl (λ acc b, acc * 256 + b) 0 bs.

Definition compute_flow_hash (path_hash : Z) (src_ip : option IpAddr) (src_port : option Z) : Z :=
  match src_ip, src_port with
  | Some ip, Some port =>
      let ip_hash :=
        match ip with
        | IpV4 v4 => u32_of_ipv4 v4
        | IpV6 o => Z.lxor (u64_from_be_bytes (take 8 o)) (u64_from_be_bytes (drop 8 o))
        end in
      Z.lxor path_hash (Z.lor (wrap 64 (Z.shiftl ip_hash 16)) port)
  | _, _ => path_hash
  end.

(** The tests of the selection loops. *)
Definition selectable (r : Router) (b : Backend) : bool :=
  healthy_in (health r) b && checker_is_healthy (health_checker r) b && negb (draining_in (health r) b).

Definition selectable_passive (r : Router) (b : Backend) : bool :=
  healthy_in (health r) b && negb (draining_in (health r) b).

Definition method_allowed (route : Route) (method : HttpMethod) : bool :=
  match method_matches route with
  | Some ms => bool_decide (method ∈ ms)
  | None => true
  end.

Definition select_in_route (r : Router) (route : Route) (flow_hash : Z) : outcome (option RouteMatch) :=
  b <-! select_mask (backends route) (maglev_table route) (selectable r) flow_hash ;;
  Ret (route_match route <$> b).

Definition select_backend (r : Router) (method : HttpMethod) (path : string)
    (src_ip : option IpAddr) (src_port : option Z) : outcome (option RouteMatch * Router) :=
  let '(k, r) := cached_resolve r method path in
  match k ≫= λ k, routes r !! k with
  | None => Ret (None, r)
  | Some route =>
      if negb (method_allowed route method) then Ret (None, r)
      else
        m <-! select_in_route r route
                (compute_flow_hash (fnv1a_hash (as_bytes path)) src_ip src_port) ;;
        Ret (m, r)
  end.

(** The variants: no cache, no [ALL] fallback on the exact path, no active health. *)
Definition resolve_uncached (r : Router) (method : HttpMethod) (path : string) : option RouteKey :=
  let key := route_key method path in
  if has_route r key then Some key else prefix_lookup r method path.

Definition select_in_route_set (r : Router) (route : Route) (flow_hash : Z) : outcome (option RouteMatch) :=
  b <-! select_set (backends route) (maglev_table route) (selectable_passive r) flow_hash ;;
  Ret (route_match route <$> b).

Section with_regex.
Context `{RegexEngine}.

Definition select_backend_with_headers (r : Router) (regexes : gmap string Regex) (method : HttpMethod)
    (path : string) (request_headers : list (string * string))
    (src_ip : option IpAddr) (src_port : option Z) : outcome (option RouteMatch * gmap string Regex) :=
  match resolve_uncached r method path ≫= λ k, routes r !! k with
  | None => Ret (None, regexes)
  | Some route =>
      let '(ok, regexes) :=
        if bool_decide (header_matches route = []) then (true, regexes)
        else headers_match regexes (header_matches route) request_headers in
      if negb ok then Ret (None, regexes)
      else
        m <-! select_in_route_set r route
                (compute_flow_hash (fnv1a_hash (as_bytes path)) src_ip src_port) ;;
        Ret (m, regexes)
  end.

Definition select_backend_with_query_params (r : Router) (regexes : gmap string Regex) (method : HttpMethod)
    (path : string) (query_params : list (string * string))
    (src_ip : option IpAddr) (src_port : option Z) : outcome (option RouteMatch * gmap string Regex) :=
  match resolve_uncached r method path ≫= λ k, routes r !! k with
  | None => Ret (None, regexes)
  | Some route =>
      let '(ok, regexes) :=
        if bool_decide (query_param_matches route = []) then (true, regexes)
        else query_params_match regexes (query_param_matches route) query_params in
      if negb ok then Ret (None, regexes)
      else
        m <-! select_in_route_set r route
                (compute_flow_hash (fnv1a_hash (as_bytes path)) src_ip src_port) ;;
        Ret (m, regexes)
  end.
End with_regex.

(** ** Listing *)
Record BackendSnapshot : Type := mk_bsnap {
  bs_address : string;
  bs_port : Z;
  bs_weight : Z;
  bs_is_ipv6 : bool;
  bs_is_draining : bool;
  bs_health_score : option f64
}.

Record RouteSnapshot : Type := mk_rsnap {
  rs_pattern : string;
  rs_method : string;
  rs_backends : list BackendSnapshot;
  rs_has_request_filters : bool;
  rs_has_response_filters : bool;
  rs_has_redirect : bool;
  rs_has_timeout : bool;
  rs_has_retry : bool
}.

Definition is_some {A} (x : option A) : bool := match x with Some _ => true | None => false end.

Definition backend_snapshot (h : HealthData) (b : Backend) : BackendSnapshot :=
  mk_bsnap (if is_ipv6 b then "[" +:+ show_ipv6 (ip b) +:+ "]" else show_ipv4 (ip b))
    (port b) (weight b) (is_ipv6 b) (draining_in h b)
    ((λ x, f64_of_Z (if is_healthy x then 1 else 0)) <$> backend_health h !! b).

Definition list_routes (r : Router) : list RouteSnapshot :=
  (λ '(key, route),
     mk_rsnap (pattern route) (method_to_str (key_method key))
       (backend_snapshot (health r) <$> backends route)
       (is_some (request_filters route)) (is_some (response_filters route))
       (is_some (redirect route)) (is_some (timeout_config route)) (is_some (retry route)))
    <$> iter (routes r).
End router.
Arguments Router M : clear implicits.
