(* ===== verification/RouterSpec.v ===== *)
(** * RouterSpec: theorems on the router

What [add_route] leaves in the table, which route a request resolves to, and
which backend it is given. *)

From S2P Require Import Prelude Common Maglev Float Health HealthChecker Filters Matching RouteCache Matchit.
From S2P Require Import Selection Router.

#[local] Open Scope Z_scope.
#[local] Open Scope rauta_scope.

(** ** Invariant *)

(** Either there is nothing to select or the table maps to the backends. *)
Definition route_wf (route : Route) : Prop :=
  backends route = [] ∨
  (compact_ok (backends route) (maglev_table route) ∧ Z.of_nat (length (backends route)) <= MAX_BACKENDS).

Section spec.
Context {M : Type} `{!Matchit RouteKey M} `{!MapOrder}.

Abbreviation Router := (Router M).

Record router_ok (r : Router) : Prop := {
  ro_cache : cache_ok (route_cache r);
  ro_routes : ∀ k route, routes r !! k = Some route → route_wf route;
  ro_keys : ∀ k route, routes r !! k = Some route → k = route_key (key_method k) (pattern route)
}.

Lemma router_new_ok c : router_ok (with_health_config c).
Proof. split; cbn; [apply cache_new_ok|..]; intros k route; by rewrite lookup_empty. Qed.

Lemma build_table_spec bs :
  match build_table bs with
  | Ret t => bs = [] ∨ (compact_ok bs t ∧ Z.of_nat (length bs) <= MAX_BACKENDS)
  | Panic => MAX_BACKENDS < Z.of_nat (length bs)
  end.
Proof.
  unfold build_table. destruct (decide (bs = [])) as [->|Hne].
  { unfold maglev_build_compact_table. rewrite bool_decide_true by done. by left. }
  destruct (Z.le_gt_cases (Z.of_nat (length bs)) MAX_BACKENDS) as [Hle|Hgt].
  - destruct (maglev_build_compact_total bs Hne Hle) as (t & -> & Ht). by right.
  - unfold maglev_build_compact_table. rewrite bool_decide_false by done.
    destruct (_ <? _) eqn:E; zbool; [done|lia].
Qed.

(** ** Selection in a route *)
Lemma select_in_route_spec (r : Router) route flow :
  route_wf route →
  select_in_route r route flow =
    Ret (route_match route <$>
         first_ok (backends route) (maglev_table route) (selectable r) flow (attempts (backends route))).
Proof.
  intros [Hn|[Hok Hmax]]; unfold select_in_route.
  - unfold select_mask, attempts, first_ok. by rewrite Hn.
  - by rewrite (select_mask_first _ _ _ _ Hok Hmax).
Qed.

Lemma cached_resolve_frame (r : Router) method path :
  router_ok r →
  let r' := (cached_resolve r method path).2 in
  router_ok r' ∧ routes r' = routes r ∧ health r' = health r ∧ health_checker r' = health_checker r ∧
  prefix_router r' = prefix_router r.
Proof.
  intros [Hc Hr Hk]. unfold cached_resolve.
  pose proof (cache_get_refines (route_cache r) (route_key method path) Hc) as G.
  destruct (cache_get (route_cache r) (route_key method path)) as [cached c']. destruct G as (Hc' & _ & _).
  destruct cached as [k|]; [by split_and!|].
  destruct (resolve _ method path) as [k|]; [|by split_and!]. cbn [snd]. split_and!; try done.
  split; [|done..]. by apply cache_insert_refines.
Qed.

(** A backend is the first that is acceptable from the flow's slot on: some probe, of ten
per backend, finds it, and no earlier probe finds an acceptable one. *)
Definition first_probed (ok : Backend → bool) (route : Route) (flow : Z) (b : Backend) : Prop :=
  ∃ attempt, 0 <= attempt < 10 * Z.of_nat (length (backends route)) ∧
    probe (backends route) (maglev_table route) flow attempt = Some b ∧
    ∀ earlier b', 0 <= earlier < attempt → probe (backends route) (maglev_table route) flow earlier = Some b' → ok b' = false.

(** What a lookup means for a request to [path]: the answer for the resolved route. *)
Definition selection_ok (r : Router) (route : Route) (flow : Z) (res : option RouteMatch) : Prop :=
  match res with
  | Some m =>
      ∃ b, m = route_match route b ∧ b ∈ backends route ∧
        healthy_in (health r) b = true ∧ checker_is_healthy (health_checker r) b = true ∧
        draining_in (health r) b = false ∧ first_probed (selectable r) route flow b
  | None =>
      ∀ attempt b, 0 <= attempt < 10 * Z.of_nat (length (backends route)) →
        probe (backends route) (maglev_table route) flow attempt = Some b → selectable r b = false
  end.

Lemma select_in_route_ok (r : Router) route flow :
  route_wf route → ∃ res, select_in_route r route flow = Ret res ∧ selection_ok r route flow res.
Proof.
  intros Hwf. rewrite select_in_route_spec by done. eexists. split; [done|].
  destruct (first_ok _ _ _ _ _) as [b|] eqn:E; cbn.
  - assert (first_probed (selectable r) route flow b) as Hfirst.
    { apply first_ok_first in E as (a & Ha & Hp & _ & Hf). exists a. split_and!; [lia|lia|done|done]. }
    apply first_ok_sound in E as [Hin Hok]. exists b. unfold selectable in Hok.
    apply andb_true_iff in Hok as [Hok Hd]. apply andb_true_iff in Hok as [? ?]. apply negb_true_iff in Hd. done.
  - intros a b Ha Hp. eapply first_ok_None; [exact E| |exact Hp]. apply elem_of_seqZ. lia.
Qed.

Lemma select_backend_cases (r : Router) method path src_ip src_port :
  router_ok r →
  ∃ res r', select_backend r method path src_ip src_port = Ret (res, r') ∧
    router_ok r' ∧ routes r' = routes r ∧ health r' = health r ∧
    let flow := compute_flow_hash (fnv1a_hash (as_bytes path)) src_ip src_port in
    match (cached_resolve r method path).1 ≫= λ k, routes r !! k with
    | Some route => if method_allowed route method then selection_ok r route flow res else res = None
    | None => res = None
    end.
Proof.
  intros Hok. destruct (cached_resolve_frame r method path Hok) as (Hok' & Er & Eh & Ehc & _).
  unfold select_backend. destruct (cached_resolve r method path) as [k r']. cbn [fst snd] in *. rewrite Er.
  destruct (k ≫= λ k, routes r !! k) as [route|] eqn:Ek; [|by eexists _, _].
  destruct (method_allowed route method); cbn [negb]; [|by eexists _, _].
  assert (route_wf route) as Hwf.
  { destruct k as [k|]; [|done]. by eapply (ro_routes r Hok). }
  destruct (select_in_route_ok r' route (compute_flow_hash (fnv1a_hash (as_bytes path)) src_ip src_port) Hwf)
    as (res & -> & Hs).
  exists res, r'. split_and!; [done..|]. unfold selection_ok, first_probed, selectable in *. by rewrite Eh, Ehc in Hs.
Qed.

(** C6: [select_backend] on any well-formed router never panics, and its answer
is exactly as follows for the route the request resolves to: a backend of that
route that is passively healthy, actively healthy and not draining, the first such in
the sequence of Maglev probes from the flow's slot on, with that route's filters; or
nothing, if the route does not admit the method or none of the ten probes per backend
finds such a backend.
It leaves the table and the health data as they were. *)
Theorem select_backend_correct (r : Router) method path src_ip src_port :
  router_ok r →
  ∃ res r', select_backend r method path src_ip src_port = Ret (res, r') ∧
    router_ok r' ∧ routes r' = routes r ∧ health r' = health r ∧
    let flow := compute_flow_hash (fnv1a_hash (as_bytes path)) src_ip src_port in
    match (cached_resolve r method path).1 ≫= λ k, routes r !! k with
    | Some route => if method_allowed route method then selection_ok r route flow res else res = None
    | None => res = None
    end.
Proof. apply select_backend_cases. Qed.

(** ** The header and query variants choose by the same rule *)
Lemma select_in_route_set_first (r : Router) route flow :
  route_wf route →
  select_in_route_set r route flow =
    Ret (route_match route <$>
         first_ok (backends route) (maglev_table route) (selectable_passive r) flow (attempts (backends route))).
Proof.
  intros [Hn|[Hok Hmax]]; unfold select_in_route_set.
  - unfold select_set, attempts, first_ok. by rewrite Hn.
  - by rewrite (select_set_first _ _ _ _ Hok).
Qed.

(** ** Adding a route *)
Lemma add_route_ok_inv r method path bs r' :
  same_backends r (route_key method path) bs = false →
  add_route r method path bs = Ret (Ok (), r') →
  ∃ table m, build_table bs = Ret table ∧
    rebuild (<[route_key method path := plain_route path bs table]> (routes r)) = Ok m ∧
    r' = mk_router (<[route_key method path := plain_route path bs table]> (routes r)) m (health r)
           (start_checking (health_checker r) bs).1
           (cache_invalidate (route_cache r) (route_key method path)).
Proof.
  intros Hs. unfold add_route. rewrite Hs. destruct (build_table bs) as [table|]; [|done]. cbn [obind].
  cbn [routes set_routes set_health_checker]. destruct (rebuild _) as [m|e] eqn:E; [|done].
  intros [= <-]. by exists table, m.
Qed.

Lemma insert_router_ok (r : Router) method path bs table m hc c :
  router_ok r → build_table bs = Ret table → cache_ok c →
  router_ok (mk_router (<[route_key method path := plain_route path bs table]> (routes r)) m (health r) hc c).
Proof.
  intros [Hc Hr Hk] Hb Hc'. pose proof (build_table_spec bs) as Ht. rewrite Hb in Ht.
  split; cbn; [done|..]; intros k route [[<- <-]|[_ Hl]]%lookup_insert_Some; eauto.
Qed.

(** C21: adding a route.  On a well-formed router [add_route] panics exactly when
it is given more than 32 backends that differ from the route's current ones; if
it returns [Ok], the table maps the key to a route with that path and those
backends and is otherwise unchanged, the router is well formed, and adding the
same route again is a no-op; if it returns [Err], the table was changed all the
same, while the prefix router and the cache were not. *)
Theorem add_route_correct (r : Router) method path bs :
  router_ok r →
  let key := route_key method path in
  match add_route r method path bs with
  | Panic => MAX_BACKENDS < Z.of_nat (length bs) ∧ same_backends r key bs = false
  | Ret (Ok _, r') =>
      router_ok r' ∧ add_route r' method path bs = Ret (Ok (), r') ∧
      (∃ route, routes r' !! key = Some route ∧ backends route = bs ∧
        (same_backends r key bs = false → pattern route = path)) ∧
      ∀ k, k ≠ key → routes r' !! k = routes r !! k
  | Ret (Err _, r') =>
      (∃ route, routes r' !! key = Some route ∧ backends route = bs ∧ pattern route = path) ∧
      (∀ k, k ≠ key → routes r' !! k = routes r !! k) ∧
      prefix_router r' = prefix_router r ∧ route_cache r' = route_cache r
  end.
Proof.
  intros Hok key. destruct (same_backends r key bs) eqn:Hs.
  - unfold add_route. fold key. rewrite Hs. split_and!; [done|by rewrite Hs| |done].
    unfold same_backends in Hs. destruct (routes r !! key) as [route|]; [|done].
    apply bool_decide_eq_true in Hs. exists route. done.
  - destruct (add_route r method path bs) as [[[[]|e] r']|] eqn:E.
    + apply add_route_ok_inv in E as (table & m & Hb & Hm & ->); [|done]. fold key.
      split_and!.
      * apply insert_router_ok; [done..|]. by apply cache_invalidate_refines, (ro_cache r Hok).
      * unfold add_route. fold key. assert (same_backends (mk_router (<[key := plain_route path bs table]> (routes r))
          m (health r) (start_checking (health_checker r) bs).1 (cache_invalidate (route_cache r) key)) key bs = true) as ->; [|done].
        unfold same_backends. cbn [routes]. rewrite lookup_insert_eq. by apply bool_decide_eq_true.
      * cbn [routes]. rewrite lookup_insert_eq. eexists. split; [done|]. done.
      * intros k Hk. cbn [routes]. by rewrite lookup_insert_ne.
    + revert E. unfold add_route. fold key. rewrite Hs. destruct (build_table bs) as [table|]; [|done]. cbn [obind].
      destruct (rebuild _) as [m|e']; [done|]. intros [= -> <-]. cbn [routes set_routes set_health_checker prefix_router route_cache].
      split_and!; [|intros k Hk; by rewrite lookup_insert_ne|done..]. rewrite lookup_insert_eq. by eexists.
    + split; [|done]. revert E. unfold add_route. fold key. rewrite Hs. pose proof (build_table_spec bs) as Hb.
      destruct (build_table bs) as [table|]; [|done]. cbn [obind]. by destruct (rebuild _).
Qed.

(** ** A route that was added serves its own path *)
Lemma resolve_exact (r : Router) method path :
  is_Some (routes r !! route_key method path) → resolve r method path = Some (route_key method path).
Proof. intros Hs. unfold resolve, has_route. by rewrite bool_decide_true. Qed.

Lemma cached_resolve_miss (r : Router) method path :
  entries (route_cache r) !! route_key method path = None →
  (cached_resolve r method path).1 = resolve r method path.
Proof.
  intros He. unfold cached_resolve, cache_get. rewrite He.
  change (resolve (set_route_cache r _) method path) with (resolve r method path).
  by destruct (resolve r method path).
Qed.

Lemma first_ok_some bs table ok flow as_ a b :
  a ∈ as_ → probe bs table flow a = Some b → ok b = true → is_Some (first_ok bs table ok flow as_).
Proof.
  intros Ha Hp Hok. unfold first_ok.
  assert (b ∈ filter (λ b, ok b = true) (omap (probe bs table flow) as_)) as Hin.
  { apply list_elem_of_filter. split; [done|]. apply list_elem_of_omap. by exists a. }
  destruct (filter _ _); [by apply not_elem_of_nil in Hin|]. cbn. eauto.
Qed.

(** A request that resolves to a route with selectable backends is given one of them. *)
Lemma resolved_route_serves (r : Router) method path k route src_ip src_port :
  router_ok r → (cached_resolve r method path).1 = Some k → routes r !! k = Some route →
  method_allowed route method = true → backends route ≠ [] → Forall (λ b, selectable r b = true) (backends route) →
  ∃ m r', select_backend r method path src_ip src_port = Ret (Some m, r') ∧
    rm_backend m ∈ backends route ∧ rm_pattern m = pattern route.
Proof.
  intros Hok Hres Hl Hm Hne Hall. destruct (cached_resolve_frame r method path Hok) as (_ & E1 & E2 & E3 & _).
  unfold select_backend. destruct (cached_resolve r method path) as [k' r']. cbn [fst snd] in *. subst k'.
  cbn [mbind option_bind]. rewrite E1, Hl, Hm. cbn [negb].
  pose proof (ro_routes r Hok _ _ Hl) as Hwf. set (flow := compute_flow_hash _ _ _). rewrite select_in_route_spec by done.
  assert (selectable r' = selectable r) as -> by (unfold selectable; by rewrite E2, E3).
  destruct Hwf as [Hn|[Hco Hmax]]; [congruence|].
  destruct (lookup_at_ok (backends route) (maglev_table route) flow Hco 0) as (i & b & _ & _ & Hbk & Hpr).
  destruct (first_ok_some (backends route) (maglev_table route) (selectable r) flow (attempts (backends route)) 0 b)
    as [b' Hb']; [|done| |].
  { unfold attempts. apply elem_of_seqZ. destruct (backends route); [done|]. cbn [length]. lia. }
  { rewrite Forall_forall in Hall. apply Hall. by eapply list_elem_of_lookup_2. }
  rewrite Hb'. apply first_ok_sound in Hb' as [Hin _]. cbn. eauto.
Qed.

(** A route that has just been added with selectable backends serves its path:
whatever was cached for it before, the next request to that path and method gets
one of exactly those backends. *)
Theorem added_route_serves (r : Router) method path bs r' src_ip src_port :
  router_ok r → bs ≠ [] → same_backends r (route_key method path) bs = false →
  add_route r method path bs = Ret (Ok (), r') →
  Forall (λ b, selectable r' b = true) bs →
  ∃ m r'', select_backend r' method path src_ip src_port = Ret (Some m, r'') ∧
    rm_backend m ∈ bs ∧ rm_pattern m = path.
Proof.
  intros Hok Hne Hs Hadd Hall. pose proof (add_route_ok_inv r method path bs r' Hs Hadd) as (table & pm & Hb & Hm & Er').
  assert (router_ok r') as Hok'.
  { rewrite Er'. apply insert_router_ok; [done..|]. by apply cache_invalidate_refines, (ro_cache r Hok). }
  set (key := route_key method path) in *. set (route := plain_route path bs table) in *.
  assert (routes r' !! key = Some route) as Hroute by (rewrite Er'; cbn; by rewrite lookup_insert_eq).
  assert ((cached_resolve r' method path).1 = Some key) as Hres.
  { rewrite cached_resolve_miss; [apply resolve_exact; fold key; rewrite Hroute; eauto|].
    rewrite Er'. cbn. apply lookup_delete_eq. }
  apply (resolved_route_serves r' method path key route src_ip src_port Hok' Hres Hroute); done.
Qed.

(** ** The cache outlives the addition of other routes *)

(** The route key a request is served under. *)
Definition served_key (r : Router) (method : HttpMethod) (path : string) : option RouteKey :=
  (cached_resolve r method path).1.

(** Adding a route forgets only the cached lookup of its own key.  A request
path that was resolved before (say to a shorter prefix) keeps its old route after
a more specific route for it was added. *)
Theorem cached_lookup_survives (r : Router) method path bs r' method' path' old :
  add_route r method path bs = Ret (Ok (), r') →
  route_key method' path' ≠ route_key method path →
  entries (route_cache r) !! route_key method' path' = Some old →
  served_key r' method' path' = Some old.
Proof.
  intros Hadd Hne Hold.
  assert (entries (route_cache r') !! route_key method' path' = Some old) as He.
  { destruct (same_backends r (route_key method path) bs) eqn:Hs.
    - unfold add_route in Hadd. rewrite Hs in Hadd. by injection Hadd as <-.
    - apply add_route_ok_inv in Hadd as (table & m & _ & _ & ->); [|done]. cbn. by rewrite lookup_delete_ne. }
  unfold served_key, cached_resolve, cache_get. by rewrite He.
Qed.
End spec.

(** ** Instances: the list router, maps iterated in key order *)
Definition key_order : MapOrder := {| iter := map_to_list; iter_perm m := Permutation_refl (map_to_list m) |}.

#[local] Existing Instance list_matchit.
#[local] Existing Instance key_order.

Definition bare_route (path : string) : Route := plain_route path [] [].

(** A router with the routes of the keys [(method, path)] and no backends. *)
Definition table_of (keys : list (HttpMethod * string)) : gmap RouteKey Route :=
  list_to_map ((λ '(m, path), (route_key m path, bare_route path)) <$> keys).

Definition sample_router (keys : list (HttpMethod * string)) : Router (list (string * RouteKey)) :=
  mk_router (table_of keys) (match rebuild (table_of keys) with Ok m => m | Err _ => [] end)
    health_data_new (checker_new default_config) (cache_new 128).

Lemma table_of_inv keys k route :
  table_of keys !! k = Some route → ∃ m path, (m, path) ∈ keys ∧ k = route_key m path ∧ route = bare_route path.
Proof.
  intros Hl%elem_of_list_to_map_2. apply list_elem_of_fmap in Hl as ([m path] & [= -> ->] & Hin). eauto.
Qed.

Lemma sample_router_ok keys : router_ok (sample_router keys).
Proof.
  split; cbn [route_cache routes sample_router]; [apply cache_new_ok|..];
    intros k route (m & path & _ & -> & ->)%table_of_inv; [by left|done].
Qed.

(** ** Witnesses *)
(** A route with two backends, the first of which is being drained. *)
Definition drained_router : Router (list (string * RouteKey)) :=
  mk_router {[route_key GET "/api" := plain_route "/api" sample_backends even_table]} []
    (drain_in health_data_new (from_ipv4 (mk_ipv4 10 0 0 1) 80 100) 30 0) (checker_new default_config) (cache_new 128).

Lemma drained_router_ok : router_ok drained_router.
Proof.
  split; cbn [route_cache routes drained_router]; [apply cache_new_ok|..]; intros k route [<- <-]%lookup_singleton_Some; [|done].
  right. split; [exact even_table_ok|vm_compute; discriminate].
Qed.

Lemma select_backend_correct_witness :
  let flow := compute_flow_hash (fnv1a_hash (as_bytes "/api")) None None in
  let route := plain_route "/api" sample_backends even_table in
  ∃ m r', select_backend drained_router GET "/api" None None = Ret (Some m, r') ∧
    rm_backend m = from_ipv4 (mk_ipv4 10 0 0 2) 80 100 ∧ router_ok r' ∧ routes r' = routes drained_router ∧
    selection_ok drained_router route flow (Some m).
Proof.
  intros flow route.
  destruct (select_backend_correct drained_router GET "/api" None None drained_router_ok) as (res & r' & E & Hok & Hr & _ & Hs).
  assert ((cached_resolve drained_router GET "/api").1 ≫= (λ k, routes drained_router !! k) = Some route) as Er by (vm_compute; reflexivity).
  rewrite Er in Hs. change (method_allowed route GET) with true in Hs. cbv iota in Hs.
  destruct res as [m|]; [|exfalso; revert E; vm_compute; discriminate].
  exists m, r'. split; [exact E|]. split; [|split; [exact Hok|split; [exact Hr|exact Hs]]].
  revert E. clear. vm_compute. intros E. injection E as <- _. reflexivity.
Defined.

Lemma add_route_correct_witness :
  let r := sample_router [(GET, "/api")] in
  let key := route_key POST "/api" in
  match add_route r POST "/api" sample_backends with
  | Panic => MAX_BACKENDS < 2 ∧ same_backends r key sample_backends = false
  | Ret (Ok _, r') =>
      router_ok r' ∧ add_route r' POST "/api" sample_backends = Ret (Ok (), r') ∧
      (∃ route, routes r' !! key = Some route ∧ backends route = sample_backends ∧
        (same_backends r key sample_backends = false → pattern route = "/api")) ∧
      ∀ k, k ≠ key → routes r' !! k = routes r !! k
  | Ret (Err _, r') =>
      (∃ route, routes r' !! key = Some route ∧ backends route = sample_backends ∧ pattern route = "/api") ∧
      (∀ k, k ≠ key → routes r' !! k = routes r !! k) ∧
      prefix_router r' = prefix_router r ∧ route_cache r' = route_cache r
  end.
Proof.
  apply (add_route_correct (sample_router [(GET, "/api")]) POST "/api" sample_backends). apply sample_router_ok.
Defined.

Lemma add_first_route bs :
  (0 < length bs <= 32)%nat → ∃ r', add_route (sample_router []) GET "/api" bs = Ret (Ok (), r') ∧
    health r' = health_data_new ∧ states (health_checker r') = ∅.
Proof.
  intros Hb. pose proof (build_table_spec bs) as Ht. unfold add_route.
  change (same_backends (sample_router []) (route_key GET "/api") bs) with false. cbv iota.
  destruct (build_table bs) as [table|]; [|unfold MAX_BACKENDS in Ht; lia]. cbn [obind].
  cbn [routes set_routes set_health_checker sample_router]. unfold rebuild. cbn [iter key_order].
  change (table_of []) with (∅ : gmap RouteKey Route). rewrite insert_empty, map_to_list_singleton.
  unfold route_key. generalize (fnv1a_hash (as_bytes "/api")). intros h. eexists. split; [reflexivity|]. done.
Qed.

Lemma added_route_serves_witness :
  ∃ r', add_route (sample_router []) GET "/api" sample_backends = Ret (Ok (), r') ∧
    ∃ m r'', select_backend r' GET "/api" None None = Ret (Some m, r'') ∧
      rm_backend m ∈ sample_backends ∧ rm_pattern m = "/api".
Proof.
  destruct (add_first_route sample_backends) as (r' & Hadd & Hh & Hc); [cbn; lia|].
  exists r'. split; [exact Hadd|].
  apply (added_route_serves (sample_router []) GET "/api" sample_backends r' None None).
  - apply sample_router_ok.
  - discriminate.
  - reflexivity.
  - exact Hadd.
  - unfold selectable, checker_is_healthy. rewrite Hh, Hc. repeat constructor.
Defined.

(** "/api/v1/users" was resolved to "/api"; then "/api/v1" is added, and the fresh
lookup finds it, but the cached one does not. *)
Definition before_add : Router (list (string * RouteKey)) :=
  (cached_resolve (sample_router [(GET, "/api")]) GET "/api/v1/users").2.

Lemma cached_lookup_survives_witness :
  ∃ r', add_route before_add GET "/api/v1" [] = Ret (Ok (), r') ∧
    served_key r' GET "/api/v1/users" = Some (route_key GET "/api") ∧
    resolve r' GET "/api/v1/users" = Some (route_key GET "/api/v1").
Proof.
  eexists. split; [vm_compute; reflexivity|]. split; [|vm_compute; reflexivity].
  eapply (cached_lookup_survives before_add GET "/api/v1" []); [vm_compute; reflexivity|vm_compute; discriminate|].
  vm_compute. reflexivity.
Defined.
