(* ===== verification/Prefix.v ===== *)
(** * Prefix: what the rebuilt prefix router answers

The specification of prefix routing: among the routes of a method, the one whose
path is the longest prefix (by segments) of the request path. *)

From S2P Require Import Prelude Common Maglev Health HealthChecker RouteCache Matchit Router RouterSpec.

Abbreviation mp := get_method_prefix.

(** The literal part of a route's catch-all pattern. *)
Definition catch_literal (pattern : string) : string :=
  if String.eqb pattern "/" then "" else trim_end_slashes pattern +:+ "/".

(** How much of [path] the route [pattern] fixes, if it covers [path]. *)
Definition specificity (pattern path : string) : option nat :=
  if String.eqb pattern path then Some (String.length path)
  else if String.prefix (catch_literal pattern) path && (String.length (catch_literal pattern) <? String.length path)
  then Some (String.length (catch_literal pattern)) else None.

Definition starts_with_slash (s : string) : bool :=
  match s with String c _ => Ascii.eqb c "/" | EmptyString => false end.

(** A path as the Gateway API has it. *)
Definition plain_path (s : string) : bool := no_brace s && starts_with_slash s.

(** ** Strings *)
Lemma app_assoc_string (s t u : string) : s +:+ (t +:+ u) = (s +:+ t) +:+ u.
Proof. induction s as [|c s IH]; [done|]. change (String c (s +:+ (t +:+ u)) = String c ((s +:+ t) +:+ u)). by rewrite IH. Qed.

Lemma prefix_cancel a b c : String.prefix (a +:+ b) (a +:+ c) = String.prefix b c.
Proof.
  induction a as [|x a IH]; [done|].
  change (String.prefix (String x (a +:+ b)) (String x (a +:+ c)) = String.prefix b c). cbn [String.prefix].
  destruct (ascii_dec x x); [exact IH|congruence].
Qed.

Lemma eqb_cancel a b c : String.eqb (a +:+ b) (a +:+ c) = String.eqb b c.
Proof.
  induction a as [|x a IH]; [done|].
  change (String.eqb (String x (a +:+ b)) (String x (a +:+ c)) = String.eqb b c). cbn [String.eqb].
  by rewrite Ascii.eqb_refl, IH.
Qed.

Lemma prefix_refl s : String.prefix s s = true.
Proof. induction s as [|c s IH]; [done|]. cbn. destruct (ascii_dec c c); [exact IH|congruence]. Qed.

Lemma no_brace_trim s : no_brace s = true → no_brace (trim_end_slashes s) = true.
Proof.
  induction s as [|c s IH]; [done|]. cbn [no_brace trim_end_slashes]. intros [Hc Hs]%andb_true_iff.
  specialize (IH Hs). destruct (trim_end_slashes s) as [|x t].
  - destruct (Ascii.eqb c "/"); [done|]. cbn. by rewrite Hc.
  - cbn [no_brace] in *. by rewrite Hc, IH.
Qed.

Lemma no_brace_mp m : no_brace (mp m) = true.
Proof. by destruct m. Qed.

Lemma pat_match_prefix p s : pat_match p s = true → String.prefix (literal p) s = true.
Proof.
  unfold pat_match, literal. destruct (split_catch p) as [q|]; cbn.
  - by intros [? _]%andb_true_iff.
  - intros ->%String.eqb_eq. apply prefix_refl.
Qed.

(** ** The two patterns of a route *)
Section patterns.
Context (m : HttpMethod) (pattern : string) (Hp : no_brace pattern = true).

Lemma exact_split : split_catch (mp m +:+ pattern) = None.
Proof. apply split_catch_literal. by rewrite no_brace_app, no_brace_mp, Hp. Qed.

Lemma no_brace_catch : no_brace (catch_literal pattern) = true.
Proof. unfold catch_literal. destruct (String.eqb pattern "/"); [done|]. rewrite no_brace_app, no_brace_trim by done. done. Qed.

Lemma catch_split : split_catch (prefix_pattern (mp m) pattern) = Some (mp m +:+ catch_literal pattern).
Proof.
  assert (prefix_pattern (mp m) pattern = (mp m +:+ catch_literal pattern) +:+ "{*rest}") as ->.
  { unfold prefix_pattern, catch_literal. destruct (String.eqb pattern "/").
    - by rewrite <- !app_assoc_string.
    - by rewrite <- !app_assoc_string. }
  apply split_catch_app. by rewrite no_brace_app, no_brace_mp, no_brace_catch.
Qed.

Definition of_route (p : string) : Prop := p = mp m +:+ pattern ∨ p = prefix_pattern (mp m) pattern.

Lemma of_route_plain p : of_route p → plain_pattern p = true.
Proof.
  unfold plain_pattern, literal. intros [-> | ->].
  - rewrite exact_split. cbn. by rewrite no_brace_app, no_brace_mp, Hp.
  - rewrite catch_split. cbn. by rewrite no_brace_app, no_brace_mp, no_brace_catch.
Qed.

Lemma of_route_literal p :
  of_route p → literal p = mp m +:+ pattern ∨ literal p = mp m +:+ catch_literal pattern.
Proof.
  unfold literal. intros [-> | ->]; [rewrite exact_split; by left|rewrite catch_split; by right].
Qed.

Lemma match_exact path : pat_match (mp m +:+ pattern) (mp m +:+ path) = String.eqb pattern path.
Proof. unfold pat_match. rewrite exact_split. apply eqb_cancel. Qed.

Lemma match_catch path :
  pat_match (prefix_pattern (mp m) pattern) (mp m +:+ path) =
    String.prefix (catch_literal pattern) path && (String.length (catch_literal pattern) <? String.length path).
Proof.
  unfold pat_match. rewrite catch_split, prefix_cancel, !length_app_string. f_equal.
  destruct (Nat.ltb_spec (String.length (catch_literal pattern)) (String.length path)).
  - apply Nat.ltb_lt. lia.
  - apply Nat.ltb_ge. lia.
Qed.

(** A matching pattern of the route fixes no more than its specificity. *)
Lemma match_specificity p path :
  of_route p → pat_match p (mp m +:+ path) = true →
  ∃ n, specificity pattern path = Some n ∧ String.length (literal p) <= String.length (mp m) + n.
Proof.
  unfold specificity. intros [-> | ->].
  - rewrite match_exact. intros E. rewrite E. eexists. split; [done|]. unfold literal. rewrite exact_split. cbn.
    apply String.eqb_eq in E as ->. rewrite length_app_string. lia.
  - rewrite match_catch. intros E. rewrite E. unfold literal. rewrite catch_split. cbn. rewrite length_app_string.
    apply andb_true_iff in E as [_ E%Nat.ltb_lt].
    destruct (String.eqb pattern path); eexists; (split; [done|]); lia.
Qed.

(** And its specificity is that of one of its patterns. *)
Lemma specificity_match path n :
  specificity pattern path = Some n →
  ∃ p, of_route p ∧ pat_match p (mp m +:+ path) = true ∧ String.length (literal p) = String.length (mp m) + n.
Proof.
  unfold specificity. destruct (String.eqb pattern path) eqn:E.
  - intros [= <-]. exists (mp m +:+ pattern). split; [by left|]. rewrite match_exact. split; [done|].
    unfold literal. rewrite exact_split. cbn. apply String.eqb_eq in E as ->. apply length_app_string.
  - destruct (_ && _) eqn:E'; [|done]. intros [= <-]. exists (prefix_pattern (mp m) pattern). split; [by right|].
    rewrite match_catch. split; [done|]. unfold literal. rewrite catch_split. cbn. apply length_app_string.
Qed.
End patterns.

(** ** Patterns of other methods do not match *)
Lemma prefix_other m m' x y : m ≠ m' → m ≠ ALL → m' ≠ ALL → String.prefix (mp m' +:+ x) (mp m +:+ y) = false.
Proof. destruct m, m'; try done; intros; reflexivity. Qed.

Lemma prefix_slash m x y : m ≠ ALL → String.prefix (String "/" x) (mp m +:+ y) = false.
Proof. destruct m; try done; intros; reflexivity. Qed.

Lemma prefix_method m x y : m ≠ ALL → String.prefix (mp m +:+ x) (String "/" y) = false.
Proof. destruct m; try done; intros; reflexivity. Qed.

Lemma catch_literal_slash pattern :
  starts_with_slash pattern = true → pattern ≠ "/" → ∃ x, catch_literal pattern = String "/" x.
Proof.
  intros Hs Hne. unfold catch_literal. destruct (String.eqb_spec pattern "/") as [|_]; [done|].
  destruct pattern as [|c s]; [done|]. cbn in Hs. apply Ascii.eqb_eq in Hs as ->. cbn [trim_end_slashes].
  destruct (trim_end_slashes s) as [|x t]; [by exists ""|]. by eexists.
Qed.

(** ** Lookups in a rebuilt router *)
Section lookup.
Context {M : Type} `{!Matchit RouteKey M} `{!MapOrder}.

Lemma rebuild_loop_routes es : ∀ (m m' : M),
  rebuild_loop mp m es = Ok m' →
  ∀ p k, (p, k) ∈ mt_routes m' ↔
    (p, k) ∈ mt_routes m ∨ ∃ route, (k, route) ∈ es ∧ of_route (key_method k) (pattern route) p.
Proof.
  induction es as [|[key route] es IH]; intros m m'; cbn [rebuild_loop].
  { intros [= <-] p k. split; [by left|]. intros [?|(route & Hin & _)]; [done|]. by apply not_elem_of_nil in Hin. }
  unfold insert_route. destruct (mt_insert m _ key) as [m1|e] eqn:E1; [|done].
  destruct (mt_insert m1 _ key) as [m2|e] eqn:E2; [|done]. intros Hr p k. rewrite (IH m2 m' Hr p k).
  rewrite (mt_insert_routes _ _ _ _ E2), (mt_insert_routes _ _ _ _ E1). rewrite !elem_of_cons. split.
  - intros [[E|[E|?]]|(route' & Hin & Ho)]; [..|by left|].
    + injection E as -> ->. right. exists route. split; [by left|by right].
    + injection E as -> ->. right. exists route. split; [by left|by left].
    + right. exists route'. split; [by right|done].
  - intros [?|(route' & Hin & Ho)]; [by left; right; right|]. apply elem_of_cons in Hin as [E|Hin].
    + injection E as -> ->. left. destruct Ho as [-> | ->]; [by right; left|by left].
    + right. by exists route'.
Qed.

(** A table whose patterns are plain paths. *)
Definition plain_table (rs : gmap RouteKey Route) : Prop :=
  ∀ k route, rs !! k = Some route → plain_path (pattern route) = true.

Context (rs : gmap RouteKey Route) (m : M) (Hm : rebuild rs = Ok m) (Hplain : plain_table rs).

Lemma rebuilt_routes p k :
  (p, k) ∈ mt_routes m ↔ ∃ route, rs !! k = Some route ∧ of_route (key_method k) (pattern route) p.
Proof.
  rewrite (rebuild_loop_routes _ _ _ Hm p k), mt_routes_new. split.
  - intros [Hin|(route & Hin & Ho)]; [by apply not_elem_of_nil in Hin|]. exists route. split; [|done].
    rewrite iter_perm in Hin. by apply elem_of_map_to_list in Hin.
  - intros (route & Hl & Ho). right. exists route. split; [|done]. rewrite iter_perm. by apply elem_of_map_to_list.
Qed.

Lemma route_plain k route :
  rs !! k = Some route → no_brace (pattern route) = true ∧ starts_with_slash (pattern route) = true.
Proof. intros Hl. apply Hplain in Hl. by apply andb_true_iff. Qed.

Lemma rebuilt_plain : forallb plain_pattern (mt_routes m).*1 = true.
Proof.
  apply forallb_forall. intros p Hp. apply list_elem_of_In, list_elem_of_fmap in Hp as ([p' k] & -> & Hin). cbn.
  apply rebuilt_routes in Hin as (route & Hl & Ho). destruct (route_plain k route Hl) as [Hb _].
  by eapply of_route_plain.
Qed.

(** Which routes can match a request string of method [mm]. *)
Definition clean (mm : HttpMethod) (path : string) : Prop :=
  if decide (mm = ALL) then starts_with_slash path = true
  else ∀ k route, rs !! k = Some route → key_method k = ALL → pattern route ≠ "/".

Lemma match_method mm path p k route :
  clean mm path → rs !! k = Some route → of_route (key_method k) (pattern route) p →
  pat_match p (mp mm +:+ path) = true → key_method k = mm.
Proof.
  intros Hc Hl Ho Hm'. destruct (route_plain k route Hl) as [Hb Hs]. apply pat_match_prefix in Hm'.
  destruct (decide (key_method k = mm)) as [|Hne]; [done|]. exfalso. unfold clean in Hc.
  destruct (of_route_literal (key_method k) (pattern route) Hb p Ho) as [E|E]; rewrite E in Hm';
    destruct (decide (mm = ALL)) as [->|HA]; destruct (decide (key_method k = ALL)) as [HkA|HkA]; try congruence.
  - destruct path as [|c path]; [done|]. cbn in Hc. apply Ascii.eqb_eq in Hc as ->.
    change (mp ALL +:+ String "/" path) with (String "/" path) in Hm'. by rewrite prefix_method in Hm'.
  - rewrite HkA in Hm'. destruct (pattern route) as [|c s]; [done|]. cbn in Hs. apply Ascii.eqb_eq in Hs as ->.
    change (mp ALL +:+ String "/" s) with (String "/" s) in Hm'. by rewrite prefix_slash in Hm'.
  - by rewrite prefix_other in Hm' by congruence.
  - destruct path as [|c path]; [done|]. cbn in Hc. apply Ascii.eqb_eq in Hc as ->.
    change (mp ALL +:+ String "/" path) with (String "/" path) in Hm'. by rewrite prefix_method in Hm'.
  - rewrite HkA in Hm'. destruct (catch_literal_slash (pattern route) Hs) as [x Ex]; [by eapply Hc|].
    rewrite Ex in Hm'. change (mp ALL +:+ String "/" x) with (String "/" x) in Hm'. by rewrite prefix_slash in Hm'.
  - by rewrite prefix_other in Hm' by congruence.
Qed.

(** The best route of method [mm] for [path]. *)
Definition best_route (mm : HttpMethod) (path : string) (k : RouteKey) : Prop :=
  key_method k = mm ∧
  ∃ route n, rs !! k = Some route ∧ specificity (pattern route) path = Some n ∧
    ∀ k' route' n', rs !! k' = Some route' → key_method k' = mm →
      specificity (pattern route') path = Some n' → n' <= n.

Definition uncovered (mm : HttpMethod) (path : string) : Prop :=
  ∀ k route, rs !! k = Some route → key_method k = mm → specificity (pattern route) path = None.

Lemma at_spec mm path :
  clean mm path →
  match mt_at m (mp mm +:+ path) with
  | Some k => best_route mm path k
  | None => uncovered mm path
  end.
Proof.
  intros Hc. pose proof (mt_at_spec m (mp mm +:+ path) rebuilt_plain) as Hat.
  destruct (mt_at m (mp mm +:+ path)) as [k|].
  - destruct Hat as (p & Hin & Hmatch & Hbest). apply rebuilt_routes in Hin as (route & Hl & Ho).
    pose proof (match_method mm path p k route Hc Hl Ho Hmatch) as Hk. split; [done|].
    destruct (route_plain k route Hl) as [Hb _]. rewrite Hk in Ho.
    destruct (match_specificity mm (pattern route) Hb p path Ho Hmatch) as (n & Hn & Hlen).
    exists route, n. split_and!; [done..|]. intros k' route' n' Hl' Hk' Hn'.
    destruct (route_plain k' route' Hl') as [Hb' _].
    destruct (specificity_match mm (pattern route') Hb' path n' Hn') as (p' & Ho' & Hm' & Hlen').
    assert ((p', k') ∈ mt_routes m) as Hin' by (apply rebuilt_routes; exists route'; by rewrite Hk').
    specialize (Hbest p' k' Hin' Hm'). lia.
  - intros k route Hl Hk. destruct (specificity (pattern route) path) as [n|] eqn:Hn; [|done]. exfalso.
    destruct (route_plain k route Hl) as [Hb _].
    destruct (specificity_match mm (pattern route) Hb path n Hn) as (p & Ho & Hm' & _).
    rewrite (Hat p k) in Hm'; [done|]. apply rebuilt_routes. exists route. by rewrite Hk.
Qed.
End lookup.

Section theorems.
Context {M : Type} `{!Matchit RouteKey M} `{!MapOrder}.

(** C17: prefix routing.  In a router whose prefix tree was rebuilt from a table of
plain paths without an any-method route at "/", a request that misses the exact
table goes to the route of its own method with the longest matching path, and
only if no route of its method covers the path to the any-method route with the
longest matching path; it is unrouted only if neither kind covers it.  This holds
for every order in which the hash map was iterated. *)
Theorem prefix_lookup_longest (r : Router M) method path :
  rebuild (routes r) = Ok (prefix_router r) → plain_table (routes r) → plain_path path = true →
  (∀ k route, routes r !! k = Some route → key_method k = ALL → pattern route ≠ "/") →
  match prefix_lookup r method path with
  | Some k =>
      best_route (routes r) method path k ∨
      (uncovered (routes r) method path ∧ best_route (routes r) ALL path k)
  | None => uncovered (routes r) method path ∧ uncovered (routes r) ALL path
  end.
Proof.
  intros Hm Hpl Hpath Hroot. apply andb_true_iff in Hpath as [_ Hs]. unfold prefix_lookup.
  assert (∀ mm, clean (routes r) mm path) as Hc by (intros mm; unfold clean; case_decide; done).
  pose proof (at_spec (routes r) (prefix_router r) Hm Hpl method path (Hc method)) as H1.
  destruct (mt_at (prefix_router r) (mp method +:+ path)) as [k|]; [by left|].
  destruct (decide (method = ALL)) as [->|HA]; [done|].
  pose proof (at_spec (routes r) (prefix_router r) Hm Hpl ALL path (Hc ALL)) as H2.
  change (mp ALL +:+ path) with path in H2. destruct (mt_at (prefix_router r) path) as [k|]; [|done]. by right.
Qed.

(** An any-method route at "/" shadows every longer any-method prefix.  Its
catch-all pattern has no method and no slash, so it also matches the
method-prefixed lookup string: a request with a concrete method that no route of
that method covers resolves to "/", whatever longer any-method routes cover it. *)
Theorem root_route_shadows (r : Router M) method path root :
  rebuild (routes r) = Ok (prefix_router r) → plain_table (routes r) → router_ok r →
  method ≠ ALL → (∀ k route, routes r !! k = Some route → key_method k ≠ method) →
  routes r !! route_key ALL "/" = Some root → pattern root = "/" →
  prefix_lookup r method path = Some (route_key ALL "/").
Proof.
  intros Hm Hpl Hok HA Hnone Hroot Hpr. unfold prefix_lookup.
  pose proof (mt_at_spec (prefix_router r) (mp method +:+ path) (rebuilt_plain _ _ Hm Hpl)) as Hat.
  destruct (mt_at (prefix_router r) (mp method +:+ path)) as [k|].
  - destruct Hat as (p & Hin & Hmatch & _). apply (rebuilt_routes _ _ Hm) in Hin as (route & Hl & Ho).
    destruct (route_plain _ Hpl k route Hl) as [Hb Hs]. apply pat_match_prefix in Hmatch. f_equal.
    assert (key_method k = ALL ∧ pattern route = "/") as [Hk Hp].
    { destruct (decide (key_method k = ALL)) as [Hk|Hk].
      - split; [done|]. rewrite Hk in Ho. destruct (decide (pattern route = "/")) as [|Hne]; [done|]. exfalso.
        destruct (catch_literal_slash _ Hs Hne) as [x Ex].
        destruct (of_route_literal ALL (pattern route) Hb p Ho) as [E|E]; rewrite E in Hmatch.
        + destruct (pattern route) as [|c s]; [done|]. cbn in Hs. apply Ascii.eqb_eq in Hs as ->.
          change (mp ALL +:+ String "/" s) with (String "/" s) in Hmatch. by rewrite prefix_slash in Hmatch.
        + rewrite Ex in Hmatch. change (mp ALL +:+ String "/" x) with (String "/" x) in Hmatch.
          by rewrite prefix_slash in Hmatch.
      - exfalso. pose proof (Hnone k route Hl) as Hne.
        destruct (of_route_literal (key_method k) (pattern route) Hb p Ho) as [E|E]; rewrite E in Hmatch;
          by rewrite prefix_other in Hmatch by congruence. }
    rewrite (ro_keys r Hok k route Hl), Hk, Hp. done.
  - exfalso. assert ((prefix_pattern (mp ALL) "/", route_key ALL "/") ∈ mt_routes (prefix_router r)) as Hin.
    { apply (rebuilt_routes _ _ Hm). exists root. split; [done|]. rewrite Hpr. by right. }
    specialize (Hat _ _ Hin). by destruct method.
Qed.

(** Inserting a catch-all pattern that is there already fails the rebuild. *)
Lemma rebuild_conflict mm q es : ∀ (a b : M) k k' route,
  rebuild_loop mp a es = Ok b → (prefix_pattern (mp mm) q, k) ∈ mt_routes a →
  (k', route) ∈ es → key_method k' = mm →
  prefix_pattern (mp mm) (pattern route) ≠ prefix_pattern (mp mm) q.
Proof.
  induction es as [|[k0 route0] es IH]; intros a b k k' route; cbn [rebuild_loop].
  { intros _ _ Hin. by apply not_elem_of_nil in Hin. }
  unfold insert_route. destruct (mt_insert a _ k0) as [a1|e] eqn:Ei1; [|done].
  destruct (mt_insert a1 _ k0) as [a2|e] eqn:Ei2; [|done]. intros Hl Hin Hin' Hk Heq'.
  assert ((prefix_pattern (mp mm) q, k) ∈ mt_routes a1) as Hin1.
  { rewrite (mt_insert_routes _ _ _ _ Ei1). by right. }
  apply elem_of_cons in Hin' as [E|Hin'].
  - injection E as -> ->. rewrite Hk, Heq' in Ei2. destruct (mt_insert_conflict _ _ k0 _ Hin1) as [e He].
    congruence.
  - eapply (IH a2 b k k' route Hl); [|exact Hin'|done|done]. rewrite (mt_insert_routes _ _ _ _ Ei2). by right.
Qed.

(** So two keys of one method cannot share a catch-all pattern. *)
Lemma rebuild_distinct mm es : ∀ (a b : M) k1 k2 r1 r2,
  rebuild_loop mp a es = Ok b → k1 ≠ k2 → (k1, r1) ∈ es → (k2, r2) ∈ es →
  key_method k1 = mm → key_method k2 = mm →
  prefix_pattern (mp mm) (pattern r1) ≠ prefix_pattern (mp mm) (pattern r2).
Proof.
  induction es as [|[k0 route0] es IH]; intros a b k1 k2 r1 r2; cbn [rebuild_loop].
  { intros _ _ Hin. by apply not_elem_of_nil in Hin. }
  unfold insert_route. destruct (mt_insert a _ k0) as [a1|e] eqn:Ei1; [|done].
  destruct (mt_insert a1 _ k0) as [a2|e] eqn:Ei2; [|done]. intros Hl Hk Hin1 Hin2 Hm1 Hm2 Heq.
  pose proof (mt_insert_routes _ _ _ _ Ei2) as R2.
  apply elem_of_cons in Hin1 as [E1|Hin1]; apply elem_of_cons in Hin2 as [E2|Hin2].
  - congruence.
  - injection E1 as <- <-. eapply (rebuild_conflict mm (pattern r1) es a2 b k1 k2 r2 Hl); [|done|done|done].
    rewrite R2, Hm1. by left.
  - injection E2 as <- <-. eapply (rebuild_conflict mm (pattern r2) es a2 b k2 k1 r1 Hl); [|done|done|done].
    rewrite R2, Hm2. by left.
  - by eapply (IH a2 b k1 k2 r1 r2).
Qed.

(** Two paths that are different routes of a method with the same catch-all
pattern, as "/api" and "/api/". *)
Definition same_prefix (m : HttpMethod) (path1 path2 : string) : Prop :=
  prefix_pattern (mp m) path1 = prefix_pattern (mp m) path2 ∧ route_key m path1 ≠ route_key m path2.

(** Two routes of one method whose paths differ only in trailing slashes
share a catch-all pattern, so the prefix router cannot be rebuilt: once both are
in the table, every later [add_route] that changes anything reports an error and
leaves the prefix router as it is. *)
Theorem trailing_slash_poisons (r r' : Router M) m path1 path2 r1 r2 method path bs res :
  routes r !! route_key m path1 = Some r1 → routes r !! route_key m path2 = Some r2 →
  pattern r1 = path1 → pattern r2 = path2 →
  same_prefix m path1 path2 → route_key method path ≠ route_key m path1 →
  route_key method path ≠ route_key m path2 → same_backends r (route_key method path) bs = false →
  add_route r method path bs = Ret (res, r') →
  (∃ e, res = Err e) ∧ prefix_router r' = prefix_router r.
Proof.
  intros H1 H2 Hp1 Hp2 [Heq Hne] Hn1 Hn2 Hs. unfold add_route. rewrite Hs.
  destruct (build_table bs) as [table|]; [|done]. cbn [obind routes set_routes set_health_checker].
  set (rs := <[route_key method path := _]> (routes r)).
  destruct (rebuild rs) as [pm|e] eqn:Hm; [|intros [= <- <-]; eauto]. exfalso.
  eapply (rebuild_distinct m (iter rs) mt_new pm (route_key m path1) (route_key m path2) r1 r2 Hm Hne);
    rewrite ?iter_perm, ?Hp1, ?Hp2; try apply elem_of_map_to_list; try done; unfold rs; by rewrite lookup_insert_ne.
Qed.
End theorems.

(** ** Witnesses *)
#[local] Existing Instance list_matchit.
#[local] Existing Instance key_order.

Lemma table_of_plain keys : forallb (λ '(_, path), plain_path path) keys = true → plain_table (table_of keys).
Proof.
  intros Hp k route (m & path & Hin & -> & ->)%table_of_inv. rewrite forallb_forall in Hp.
  apply (Hp (m, path)). by apply list_elem_of_In.
Qed.

Definition two_prefixes : list (HttpMethod * string) := [(GET, "/api"); (GET, "/api/v1")].

Lemma prefix_lookup_longest_witness :
  match prefix_lookup (sample_router two_prefixes) GET "/api/v1/users" with
  | Some k =>
      best_route (table_of two_prefixes) GET "/api/v1/users" k ∨
      (uncovered (table_of two_prefixes) GET "/api/v1/users" ∧ best_route (table_of two_prefixes) ALL "/api/v1/users" k)
  | None => uncovered (table_of two_prefixes) GET "/api/v1/users" ∧ uncovered (table_of two_prefixes) ALL "/api/v1/users"
  end.
Proof.
  apply (prefix_lookup_longest (sample_router two_prefixes) GET "/api/v1/users").
  - vm_compute. reflexivity.
  - apply table_of_plain. reflexivity.
  - reflexivity.
  - intros k route (m & path & Hin & -> & ->)%table_of_inv Hk. cbn in Hk. subst. unfold two_prefixes in Hin. set_solver.
Defined.

Definition root_and_api : list (HttpMethod * string) := [(ALL, "/"); (ALL, "/api")].

(** The request "/api/users" resolves to "/", although "/api" covers it and the
lookup without a method finds it. *)
Lemma root_route_shadows_witness :
  prefix_lookup (sample_router root_and_api) GET "/api/users" = Some (route_key ALL "/") ∧
  mt_at (prefix_router (sample_router root_and_api)) "/api/users" = Some (route_key ALL "/api").
Proof.
  split; [|vm_compute; reflexivity].
  apply (root_route_shadows (sample_router root_and_api) GET "/api/users" (bare_route "/")).
  - vm_compute. reflexivity.
  - apply table_of_plain. reflexivity.
  - apply sample_router_ok.
  - discriminate.
  - intros k route (m & path & Hin & -> & ->)%table_of_inv. cbn. unfold root_and_api in Hin. set_solver.
  - vm_compute. reflexivity.
  - reflexivity.
Defined.

Definition slashes : list (HttpMethod * string) := [(GET, "/api"); (GET, "/api/")].

Lemma trailing_slash_poisons_witness :
  ∃ e r', add_route (sample_router slashes) POST "/x" [] = Ret (Err e, r') ∧
    prefix_router r' = prefix_router (sample_router slashes).
Proof.
  destruct (add_route (sample_router slashes) POST "/x" []) as [[res r']|] eqn:E.
  - destruct (trailing_slash_poisons (sample_router slashes) r' GET "/api" "/api/" (bare_route "/api") (bare_route "/api/")
      POST "/x" [] res) as [[e ->] Hp];
      [vm_compute; reflexivity|vm_compute; reflexivity|reflexivity|reflexivity|
       split; [reflexivity|vm_compute; discriminate]|vm_compute; discriminate|vm_compute; discriminate|vm_compute; reflexivity|exact E|].
    exists e, r'. split; [reflexivity|exact Hp].
  - exfalso. revert E. unfold add_route, build_table, maglev_build_compact_table.
    destruct (same_backends _ _ _); [discriminate|]. rewrite bool_decide_true by reflexivity. cbn [obind].
    destruct (rebuild _); discriminate.
Defined.
