(* ===== verification/HealthSwap.v ===== *)
(** * HealthSwap: concurrent writers of the router's health data

[record_backend_response], [drain_backend] and the cleanup of [router.rs] load the
shared [HealthData], clone and change it, and store the clone: two atomic
accesses without a lock or an exchange.  The steps of any number of such writers,
and what their interleaving can lose. *)

From S2P Require Import Prelude Common Health Router.

#[local] Open Scope Z_scope.

(** A writer before its load, between load and store, and after it returned. *)
Inductive writer : Type :=
| Start (f : HealthData → HealthData)
| Loaded (f : HealthData → HealthData) (snapshot : HealthData)
| Returned.

Record health_system : Type := mk_hsystem { shared : HealthData; writers : list writer }.

Inductive health_step : health_system → health_system → Prop :=
| h_load d ws i f :
    ws !! i = Some (Start f) → health_step (mk_hsystem d ws) (mk_hsystem d (<[i := Loaded f d]> ws))
| h_store d ws i f s :
    ws !! i = Some (Loaded f s) → health_step (mk_hsystem d ws) (mk_hsystem (f s) (<[i := Returned]> ws)).

(** The change each method makes to its clone. *)
Definition respond (b : Backend) (status_code : Z) (d : HealthData) : HealthData :=
  record_response_in d b status_code.

Definition drain (b : Backend) (drain_timeout now : Z) (d : HealthData) : HealthData :=
  drain_in d b drain_timeout now.

(** A writer that runs alone applies its change. *)
Lemma writer_alone d ws i f :
  ws !! i = Some (Start f) → rtc health_step (mk_hsystem d ws) (mk_hsystem (f d) (<[i := Returned]> ws)).
Proof.
  intros Hi. eapply rtc_l; [by apply h_load|].
  rewrite <- (list_insert_insert_eq ws i Returned (Loaded f d)). apply rtc_once, h_store.
  apply list_lookup_insert_eq. by eapply lookup_lt_Some.
Qed.

(** A response that is recorded while a backend is drained.  If the two calls
run one after the other the backend is draining afterwards; but the load and the
store of a writer are two accesses, and the response can store the data it loaded
before the drain, so that both calls have returned and the backend is not
draining. *)
Theorem drain_can_be_lost b status_code drain_timeout now d :
  draining_in d b = false →
  (∃ d', rtc health_step (mk_hsystem d [Start (respond b status_code); Start (drain b drain_timeout now)])
           (mk_hsystem d' [Returned; Returned]) ∧ draining_in d' b = true) ∧
  (∃ d', rtc health_step (mk_hsystem d [Start (respond b status_code); Start (drain b drain_timeout now)])
           (mk_hsystem d' [Returned; Returned]) ∧ draining_in d' b = false).
Proof.
  intros Hd. split; eexists; (split; [|]).
  - etrans; [apply (writer_alone _ _ 0); reflexivity|].
    apply (writer_alone _ [Returned; Start (drain b drain_timeout now)] 1 (drain b drain_timeout now)). reflexivity.
  - unfold draining_in, drain, drain_in. cbn [draining_backends]. rewrite lookup_insert_eq. by apply bool_decide_eq_true.
  - eapply rtc_l; [apply (h_load _ _ 0); reflexivity|].
    etrans; [apply (writer_alone _ _ 1); reflexivity|].
    apply rtc_once. apply (h_store _ [Loaded (respond b status_code) d; Returned] 0). reflexivity.
  - exact Hd.
Qed.

Lemma drain_can_be_lost_witness :
  let b := from_ipv4 (mk_ipv4 10 0 0 1) 80 100 in
  let σ := mk_hsystem health_data_new [Start (respond b 200); Start (drain b 30000000000 0)] in
  (∃ d', rtc health_step σ (mk_hsystem d' [Returned; Returned]) ∧ draining_in d' b = true) ∧
  (∃ d', rtc health_step σ (mk_hsystem d' [Returned; Returned]) ∧ draining_in d' b = false).
Proof. apply drain_can_be_lost. reflexivity. Defined.
