(* ===== verification/RequestHandler.v ===== *)
(** * RequestHandler: the request pipeline ([request_handler.rs], [error.rs])

One request from arrival to answer: built-in endpoints, routing, worker
selection, redirect, rate limit, request filters, circuit breaker, the attempts
with their retries, the accounting of the result, and the response filters.

What the network does is an input: the outcome of each attempt, and whether the
first one exceeds the overall timeout. *)

From S2P Require Import Prelude Common Maglev Float Health HealthChecker Filters Matching RouteCache Matchit.
From S2P Require Import Selection Router RouterSpec RateLimiter CowMap CircuitBreaker BreakerManager.

#[local] Open Scope Z_scope.
#[local] Open Scope rauta_scope.

(** ** Errors *)
Inductive ProxyError : Type :=
| TimeoutError (message : string)
| BackendError (message : string)
| BodyTooLarge (size max : Z)
| FilterError (message : string).

Definition error_status_code (e : ProxyError) : Z :=
  match e with
  | TimeoutError _ => 504 | BackendError _ => 502 | BodyTooLarge _ _ => 413 | FilterError _ => 500
  end.

Definition error_status_str (e : ProxyError) : string :=
  match e with
  | TimeoutError _ => "504" | BackendError _ => "502" | BodyTooLarge _ _ => "413" | FilterError _ => "500"
  end.

Definition is_timeout (e : ProxyError) : bool := match e with TimeoutError _ => true | _ => false end.

Definition error_to_string (e : ProxyError) : string :=
  match e with
  | TimeoutError m | BackendError m | FilterError m => m
  | BodyTooLarge size max =>
      "Request body too large: " +:+ show_Z size +:+ " bytes (max " +:+ show_Z max +:+ ")"
  end.

Definition is_body_too_large (e : ProxyError) : bool :=
  match e with BodyTooLarge _ _ => true | _ => false end.

(** ** Workers *)
Record WorkerSelector : Type := mk_selector { counter : Z; num_workers : Z }.

Definition selector_new (num_workers : Z) : WorkerSelector := mk_selector 0 num_workers.

(** [fetch_add] wraps; the remainder by zero panics. *)
Definition select_worker (s : WorkerSelector) : outcome (Z * WorkerSelector) :=
  if num_workers s =? 0 then Panic
  else Ret (counter s mod num_workers s, mk_selector (wrap 64 (counter s + 1)) (num_workers s)).

Definition status_to_str (status : Z) : string :=
  if bool_decide (status ∈ [200; 201; 204; 301; 302; 304; 400; 401; 403; 404; 500; 502; 503; 504])
  then show_Z status else "other".

Definition method_of (name : string) : HttpMethod :=
  if String.eqb name "GET" then GET else if String.eqb name "POST" then POST
  else if String.eqb name "PUT" then PUT else if String.eqb name "DELETE" then DELETE
  else if String.eqb name "HEAD" then HEAD else if String.eqb name "OPTIONS" then OPTIONS
  else if String.eqb name "PATCH" then PATCH else GET.

(** ** Retries *)

(** [is_hop_by_hop_header] of the forwarder. *)
Definition is_hop_by_hop_header (name : string) : bool :=
  existsb (eq_ignore_ascii_case name)
    ["connection"; "keep-alive"; "proxy-authenticate"; "proxy-authorization"; "te"; "trailer";
     "transfer-encoding"; "upgrade"].

(** The request a retry sends: its body is empty. *)
Record RetryRequest : Type := mk_retry_request {
  rr_method : string;
  rr_uri : string;
  rr_headers : list (string * string)
}.

Definition keeps_header (name : string) : bool :=
  negb (String.eqb name "host") && negb (String.eqb name "content-length") &&
  negb (String.eqb name "content-type") && negb (String.eqb name "content-encoding") &&
  negb (is_hop_by_hop_header name).

Definition retry_request (method : HttpMethod) (path : string) (b : Backend)
    (original_headers : list (string * string)) : RetryRequest :=
  mk_retry_request (match method with HEAD => "HEAD" | _ => "GET" end)
    ("http://" +:+ backend_to_string b +:+ path)
    (filter (λ p, keeps_header p.1 = true) original_headers ++ [("host", backend_to_string b)]).

(** What happens outside the program: the outcome of [forward_to_backend], whether
it exceeds the overall timeout, whether the request builder accepts a retry, and
what the client gets when it sends one (counted from one). *)
Record Network (Resp : Type) : Type := mk_network {
  forward_to_backend : result Resp ProxyError;
  exceeds : bool;
  build_error : RetryRequest → option string;
  client_request : RetryRequest → nat → result Resp string
}.
Arguments mk_network {Resp} _ _ _ _.
Arguments forward_to_backend {Resp} _.
Arguments exceeds {Resp} _.
Arguments build_error {Resp} _ _.
Arguments client_request {Resp} _ _ _.

Section retry.
Context {Resp : Type} (status_of : Resp → Z).

Abbreviation attempt_result := (result Resp ProxyError).

Definition should_retry (c : RetryConfig) (r : attempt_result) : bool :=
  match r with
  | Ok resp => should_retry_status c (status_of resp)
  | Err _ => retry_on_connection_error c
  end.

(** The first attempt under the overall timeout. *)
Definition execute_without_retry (overall_timeout : option Z) (net : Network Resp) : attempt_result :=
  match overall_timeout with
  | Some d =>
      if exceeds net
      then Err (TimeoutError ("Request exceeded " +:+ show_Z (as_millis d) +:+ "ms overall timeout"))
      else forward_to_backend net
  | None => forward_to_backend net
  end.

Definition retry_failed (r : result Resp string) : attempt_result :=
  match r with
  | Ok resp => Ok resp
  | Err e => Err (BackendError ("Retry request failed: " +:+ e))
  end.

(** The [while] loop: [attempt] counts from one; the result, and the backoff
delays slept. *)
Fixpoint retry_loop (c : RetryConfig) (net : Network Resp) (req : RetryRequest) (attempt remaining : nat)
    (last_result : attempt_result) : attempt_result * list Z :=
  match remaining with
  | O => (last_result, [])
  | S remaining =>
      let backoff_delay := calculate_delay c (Z.of_nat attempt - 1) in
      match build_error net req with
      | Some e => (Err (BackendError ("Failed to build retry request: " +:+ e)), [backoff_delay])
      | None =>
          let retry_result := retry_failed (client_request net req attempt) in
          if should_retry c retry_result
          then let '(r, ds) := retry_loop c net req (S attempt) remaining retry_result in (r, backoff_delay :: ds)
          else (retry_result, [backoff_delay])
      end
  end.

Definition execute_with_retry (c : RetryConfig) (overall_timeout : option Z) (req : RetryRequest)
    (net : Network Resp) : attempt_result * list Z :=
  let max_attempts := wrap 32 (max_retries c + 1) in
  let first_result := execute_without_retry overall_timeout net in
  if negb (should_retry c first_result) || (max_attempts <=? 1) then (first_result, [])
  else retry_loop c net req 1 (Z.to_nat (max_attempts - 1)) first_result.

Definition execute_request_with_retry (method : HttpMethod) (timeout : option Timeout) (retry : option RetryConfig)
    (req : RetryRequest) (net : Network Resp) : attempt_result * list Z :=
  let overall_request_timeout := timeout ≫= request_timeout in
  match bool_decide (method = GET ∨ method = HEAD), retry with
  | true, Some c => execute_with_retry c overall_request_timeout req net
  | _, _ => (execute_without_retry overall_request_timeout net, [])
  end.

(** *** Specification of the retries *)

(** The result of the [i]-th attempt. *)
Definition seen (overall : option Z) (req : RetryRequest) (net : Network Resp) (i : nat) : attempt_result :=
  match i, build_error net req with
  | O, _ => execute_without_retry overall net
  | _, Some e => Err (BackendError ("Failed to build retry request: " +:+ e))
  | _, None => retry_failed (client_request net req i)
  end.

(** An attempt after which another may follow: its result is to be retried, and it
is not a retry that could not be built. *)
Definition goes_on (c : RetryConfig) (overall : option Z) (req : RetryRequest) (net : Network Resp) (i : nat) : bool :=
  should_retry c (seen overall req net i) &&
  ((i =? 0)%nat || bool_decide (build_error net req = None)).

(** The index of the attempt whose result is final: the first after which no other
may follow among [i..i + remaining], or the last. *)
Fixpoint final_attempt (on : nat → bool) (i remaining : nat) : nat :=
  match remaining with
  | O => i
  | S remaining => if on i then final_attempt on (S i) remaining else i
  end.

Definition delays (c : RetryConfig) (i k : nat) : list Z :=
  (λ j, calculate_delay c (Z.of_nat j)) <$> seq i (k - i).

Lemma final_attempt_range on : ∀ n i, (i <= final_attempt on i n <= i + n)%nat.
Proof.
  induction n as [|n IH]; intros i; cbn [final_attempt]; [lia|].
  destruct (on i); [|lia]. specialize (IH (S i)). lia.
Qed.

Lemma final_attempt_spec on : ∀ n i,
  (∀ j, (i <= j < final_attempt on i n)%nat → on j = true) ∧
  (final_attempt on i n = (i + n)%nat ∨ on (final_attempt on i n) = false).
Proof.
  induction n as [|n IH]; intros i; cbn [final_attempt]; [split; [lia|left; lia]|].
  destruct (on i) eqn:E; [|split; [lia|by right]].
  destruct (IH (S i)) as [G1 G2]. split; [|destruct G2; [left; lia|by right]].
  intros j Hj. destruct (decide (j = i)) as [->|Hne]; [done|]. apply G1. lia.
Qed.

Lemma final_attempt_stop on n i : on i = false → final_attempt on i n = i.
Proof. intros E. destruct n; cbn [final_attempt]; by rewrite ?E. Qed.

Lemma retry_loop_spec c overall req net n : ∀ i,
  goes_on c overall req net i = true →
  let k := final_attempt (goes_on c overall req net) i n in
  retry_loop c net req (S i) n (seen overall req net i) = (seen overall req net k, delays c i k).
Proof.
  induction n as [|n IH]; intros i Hi; cbn [retry_loop final_attempt].
  { unfold delays. by rewrite Nat.sub_diag. }
  rewrite Hi. replace (Z.of_nat (S i) - 1) with (Z.of_nat i) by lia.
  assert (seen overall req net (S i) = match build_error net req with
    | Some e => Err (BackendError ("Failed to build retry request: " +:+ e))
    | None => retry_failed (client_request net req (S i)) end) as Hs by done.
  assert (delays c i (S i) = [calculate_delay c (Z.of_nat i)]) as Hd
    by (unfold delays; by replace (S i - i)%nat with 1%nat by lia).
  assert (goes_on c overall req net (S i) =
    should_retry c (seen overall req net (S i)) && bool_decide (build_error net req = None)) as Hg by done.
  destruct (build_error net req) as [e|].
  - rewrite final_attempt_stop, Hs, Hd; [done|]. rewrite Hg. by rewrite andb_false_r.
  - rewrite <- Hs. rewrite bool_decide_true, andb_true_r in Hg by done.
    rewrite <- Hg. destruct (goes_on c overall req net (S i)) eqn:E.
    + rewrite (IH (S i) E). f_equal. unfold delays.
      pose proof (final_attempt_range (goes_on c overall req net) n (S i)).
      by replace (final_attempt (goes_on c overall req net) (S i) n - i)%nat
        with (S (final_attempt (goes_on c overall req net) (S i) n - S i)) by lia.
    + by rewrite final_attempt_stop, Hd.
Qed.

Lemma execute_with_retry_final c overall req net :
  0 <= max_retries c < 2 ^ 32 - 1 →
  let k := final_attempt (goes_on c overall req net) 0 (Z.to_nat (max_retries c)) in
  execute_with_retry c overall req net = (seen overall req net k, delays c 0 k).
Proof.
  intros Hm. unfold execute_with_retry. rewrite wrap_small by (unfold in_width; lia).
  change (execute_without_retry overall net) with (seen overall req net 0).
  assert (goes_on c overall req net 0 = should_retry c (seen overall req net 0)) as Hg
    by (unfold goes_on; by rewrite andb_true_r).
  rewrite <- Hg. destruct (goes_on c overall req net 0) eqn:Hs; cbn [negb orb].
  - destruct (_ <=? 1) eqn:E; zbool.
    + replace (Z.to_nat (max_retries c)) with 0%nat by lia. done.
    + replace (max_retries c + 1 - 1) with (max_retries c) by lia. by apply retry_loop_spec.
  - by rewrite final_attempt_stop.
Qed.
End retry.

Lemma delays_bound c i k :
  (i <= k)%nat → foldr Z.add 0 (delays c i k) <= Z.of_nat (k - i) * max_delay c.
Proof.
  intros Hik. unfold delays. generalize (k - i)%nat as n. clear Hik. intros n. revert i.
  induction n as [|n IH]; intros i; cbn [seq fmap list_fmap foldr]; [lia|]. specialize (IH (S i)).
  assert (calculate_delay c (Z.of_nat i) <= max_delay c) by (unfold calculate_delay; lia). lia.
Qed.

(** C20: retries of a GET or HEAD.  For every behaviour of the network, the result
is that of the first attempt that is not to be retried (or that is a retry that
could not be built), or of the last one allowed; there are at most
[max_retries + 1] attempts, the delays slept before the retries are those of the
backoff in order, and together they do not exceed [max_retries * max_delay]. *)
Theorem retry_correct {Resp} (status_of : Resp → Z) c overall req net :
  retry_wf c → max_retries c < 2 ^ 32 - 1 →
  let on := goes_on status_of c overall req net in
  let max := Z.to_nat (max_retries c) in
  ∃ k, (k <= max)%nat ∧
    execute_with_retry status_of c overall req net = (seen overall req net k, delays c 0 k) ∧
    (∀ j, (j < k)%nat → on j = true) ∧
    (k = max ∨ on k = false) ∧
    foldr Z.add 0 (delays c 0 k) <= max_retries c * max_delay c.
Proof.
  intros (Hb & Hd & Hm) Hlt on max. exists (final_attempt on 0 max).
  pose proof (final_attempt_range on max 0) as Hr. destruct (final_attempt_spec on max 0) as [G1 G2].
  split; [lia|]. split; [apply execute_with_retry_final; lia|]. split; [intros j Hj; apply G1; lia|].
  split; [done|]. pose proof (delays_bound c 0 (final_attempt on 0 max) ltac:(lia)). rewrite Nat.sub_0_r in *.
  assert (Z.of_nat (final_attempt on 0 max) <= max_retries c) by lia. nia.
Qed.

Lemma retry_correct_witness :
  let req := mk_retry_request "GET" "http://10.0.0.1:80/api" [] in
  let net : Network Z := mk_network (Ok 503) false (λ _, None) (λ _ i, Ok (if (i =? 2)%nat then 200 else 503)) in
  ∃ k, (k <= 3)%nat ∧
    execute_with_retry id retry_default None req net = (seen None req net k, delays retry_default 0 k) ∧
    (∀ j, (j < k)%nat → goes_on id retry_default None req net j = true) ∧
    (k = 3%nat ∨ goes_on id retry_default None req net k = false) ∧
    foldr Z.add 0 (delays retry_default 0 k) <= 3 * 1000000000.
Proof.
  intros req net. apply (retry_correct id retry_default None req net); [|reflexivity].
  repeat split; vm_compute; (discriminate || reflexivity).
Defined.

(** ** The pipeline *)
Section handler.
Context {M : Type} `{!Matchit RouteKey M} `{!MapOrder} {Hdr : Type} `{!HeaderMap Hdr}.

Record Request : Type := mk_request {
  req_method : string;
  req_target : request_target;
  req_headers : Hdr;
  req_path_and_query : option string;
  req_x_request_id : option string    (* the [x-request-id] header, when it is visible ASCII *)
}.

Record Response : Type := mk_response {
  resp_status : Z;
  resp_headers : Hdr;
  resp_body : string
}.

(** The shared state a request reads and writes. *)
Record Server : Type := mk_server {
  srv_router : Router M;
  srv_limiter : RateLimiter;
  srv_breakers : Manager;
  srv_selector : option WorkerSelector;
  srv_requests_total : gmap (string * string * string * string) Z;
  srv_request_duration : gmap (string * string * string) (list Z)
}.

Definition set_router (s : Server) (x : Router M) : Server :=
  mk_server x (srv_limiter s) (srv_breakers s) (srv_selector s) (srv_requests_total s) (srv_request_duration s).
Definition set_limiter (s : Server) (x : RateLimiter) : Server :=
  mk_server (srv_router s) x (srv_breakers s) (srv_selector s) (srv_requests_total s) (srv_request_duration s).
Definition set_breakers (s : Server) (x : Manager) : Server :=
  mk_server (srv_router s) (srv_limiter s) x (srv_selector s) (srv_requests_total s) (srv_request_duration s).
Definition set_selector (s : Server) (x : option WorkerSelector) : Server :=
  mk_server (srv_router s) (srv_limiter s) (srv_breakers s) x (srv_requests_total s) (srv_request_duration s).

(** The counter and the histogram of one answered request. *)
Definition observe_request (s : Server) (method route status worker : string) (duration : Z) : Server :=
  let key := (method, route, status) in
  mk_server (srv_router s) (srv_limiter s) (srv_breakers s) (srv_selector s)
    (inc (method, route, status, worker) (srv_requests_total s))
    (<[key := default [] (srv_request_duration s !! key) ++ [duration]]> (srv_request_duration s)).

(** *** Answers *)
Definition with_headers (hs : list (string * string)) : Hdr :=
  foldl (λ h '(n, v), hm_append h n v) hm_empty hs.

Definition build_error_response (status : Z) (message : string) : Response :=
  mk_response status (with_headers [("content-type", "text/plain")]) message.

Definition build_not_found_response (request_id : string) : Response :=
  mk_response 404 (with_headers [("x-request-id", request_id)]) "Not Found".

Definition build_rate_limit_response : Response :=
  mk_response 429 (with_headers [("content-type", "text/plain"); ("retry-after", "1")]) "Rate limit exceeded".

Definition build_circuit_breaker_response : Response :=
  mk_response 503 (with_headers [("content-type", "text/plain"); ("retry-after", "30")])
    "Backend temporarily unavailable (circuit breaker open)".

Definition error_to_response (e : ProxyError) (request_id : string) : Response :=
  mk_response (error_status_code e)
    (with_headers [("content-type", "text/plain"); ("x-request-id", request_id)]) (error_to_string e).

Definition redirect_response (status : Z) (location : string) : Response :=
  mk_response status (with_headers [("location", location)]) "".

Definition serve_healthz_endpoint : Response :=
  mk_response 200 (with_headers [("content-type", "text/plain")]) "ok".

Definition quote : string := String (ascii_of_N 34) "".

Definition serve_status_endpoint (s : Server) (uptime : Z) : Response :=
  mk_response 200 (with_headers [("content-type", "application/json")])
    ("{" +:+ quote +:+ "status" +:+ quote +:+ ":" +:+ quote +:+ "ok" +:+ quote +:+ "," +:+
     quote +:+ "uptime_seconds" +:+ quote +:+ ":" +:+ show_Z uptime +:+ "," +:+
     quote +:+ "routes" +:+ quote +:+ ":" +:+ show_Z (Z.of_nat (route_count (srv_router s))) +:+ "}").

(** What the metrics libraries give: the encoded registries or the error, the
text of the pools, the text of the gateway index. *)
Record MetricsText : Type := mk_metrics_text {
  format_type : string;
  encoded : result string string;
  pool_metrics : option string;
  gateway_index : string
}.

Definition newline : string := String (ascii_of_N 10) "".

Definition serve_metrics_endpoint (x : MetricsText) : Response :=
  match encoded x with
  | Err e => build_error_response 500 ("Failed to encode metrics: " +:+ e)
  | Ok buffer =>
      let buffer := buffer +:+ default "" (pool_metrics x) in
      let buffer := if String.eqb (gateway_index x) "" then buffer else buffer +:+ newline +:+ gateway_index x in
      mk_response 200 (with_headers [("content-type", format_type x)]) buffer
  end.

(** [finalize_response] *)
Definition finalize_response (r : result Response ProxyError) (filters : option HeaderModifier)
    (request_id : string) : Response :=
  match r with
  | Err e => error_to_response e request_id
  | Ok resp =>
      match filters with
      | None => resp
      | Some f =>
          match apply_header_filters (resp_headers resp) (operations f) with
          | Ok h => mk_response (resp_status resp) h (resp_body resp)
          | Err e => build_error_response 500 ("Response filter error: " +:+ e)
          end
      end
  end.

(** [record_request_metrics] *)
Definition record_request_metrics (s : Server) (r : result Response ProxyError) (method : HttpMethod)
    (route_pattern : string) (worker_index : option Z) (duration : Z) (b : Backend) (backend_id : string)
    (now : Z) : Server :=
  let worker_label := default "none" (show_Z <$> worker_index) in
  match r with
  | Ok resp =>
      let status_code := resp_status resp in
      let s := observe_request s (method_to_str method) route_pattern (status_to_str status_code) worker_label duration in
      let s := set_router s (record_backend_response (srv_router s) b status_code) in
      if 500 <=? status_code
      then set_breakers s (manager_record_failure (srv_breakers s) backend_id now)
      else set_breakers s (manager_record_success (srv_breakers s) backend_id now)
  | Err e =>
      let s := observe_request s (method_to_str method) route_pattern (error_status_str e) worker_label duration in
      if negb (is_body_too_large e) then
        let s := set_router s (record_backend_response (srv_router s) b (error_status_code e)) in
        set_breakers s (manager_record_failure (srv_breakers s) backend_id now)
      else s
  end.

Definition record_not_found_metrics (s : Server) (method : HttpMethod) (duration : Z) : Server :=
  observe_request s (method_to_str method) "not_found" "404" "none" duration.

(** The request a retry of [req] would send. *)
Definition retry_of (req : Request) (method : HttpMethod) (m : RouteMatch) : RetryRequest :=
  retry_request method (default (uri_path (req_target req)) (req_path_and_query req)) (rm_backend m)
    (hm_iter (req_headers req)).

(** From the circuit breaker on: the attempts, their accounting, the answer.  The
request is admitted at [now]; its result is recorded at [later]. *)
Definition forward (s : Server) (req : Request) (request_id : string) (m : RouteMatch) (method : HttpMethod)
    (worker_index : option Z) (now later : Z) (net : Network Response) : Response * Server :=
  let backend_id := backend_to_string (rm_backend m) in
  let '(allowed, breakers) := manager_allow_request (srv_breakers s) backend_id now in
  let s := set_breakers s breakers in
  if negb allowed then (build_circuit_breaker_response, s)
  else
    let '(r, _) := execute_request_with_retry resp_status method (rm_timeout m) (rm_retry m)
                     (retry_of req method m) net in
    let s := record_request_metrics s r method (rm_pattern m) worker_index (later - now) (rm_backend m)
               backend_id later in
    (finalize_response r (rm_response_filters m) request_id, s).

(** A request that was routed. *)
Definition handle_match (s : Server) (req : Request) (request_id : string) (m : RouteMatch) (method : HttpMethod)
    (now later : Z) (net : Network Response) : outcome (Response * Server) :=
  w <-! match srv_selector s with
        | Some sel => x <-! select_worker sel ;; Ret (Some x.1, Some x.2)
        | None => Ret (None, None)
        end ;;
  let '(worker_index, selector) := w in
  let s := set_selector s selector in
  match rm_redirect m with
  | Some redirect =>
      match build_redirect_response (req_target req) redirect with
      | Ok (status, location) => Ret (redirect_response status location, s)
      | Err e => Ret (build_error_response 500 ("Redirect error: " +:+ e), s)
      end
  | None =>
      let '(ok, limiter) := check_rate_limit (srv_limiter s) (rm_pattern m) now in
      let s := set_limiter s limiter in
      if negb ok then Ret (build_rate_limit_response, s)
      else
        match rm_request_filters m with
        | None => Ret (forward s req request_id m method worker_index now later net)
        | Some filters =>
            match apply_header_filters (req_headers req) (operations filters) with
            | Err e => Ret (build_error_response 500 ("Filter error: " +:+ e), s)
            | Ok h =>
                let req := mk_request (req_method req) (req_target req) h (req_path_and_query req)
                             (req_x_request_id req) in
                Ret (forward s req request_id m method worker_index now later net)
            end
        end
  end.

(** [fresh_id] is the identifier generated when the request has none. *)
Definition handle_request (s : Server) (req : Request) (fresh_id : string) (now later uptime : Z)
    (metrics : MetricsText) (net : Network Response) : outcome (Response * Server) :=
  let request_id := default fresh_id (req_x_request_id req) in
  let path := uri_path (req_target req) in
  let is_get := String.eqb (req_method req) "GET" in
  if String.eqb path "/metrics" && is_get then Ret (serve_metrics_endpoint metrics, s)
  else if String.eqb path "/healthz" && is_get then Ret (serve_healthz_endpoint, s)
  else if String.eqb path "/status" && is_get then Ret (serve_status_endpoint s uptime, s)
  else
    let method := method_of (req_method req) in
    sel <-! select_backend (srv_router s) method path None None ;;
    let '(route_match, router) := sel in
    let s := set_router s router in
    match route_match with
    | Some m => handle_match s req request_id m method now later net
    | None => Ret (build_not_found_response request_id, record_not_found_metrics s method (later - now))
    end.
End handler.
Arguments Server M : clear implicits.
Arguments Request Hdr : clear implicits.
Arguments Response Hdr : clear implicits.

(** ** What the gates let through *)
Section theorems.
Context {M : Type} `{!Matchit RouteKey M} `{!MapOrder} {Hdr : Type} `{!HeaderMap Hdr}.

(** A retry names its backend as the host, and of the other headers it carries all
the values of those that are end to end and do not describe a body. *)
Lemma retry_keeps_headers (req : Request Hdr) method m k :
  (filter (λ p, p.1 = k) (rr_headers (retry_of req method m))).*2 =
    if decide (k = "host") then [backend_to_string (rm_backend m)]
    else if keeps_header k then get_all (req_headers req) k else [].
Proof.
  cbn [rr_headers retry_of retry_request]. rewrite filter_app, fmap_app, filter_cons. cbn [fst].
  assert (filter (λ p, p.1 = k) (filter (λ p, keeps_header p.1 = true) (hm_iter (req_headers req))) =
    if keeps_header k then filter (λ p, p.1 = k) (hm_iter (req_headers req)) else []) as ->.
  { rewrite list_filter_filter. destruct (keeps_header k) eqn:E.
    - apply list_filter_iff. naive_solver.
    - generalize (hm_iter (req_headers req)) as l. induction l as [|p l IH]; [done|].
      rewrite filter_cons, decide_False; [done|]. intros [<- ?]. congruence. }
  destruct (decide (k = "host")) as [->|Hne]; [done|].
  rewrite decide_False by congruence. cbn. rewrite app_nil_r. destruct (keeps_header k); [apply iter_get|done].
Qed.

Abbreviation network_t := (Network (Response Hdr)).

(** The result [forward] accounts for, when the breaker admits the request. *)
Definition attempt (req : Request Hdr) (m : RouteMatch) (method : HttpMethod) (network : network_t)
  : result (Response Hdr) ProxyError :=
  (execute_request_with_retry resp_status method (rm_timeout m) (rm_retry m) (retry_of req method m) network).1.

(** The breaker call that accounts for a result, if any. *)
Definition account (id : string) (r : result (Response Hdr) ProxyError) : option call :=
  match r with
  | Ok resp => Some (if 500 <=? resp_status resp then CallFailure id else CallSuccess id)
  | Err e => if is_body_too_large e then None else Some (CallFailure id)
  end.

Lemma record_breakers (s : Server M) r method pat w d b id now :
  srv_breakers (record_request_metrics s r method pat w d b id now) =
    match account id r with
    | Some c => run_call (srv_breakers s) (c, now)
    | None => srv_breakers s
    end.
Proof.
  unfold record_request_metrics, account. destruct r as [resp|e].
  - by destruct (500 <=? resp_status resp).
  - by destruct (is_body_too_large e).
Qed.

Lemma forward_breakers (s : Server M) req rid m method w now later network :
  let id := backend_to_string (rm_backend m) in
  let '(allowed, b1) := manager_allow_request (srv_breakers s) id now in
  srv_breakers (forward s req rid m method w now later network).2 =
    (if allowed then
       match account id (attempt req m method network) with
       | Some c => run_call b1 (c, later)
       | None => b1
       end
     else b1) ∧
  (allowed = false → (forward s req rid m method w now later network).1 = build_circuit_breaker_response).
Proof.
  unfold forward, attempt. destruct (manager_allow_request _ _ now) as [allowed b1].
  destruct allowed; cbn [negb]; [|done].
  destruct (execute_request_with_retry _ _ _ _ _ _) as [r ds]. cbn [fst snd]. split; [|done].
  rewrite record_breakers. done.
Qed.

(** The breaker of the request's backend before and after [allow_request]. *)
Lemma manager_allow_spec mg id now :
  manager_ok mg →
  let cb := default (new (default_failure_threshold mg) (default_timeout mg) now) (breaker_of mg id) in
  let '(allowed, mg') := manager_allow_request mg id now in
  manager_ok mg' ∧ allowed = (allow_request cb now).1 ∧ breaker_of mg' id = Some (allow_request cb now).2 ∧
  default_failure_threshold mg' = default_failure_threshold mg ∧ default_timeout mg' = default_timeout mg.
Proof.
  intros Hok cb. destruct (run_call_spec mg (CallAllow id) now Hok) as (Hok' & Ht & Hto & Hown & _ & _).
  cbn [run_call call_id] in *. pose proof (get_breaker_spec mg id now Hok) as G.
  unfold manager_allow_request in *. destruct (get_breaker mg id now) as [a m1].
  destruct G as (_ & _ & _ & _ & _ & Hd & _). fold cb in Hd. rewrite Hd in *.
  destruct (allow_request cb now) as [r cb'] eqn:E. cbn [fst snd] in *.
  split_and!; try done. rewrite Hown. unfold apply_call. cbn. fold cb. by rewrite E.
Qed.

(** A request on a backend whose breaker rejects it changes nothing but the
breaker's own word. *)
Lemma forward_rejected (s : Server M) req rid m method w now later network cb :
  let id := backend_to_string (rm_backend m) in
  manager_ok (srv_breakers s) → breaker_of (srv_breakers s) id = Some cb → allow_request cb now = (false, cb) →
  let '(resp, s') := forward s req rid m method w now later network in
  resp = build_circuit_breaker_response ∧ manager_ok (srv_breakers s') ∧
  breaker_of (srv_breakers s') id = Some cb.
Proof.
  intros id Hok Hb Ha. pose proof (manager_allow_spec (srv_breakers s) id now Hok) as A.
  rewrite Hb in A. cbn [from_option Datatypes.id] in A. rewrite Ha in A.
  pose proof (forward_breakers s req rid m method w now later network) as F. cbv zeta in F. fold id in F.
  destruct (manager_allow_request (srv_breakers s) id now) as [allowed b1].
  destruct A as (Hok1 & -> & Hb1 & _). destruct F as [F1 F2].
  destruct (forward s req rid m method w now later network) as [resp s']. cbn [fst snd] in *.
  rewrite F1. split_and!; [by apply F2|done|done].
Qed.

(** ** A request that is too large keeps its half-open slot *)
Fixpoint forwards (s : Server M) (req : Request Hdr) (rid : string) (m : RouteMatch) (method : HttpMethod)
    (calls : list (Z * Z * network_t)) : list (Response Hdr) * Server M :=
  match calls with
  | [] => ([], s)
  | (now, later, network) :: calls =>
      let '(resp, s) := forward s req rid m method None now later network in
      let '(rs, s) := forwards s req rid m method calls in (resp :: rs, s)
  end.

(** A half-open breaker lends a slot to each probe and gets it back when a
success or a failure is recorded.  A request whose body is too large records
neither: if it takes the last slot, the backend is cut off for good: every later
request to it, at any time and whatever the backend would answer, is rejected by
the breaker. *)
Theorem oversized_probe_blocks_backend (s : Server M) req rid m method now later network calls cb succ size max :
  let id := backend_to_string (rm_backend m) in
  manager_ok (srv_breakers s) → breaker_of (srv_breakers s) id = Some cb → config_ok cb →
  packed cb = encode (VHalfOpen succ (half_open_max_requests cb - 1)) →
  0 <= succ < half_open_max_requests cb → 2 <= half_open_max_requests cb →
  attempt req m method network = Err (BodyTooLarge size max) →
  let '(resp, s1) := forward s req rid m method None now later network in
  resp_status resp = 413 ∧
  Forall (λ r, r = build_circuit_breaker_response) (forwards s1 req rid m method calls).1.
Proof.
  intros id Hok Hb Hcfg Hp Hs H2 Hatt. set (mx := half_open_max_requests cb) in *.
  set (cb1 := CircuitBreaker.set_packed cb (encode (VHalfOpen succ mx))).
  assert (allow_request cb now = (true, cb1)) as Ha.
  { rewrite (half_open_allow cb succ (mx - 1) now Hcfg Hp Hs) by lia. fold mx.
    destruct (_ <? _) eqn:E; zbool; [|lia]. unfold cb1. by replace (mx - 1 + 1) with mx by lia. }
  assert (∀ t, allow_request cb1 t = (false, cb1)) as Hrej.
  { intros t. assert (half_open_max_requests cb1 = mx) as Emx by reflexivity.
    rewrite (half_open_allow cb1 succ mx t) by (assumption || reflexivity || (rewrite Emx; lia)).
    rewrite Emx. destruct (_ <? _) eqn:E; zbool; [lia|done]. }
  pose proof (manager_allow_spec (srv_breakers s) id now Hok) as A.
  rewrite Hb in A. cbn [from_option Datatypes.id] in A. rewrite Ha in A. unfold id in A.
  pose proof (forward_breakers s req rid m method None now later network) as F. cbv zeta in F.
  assert ((forward s req rid m method None now later network).1 =
    if (manager_allow_request (srv_breakers s) (backend_to_string (rm_backend m)) now).1
    then finalize_response (attempt req m method network) (rm_response_filters m) rid
    else build_circuit_breaker_response) as Hresp.
  { unfold forward, attempt. destruct (manager_allow_request _ _ now) as [[] b1]; cbn [negb fst]; [|done].
    by destruct (execute_request_with_retry _ _ _ _ _ _). }
  destruct (manager_allow_request (srv_breakers s) (backend_to_string (rm_backend m)) now) as [allowed b1].
  destruct A as (Hok1 & -> & Hb1 & _). destruct F as [F1 _]. rewrite Hatt in F1, Hresp. cbn in F1, Hresp.
  destruct (forward s req rid m method None now later network) as [resp s1]. cbn [fst snd] in *.
  split; [by rewrite Hresp|]. rewrite <- F1 in Hok1, Hb1. clear -Hrej Hok1 Hb1.
  revert s1 Hok1 Hb1. induction calls as [|[[t tr] net] calls IH]; intros s1 Hok1 Hb1; [constructor|].
  cbn [forwards]. pose proof (forward_rejected s1 req rid m method None t tr net cb1 Hok1 Hb1 (Hrej t)) as R.
  destruct (forward s1 req rid m method None t tr net) as [resp s2]. destruct R as (-> & Hok2 & Hb2).
  specialize (IH s2 Hok2 Hb2). destruct (forwards s2 req rid m method calls) as [rs s3]. by constructor.
Qed.

(** ** A backend that keeps failing is cut off *)

(** A request that reached the breaker, with what it is matched to, when it is admitted and
accounted for, and the network it finds. *)
Record Forward : Type := mk_forward {
  fw_request : Request Hdr;
  fw_id : string;
  fw_match : RouteMatch;
  fw_method : HttpMethod;
  fw_worker : option Z;
  fw_now : Z;
  fw_later : Z;
  fw_network : network_t
}.

Definition run_forward (s : Server M) (c : Forward) : Response Hdr * Server M :=
  forward s (fw_request c) (fw_id c) (fw_match c) (fw_method c) (fw_worker c) (fw_now c) (fw_later c) (fw_network c).

Fixpoint run_forwards (s : Server M) (cs : list Forward) : list (Response Hdr) * Server M :=
  match cs with
  | [] => ([], s)
  | c :: cs =>
      let '(resp, s) := run_forward s c in
      let '(rs, s) := run_forwards s cs in (resp :: rs, s)
  end.

Definition fw_backend (c : Forward) : string := backend_to_string (rm_backend (fw_match c)).

(** Its attempts end with a 5xx answer or with an error other than an oversized body. *)
Definition fails (c : Forward) : Prop :=
  match attempt (fw_request c) (fw_match c) (fw_method c) (fw_network c) with
  | Ok resp => 500 <= resp_status resp
  | Err e => is_body_too_large e = false
  end.

Lemma fails_account c : fails c →
  account (fw_backend c) (attempt (fw_request c) (fw_match c) (fw_method c) (fw_network c)) = Some (CallFailure (fw_backend c)).
Proof.
  unfold fails, account. destruct (attempt _ _ _ _) as [resp|e]; [|by intros ->]. intros ?. by rewrite (proj2 (Z.leb_le _ _)).
Qed.

Lemma allow_closed cb f now :
  config_ok cb → packed cb = encode (VClosed f) → 0 <= f < failure_threshold cb →
  allow_request cb now = (true, cb).
Proof.
  intros Hcfg Hp Hf. unfold allow_request. destruct Hcfg as [[? ?] ?].
  by rewrite Hp, (allow_body_encode cb ltac:(split; lia) (VClosed f)) by (cbn; lia).
Qed.

(** A request to another backend does not touch the breaker of this one. *)
Lemma forward_other (s : Server M) c id :
  manager_ok (srv_breakers s) → fw_backend c ≠ id →
  let mg := srv_breakers s in
  let mg' := srv_breakers (run_forward s c).2 in
  manager_ok mg' ∧ breaker_of mg' id = breaker_of mg id ∧
  default_failure_threshold mg' = default_failure_threshold mg ∧ default_timeout mg' = default_timeout mg.
Proof.
  intros Hok Hne. cbn zeta. unfold run_forward.
  pose proof (forward_breakers s (fw_request c) (fw_id c) (fw_match c) (fw_method c) (fw_worker c) (fw_now c) (fw_later c) (fw_network c)) as F.
  cbv zeta in F. fold (fw_backend c) in F.
  destruct (run_call_spec (srv_breakers s) (CallAllow (fw_backend c)) (fw_now c) Hok) as (Hok1 & T1 & T2 & _ & Hoth & _).
  cbn [run_call call_id] in Hok1, T1, T2, Hoth.
  destruct (manager_allow_request (srv_breakers s) (fw_backend c) (fw_now c)) as [allowed b1]. cbn [snd] in *. destruct F as [-> _]. assert (id ≠ fw_backend c) as Hne' by congruence. specialize (Hoth id Hne').
  destruct allowed; [|done]. destruct (account _ _) as [x|] eqn:Ea; [|done].
  assert (call_id x = fw_backend c) as Ex by (unfold account in Ea; repeat case_match; by simplify_eq).
  destruct (run_call_spec b1 x (fw_later c) Hok1) as (Hok2 & U1 & U2 & _ & Hoth2 & _). rewrite Ex in Hoth2.
  split_and!; [done|by rewrite Hoth2|by rewrite U1|by rewrite U2].
Qed.

(** A closed breaker with [f] failures in a row, or none yet. *)
Definition counting (mg : Manager) (id : string) (thr to born last f : Z) : Prop :=
  manager_ok mg ∧
  match breaker_of mg id with
  | Some cb =>
      config_ok cb ∧ packed cb = encode (VClosed f) ∧ failure_threshold cb = thr ∧ timeout cb = to ∧ born <= created_at cb <= last
  | None => f = 0 ∧ default_failure_threshold mg = thr ∧ default_timeout mg = to
  end.

(** An open breaker, since a failure at [tl]. *)
Definition tripped (mg : Manager) (id : string) (to born tl : Z) : Prop :=
  manager_ok mg ∧ ∃ cb f, breaker_of mg id = Some cb ∧ config_ok cb ∧ packed cb = encode (VOpen f) ∧ 0 <= f < 2 ^ 16 ∧
    timeout cb = to ∧ born <= created_at cb <= tl ∧ last_failure_us cb = failure_stamp cb tl.

Lemma forward_counts (s : Server M) c thr to born last f :
  1 <= thr <= 2 ^ 16 → 0 <= f < thr → fails c → born <= fw_now c <= last →
  counting (srv_breakers s) (fw_backend c) thr to born last f →
  let mg' := srv_breakers (run_forward s c).2 in
  (f + 1 < thr → counting mg' (fw_backend c) thr to born last (f + 1)) ∧
  (f + 1 = thr → last <= fw_later c → tripped mg' (fw_backend c) to born (fw_later c)).
Proof.
  intros Hthr Hf Hfail Hnow [Hok Hb]. set (mg := srv_breakers s) in *. set (id := fw_backend c) in *.
  set (cb := default (new (default_failure_threshold mg) (default_timeout mg) (fw_now c)) (breaker_of mg id)).
  assert (config_ok cb ∧ packed cb = encode (VClosed f) ∧ failure_threshold cb = thr ∧ timeout cb = to ∧ born <= created_at cb <= last)
    as (Hcfg & Hp & Ethr & Eto & Hborn).
  { unfold cb. destruct (breaker_of mg id) as [cb0|]; [done|]. destruct Hb as (-> & E1 & E2). cbn [default from_option]. rewrite E1, E2.
    split; [apply new_config_ok; lia|]. done. }
  pose proof (manager_allow_spec mg id (fw_now c) Hok) as A. cbv zeta in A. fold cb in A.
  rewrite (allow_closed cb f (fw_now c) Hcfg Hp) in A by lia. cbn [fst snd] in A.
  pose proof (forward_breakers s (fw_request c) (fw_id c) (fw_match c) (fw_method c) (fw_worker c) (fw_now c) (fw_later c) (fw_network c)) as F.
  cbv zeta in F. fold (fw_backend c) mg id in F. cbn zeta. unfold run_forward.
  destruct (manager_allow_request mg id (fw_now c)) as [allowed b1]. destruct A as (Hok1 & -> & Hb1 & _).
  destruct F as [-> _]. unfold id. rewrite (fails_account c Hfail). fold id.
  destruct (run_call_spec b1 (CallFailure id) (fw_later c) Hok1) as (Hok2 & _ & _ & Hown & _ & _). cbn [call_id] in Hown. rewrite Hb1 in Hown.
  change (apply_call _ _ (Some cb) (CallFailure id, fw_later c)) with (Some (record_failure cb (fw_later c))) in Hown.
  assert (view_ok (failure_threshold cb) (half_open_max_requests cb) (VClosed f)) as Hview by (destruct Hcfg; cbn; lia).
  destruct (record_failure_view cb (fw_later c) (VClosed f) Hcfg Hp Hview) as (Hp' & Hst & G1 & G2 & G3 & G4).
  assert (config_ok (record_failure cb (fw_later c))) as Hcfg' by (unfold config_ok in *; by rewrite G1, G2).
  rewrite Ethr in Hp'. split; [intros Hlt|intros Hlt Hlater]; (split; [done|]); rewrite Hown.
  - destruct (thr <=? f + 1) eqn:E; zbool; [lia|]. by rewrite G1, G3, G4.
  - destruct (thr <=? f + 1) eqn:E; zbool; [|lia]. eexists _, _. split; [done|]. split; [done|]. split; [exact Hp'|].
    split; [by apply wrap_range|]. rewrite G3, G4, Hst. split; [done|]. split; [lia|]. unfold failure_stamp, elapsed. by rewrite G4.
Qed.

(** Requests of which those to the backend fail, fewer than the threshold. *)
Lemma forwards_count id thr to born last cs : ∀ (s : Server M) f,
  1 <= thr <= 2 ^ 16 → 0 <= f → counting (srv_breakers s) id thr to born last f →
  Forall (λ c, fw_backend c = id → fails c ∧ born <= fw_now c <= last) cs →
  f + Z.of_nat (length (filter (λ c, fw_backend c = id) cs)) < thr →
  counting (srv_breakers (run_forwards s cs).2) id thr to born last (f + Z.of_nat (length (filter (λ c, fw_backend c = id) cs))).
Proof.
  induction cs as [|c cs IH]; intros s f Hthr Hf Hc Hall Hlen; [cbn; by rewrite Z.add_0_r|].
  apply Forall_cons in Hall as [Hh Hall]. cbn [run_forwards]. rewrite filter_cons in Hlen |- *.
  assert (∀ f', 0 <= f' → counting (srv_breakers (run_forward s c).2) id thr to born last f' →
    f' + Z.of_nat (length (filter (λ c, fw_backend c = id) cs)) < thr →
    counting (srv_breakers (let '(resp, s) := run_forward s c in let '(rs, s) := run_forwards s cs in (resp :: rs, s)).2) id thr to born last
      (f' + Z.of_nat (length (filter (λ c, fw_backend c = id) cs)))) as Hnext.
  { intros f' Hf' Hc' Hlt. specialize (IH (run_forward s c).2 f' Hthr Hf' Hc' Hall Hlt).
    destruct (run_forward s c) as [resp s1]. cbn [snd] in IH. by destruct (run_forwards s1 cs). }
  destruct (decide (fw_backend c = id)) as [E|E].
  - destruct (Hh E) as (Hfail & Hnow). cbn [length] in *. rewrite Nat2Z.inj_succ in *. subst id.
    replace (f + Z.succ _) with (f + 1 + Z.of_nat (length (filter (λ c0, fw_backend c0 = fw_backend c) cs))) in * by lia.
    apply Hnext; [lia| |done]. apply (forward_counts s c thr to born last f); try done; lia.
  - apply Hnext; [done| |done]. destruct Hc as [Hok Hb].
    destruct (forward_other s c id Hok E) as (Hok' & Hb' & T1 & T2). split; [done|]. by rewrite Hb', T1, T2.
Qed.

(** While the timeout lasts the breaker rejects and stays as it is. *)
Lemma tripped_forward (s : Server M) c id to born tl :
  tripped (srv_breakers s) id to born tl → 1000 <= to → (tl - born) / 1000 + 1 < 2 ^ 64 → fw_now c <= tl + to - 1000 →
  tripped (srv_breakers (run_forward s c).2) id to born tl ∧
  (fw_backend c = id → (run_forward s c).1 = build_circuit_breaker_response).
Proof.
  intros (Hok & cb & f & Hb & Hcfg & Hp & Hf & Eto & Hborn & Hst) Hto Hw Hnow.
  destruct (decide (fw_backend c = id)) as [E|E].
  - assert (allow_request cb (fw_now c) = (false, cb)) as Ha.
    { rewrite (open_rejects cb f) by done. destruct (reset_window cb tl (fw_now c)) as [W _]; [lia| |lia|done|by rewrite W by lia].
      enough ((tl - created_at cb) / 1000 <= (tl - born) / 1000) by lia. apply Z.div_le_mono; lia. }
    unfold run_forward. subst id.
    pose proof (forward_rejected s (fw_request c) (fw_id c) (fw_match c) (fw_method c) (fw_worker c) (fw_now c) (fw_later c) (fw_network c)
      cb Hok Hb Ha) as R. cbv zeta in R. destruct (forward _ _ _ _ _ _ _ _ _) as [resp s']. destruct R as (-> & Hok' & Hb').
    split; [|done]. split; [done|]. by exists cb, f.
  - split; [|done]. destruct (forward_other s c id Hok E) as (Hok' & Hb' & _). split; [done|]. exists cb, f. by rewrite Hb'.
Qed.

Lemma tripped_forwards id to born tl cs : ∀ (s : Server M),
  tripped (srv_breakers s) id to born tl → 1000 <= to → (tl - born) / 1000 + 1 < 2 ^ 64 →
  Forall (λ c, fw_now c <= tl + to - 1000) cs →
  Forall2 (λ c r, fw_backend c = id → r = build_circuit_breaker_response) cs (run_forwards s cs).1.
Proof.
  induction cs as [|c cs IH]; intros s Ht Hto Hw Hall; [constructor|]. apply Forall_cons in Hall as [Hc Hall]. cbn [run_forwards].
  destruct (tripped_forward s c id to born tl Ht Hto Hw Hc) as [Ht' Hr]. destruct (run_forward s c) as [resp s1]. cbn [fst snd] in *.
  specialize (IH s1 Ht' Hto Hw Hall). destruct (run_forwards s1 cs) as [rs s2]. by constructor.
Qed.

(** C10: end to end, a backend that keeps failing is cut off.  A breaker that is closed with
[f] failures in a row, or that does not exist yet, has a threshold of at most 2^16 and a
timeout of at least a microsecond.  Requests come in one after the other, to this backend
and to others, by any routes; if those to this backend all fail (5xx answers or errors
other than oversized bodies), the last of them being the one that makes up the threshold,
then every request to the backend, among any further requests that arrive before the
timeout (less a microsecond) has passed since that failure was recorded, is answered with
the breaker's 503, whatever the backend would answer. *)
Theorem failing_backend_is_cut_off (s : Server M) id thr to born f before c after :
  let last := fw_later c in
  1 <= thr <= 2 ^ 16 → 1000 <= to → 0 <= f → (last - born) / 1000 + 1 < 2 ^ 64 →
  counting (srv_breakers s) id thr to born (fw_now c) f → fw_backend c = id → fw_now c <= last →
  Forall (λ c', fw_backend c' = id → fails c' ∧ born <= fw_now c' <= fw_now c) (before ++ [c]) →
  f + Z.of_nat (length (filter (λ c', fw_backend c' = id) (before ++ [c]))) = thr →
  Forall (λ c', fw_now c' <= last + to - 1000) after →
  Forall2 (λ c' r, fw_backend c' = id → r = build_circuit_breaker_response) after
    (run_forwards (run_forwards s (before ++ [c])).2 after).1.
Proof.
  intros last Hthr Hto Hf Hw Hc Hid Hlater [Hb Hl]%Forall_app Hlen Hafter.
  rewrite filter_app, length_app, filter_cons, decide_True, filter_nil in Hlen by done. cbn [length] in Hlen.
  rewrite Forall_singleton in Hl. destruct (Hl Hid) as (Hfail & Hnow).
  pose proof (forwards_count id thr to born (fw_now c) before s f Hthr Hf Hc Hb ltac:(lia)) as Hc'.
  set (k := length _) in *. subst id.
  destruct (forward_counts (run_forwards s before).2 c thr to born (fw_now c) (f + Z.of_nat k) Hthr ltac:(lia) Hfail Hnow Hc') as [_ Htrip].
  assert ((run_forwards s (before ++ [c])).2 = (run_forward (run_forwards s before).2 c).2) as ->.
  { clear. revert s. induction before as [|x xs IH]; intros s; cbn [run_forwards app]; [cbn [snd]; by destruct (run_forward s c)|].
    destruct (run_forward s x) as [r s1]. specialize (IH s1). destruct (run_forwards s1 (xs ++ [c])), (run_forwards s1 xs). done. }
  eapply tripped_forwards; [by apply Htrip; [lia|]|done|done|done].
Qed.
End theorems.

(** ** Witnesses *)
#[local] Existing Instance key_order.

Definition sample_match : RouteMatch :=
  mk_match (from_ipv4 (mk_ipv4 10 0 0 1) 80 100) "/api" None None None None None.

Abbreviation sample_headers := (list (string * string)).

Definition sample_request : Request sample_headers := mk_request "GET" (mk_target None None None "/api" None) [] (Some "/api") None.

Definition sample_server (mg : Manager) : Server (list (string * RouteKey)) :=
  mk_server (sample_router []) limiter_new mg None ∅ ∅.

Definition always (r : result (Response sample_headers) ProxyError) : Network (Response sample_headers) :=
  mk_network r false (λ _, None) (λ _ _, Err "connection refused").

Definition unavailable := always (Ok (mk_response 503 [] "")).

(** A manager whose only breaker is half open with one slot left. *)
Definition probing_manager : Manager :=
  mk_manager {["10.0.0.1:80" := 0%nat]}
    [CircuitBreaker.set_packed (new 5 30000000000 0) (encode (VHalfOpen 0 2))] 5 30000000000 (mk_metrics ∅ ∅ ∅ ∅).

Lemma probing_manager_ok : manager_ok probing_manager.
Proof.
  split; cbn [breakers arcs probing_manager].
  - intros id a [<- <-]%lookup_singleton_Some. cbn. lia.
  - intros id id' a [<- <-]%lookup_singleton_Some [<- _]%lookup_singleton_Some. done.
Qed.

Lemma oversized_probe_blocks_backend_witness :
  let s := sample_server probing_manager in
  let '(resp, s1) := forward s sample_request "r1" sample_match GET None 5 6 (always (Err (BodyTooLarge 9 1))) in
  resp_status resp = 413 ∧
  Forall (λ r, r = build_circuit_breaker_response)
    (forwards s1 sample_request "r1" sample_match GET [(7, 8, unavailable); (10 ^ 18, 10 ^ 18, unavailable)]).1.
Proof.
  apply (oversized_probe_blocks_backend (sample_server probing_manager) sample_request "r1" sample_match GET 5 6
    (always (Err (BodyTooLarge 9 1))) [(7, 8, unavailable); (10 ^ 18, 10 ^ 18, unavailable)]
    (CircuitBreaker.set_packed (new 5 30000000000 0) (encode (VHalfOpen 0 2))) 0 9 1).
  - exact probing_manager_ok.
  - reflexivity.
  - unfold config_ok. cbn. lia.
  - reflexivity.
  - cbn. lia.
  - cbn. lia.
  - reflexivity.
Defined.

(** Two requests by different routes fail; among four later ones a POST and a GET to the
backend are rejected, a request to another backend in between is not. *)
Definition other_match : RouteMatch :=
  mk_match (from_ipv4 (mk_ipv4 10 0 0 1) 80 50) "/web" None None None None None.
Definition second_match : RouteMatch :=
  mk_match (from_ipv4 (mk_ipv4 10 0 0 2) 80 100) "/api" None None None None None.

Definition failing_forwards : list (Forward (Hdr := sample_headers)) :=
  [mk_forward sample_request "r1" sample_match GET None 1 2 unavailable; mk_forward sample_request "r2" second_match GET None 2 3 unavailable].
Definition last_failure : Forward (Hdr := sample_headers) := mk_forward sample_request "r3" other_match POST (Some 1) 4 6 unavailable.
Definition later_forwards : list (Forward (Hdr := sample_headers)) :=
  let working := always (Ok (mk_response 200 [] "")) in
  [mk_forward sample_request "r4" sample_match POST None 7 8 working; mk_forward sample_request "r5" second_match GET None 9 10 working;
   mk_forward sample_request "r6" other_match GET None 29000000000 29000000001 working].

Lemma failing_backend_is_cut_off_witness :
  let s := sample_server (manager_new 2 30000000000) in
  Forall2 (λ c r, fw_backend c = "10.0.0.1:80" → r = build_circuit_breaker_response) later_forwards
    (run_forwards (run_forwards s (failing_forwards ++ [last_failure])).2 later_forwards).1 ∧
  resp_status <$> (run_forwards (run_forwards s (failing_forwards ++ [last_failure])).2 later_forwards).1 = [503; 200; 503].
Proof.
  split; [|vm_compute; reflexivity].
  apply (failing_backend_is_cut_off (sample_server (manager_new 2 30000000000)) "10.0.0.1:80" 2 30000000000 0 0
    failing_forwards last_failure later_forwards).
  - lia.
  - lia.
  - lia.
  - reflexivity.
  - split; [apply manager_new_ok|by vm_compute].
  - reflexivity.
  - vm_compute. discriminate.
  - repeat (apply Forall_cons; split; [vm_compute; intros; split_and!; discriminate|]). by apply Forall_nil.
  - reflexivity.
  - repeat (apply Forall_cons; split; [vm_compute; discriminate|]). by apply Forall_nil.
Defined.
