(* ===== verification/Text.v ===== *)
(** * Text: the string functions of the standard library

Splitting, trimming, searching and characters of UTF-8 texts, as the controllers
use them on names, paths and annotations.  A [string] is its bytes; a character is
the group of bytes that its first byte announces. *)

From S2P Require Import Prelude.

#[local] Open Scope Z_scope.

(** ** Characters *)
Definition char_len (b : Z) : nat := if b <? 128 then 1 else if b <? 224 then 2 else if b <? 240 then 3 else 4.

(** The first character and the rest: up to three more bytes. *)
Definition next_char (c : ascii) (s : string) : string * string :=
  let k := (char_len (byte_of_ascii c) - 1)%nat in
  (String c (String.substring 0 k s), String.substring k (String.length s - k) s).

Fixpoint chars_loop (fuel : nat) (s : string) : list string :=
  match fuel, s with
  | S fuel, String c s => let '(ch, rest) := next_char c s in ch :: chars_loop fuel rest
  | _, _ => []
  end.

(** [str::chars], each character as its bytes; every step takes a byte at least. *)
Definition chars (s : string) : list string := chars_loop (String.length s) s.

(** The code point of a character. *)
Definition code_point (ch : string) : Z :=
  match as_bytes ch with
  | [a] => a
  | [a; b] => (a mod 32) * 64 + b mod 64
  | [a; b; c] => (a mod 16) * 4096 + (b mod 64) * 64 + c mod 64
  | [a; b; c; d] => (a mod 8) * 262144 + (b mod 64) * 4096 + (c mod 64) * 64 + d mod 64
  | _ => 0
  end.

(** [char::is_whitespace] and [char::is_control] of Unicode. *)
Definition is_whitespace (ch : string) : bool :=
  let p := code_point ch in
  ((9 <=? p) && (p <=? 13)) || (p =? 32) || (p =? 133) || (p =? 160) || (p =? 5760) ||
  ((8192 <=? p) && (p <=? 8202)) || (p =? 8232) || (p =? 8233) || (p =? 8239) || (p =? 8287) || (p =? 12288).

Definition is_control (ch : string) : bool :=
  let p := code_point ch in (p <=? 31) || ((127 <=? p) && (p <=? 159)).

Fixpoint drop_while {A} (f : A → bool) (l : list A) : list A :=
  match l with
  | x :: l' => if f x then drop_while f l' else l
  | [] => []
  end.

Definition concat_chars (l : list string) : string := foldr (λ ch s, ch +:+ s) "" l.

(** [str::trim] *)
Definition trim (s : string) : string :=
  concat_chars (rev (drop_while is_whitespace (rev (drop_while is_whitespace (chars s))))).

(** ** Searching *)
Fixpoint split (c : ascii) (s : string) : list string :=
  match s with
  | EmptyString => [""]
  | String a s =>
      if Ascii.eqb a c then "" :: split c s
      else match split c s with
           | part :: parts => String a part :: parts
           | [] => [String a ""]
           end
  end.

Fixpoint contains (needle s : string) : bool :=
  String.prefix needle s || match s with EmptyString => false | String _ s => contains needle s end.

Definition starts_with (p s : string) : bool := String.prefix p s.

Fixpoint ends_with (p s : string) : bool :=
  String.eqb p s || match s with EmptyString => false | String _ s => ends_with p s end.

(** [str::strip_prefix] *)
Fixpoint strip_prefix (p s : string) : option string :=
  match p, s with
  | EmptyString, _ => Some s
  | String a p, String b s => if Ascii.eqb a b then strip_prefix p s else None
  | String _ _, EmptyString => None
  end.

Definition strip_suffix (p s : string) : option string :=
  if ends_with p s then Some (String.substring 0 (String.length s - String.length p) s) else None.

(** [str::trim_start_matches] and [str::trim_end_matches] of a non-empty text: as
often as it is there. *)
Fixpoint trim_start_loop (fuel : nat) (p s : string) : string :=
  match fuel, strip_prefix p s with
  | S fuel, Some rest => trim_start_loop fuel p rest
  | _, _ => s
  end.

Definition trim_start_matches (p s : string) : string := trim_start_loop (String.length s) p s.

Fixpoint trim_end_loop (fuel : nat) (p s : string) : string :=
  match fuel, strip_suffix p s with
  | S fuel, Some rest => trim_end_loop fuel p rest
  | _, _ => s
  end.

Definition trim_end_matches (p s : string) : string := trim_end_loop (String.length s) p s.

(** ** Lemmas *)
Fixpoint forall_ascii (f : ascii → bool) (s : string) : bool :=
  match s with
  | EmptyString => true
  | String c s => f c && forall_ascii f s
  end.

Lemma forall_ascii_app f s t : forall_ascii f (s +:+ t) = forall_ascii f s && forall_ascii f t.
Proof.
  induction s as [|c s IH]; [done|]. change (String c s +:+ t) with (String c (s +:+ t)). cbn [forall_ascii].
  by rewrite IH, andb_assoc.
Qed.

Lemma forall_ascii_impl (f g : ascii → bool) s :
  (∀ c, f c = true → g c = true) → forall_ascii f s = true → forall_ascii g s = true.
Proof.
  intros Hfg. induction s as [|c s IH]; [done|]. cbn. intros [Hc Hs]%andb_true_iff. rewrite Hfg by done. by apply IH.
Qed.

(** A text of printable ASCII characters is not changed by [trim]. *)
Definition is_graphic (c : ascii) : bool := (33 <=? byte_of_ascii c) && (byte_of_ascii c <=? 126).

Lemma substring_all s : String.substring 0 (String.length s) s = s.
Proof. induction s as [|c s IH]; [done|]. cbn. by rewrite IH. Qed.

Lemma substring_app s t : String.substring 0 (String.length s) (s +:+ t) = s.
Proof.
  induction s as [|c s IH]; [by destruct t|]. change (String c s +:+ t) with (String c (s +:+ t)). cbn. by rewrite IH.
Qed.

Lemma graphic_chars s fuel :
  forall_ascii is_graphic s = true → (String.length s <= fuel)%nat →
  chars_loop fuel s = (λ c, String c "") <$> String.list_ascii_of_string s.
Proof.
  revert fuel. induction s as [|c s IH]; intros [|fuel] Hs Hf; cbn in *; try done; [lia|].
  apply andb_true_iff in Hs as [Hc Hs]. unfold next_char, char_len. unfold is_graphic in Hc. zbool.
  destruct (_ <? 128) eqn:E; zbool; [|lia]. cbn [Nat.sub]. rewrite Nat.sub_0_r, substring_all.
  assert (String.substring 0 0 s = "") as -> by (by destruct s). f_equal. apply IH; [done|lia].
Qed.

Lemma graphic_not_white c : is_graphic c = true → is_whitespace (String c "") = false.
Proof.
  unfold is_graphic, is_whitespace, code_point. cbn [as_bytes]. intros ?. zbool.
  repeat (apply orb_false_iff; split); try apply andb_false_iff; rewrite ?Z.eqb_neq, ?Z.leb_gt; lia.
Qed.

Lemma drop_while_none {A} (f : A → bool) l : (∀ x, x ∈ l → f x = false) → drop_while f l = l.
Proof. destruct l as [|x l]; [done|]. intros H. cbn. rewrite H; [done|]. left. Qed.

Lemma trim_graphic s : forall_ascii is_graphic s = true → trim s = s.
Proof.
  intros Hs. unfold trim, chars. rewrite graphic_chars by (done || lia).
  assert (∀ x, x ∈ (λ c, String c "") <$> String.list_ascii_of_string s → is_whitespace x = false) as Hw.
  { intros x (c & -> & Hc)%list_elem_of_fmap. apply graphic_not_white. revert Hs Hc.
    clear. induction s as [|a s IH]; cbn; [by intros _ Hc%not_elem_of_nil|].
    intros [Ha Hs]%andb_true_iff [->|Hc]%elem_of_cons; [done|by apply IH]. }
  rewrite (drop_while_none _ (_ <$> _)) by done. rewrite drop_while_none.
  2:{ intros x Hx. apply Hw. by rewrite list_elem_of_In, in_rev, <- list_elem_of_In. }
  rewrite rev_involutive. clear. induction s as [|c s IH]; [done|].
  change (String c (concat_chars ((λ c, String c "") <$> String.list_ascii_of_string s)) = String c s). by rewrite IH.
Qed.

(** Splitting, suffixes and prefixes of concatenations. *)
Lemma split_none c s : forall_ascii (λ a, negb (Ascii.eqb a c)) s = true → split c s = [s].
Proof.
  induction s as [|a s IH]; [done|]. cbn [forall_ascii split]. intros [Ha Hs]%andb_true_iff.
  apply negb_true_iff in Ha. by rewrite Ha, IH.
Qed.

Lemma split_app c s t :
  forall_ascii (λ a, negb (Ascii.eqb a c)) s = true → split c (s +:+ String c t) = s :: split c t.
Proof.
  induction s as [|a s IH].
  - intros _. change ("" +:+ String c t) with (String c t). cbn [split]. by rewrite Ascii.eqb_refl.
  - change (String a s +:+ String c t) with (String a (s +:+ String c t)). cbn [forall_ascii split].
    intros [Ha Hs]%andb_true_iff. apply negb_true_iff in Ha. by rewrite Ha, IH.
Qed.

Lemma ends_with_app p s : ends_with p (s +:+ p) = true.
Proof.
  induction s as [|c s IH].
  - change ("" +:+ p) with p. destruct p; cbn [ends_with]; by rewrite String.eqb_refl.
  - change (String c s +:+ p) with (String c (s +:+ p)). cbn [ends_with]. by rewrite IH, orb_true_r.
Qed.

Lemma ends_with_inv p s : ends_with p s = true → ∃ t, s = t +:+ p.
Proof.
  induction s as [|c s IH]; cbn [ends_with]; intros [E%String.eqb_eq|E]%orb_true_iff; try done.
  - exists "". by rewrite E.
  - exists "". by rewrite E.
  - destruct (IH E) as [t ->]. by exists (String c t).
Qed.

Lemma strip_prefix_app p s : strip_prefix p (p +:+ s) = Some s.
Proof.
  induction p as [|c p IH]; [done|]. change (String c p +:+ s) with (String c (p +:+ s)). cbn [strip_prefix].
  by rewrite Ascii.eqb_refl.
Qed.

Lemma starts_with_app p s : starts_with p (p +:+ s) = true.
Proof.
  unfold starts_with. induction p as [|c p IH]; [by destruct s|].
  change (String c p +:+ s) with (String c (p +:+ s)). cbn [String.prefix]. by destruct (ascii_dec c c).
Qed.

Lemma length_string_app s t : String.length (s +:+ t) = (String.length s + String.length t)%nat.
Proof. induction s as [|c s IH]; [done|]. change (String c s +:+ t) with (String c (s +:+ t)). cbn. by rewrite IH. Qed.

(** A suffix with a character that the text has not is stripped once. *)
Lemma trim_end_once f p s :
  forall_ascii f s = true → forall_ascii f p = false → trim_end_matches p (s +:+ p) = s.
Proof.
  intros Hs Hp. unfold trim_end_matches. rewrite length_string_app.
  destruct p as [|c p']; [done|]. set (p := String c p') in *.
  replace (String.length s + String.length p)%nat with (S (String.length s + String.length p')) by (cbn; lia).
  cbn [trim_end_loop]. unfold strip_suffix at 1. rewrite ends_with_app, length_string_app.
  replace (String.length s + String.length p - String.length p)%nat with (String.length s) by lia.
  rewrite substring_app. assert (strip_suffix p s = None) as Hn.
  { unfold strip_suffix. destruct (ends_with p s) eqn:E; [|done]. apply ends_with_inv in E as [t ->].
    rewrite forall_ascii_app in Hs. apply andb_true_iff in Hs as [_ ?]. congruence. }
  destruct (_ + _)%nat; cbn [trim_end_loop]; by rewrite ?Hn.
Qed.

(** A prefix whose first character the text has not is stripped once. *)
Lemma trim_start_once f c p s :
  forall_ascii f s = true → f c = false → trim_start_matches (String c p) (String c p +:+ s) = s.
Proof.
  intros Hs Hc. unfold trim_start_matches. rewrite length_string_app. cbn [String.length Nat.add trim_start_loop].
  rewrite strip_prefix_app. assert (strip_prefix (String c p) s = None) as Hn.
  { destruct s as [|a s]; [done|]. cbn in *. destruct (Ascii.eqb_spec c a) as [->|]; [|done]. by rewrite Hc in Hs. }
  destruct (_ + _)%nat; cbn [trim_start_loop]; by rewrite ?Hn.
Qed.

(** A text without a character of the prefix or suffix does not have it. *)
Lemma strip_prefix_none f p s : forall_ascii f s = true → forall_ascii f p = false → strip_prefix p s = None.
Proof.
  revert s. induction p as [|a p IH]; intros s Hs Hp; [done|]. destruct s as [|b s]; [done|]. cbn in *.
  destruct (Ascii.eqb_spec a b) as [->|]; [|done]. apply andb_true_iff in Hs as [Hb Hs]. rewrite Hb in Hp. by apply IH.
Qed.

Lemma strip_suffix_none f p s : forall_ascii f s = true → forall_ascii f p = false → strip_suffix p s = None.
Proof.
  intros Hs Hp. unfold strip_suffix. destruct (ends_with p s) eqn:E; [|done]. apply ends_with_inv in E as [t ->].
  rewrite forall_ascii_app in Hs. apply andb_true_iff in Hs as [_ ?]. congruence.
Qed.

Lemma trim_start_stops p s : strip_prefix p s = None → trim_start_matches p s = s.
Proof. intros Hn. unfold trim_start_matches. destruct (String.length s); cbn [trim_start_loop]; by rewrite ?Hn. Qed.

Lemma trim_end_stops p s : strip_suffix p s = None → trim_end_matches p s = s.
Proof. intros Hn. unfold trim_end_matches. destruct (String.length s); cbn [trim_end_loop]; by rewrite ?Hn. Qed.
