(* ===== verification/Metrics.v ===== *)
(** * Metrics: the static metrics ([apis/metrics.rs], [proxy/metrics.rs]) and those of the health checker

Every metric is a lazy static: the first use creates it, falls back to another name if
that fails, registers it, and goes on without if the registration fails.  The controllers
record their reconciliations in them.  The [prometheus] crate is a parameter with its
documented behaviour: valid names are accepted, a registry takes a name once, label
values are accepted if there are as many as declared labels, and a histogram keeps the
number of its observations, their sum, and how many are at most each upper bound. *)

From S2P Require Import Prelude Common Float Text.

#[local] Open Scope Z_scope.
#[local] Open Scope rauta_scope.

(** ** The library *)
Definition letter (c : ascii) : bool :=
  let n := byte_of_ascii c in ((65 <=? n) && (n <=? 90)) || ((97 <=? n) && (n <=? 122)) || (n =? 95).

Definition digit (c : ascii) : bool := let n := byte_of_ascii c in (48 <=? n) && (n <=? 57).

(** The names the data model of Prometheus allows, colons apart. *)
Definition plain_name (s : string) : bool :=
  match s with
  | EmptyString => false
  | String c s => letter c && forall_ascii (λ c, letter c || digit c) s
  end.

Definition f64_add (x y : f64) : f64 := SFadd 53 1024 x y.
Definition f64_zero : f64 := S754_zero false.

Fixpoint increasing (bs : list f64) : bool :=
  match bs with
  | b :: (b' :: _) as bs' => f64_ltb b b' && increasing bs'
  | _ => true
  end.

(** One more observation in the cumulative count of an upper bound. *)
Definition bucket_add (v : f64) (b : f64 * Z) : f64 * Z := (b.1, as_u64 (b.2 + if f64_leb v b.1 then 1 else 0)).

Class PrometheusLib : Type := {
  Registry : Type;
  registry_empty : Registry;
  registered : Registry → list string;
  register : Registry → string → result Registry string;
  new_vec : string → list string → result unit string;
  registered_empty : registered registry_empty = [];
  register_fresh : ∀ r n, n ∉ registered r → ∃ r', register r n = Ok r' ∧ registered r' ≡ₚ n :: registered r;
  register_twice : ∀ r n, n ∈ registered r → ∃ e, register r n = Err e;
  new_vec_plain : ∀ n labels, plain_name n = true → Forall (λ l, plain_name l = true) labels → new_vec n labels = Ok ();
  get_metric_with_label_values : list string → list string → result unit string;
  same_cardinality : ∀ labels values, length values = length labels → get_metric_with_label_values labels values = Ok ();
  other_cardinality : ∀ labels values, length values ≠ length labels → ∃ e, get_metric_with_label_values labels values = Err e;
  DEFAULT_BUCKETS : list f64;
  default_increasing : increasing DEFAULT_BUCKETS = true;
  Histogram : Type;
  histogram_new : list f64 → Histogram;
  histogram_observe : Histogram → f64 → Histogram;
  sample_count : Histogram → Z;
  sample_sum : Histogram → f64;
  cumulative : Histogram → list (f64 * Z);
  new_count : ∀ bs, sample_count (histogram_new bs) = 0;
  new_sum : ∀ bs, sample_sum (histogram_new bs) = f64_zero;
  new_cumulative : ∀ bs, increasing bs = true → cumulative (histogram_new bs) = (λ b, (b, 0)) <$> bs;
  observe_count : ∀ h v, sample_count (histogram_observe h v) = as_u64 (sample_count h + 1);
  observe_sum : ∀ h v, sample_sum (histogram_observe h v) = f64_add (sample_sum h) v;
  observe_cumulative : ∀ h v,
    increasing (cumulative h).*1 = true → cumulative (histogram_observe h v) = bucket_add v <$> cumulative h
}.

(** ** Lazy statics *)
Record static_metric : Type := mk_static {
  st_name : string;
  st_labels : list string;
  st_fallback : string;
  st_buckets : option (list f64)
}.

Definition thousandths (n : Z) : f64 := f64_div (f64_of_Z n) (f64_of_Z 1000).

Definition HTTPROUTE_RECONCILIATION_DURATION : static_metric :=
  mk_static "httproute_reconciliation_duration_seconds" ["httproute"; "namespace"] "httproute_reconciliation_duration_seconds_fallback" None.
Definition HTTPROUTE_RECONCILIATIONS_TOTAL : static_metric :=
  mk_static "httproute_reconciliations_total" ["httproute"; "namespace"; "result"] "httproute_reconciliations_total_fallback" None.
Definition GATEWAY_RECONCILIATION_DURATION : static_metric :=
  mk_static "gateway_reconciliation_duration_seconds" ["gateway"; "namespace"] "gateway_reconciliation_duration_seconds_fallback" None.
Definition GATEWAY_RECONCILIATIONS_TOTAL : static_metric :=
  mk_static "gateway_reconciliations_total" ["gateway"; "namespace"; "result"] "gateway_reconciliations_total_fallback" None.
Definition GATEWAYCLASS_RECONCILIATION_DURATION : static_metric :=
  mk_static "gatewayclass_reconciliation_duration_seconds" ["gatewayclass"] "gatewayclass_reconciliation_duration_seconds_fallback" None.
Definition GATEWAYCLASS_RECONCILIATIONS_TOTAL : static_metric :=
  mk_static "gatewayclass_reconciliations_total" ["gatewayclass"; "result"] "gatewayclass_reconciliations_total_fallback" None.
Definition HTTP_REQUEST_DURATION : static_metric :=
  mk_static "http_request_duration_seconds" ["method"; "path"; "status"] "http_request_duration_seconds_fallback"
    (Some (thousandths <$> [1; 5; 10; 25; 50; 75; 100; 250; 500; 1000; 2500; 5000])).
Definition HTTP_REQUESTS_TOTAL : static_metric :=
  mk_static "http_requests_total" ["method"; "path"; "status"; "worker_id"] "http_requests_total_fallback" None.

Lemma forallb_plain l : forallb plain_name l = true ↔ Forall (λ x, plain_name x = true) l.
Proof. rewrite forallb_forall, Forall_forall. by setoid_rewrite list_elem_of_In. Qed.

Section metrics.
Context `{!PrometheusLib}.

(** A registry and the statics that register in it: the names of those that are
initialised, and the children by metric and label values. *)
Record Statics : Type := mk_statics {
  registry : Registry;
  cells : gmap string string;
  counts : gmap (string * list string) Z;
  observed : gmap (string * list string) Histogram
}.

Definition statics_new : Statics := mk_statics registry_empty ∅ ∅ ∅.

(** The initialiser: the name that is used, and the registry after it. *)
Definition init_static (st : static_metric) (r : Registry) : outcome (string * Registry) :=
  name <-! match new_vec (st_name st) (st_labels st) with
           | Ok _ => Ret (st_name st)
           | Err _ =>
               match new_vec (st_fallback st) (st_labels st) with
               | Ok _ => Ret (st_fallback st)
               | Err _ => Panic
               end
           end ;;
  match register r name with
  | Ok r => Ret (name, r)
  | Err _ => Ret (name, r)
  end.

(** The dereference of a lazy static. *)
Definition force (st : static_metric) (σ : Statics) : outcome (string * Statics) :=
  match cells σ !! st_name st with
  | Some name => Ret (name, σ)
  | None =>
      x <-! init_static st (registry σ) ;;
      Ret (x.1, mk_statics x.2 (<[st_name st := x.1]> (cells σ)) (counts σ) (observed σ))
  end.

(** [with_label_values] panics unless there is one value per declared label. *)
Definition with_label_values (st : static_metric) (values : list string) : outcome (list string) :=
  match get_metric_with_label_values (st_labels st) values with
  | Ok _ => Ret values
  | Err _ => Panic
  end.

(** The upper bounds of a histogram: those of its options, the defaults under the name it
falls back to. *)
Definition buckets_of (st : static_metric) (name : string) : list f64 :=
  if bool_decide (name = st_name st) then default DEFAULT_BUCKETS (st_buckets st) else DEFAULT_BUCKETS.

(** [with_label_values(..).inc()]; the counter has 64 bits. *)
Definition inc (st : static_metric) (values : list string) (σ : Statics) : outcome Statics :=
  x <-! force st σ ;;
  let '(name, σ) := x in
  labels <-! with_label_values st values ;;
  Ret (mk_statics (registry σ) (cells σ) (<[(name, labels) := as_u64 (default 0 (counts σ !! (name, labels)) + 1)]> (counts σ)) (observed σ)).

(** [with_label_values(..).observe(v)] *)
Definition observe (st : static_metric) (values : list string) (v : f64) (σ : Statics) : outcome Statics :=
  x <-! force st σ ;;
  let '(name, σ) := x in
  labels <-! with_label_values st values ;;
  let h := default (histogram_new (buckets_of st name)) (observed σ !! (name, labels)) in
  Ret (mk_statics (registry σ) (cells σ) (counts σ) (<[(name, labels) := histogram_observe h v]> (observed σ))).

(** ** What the controllers record *)
Definition record_httproute_reconciliation (httproute namespace : string) (duration_secs : f64) (result : string)
    (σ : Statics) : outcome Statics :=
  σ <-! observe HTTPROUTE_RECONCILIATION_DURATION [httproute; namespace] duration_secs σ ;;
  inc HTTPROUTE_RECONCILIATIONS_TOTAL [httproute; namespace; result] σ.

Definition record_gateway_reconciliation (gateway namespace : string) (duration_secs : f64) (result : string)
    (σ : Statics) : outcome Statics :=
  σ <-! observe GATEWAY_RECONCILIATION_DURATION [gateway; namespace] duration_secs σ ;;
  inc GATEWAY_RECONCILIATIONS_TOTAL [gateway; namespace; result] σ.

Definition record_gatewayclass_reconciliation (gatewayclass : string) (duration_secs : f64) (result : string)
    (σ : Statics) : outcome Statics :=
  σ <-! observe GATEWAYCLASS_RECONCILIATION_DURATION [gatewayclass] duration_secs σ ;;
  inc GATEWAYCLASS_RECONCILIATIONS_TOTAL [gatewayclass; result] σ.

(** What a scrape of the registry sees of a metric. *)
Definition exposed_count (σ : Statics) (name : string) (labels : list string) : option Z :=
  if bool_decide (name ∈ registered (registry σ)) then counts σ !! (name, labels) else None.

(** The lines [_count], [_sum] and [_bucket] of a histogram. *)
Definition histogram_lines (h : Histogram) : Z * f64 * list (f64 * Z) := (sample_count h, sample_sum h, cumulative h).

Definition exposed_histogram (σ : Statics) (name : string) (labels : list string) : option (Z * f64 * list (f64 * Z)) :=
  if bool_decide (name ∈ registered (registry σ)) then histogram_lines <$> observed σ !! (name, labels) else None.

(** [gather_controller_metrics] and [encode_metrics]; the encoder is an input. *)
Definition encode_metrics {A} (encoder : Registry → result A string) (σ : Statics) : result A string :=
  match encoder (registry σ) with
  | Ok text => Ok text
  | Err e => Err ("Failed to encode metrics: " +:+ e)
  end.

Definition gather_controller_metrics (encoder : Registry → result string string) (from_utf8 : string → result string string)
    (σ : Statics) : result string string :=
  match encode_metrics encoder σ with
  | Err e => Err e
  | Ok buffer =>
      match from_utf8 buffer with
      | Ok text => Ok text
      | Err e => Err ("Failed to convert to UTF-8: " +:+ e)
      end
  end.

Definition metrics_content_type : string := "text/plain; version=0.0.4; charset=utf-8".

(** The statics that [serve_metrics_endpoint] initialises before it gathers. *)
Definition force_proxy_metrics (σ : Statics) : outcome Statics :=
  x <-! force HTTP_REQUEST_DURATION σ ;;
  y <-! force HTTP_REQUESTS_TOTAL x.2 ;;
  Ret y.2.

(** ** The metrics of the health checker *)
Definition health_metric_names : list (string * list string) :=
  [("rauta_backend_health_status", ["backend"; "route"]);
   ("rauta_health_check_probes_total", ["backend"; "result"]);
   ("rauta_health_check_duration_seconds", ["backend"; "result"]);
   ("rauta_health_check_consecutive_failures", ["backend"]);
   ("rauta_health_state_transitions_total", ["backend"; "from"; "to"])].

(** Creation, then registration, with [expect] on each. *)
Fixpoint create_all (ms : list (string * list string)) : outcome unit :=
  match ms with
  | [] => Ret ()
  | (name, labels) :: ms =>
      match new_vec name labels with
      | Ok _ => create_all ms
      | Err _ => Panic
      end
  end.

Fixpoint register_all (names : list string) (r : Registry) : outcome Registry :=
  match names with
  | [] => Ret r
  | name :: names =>
      match register r name with
      | Ok r => register_all names r
      | Err _ => Panic
      end
  end.

Definition health_checker_metrics (r : Registry) : outcome Registry :=
  _ <-! create_all health_metric_names ;;
  register_all (health_metric_names.*1) r.

(** ** Calls *)
Inductive record_call : Type :=
| CallRoute (httproute namespace : string) (duration_secs : f64) (result : string)
| CallGateway (gateway namespace : string) (duration_secs : f64) (result : string)
| CallClass (gatewayclass : string) (duration_secs : f64) (result : string).

Definition run_record (c : record_call) (σ : Statics) : outcome Statics :=
  match c with
  | CallRoute x ns d r => record_httproute_reconciliation x ns d r σ
  | CallGateway x ns d r => record_gateway_reconciliation x ns d r σ
  | CallClass x d r => record_gatewayclass_reconciliation x d r σ
  end.

Fixpoint run_records (cs : list record_call) (σ : Statics) : outcome Statics :=
  match cs with
  | [] => Ret σ
  | c :: cs => σ <-! run_record c σ ;; run_records cs σ
  end.

(** The child of the counter and that of the histogram that a call is about. *)
Definition total_of (c : record_call) : static_metric * list string :=
  match c with
  | CallRoute x ns _ r => (HTTPROUTE_RECONCILIATIONS_TOTAL, [x; ns; r])
  | CallGateway x ns _ r => (GATEWAY_RECONCILIATIONS_TOTAL, [x; ns; r])
  | CallClass x _ r => (GATEWAYCLASS_RECONCILIATIONS_TOTAL, [x; r])
  end.

Definition duration_of (c : record_call) : static_metric * list string * f64 :=
  match c with
  | CallRoute x ns d _ => (HTTPROUTE_RECONCILIATION_DURATION, [x; ns], d)
  | CallGateway x ns d _ => (GATEWAY_RECONCILIATION_DURATION, [x; ns], d)
  | CallClass x d _ => (GATEWAYCLASS_RECONCILIATION_DURATION, [x], d)
  end.

Definition total_key (c : record_call) : string * list string := (st_name (total_of c).1, (total_of c).2).
Definition duration_key (c : record_call) : string * list string := (st_name (duration_of c).1.1, (duration_of c).1.2).

Definition times (key : string * list string) (cs : list record_call) : nat := length (filter (λ c, total_key c = key) cs).
Definition durations (key : string * list string) (cs : list record_call) : list f64 :=
  snd ∘ duration_of <$> filter (λ c, duration_key c = key) cs.

(** ** Invariant *)
Record statics_ok (σ : Statics) : Prop := {
  so_cells : ∀ st name, cells σ !! st = Some name → name = st ∧ name ∈ registered (registry σ);
  so_registered : ∀ n, n ∈ registered (registry σ) → is_Some (cells σ !! n);
  so_counts : ∀ k, is_Some (counts σ !! k) → k.1 ∈ registered (registry σ);
  so_observed : ∀ k, is_Some (observed σ !! k) → k.1 ∈ registered (registry σ)
}.

Definition plain_static (st : static_metric) : bool := plain_name (st_name st) && forallb plain_name (st_labels st).

Lemma with_label_values_ok st values : length values = length (st_labels st) → with_label_values st values = Ret values.
Proof. intros E. unfold with_label_values. by rewrite same_cardinality. Qed.

Lemma with_label_values_panic st values : length values ≠ length (st_labels st) → with_label_values st values = Panic.
Proof. intros E. unfold with_label_values. by destruct (other_cardinality _ _ E) as [e ->]. Qed.

Lemma statics_new_ok : statics_ok statics_new.
Proof.
  split; cbn [statics_new cells counts observed registry].
  - intros st name. by rewrite lookup_empty.
  - intros n. rewrite registered_empty. by intros ?%not_elem_of_nil.
  - intros k. rewrite lookup_empty. by intros [].
  - intros k. rewrite lookup_empty. by intros [].
Qed.

Lemma force_ok st σ :
  plain_static st = true → statics_ok σ →
  ∃ σ', force st σ = Ret (st_name st, σ') ∧ statics_ok σ' ∧ counts σ' = counts σ ∧ observed σ' = observed σ ∧
    st_name st ∈ registered (registry σ').
Proof.
  intros [Hn Hl%forallb_plain]%andb_true_iff [Hc Hr Hk Ho]. unfold force.
  destruct (cells σ !! st_name st) as [name|] eqn:E.
  { destruct (Hc _ _ E) as [-> Hin]. by exists σ. }
  assert (st_name st ∉ registered (registry σ)) as Hfresh by (intros [? ?]%Hr; congruence).
  destruct (register_fresh _ _ Hfresh) as (r' & Hreg & Hp). unfold init_static.
  rewrite new_vec_plain by done.
  cbn [obind]. rewrite Hreg. cbn [obind fst snd]. eexists. split; [done|].
  assert (∀ x, x ∈ registered r' ↔ x = st_name st ∨ x ∈ registered (registry σ)) as Hin by (intros x; rewrite Hp; apply elem_of_cons).
  split; [|cbn; split_and!; [done..|]; apply Hin; by left].
  split; cbn [cells counts observed registry].
  - intros x name [[<- <-]|[_ Hx]]%lookup_insert_Some; [split; [done|apply Hin; by left]|].
    destruct (Hc _ _ Hx) as [-> ?]. split; [done|]. apply Hin. by right.
  - intros x [->|Hx]%Hin; [by rewrite lookup_insert_eq|]. destruct (decide (x = st_name st)) as [->|]; [by rewrite lookup_insert_eq|].
    rewrite lookup_insert_ne by done. by apply Hr.
  - intros k Hx. apply Hin. right. by apply Hk.
  - intros k Hx. apply Hin. right. by apply Ho.
Qed.

Lemma inc_ok st labels σ :
  plain_static st = true → length labels = length (st_labels st) → statics_ok σ →
  ∃ σ', inc st labels σ = Ret σ' ∧ statics_ok σ' ∧ observed σ' = observed σ ∧
    counts σ' = <[(st_name st, labels) := as_u64 (default 0 (counts σ !! (st_name st, labels)) + 1)]> (counts σ).
Proof.
  intros Hp Hlen Hok. destruct (force_ok st σ Hp Hok) as (σ1 & Hf & [Hc Hr Hk Ho] & Ec & Eo & Hin). unfold inc. rewrite Hf.
  cbn [obind]. rewrite with_label_values_ok by done. cbn [obind].
  eexists. split; [done|]. cbn. rewrite Ec, Eo. split; [|done]. split; cbn; [done|done| |by rewrite <- Eo].
  intros k Hx. destruct (decide (k = (st_name st, labels))) as [->|]; [done|]. rewrite lookup_insert_ne in Hx by done.
  apply Hk. by rewrite Ec.
Qed.

(** The histogram of a child after one more observation. *)
Definition observe_child (bs : list f64) (v : f64) (h : option Histogram) : Histogram :=
  histogram_observe (default (histogram_new bs) h) v.

Lemma observe_ok st labels v σ :
  plain_static st = true → length labels = length (st_labels st) → st_buckets st = None → statics_ok σ →
  ∃ σ', observe st labels v σ = Ret σ' ∧ statics_ok σ' ∧ counts σ' = counts σ ∧
    observed σ' = <[(st_name st, labels) := observe_child DEFAULT_BUCKETS v (observed σ !! (st_name st, labels))]> (observed σ).
Proof.
  intros Hp Hlen Hb Hok. destruct (force_ok st σ Hp Hok) as (σ1 & Hf & [Hc Hr Hk Ho] & Ec & Eo & Hin). unfold observe. rewrite Hf.
  cbn [obind]. rewrite with_label_values_ok by done. cbn [obind]. unfold buckets_of. rewrite bool_decide_eq_true_2, Hb by done.
  change (default DEFAULT_BUCKETS None) with DEFAULT_BUCKETS.
  eexists. split; [done|]. cbn. rewrite Ec, Eo. split; [|done]. split; cbn; [done|done|by rewrite <- Ec|].
  intros k Hx. destruct (decide (k = (st_name st, labels))) as [->|]; [done|]. rewrite lookup_insert_ne in Hx by done.
  apply Ho. by rewrite Eo.
Qed.

Lemma run_record_ok c σ :
  statics_ok σ →
  ∃ σ', run_record c σ = Ret σ' ∧ statics_ok σ' ∧
    counts σ' = <[total_key c := as_u64 (default 0 (counts σ !! total_key c) + 1)]> (counts σ) ∧
    observed σ' = <[duration_key c := observe_child DEFAULT_BUCKETS (duration_of c).2 (observed σ !! duration_key c)]> (observed σ).
Proof.
  intros Hok.
  assert (∀ st dst labels dlabels v, plain_static st = true → plain_static dst = true →
    length labels = length (st_labels st) → length dlabels = length (st_labels dst) → st_buckets dst = None →
    ∃ σ', (σ <-! observe dst dlabels v σ ;; inc st labels σ) = Ret σ' ∧ statics_ok σ' ∧
      counts σ' = <[(st_name st, labels) := as_u64 (default 0 (counts σ !! (st_name st, labels)) + 1)]> (counts σ) ∧
      observed σ' = <[(st_name dst, dlabels) := observe_child DEFAULT_BUCKETS v (observed σ !! (st_name dst, dlabels))]> (observed σ)) as Hrun.
  { intros st dst labels dlabels v Hs Hd Hl Hdl Hb.
    destruct (observe_ok dst dlabels v σ Hd Hdl Hb Hok) as (σ1 & -> & Hok1 & Ec & Eo).
    destruct (inc_ok st labels σ1 Hs Hl Hok1) as (σ2 & Hi & Hok2 & Eo2 & Ec2). exists σ2. cbn [obind].
    rewrite Ec2, Eo2, Ec, Eo. done. }
  destruct c; by apply Hrun.
Qed.

Lemma times_snoc key cs c : times key (cs ++ [c]) = (times key cs + if decide (total_key c = key) then 1 else 0)%nat.
Proof. unfold times. rewrite filter_app, length_app, filter_cons, filter_nil. by case_decide. Qed.

Lemma durations_snoc key cs c :
  durations key (cs ++ [c]) = durations key cs ++ (if decide (duration_key c = key) then [(duration_of c).2] else []).
Proof. unfold durations. rewrite filter_app, fmap_app, filter_cons, filter_nil. by case_decide. Qed.

Lemma run_records_app cs cs' σ : run_records (cs ++ cs') σ = (σ <-! run_records cs σ ;; run_records cs' σ).
Proof.
  revert σ. induction cs as [|c cs IH]; intros σ; [done|]. cbn. destruct (run_record c σ) as [σ1|]; [|done]. cbn. apply IH.
Qed.

(** What a histogram with upper bounds [bs] shows of the durations [ds]. *)
Definition histogram_of (bs ds : list f64) : Z * f64 * list (f64 * Z) :=
  (as_u64 (Z.of_nat (length ds)), foldl f64_add f64_zero ds,
   (λ b, (b, as_u64 (Z.of_nat (length (filter (λ d, f64_leb d b = true) ds))))) <$> bs).

Lemma histogram_of_snoc bs ds d h :
  increasing bs = true → histogram_lines h = histogram_of bs ds → histogram_lines (histogram_observe h d) = histogram_of bs (ds ++ [d]).
Proof.
  unfold histogram_lines, histogram_of. intros Hbs [= Hc Hs Hb].
  rewrite observe_count, observe_sum, observe_cumulative, Hc, Hs, Hb.
  - rewrite foldl_app, length_app. cbn [foldl length]. f_equal; [f_equal|].
    + unfold wrap. rewrite Zplus_mod_idemp_l. f_equal. lia.
    + rewrite <- list_fmap_compose. apply list_fmap_ext. intros i b _. unfold bucket_add. cbn. f_equal.
      rewrite filter_app, length_app, filter_cons, filter_nil. unfold wrap. rewrite Zplus_mod_idemp_l. f_equal.
      case_decide as Hd; destruct (f64_leb d b); cbn; (lia || done).
  - rewrite Hb, <- list_fmap_compose. rewrite <- Hbs. f_equal. apply list_fmap_id.
Qed.

Lemma histogram_of_new bs : increasing bs = true → histogram_lines (histogram_new bs) = histogram_of bs [].
Proof. intros Hbs. unfold histogram_lines, histogram_of. by rewrite new_count, new_sum, new_cumulative. Qed.

(** A child exists from its first use. *)
Definition child {A} (n : nat) (x : A) : option A := match n with O => None | S _ => Some x end.

Lemma run_records_ok cs :
  ∃ σ, run_records cs statics_new = Ret σ ∧ statics_ok σ ∧
    (∀ key, counts σ !! key = child (times key cs) (as_u64 (Z.of_nat (times key cs)))) ∧
    (∀ key, histogram_lines <$> observed σ !! key = child (length (durations key cs)) (histogram_of DEFAULT_BUCKETS (durations key cs))).
Proof.
  induction cs as [|c cs (σ & Hr & Hok & Hc & Ho)] using rev_ind.
  { exists statics_new. split_and!; [done|apply statics_new_ok|done..]. }
  destruct (run_record_ok c σ Hok) as (σ' & Hr' & Hok' & Ec & Eo). exists σ'. rewrite run_records_app, Hr. cbn [obind run_records].
  rewrite Hr'. split_and!; [done..| |].
  - intros key. rewrite Ec, times_snoc. destruct (decide (total_key c = key)) as [<-|E].
    + rewrite lookup_insert_eq, Hc, Nat.add_1_r. cbn [child]. f_equal.
      destruct (times (total_key c) cs) as [|n]; [done|]. cbn [child default from_option id]. unfold wrap.
      rewrite Zplus_mod_idemp_l. f_equal. lia.
    + rewrite lookup_insert_ne, Hc, Nat.add_0_r by done. done.
  - intros key. rewrite Eo, durations_snoc. destruct (decide (duration_key c = key)) as [<-|E].
    + rewrite lookup_insert_eq, length_app, Nat.add_1_r. cbn [child fmap option_fmap option_map]. f_equal.
      apply histogram_of_snoc; [apply default_increasing|]. specialize (Ho (duration_key c)).
      destruct (durations (duration_key c) cs), (observed σ !! duration_key c); cbn [child length fmap option_fmap option_map] in Ho;
        try done; [apply histogram_of_new, default_increasing|]. exact (Some_inj _ _ Ho).
    + by rewrite lookup_insert_ne, Ho, app_nil_r.
Qed.

(** C40: the metrics of the controllers are exact.  Whatever reconciliations are recorded in
whatever order, nothing panics: every call has a value for every label that its metric
declares.  A scrape sees of every name and labels the number of calls with them, modulo
2^64, and of a histogram that number, the sum of the durations added in their order, and
for each default upper bound how many of them are at most the bound; what was never
recorded is not there. *)
Theorem controller_metrics_exact cs :
  ∃ σ, run_records cs statics_new = Ret σ ∧
    ∀ name labels,
      exposed_count σ name labels = child (times (name, labels) cs) (as_u64 (Z.of_nat (times (name, labels) cs))) ∧
      exposed_histogram σ name labels =
        child (length (durations (name, labels) cs)) (histogram_of DEFAULT_BUCKETS (durations (name, labels) cs)).
Proof.
  destruct (run_records_ok cs) as (σ & Hr & [_ _ Hk Hd] & Hc & Ho). exists σ. split; [done|]. intros name labels.
  unfold exposed_count, exposed_histogram. rewrite <- Hc, <- Ho. case_bool_decide as Hin; [done|]. split.
  - destruct (counts σ !! (name, labels)) eqn:E; [|done]. destruct Hin. apply (Hk (name, labels)). eauto.
  - destruct (observed σ !! (name, labels)) eqn:E; [|done]. destruct Hin. apply (Hd (name, labels)). eauto.
Qed.

(** A call with a value too few would panic. *)
Lemma missing_label_panics σ st values v :
  plain_static st = true → statics_ok σ → length values ≠ length (st_labels st) → inc st values σ = Panic ∧ observe st values v σ = Panic.
Proof.
  intros Hp Hok Hl. destruct (force_ok st σ Hp Hok) as (σ1 & Hf & _). unfold inc, observe. rewrite Hf. cbn [obind].
  by rewrite with_label_values_panic.
Qed.

(** *** The health checker *)
Lemma register_all_fresh names : ∀ r,
  NoDup names → (∀ n, n ∈ names → n ∉ registered r) → ∃ r', register_all names r = Ret r' ∧ registered r' ≡ₚ registered r ++ names.
Proof.
  induction names as [|n names IH]; intros r Hnd Hf; cbn [register_all]; [exists r; by rewrite app_nil_r|].
  apply NoDup_cons in Hnd as [Hn Hnd]. destruct (register_fresh r n) as (r1 & -> & Hp); [apply Hf; by left|].
  destruct (IH r1 Hnd) as (r' & Hr' & Hp').
  { intros m Hm. rewrite Hp, not_elem_of_cons. split; [by intros ->|]. apply Hf. by right. }
  exists r'. split; [done|]. rewrite Hp', Hp. cbn. apply Permutation_middle.
Qed.

Lemma create_health : create_all health_metric_names = Ret ().
Proof. cbn [create_all health_metric_names]. by rewrite !new_vec_plain by (done || by repeat constructor). Qed.

(** A registry takes one health checker.  A fresh registry, which every router makes for
its own and no scrape reads, gets the five metrics of the checker; a second checker in
the same registry panics. *)
Theorem one_checker_per_registry :
  ∃ r, health_checker_metrics registry_empty = Ret r ∧ registered r ≡ₚ health_metric_names.*1 ∧ health_checker_metrics r = Panic.
Proof.
  unfold health_checker_metrics. rewrite create_health. cbn [obind].
  destruct (register_all_fresh (health_metric_names.*1) registry_empty) as (r & Hr & Hp).
  { apply (bool_decide_unpack _). vm_compute. exact I. }
  { intros n _. rewrite registered_empty. apply not_elem_of_nil. }
  exists r. split; [done|]. rewrite registered_empty in Hp. split; [done|]. cbn [register_all health_metric_names fmap list_fmap fst].
  destruct (register_twice r "rauta_backend_health_status") as [e ->]; [|done]. rewrite Hp. by left.
Qed.
End metrics.

(** ** Witness: a registry that is its names *)
Definition list_prometheus : PrometheusLib.
Proof.
  refine {|
    Registry := list string;
    registry_empty := [];
    registered r := r;
    register r n := if bool_decide (n ∈ r) then Err "Duplicate metrics collector registration attempted" else Ok (n :: r);
    new_vec n labels := if plain_name n && forallb plain_name labels then Ok () else Err "is not a valid metric name";
    get_metric_with_label_values labels values :=
      if bool_decide (length values = length labels) then Ok () else Err "Inconsistent label cardinality";
    DEFAULT_BUCKETS := thousandths <$> [5; 10; 25; 50; 100; 250; 500; 1000; 2500; 5000; 10000];
    Histogram := Z * f64 * list (f64 * Z);
    histogram_new bs := (0, f64_zero, (λ b, (b, 0)) <$> bs);
    histogram_observe h v := (as_u64 (h.1.1 + 1), f64_add h.1.2 v, bucket_add v <$> h.2);
    sample_count h := h.1.1;
    sample_sum h := h.1.2;
    cumulative h := h.2
  |}.
  - done.
  - intros r n Hn. exists (n :: r). by rewrite bool_decide_eq_false_2.
  - intros r n Hn. rewrite bool_decide_eq_true_2 by done. eauto.
  - intros n labels -> Hl. by rewrite (proj2 (forallb_plain labels) Hl).
  - intros labels values E. by rewrite bool_decide_eq_true_2.
  - intros labels values E. rewrite bool_decide_eq_false_2 by done. eauto.
  - vm_compute. reflexivity.
  - done.
  - done.
  - done.
  - done.
  - done.
  - done.
Defined.

#[local] Existing Instance list_prometheus.

Example counted_routes :
  let cs := [CallRoute "web" "default" (f64_of_Z 1) "success"; CallClass "rauta" (f64_of_Z 2) "success";
             CallRoute "web" "default" (f64_of_Z 3) "success"] in
  match run_records cs statics_new with
  | Ret σ =>
      exposed_count σ "httproute_reconciliations_total" ["web"; "default"; "success"] = Some 2 ∧
      (∃ bs, exposed_histogram σ "httproute_reconciliation_duration_seconds" ["web"; "default"] = Some (2, f64_of_Z 4, bs) ∧
         bs.*2 = [0; 0; 0; 0; 0; 0; 0; 1; 1; 2; 2]) ∧
      exposed_count σ "gateway_reconciliations_total" ["web"; "default"; "success"] = None
  | Panic => False
  end.
Proof. vm_compute. split_and!; [done| |done]. eexists. split; reflexivity. Qed.
