(* ===== verification/Decimal.v ===== *)
(** * Decimal: decimal texts of numbers

[str::parse::<f64>], [str::parse] of unsigned integers and the [Display] of [f64]
of the standard library: the correctly rounded value of a decimal text, and the
shortest decimal text that is read back as the same number. *)

From S2P Require Import Prelude Common Float Text.
From stdpp Require Import pretty.

#[local] Open Scope Z_scope.

(** ** Characters *)
Definition byte_in (lo hi b : Z) : bool := (lo <=? b) && (b <=? hi).

Definition is_ascii_digit (b : Z) : bool := byte_in 48 57 b.
Definition is_ascii_alphabetic (b : Z) : bool := byte_in 65 90 b || byte_in 97 122 b.
Definition is_ascii_alphanumeric (b : Z) : bool := is_ascii_digit b || is_ascii_alphabetic b.

(** [to_ascii_lowercase] of a byte. *)
Definition lower (b : Z) : Z := if byte_in 65 90 b then b + 32 else b.

(** The leading digits of a text and what follows them. *)
Fixpoint span_digits (bs : list Z) : list Z * list Z :=
  match bs with
  | b :: bs' =>
      if is_ascii_digit b then let '(ds, rest) := span_digits bs' in (b - 48 :: ds, rest) else ([], bs)
  | [] => ([], [])
  end.

Definition number_of (ds : list Z) : Z := foldl (λ n d, 10 * n + d) 0 ds.

(** ** [str::parse] of an unsigned integer of [w] bits: digits only, one leading
plus allowed, and an error on overflow. *)
Definition parse_uint (w : Z) (text : string) : option Z :=
  let bs := as_bytes text in
  let body := match bs with 43 :: rest => rest | _ => bs end in
  match span_digits body with
  | ((_ :: _) as ds, []) => let n := number_of ds in if n <? 2 ^ w then Some n else None
  | _ => None
  end.

(** ** [str::parse::<f64>] *)

(** The value of [m * 10^e], rounded to nearest even. *)
Definition f64_of_decimal (negative : bool) (m e : Z) : f64 :=
  match m with
  | Zpos p =>
      if 0 <=? e then
        binary_normalize 53 1024 (if negative then - (m * 10 ^ e) else m * 10 ^ e) 0 negative
      else
        match 10 ^ (- e) with
        | Zpos q => SFdiv 53 1024 (S754_finite negative p 0) (S754_finite false q 0)
        | _ => S754_nan
        end
  | _ => S754_zero negative
  end.

(** An optional exponent at the end of a number. *)
Definition parse_exponent (bs : list Z) : option Z :=
  match bs with
  | [] => Some 0
  | b :: rest =>
      if lower b =? 101 then
        let '(negative, body) :=
          match rest with
          | 43 :: r => (false, r)
          | 45 :: r => (true, r)
          | _ => (false, rest)
          end in
        match span_digits body with
        | ((_ :: _) as ds, []) => Some (if negative then - number_of ds else number_of ds)
        | _ => None
        end
      else None
  end.

Definition parse_magnitude (negative : bool) (bs : list Z) : option f64 :=
  let word := lower <$> bs in
  if bool_decide (word = as_bytes "inf") || bool_decide (word = as_bytes "infinity")
  then Some (S754_infinity negative)
  else if bool_decide (word = as_bytes "nan") then Some S754_nan
  else
    let '(int_digits, rest) := span_digits bs in
    let '(frac_digits, rest) :=
      match rest with
      | 46 :: r => span_digits r
      | _ => ([], rest)
      end in
    match (int_digits ++ frac_digits)%list with
    | [] => None
    | ds =>
        e ← parse_exponent rest;
        Some (f64_of_decimal negative (number_of ds) (e - Z.of_nat (length frac_digits)))
    end.

Definition parse_f64 (text : string) : option f64 :=
  match as_bytes text with
  | 43 :: bs => parse_magnitude false bs
  | 45 :: bs => parse_magnitude true bs
  | bs => parse_magnitude false bs
  end.

(** ** [Display for f64] *)
Fixpoint zero_digits (n : nat) : string :=
  match n with
  | O => ""
  | S n => String "0" (zero_digits n)
  end.

(** [n * 10^q] in positional notation. *)
Definition positional (n q : Z) : string :=
  let s := show_Z n in
  if 0 <=? q then s +:+ zero_digits (Z.to_nat q)
  else
    let k := Z.to_nat (- q) in
    let l := String.length s in
    if (k <? l)%nat then String.substring 0 (l - k) s +:+ "." +:+ String.substring (l - k) k s
    else "0." +:+ zero_digits (k - l) +:+ s.

(** The final zeros of a fraction are not printed. *)
Fixpoint strip_fraction (fuel : nat) (n q : Z) : Z * Z :=
  match fuel with
  | O => (n, q)
  | S fuel => if (q <? 0) && (n mod 10 =? 0) then strip_fraction fuel (n / 10) (q + 1) else (n, q)
  end.

(** The value [m * 2^e] as a fraction. *)
Definition fraction_of (m : positive) (e : Z) : Z * Z :=
  if 0 <=? e then (Zpos m * 2 ^ e, 1) else (Zpos m, 2 ^ (- e)).

(** The least [x] with [num / den < 10^x], near the estimate. *)
Fixpoint decimal_exponent (fuel : nat) (num den x : Z) : Z :=
  match fuel with
  | O => x
  | S fuel =>
      if num * 10 ^ Z.max 0 (- x) <? den * 10 ^ Z.max 0 x then x else decimal_exponent fuel num den (x + 1)
  end.

Definition same_f64 (x y : f64) : bool := SFeqb x y.

(** The candidates with [k] digits around the value, the nearer one first. *)
Definition candidates (num den x k : Z) : list (Z * Z) :=
  let q := x - k in
  let a := num * 10 ^ Z.max 0 (- q) in
  let b := den * 10 ^ Z.max 0 q in
  let n := a / b in
  if 2 * (a mod b) <=? b then [(n, q); (n + 1, q)] else [(n + 1, q); (n, q)].

Fixpoint shortest (fuel : nat) (m : positive) (e : Z) (num den x k : Z) : Z * Z :=
  match fuel with
  | O => (num, 0)
  | S fuel =>
      match filter (λ c, same_f64 (f64_of_decimal false c.1 c.2) (S754_finite false m e) = true)
              (candidates num den x k) with
      | c :: _ => c
      | [] => shortest fuel m e num den x (k + 1)
      end
  end.

Definition show_f64 (v : f64) : string :=
  let sign (negative : bool) := if negative then "-" else "" in
  match v with
  | S754_nan => "NaN"
  | S754_infinity negative => sign negative +:+ "inf"
  | S754_zero negative => sign negative +:+ "0"
  | S754_finite negative m e =>
      let '(num, den) := fraction_of m e in
      let estimate := (e + Zpos (digits2_pos m) - 1) * 30103 / 100000 - 2 in
      let x := decimal_exponent 8 num den estimate in
      let '(n, q) := shortest 17 m e num den x 1 in
      let '(n, q) := strip_fraction 20 n q in
      sign negative +:+ positional n q
  end.

(** ** The texts of some numbers *)
Example show_third : show_f64 (f64_div (f64_of_Z 1) (f64_of_Z 3)) = "0.3333333333333333".
Proof. vm_compute. reflexivity. Qed.

Example show_three_quarters : show_f64 (f64_div (f64_of_Z 3) (f64_of_Z 4)) = "0.75".
Proof. vm_compute. reflexivity. Qed.

Example show_one : show_f64 (f64_of_Z 1) = "1".
Proof. vm_compute. reflexivity. Qed.

Example parse_tenth : show_f64 <$> parse_f64 "1e-1" = Some "0.1".
Proof. vm_compute. reflexivity. Qed.

Example parse_big : show_f64 <$> parse_f64 "+1.5E3" = Some "1500".
Proof. vm_compute. reflexivity. Qed.

Example parse_rejects : parse_f64 "" = None ∧ parse_f64 "." = None ∧ parse_f64 "1e" = None ∧ parse_f64 " 1" = None.
Proof. vm_compute. auto. Qed.

Example parse_special : parse_f64 "NaN" = Some S754_nan ∧ parse_f64 "-Infinity" = Some (S754_infinity true).
Proof. vm_compute. auto. Qed.

Example parse_uints : parse_uint 16 "+0808" = Some 808 ∧ parse_uint 16 "65536" = None ∧ parse_uint 16 "" = None.
Proof. vm_compute. auto. Qed.

(** ** A number is read back from its digits *)
Definition is_digit_char (c : ascii) : bool := is_ascii_digit (byte_of_ascii c).

Definition digits_of (s : string) : list Z := (λ b, b - 48) <$> as_bytes s.

Lemma pretty_char_digit d : (d < 10)%N → byte_of_ascii (pretty_N_char d) - 48 = Z.of_N d ∧ is_digit_char (pretty_N_char d) = true.
Proof.
  intros Hd. assert (d = 0 ∨ d = 1 ∨ d = 2 ∨ d = 3 ∨ d = 4 ∨ d = 5 ∨ d = 6 ∨ d = 7 ∨ d = 8 ∨ d = 9)%N as H by lia.
  destruct_or! H; subst; done.
Qed.

Lemma pretty_go_digits x : ∀ s,
  forall_ascii is_digit_char s = true →
  forall_ascii is_digit_char (pretty_N_go x s) = true ∧
  number_of (digits_of (pretty_N_go x s)) = foldl (λ n d, 10 * n + d) (Z.of_N x) (digits_of s).
Proof.
  induction (N.lt_wf_0 x) as [x _ IH]; intros s Hs. destruct (decide (x = 0)%N) as [->|Hx]; [done|].
  rewrite pretty_N_go_step by lia. pose proof (N.mod_lt x 10) as Hm.
  destruct (pretty_char_digit (x mod 10)) as [Hv Hd]; [lia|].
  destruct (IH (x / 10)%N) with (s := String (pretty_N_char (x mod 10)) s) as [Hf Hn].
  { apply N.div_lt; lia. }
  { cbn. by rewrite Hd. }
  split; [done|]. rewrite Hn. unfold digits_of. cbn [as_bytes fmap list_fmap foldl]. rewrite Hv.
  f_equal. rewrite N2Z.inj_div, N2Z.inj_mod. change (Z.of_N 10) with 10. symmetry. by apply Z.div_mod.
Qed.

Lemma show_Z_digits n :
  0 <= n →
  forall_ascii is_digit_char (show_Z n) = true ∧ number_of (digits_of (show_Z n)) = n ∧ show_Z n ≠ "".
Proof.
  intros Hn. unfold show_Z, pretty, pretty_N. destruct (decide _) as [E|E]; [split_and!; [done|change (0 = n); lia|done]|].
  destruct (pretty_go_digits (Z.to_N n) "" eq_refl) as [Hf Hv]. split_and!; [done|rewrite Hv; change (Z.of_N (Z.to_N n) = n); lia|].
  intros E'. rewrite E' in Hv. change (0 = Z.of_N (Z.to_N n)) in Hv. lia.
Qed.

Lemma span_digits_app s rest :
  forall_ascii is_digit_char s = true →
  (match rest with b :: _ => is_ascii_digit b | [] => false end) = false →
  span_digits (as_bytes s ++ rest) = (digits_of s, rest).
Proof.
  intros Hs Hr. induction s as [|c s IH]; cbn [as_bytes app digits_of fmap list_fmap].
  - destruct rest as [|b rest]; [done|]. cbn. by rewrite Hr.
  - cbn in Hs. apply andb_true_iff in Hs as [Hc Hs]. cbn [span_digits]. unfold is_digit_char in Hc.
    by rewrite Hc, IH.
Qed.

Lemma as_bytes_app s t : as_bytes (s +:+ t) = as_bytes s ++ as_bytes t.
Proof. induction s as [|c s IH]; [done|]. change (String c s +:+ t) with (String c (s +:+ t)). cbn. by rewrite IH. Qed.

Lemma span_show n : 0 <= n → span_digits (as_bytes (show_Z n)) = (digits_of (show_Z n), []).
Proof.
  intros Hn. rewrite <- (app_nil_r (as_bytes _)). apply span_digits_app; [|done]. by apply show_Z_digits.
Qed.

(** The first byte of a printed number is a digit. *)
Lemma show_head n : 0 <= n → ∃ b bs, as_bytes (show_Z n) = b :: bs ∧ is_ascii_digit b = true.
Proof.
  intros Hn. destruct (show_Z_digits n Hn) as (Hf & _ & He). destruct (show_Z n) as [|c s]; [done|].
  cbn in *. apply andb_true_iff in Hf as [Hc _]. eauto.
Qed.

Lemma digits_show_cons n : 0 <= n → ∃ d ds, digits_of (show_Z n) = d :: ds.
Proof. intros Hn. destruct (show_head n Hn) as (b & bs & E & _). unfold digits_of. rewrite E. by eexists _, _. Qed.

(** Printing and parsing an unsigned integer. *)
Lemma parse_uint_show w n : 0 <= n < 2 ^ w → parse_uint w (show_Z n) = Some n.
Proof.
  intros Hn. unfold parse_uint. destruct (show_head n) as (b & bs & E & Hb); [lia|].
  assert (span_digits (match as_bytes (show_Z n) with 43 :: rest => rest | _ => as_bytes (show_Z n) end)
          = (digits_of (show_Z n), [])) as ->.
  { rewrite <- span_show by lia. rewrite E. unfold is_ascii_digit, byte_in in Hb. zbool.
    destruct b as [|p|p]; try done. repeat (destruct p as [p|p|]; try done); lia. }
  destruct (digits_show_cons n) as (d & ds & Ed); [lia|]. rewrite Ed. rewrite <- Ed.
  destruct (show_Z_digits n) as (_ & -> & _); [lia|]. rewrite (proj2 (Z.ltb_lt _ _)) by lia. done.
Qed.

Lemma parse_f64_show n : 0 < n → parse_f64 (show_Z n) = Some (f64_of_Z n).
Proof.
  intros Hn. unfold parse_f64. destruct (show_head n) as (b & bs & E & Hb); [lia|].
  assert (match as_bytes (show_Z n) with
          | 43 :: bs => parse_magnitude false bs
          | 45 :: bs => parse_magnitude true bs
          | bs => parse_magnitude false bs
          end = parse_magnitude false (as_bytes (show_Z n))) as ->.
  { rewrite E. unfold is_ascii_digit, byte_in in Hb. zbool.
    destruct b as [|p|p]; try done. repeat (destruct p as [p|p|]; try done); lia. }
  unfold parse_magnitude.
  assert (∀ w, (match as_bytes w with c :: _ => is_ascii_digit c | [] => false end) = false →
    bool_decide (lower <$> as_bytes (show_Z n) = as_bytes w) = false) as Hw.
  { intros w Hw. apply bool_decide_eq_false. intros Ew. rewrite E in Ew. cbn in Ew. rewrite <- Ew in Hw.
    unfold is_ascii_digit, byte_in, lower in *. zbool. destruct (byte_in 65 90 b) eqn:Eb; unfold byte_in in Eb; zbool; [lia|].
    rewrite !(proj2 (Z.leb_le _ _)) in Hw by lia. done. }
  rewrite !Hw by done. cbn [orb]. rewrite span_show by lia. rewrite app_nil_r.
  destruct (digits_show_cons n) as (d & ds & Ed); [lia|]. rewrite Ed. rewrite <- Ed.
  cbn [parse_exponent mbind option_bind length]. destruct (show_Z_digits n) as (_ & -> & _); [lia|].
  unfold f64_of_decimal. destruct n as [|p|p]; try lia. cbn [Z.of_nat Z.sub Z.add Z.opp Z.leb Z.compare].
  change (10 ^ 0) with 1. by rewrite Z.mul_1_r.
Qed.
