(* ===== verification/GatewayIndex.v ===== *)
(** * GatewayIndex: the set of managed Gateways ([gateway_index.rs])

The Gateway controller adds and removes the Gateways of its class, the HTTPRoute
controller asks whether a parent is among them, and a scrape prints the counters.
Clones share the set and the counters, so a clone is a handle on the one state
here.  The set is behind a lock; the counters are atomics that a scrape reads
without it, which the second half of the file models access by access. *)

From S2P Require Import Prelude Common Float Decimal.

#[local] Open Scope Z_scope.

(** ** Data *)
Record GatewayKey : Type := mk_gateway_key { key_namespace : string; key_name : string }.

#[export] Instance GatewayKey_eq_dec : EqDecision GatewayKey.
Proof. solve_decision. Defined.

#[export] Instance GatewayKey_countable : Countable GatewayKey.
Proof.
  apply (inj_countable' (λ k, (key_namespace k, key_name k)) (λ '(ns, n), mk_gateway_key ns n)).
  by intros [].
Defined.

Definition key_to_string (k : GatewayKey) : string := key_namespace k +:+ "/" +:+ key_name k.

Record GatewayIndexMetrics : Type := mk_index_metrics { lookups : Z; hits : Z; adds : Z; removes : Z }.

Definition index_metrics_new : GatewayIndexMetrics := mk_index_metrics 0 0 0 0.

(** [fetch_add(1)] on an [AtomicU64]. *)
Definition bump (n : Z) : Z := as_u64 (n + 1).

Definition record_lookup (m : GatewayIndexMetrics) (hit : bool) : GatewayIndexMetrics :=
  mk_index_metrics (bump (lookups m)) (if hit then bump (hits m) else hits m) (adds m) (removes m).

Definition record_add (m : GatewayIndexMetrics) : GatewayIndexMetrics :=
  mk_index_metrics (lookups m) (hits m) (bump (adds m)) (removes m).

Definition record_remove (m : GatewayIndexMetrics) : GatewayIndexMetrics :=
  mk_index_metrics (lookups m) (hits m) (adds m) (bump (removes m)).

(** [hit_rate] of two loaded counters. *)
Definition rate_of (lookups hits : Z) : f64 :=
  if lookups =? 0 then f64_of_Z 0 else f64_div (f64_of_Z hits) (f64_of_Z lookups).

Definition hit_rate (m : GatewayIndexMetrics) : f64 := rate_of (lookups m) (hits m).

Definition newline : string := String (ascii_of_N 10) EmptyString.
Definition quote : string := String (ascii_of_N 34) EmptyString.

(** One family of the text: its help line, its type line and its sample. *)
Definition family (name help kind gateway_class value : string) : string :=
  "# HELP " +:+ name +:+ " " +:+ help +:+ newline +:+
  "# TYPE " +:+ name +:+ " " +:+ kind +:+ newline +:+
  name +:+ "{class=" +:+ quote +:+ gateway_class +:+ quote +:+ "} " +:+ value.

Definition to_prometheus (m : GatewayIndexMetrics) (gateway_class : string) : string :=
  family "gateway_index_lookups_total" "Total Gateway index lookup operations" "counter"
    gateway_class (show_Z (lookups m)) +:+ newline +:+
  family "gateway_index_hits_total" "Successful Gateway index lookups" "counter"
    gateway_class (show_Z (hits m)) +:+ newline +:+
  family "gateway_index_adds_total" "Total Gateway index add operations" "counter"
    gateway_class (show_Z (adds m)) +:+ newline +:+
  family "gateway_index_removes_total" "Total Gateway index remove operations" "counter"
    gateway_class (show_Z (removes m)) +:+ newline +:+
  family "gateway_index_hit_rate" "Gateway index lookup hit rate" "gauge"
    gateway_class (show_f64 (hit_rate m)).

Record GatewayIndex : Type := mk_index {
  inner : gset GatewayKey;
  gateway_class_name : string;
  index_metrics : GatewayIndexMetrics
}.

Definition index_new (gateway_class_name : string) : GatewayIndex :=
  mk_index ∅ gateway_class_name index_metrics_new.

(** ** Operations *)
Definition index_add (i : GatewayIndex) (namespace name : string) : bool * GatewayIndex :=
  let key := mk_gateway_key namespace name in
  let is_new := negb (bool_decide (key ∈ inner i)) in
  (is_new, mk_index ({[ key ]} ∪ inner i) (gateway_class_name i) (record_add (index_metrics i))).

Definition index_remove (i : GatewayIndex) (namespace name : string) : bool * GatewayIndex :=
  let key := mk_gateway_key namespace name in
  let was_present := bool_decide (key ∈ inner i) in
  (was_present, mk_index (inner i ∖ {[ key ]}) (gateway_class_name i) (record_remove (index_metrics i))).

Definition index_contains (i : GatewayIndex) (namespace name : string) : bool * GatewayIndex :=
  let key := mk_gateway_key namespace name in
  let hit := bool_decide (key ∈ inner i) in
  (hit, mk_index (inner i) (gateway_class_name i) (record_lookup (index_metrics i) hit)).

Fixpoint contains_any (i : GatewayIndex) (refs : list (string * string)) : bool * GatewayIndex :=
  match refs with
  | [] => (false, i)
  | (namespace, name) :: refs =>
      let '(hit, i) := index_contains i namespace name in
      if hit then (true, i) else contains_any i refs
  end.

Definition index_len (i : GatewayIndex) : Z := Z.of_nat (size (inner i)).

Definition index_is_empty (i : GatewayIndex) : bool := index_len i =? 0.

Definition prometheus_metrics (i : GatewayIndex) : string :=
  to_prometheus (index_metrics i) (gateway_class_name i) +:+ newline +:+
  family "gateway_index_size" "Current number of managed Gateways" "gauge"
    (gateway_class_name i) (show_Z (index_len i)).

(** The order in which a [HashSet] is iterated: some permutation of its elements. *)
Class SetOrder : Type := {
  iter_set : gset GatewayKey → list GatewayKey;
  iter_set_perm : ∀ s, iter_set s ≡ₚ elements s
}.

Section printing.
Context `{!SetOrder}.

Definition index_keys (i : GatewayIndex) : list GatewayKey := iter_set (inner i).

Definition index_to_string (i : GatewayIndex) : string :=
  let keys := index_keys i in
  let count := length keys in
  let head := "GatewayIndex(" +:+ gateway_class_name i +:+ "): " in
  if (count =? 0)%nat then head +:+ "empty"
  else if (count <=? 3)%nat then
    head +:+ show_Z (Z.of_nat count) +:+ " gateway(s) [" +:+ String.concat ", " (key_to_string <$> keys) +:+ "]"
  else
    head +:+ show_Z (Z.of_nat count) +:+ " gateway(s) [" +:+
    String.concat ", " (key_to_string <$> take 3 keys) +:+ ", ...]".
End printing.

(** ** The global handle: a [OnceLock], set by the first call only *)
Definition register_global_gateway_index (global : option nat) (handle : nat) : option nat :=
  match global with
  | Some h => Some h
  | None => Some handle
  end.

(** The index objects of a process, by handle. *)
Definition gateway_index_metrics (store : gmap nat GatewayIndex) (global : option nat) : string :=
  match global ≫= λ h, store !! h with
  | Some i => prometheus_metrics i
  | None => ""
  end.

(** ** Specification: an index is its history *)
Inductive index_op : Type :=
| OpAdd (namespace name : string)
| OpRemove (namespace name : string)
| OpContains (namespace name : string)
| OpContainsAny (refs : list (string * string)).

Definition index_exec (i : GatewayIndex) (op : index_op) : bool * GatewayIndex :=
  match op with
  | OpAdd namespace name => index_add i namespace name
  | OpRemove namespace name => index_remove i namespace name
  | OpContains namespace name => index_contains i namespace name
  | OpContainsAny refs => contains_any i refs
  end.

(** The answers of a sequence of calls, the last call first, and the final state. *)
Definition index_run (i : GatewayIndex) (ops : list index_op) : list bool * GatewayIndex :=
  foldl (λ '(answers, i) op, let '(answer, i) := index_exec i op in (answer :: answers, i)) ([], i) ops.

(** A Gateway is managed when the last addition or removal of it is an addition
([past] has the latest operation first). *)
Fixpoint managed (past : list index_op) (key : GatewayKey) : bool :=
  match past with
  | [] => false
  | OpAdd namespace name :: past =>
      if decide (key = mk_gateway_key namespace name) then true else managed past key
  | OpRemove namespace name :: past =>
      if decide (key = mk_gateway_key namespace name) then false else managed past key
  | _ :: past => managed past key
  end.

Definition ref_key (r : string * string) : GatewayKey := mk_gateway_key r.1 r.2.

(** The answer an operation owes after [past]. *)
Definition answer_of (past : list index_op) (op : index_op) : bool :=
  match op with
  | OpAdd namespace name => negb (managed past (mk_gateway_key namespace name))
  | OpRemove namespace name | OpContains namespace name => managed past (mk_gateway_key namespace name)
  | OpContainsAny refs => existsb (λ r, managed past (ref_key r)) refs
  end.

Fixpoint answers_of (past : list index_op) : list bool :=
  match past with
  | [] => []
  | op :: past => answer_of past op :: answers_of past
  end.

(** The keys an operation looks up: a batch stops at its first managed Gateway. *)
Fixpoint probes (past : list index_op) (refs : list (string * string)) : nat :=
  match refs with
  | [] => 0
  | r :: refs => if managed past (ref_key r) then 1 else S (probes past refs)
  end.

Definition lookups_of (past : list index_op) (op : index_op) : nat :=
  match op with
  | OpAdd _ _ | OpRemove _ _ => 0
  | OpContains _ _ => 1
  | OpContainsAny refs => probes past refs
  end.

Definition hits_of (past : list index_op) (op : index_op) : nat :=
  match op with
  | OpAdd _ _ | OpRemove _ _ => 0
  | OpContains _ _ | OpContainsAny _ => if answer_of past op then 1 else 0
  end.

Fixpoint total (f : list index_op → index_op → nat) (past : list index_op) : nat :=
  match past with
  | [] => 0
  | op :: past => (f past op + total f past)%nat
  end.

Definition is_add (op : index_op) : nat := match op with OpAdd _ _ => 1 | _ => 0 end.
Definition is_remove (op : index_op) : nat := match op with OpRemove _ _ => 1 | _ => 0 end.

(** The counters after [past], modulo 2^64. *)
Definition metrics_of (past : list index_op) : GatewayIndexMetrics :=
  mk_index_metrics (as_u64 (Z.of_nat (total lookups_of past))) (as_u64 (Z.of_nat (total hits_of past)))
    (as_u64 (Z.of_nat (total (λ _, is_add) past))) (as_u64 (Z.of_nat (total (λ _, is_remove) past))).

(** ** The operations compute the history *)
Lemma bump_nat n : bump (as_u64 (Z.of_nat n)) = as_u64 (Z.of_nat (S n)).
Proof. unfold bump, wrap. rewrite Z.add_mod_idemp_l by lia. f_equal. lia. Qed.

(** The counters of [m] advanced by [l] lookups and [h] hits. *)
Definition advance (m : GatewayIndexMetrics) (l h : nat) : GatewayIndexMetrics :=
  Nat.iter h (λ m, mk_index_metrics (lookups m) (bump (hits m)) (adds m) (removes m))
    (Nat.iter l (λ m, mk_index_metrics (bump (lookups m)) (hits m) (adds m) (removes m)) m).

Lemma contains_any_spec past refs i :
  (∀ k, bool_decide (k ∈ inner i) = managed past k) →
  contains_any i refs =
    (existsb (λ r, managed past (ref_key r)) refs,
     mk_index (inner i) (gateway_class_name i)
       (advance (index_metrics i) (probes past refs)
          (if existsb (λ r, managed past (ref_key r)) refs then 1 else 0))).
Proof.
  intros Hin. revert i Hin. induction refs as [|[ns n] refs IH]; intros i Hin; cbn [contains_any].
  { by destruct i as [? ? []]. }
  unfold index_contains. rewrite Hin. cbn [existsb probes]. change (ref_key (ns, n)) with (mk_gateway_key ns n).
  destruct (managed past (mk_gateway_key ns n)) eqn:E; cbn [orb]; [by destruct i as [? ? []]|].
  rewrite IH by done. cbn [inner gateway_class_name index_metrics]. do 2 f_equal.
  unfold advance. f_equal. symmetry. etrans; [apply Nat.iter_succ_r|]. done.
Qed.

Lemma advance_of past l h :
  advance (metrics_of past) l h =
    mk_index_metrics (as_u64 (Z.of_nat (l + total lookups_of past))) (as_u64 (Z.of_nat (h + total hits_of past)))
      (adds (metrics_of past)) (removes (metrics_of past)).
Proof.
  unfold advance. induction h as [|h IHh].
  - change (Nat.iter 0 ?f ?x) with x. induction l as [|l IHl]; [done|].
    rewrite Nat.iter_succ, IHl. cbn. by rewrite bump_nat.
  - rewrite Nat.iter_succ, IHh. cbn. by rewrite bump_nat.
Qed.

Definition index_after (class : string) (past : list index_op) (i : GatewayIndex) : Prop :=
  gateway_class_name i = class ∧ index_metrics i = metrics_of past ∧
  ∀ k, bool_decide (k ∈ inner i) = managed past k.

Lemma index_exec_spec class past i op :
  index_after class past i →
  (index_exec i op).1 = answer_of past op ∧ index_after class (op :: past) (index_exec i op).2.
Proof.
  intros (Hc & Hm & Hin). destruct op as [ns n|ns n|ns n|refs]; cbn [index_exec].
  - unfold index_add; cbn [fst snd answer_of]. rewrite Hin. split; [done|]. repeat split; cbn; [done|..].
    + rewrite Hm. unfold record_add, metrics_of; cbn. by rewrite bump_nat.
    + intros k. destruct (decide _) as [->|Hne]; [apply bool_decide_eq_true; set_solver|].
      rewrite <- Hin. apply bool_decide_ext. set_solver.
  - unfold index_remove; cbn [fst snd answer_of]. rewrite Hin. split; [done|]. repeat split; cbn; [done|..].
    + rewrite Hm. unfold record_remove, metrics_of; cbn. by rewrite bump_nat.
    + intros k. destruct (decide _) as [->|Hne]; [apply bool_decide_eq_false; set_solver|].
      rewrite <- Hin. apply bool_decide_ext. set_solver.
  - unfold index_contains; cbn [fst snd answer_of]. rewrite Hin. split; [done|]. repeat split; cbn; [done| |done].
    rewrite Hm. unfold record_lookup, metrics_of; cbn. rewrite bump_nat. by case_if; rewrite ?bump_nat.
  - rewrite (contains_any_spec past) by done. cbn [fst snd answer_of]. split; [done|].
    repeat split; cbn; [done| |done]. by rewrite Hm, advance_of.
Qed.

Lemma index_run_spec class past answers i ops :
  index_after class past i → answers = answers_of past →
  let '(answers', i') := foldl (λ '(answers, i) op, let '(answer, i) := index_exec i op in (answer :: answers, i))
                           (answers, i) ops in
  answers' = answers_of (rev ops ++ past) ∧ index_after class (rev ops ++ past) i'.
Proof.
  revert past answers i. induction ops as [|op ops IH]; intros past answers i Hi ->; cbn [foldl rev]; [done|].
  destruct (index_exec_spec class past i op Hi) as [Ha Hi']. destruct (index_exec i op) as [a i'].
  cbn [fst snd] in *. subst a. rewrite <- app_assoc. cbn [app]. by apply IH.
Qed.

Lemma hits_le_probes past refs :
  ((if existsb (λ r, managed past (ref_key r)) refs then 1 else 0) <= probes past refs)%nat.
Proof.
  induction refs as [|r refs IH]; cbn [existsb probes]; [lia|].
  destruct (managed past (ref_key r)); cbn [orb]; [lia|]. destruct (existsb _ refs); lia.
Qed.

Lemma hits_le_lookups past : (total hits_of past <= total lookups_of past)%nat.
Proof.
  induction past as [|op past IH]; cbn [total]; [done|].
  assert (hits_of past op <= lookups_of past op)%nat; [|lia].
  destruct op as [| | |refs]; cbn [hits_of lookups_of]; [done..| |].
  - destruct (answer_of _ _); lia.
  - apply hits_le_probes.
Qed.

(** C33: an index answers from its history.  After any sequence of calls the answers
given are those of the specification (an addition says whether the Gateway was new,
a removal whether it was managed, a lookup whether the last change of that Gateway
was an addition), a Gateway is in the set exactly when it is managed, the four
counters are the numbers of additions, removals, keys looked up and keys found
modulo 2^64, and no more keys are found than looked up. *)
Theorem index_answers_from_history class ops :
  let past := rev ops in
  let '(answers, i) := index_run (index_new class) ops in
  answers = answers_of past ∧
  (∀ k, k ∈ inner i ↔ managed past k = true) ∧
  index_metrics i = metrics_of past ∧
  (total hits_of past <= total lookups_of past)%nat ∧
  gateway_class_name i = class.
Proof.
  cbn zeta. unfold index_run. pose proof (index_run_spec class [] [] (index_new class) ops) as H.
  destruct (foldl _ _ ops) as [answers i]. rewrite app_nil_r in H.
  destruct H as (Ha & Hc & Hm & Hin); [repeat split; cbn|done|].
  split; [done|]. split; [|by auto using hits_le_lookups].
  intros k. rewrite <- Hin. by rewrite bool_decide_eq_true.
Qed.

(** ** The counters under concurrency

A lookup bumps [lookups], and then [hits] when it found its key; a scrape loads
[lookups] and then [hits].  Each access is atomic on its own; the scrape holds no
lock. *)
Inductive counter_thread : Type :=
| LookupStart (hit : bool)
| LookupHit
| LookupDone
| ScrapeStart
| ScrapeLoaded (lookups : Z)
| ScrapeDone (rate : f64).

Record counters : Type := mk_counters { c_lookups : Z; c_hits : Z; threads : list counter_thread }.

Inductive counter_step : counters → counters → Prop :=
| step_lookup l h ts t hit :
    ts !! t = Some (LookupStart hit) →
    counter_step (mk_counters l h ts)
      (mk_counters (bump l) h (<[t := if hit then LookupHit else LookupDone]> ts))
| step_hit l h ts t :
    ts !! t = Some LookupHit → counter_step (mk_counters l h ts) (mk_counters l (bump h) (<[t := LookupDone]> ts))
| step_load_lookups l h ts t :
    ts !! t = Some ScrapeStart → counter_step (mk_counters l h ts) (mk_counters l h (<[t := ScrapeLoaded l]> ts))
| step_load_hits l h ts t l' :
    ts !! t = Some (ScrapeLoaded l') →
    counter_step (mk_counters l h ts) (mk_counters l h (<[t := ScrapeDone (rate_of l' h)]> ts)).

Lemma counter_step_at σ σ' σ'' : counter_step σ σ' → rtc counter_step σ' σ'' → rtc counter_step σ σ''.
Proof. apply rtc_l. Qed.

(** The printed hit rate is not always between 0 and 1.  A scrape loads
[lookups] before [hits]; with one lookup that hit before it and one between its
two loads it prints 2. *)
Theorem hit_rate_can_exceed_one :
  ∃ σ, rtc counter_step (mk_counters 0 0 [LookupStart true; LookupStart true; ScrapeStart]) σ ∧
    c_lookups σ = 2 ∧ c_hits σ = 2 ∧ threads σ = [LookupDone; LookupDone; ScrapeDone (f64_of_Z 2)].
Proof.
  eexists. split.
  - eapply counter_step_at; [by eapply (step_lookup _ _ _ 0)|].
    eapply counter_step_at; [by eapply (step_hit _ _ _ 0)|].
    eapply counter_step_at; [by eapply (step_load_lookups _ _ _ 2)|].
    eapply counter_step_at; [by eapply (step_lookup _ _ _ 1)|].
    eapply counter_step_at; [by eapply (step_hit _ _ _ 1)|].
    eapply counter_step_at; [by eapply (step_load_hits _ _ _ 2)|]. apply rtc_refl.
  - vm_compute. auto.
Qed.
