(* ===== verification/Validation.v ===== *)
(** * Validation: what an HTTPRoute may contain ([http_route.rs])

The checks on paths, host names and header names, the translation of methods, and
the parser of the [rauta.io/rate-limit] annotation, with their error messages. *)

From S2P Require Import Prelude Common Float Text Decimal.

#[local] Open Scope Z_scope.

(** ** Paths *)
Definition validate_path (path : string) : result unit string :=
  if String.eqb path "" then Err "Path cannot be empty"
  else if negb (starts_with "/" path) then Err ("Path '" +:+ path +:+ "' must start with '/'")
  else if contains "//" path then Err ("Path '" +:+ path +:+ "' cannot contain double slashes")
  else if (1 <? String.length path)%nat && ends_with "/" path
  then Err ("Path '" +:+ path +:+ "' cannot have trailing slash")
  else Ok ().

(** ** Host names *)
Definition valid_label_char (ch : string) : bool :=
  match as_bytes ch with
  | [b] => byte_in 97 122 b || is_ascii_digit b || (b =? 45)
  | _ => false
  end.

Fixpoint validate_label_chars (hostname : string) (l : list string) : result unit string :=
  match l with
  | [] => Ok ()
  | c :: l =>
      if valid_label_char c then validate_label_chars hostname l
      else Err ("Hostname '" +:+ hostname +:+ "' contains invalid character '" +:+ c +:+
                "' (must be lowercase alphanumeric or hyphen)")
  end.

Fixpoint validate_labels (hostname : string) (labels : list string) : result unit string :=
  match labels with
  | [] => Ok ()
  | label :: labels =>
      if String.eqb label "" then validate_labels hostname labels
      else if starts_with "-" label then Err ("Hostname label '" +:+ label +:+ "' cannot start with '-'")
      else if ends_with "-" label then Err ("Hostname label '" +:+ label +:+ "' cannot end with '-'")
      else match validate_label_chars hostname (chars label) with
           | Err e => Err e
           | Ok _ => validate_labels hostname labels
           end
  end.

Definition validate_hostname (hostname : string) : result unit string :=
  if String.eqb hostname "" then Err "Hostname cannot be empty"
  else if (253 <? String.length hostname)%nat
  then Err ("Hostname '" +:+ hostname +:+ "' exceeds 253 characters")
  else
    let hostname_to_check := default hostname (strip_prefix "*." hostname) in
    if String.eqb hostname_to_check "" then Err "Hostname cannot be just '*.'"
    else if contains ".." hostname_to_check then Err ("Hostname '" +:+ hostname +:+ "' cannot contain '..'")
    else validate_labels hostname (split "." hostname_to_check).

(** ** Header names *)
Definition validate_header_name (name : string) : result unit string :=
  if String.eqb name "" then Err "Header name cannot be empty"
  else if (256 <? String.length name)%nat then Err ("Header name '" +:+ name +:+ "' exceeds 256 characters")
  else if contains ":" name
  then Err ("Header name '" +:+ name +:+ "' cannot contain ':' (HTTP/2 pseudo-headers not allowed)")
  else if existsb (λ c, is_whitespace c || is_control c) (chars name)
  then Err ("Header name '" +:+ name +:+ "' contains invalid character (whitespace or control character)")
  else Ok ().

(** ** Methods of the Gateway API *)
Inductive HTTPRouteMethod : Type :=
| MGet | MHead | MPost | MPut | MDelete | MConnect | MOptions | MTrace | MPatch.

Definition parse_http_method (m : HTTPRouteMethod) : option HttpMethod :=
  match m with
  | MGet => Some GET
  | MPost => Some POST
  | MPut => Some PUT
  | MDelete => Some DELETE
  | MPatch => Some PATCH
  | MHead => Some HEAD
  | MOptions => Some OPTIONS
  | MConnect | MTrace => None
  end.

(** ** The rate limit annotation *)

Definition parse_rate_limit_annotation (annotation : string) : result (f64 * Z) string :=
  let parts := split "," annotation in
  match parts with
  | [] => Err "Missing rate specification"
  | first :: _ =>
      let rate_str := trim first in
      if negb (ends_with "rps" rate_str) then Err ("Rate must end with 'rps', got: " +:+ rate_str)
      else match parse_f64 (trim_end_matches "rps" rate_str) with
           | None => Err ("Invalid rate number: " +:+ rate_str)
           | Some rate =>
               if f64_leb rate (f64_of_Z 0) then Err "Rate must be positive"
               else match parts with
                    | _ :: second :: _ =>
                        let burst_str := trim second in
                        if negb (starts_with "burst=" burst_str) then Err ("Expected 'burst=N', got: " +:+ burst_str)
                        else match parse_uint 64 (trim_start_matches "burst=" burst_str) with
                             | None => Err ("Invalid burst number: " +:+ burst_str)
                             | Some burst => Ok (rate, burst)
                             end
                    | _ => Ok (rate, f64_as_u64 (f64_ceil rate))
                    end
           end
  end.

Example annotation_examples :
  parse_rate_limit_annotation " 100rps , burst=200" = Ok (f64_of_Z 100, 200) ∧
  (∃ r, parse_rate_limit_annotation "2.5rps" = Ok (r, 3)) ∧
  parse_rate_limit_annotation "0rps" = Err "Rate must be positive" ∧
  parse_rate_limit_annotation "5rps,10" = Err "Expected 'burst=N', got: 10".
Proof. vm_compute. split_and!; try done. by eexists. Qed.

Example path_examples :
  validate_path "/api/v1" = Ok () ∧ validate_path "/" = Ok () ∧
  validate_path "/api/" = Err "Path '/api/' cannot have trailing slash" ∧
  validate_hostname "*.Example.com" =
    Err "Hostname '*.Example.com' contains invalid character 'E' (must be lowercase alphanumeric or hyphen)" ∧
  validate_header_name "X Y" =
    Err "Header name 'X Y' contains invalid character (whitespace or control character)".
Proof. vm_compute. auto. Qed.

(** ** Round trip of the annotation *)
Lemma digit_graphic c : is_digit_char c = true → is_graphic c = true.
Proof.
  unfold is_digit_char, is_ascii_digit, byte_in, is_graphic. intros ?. zbool.
  apply andb_true_iff; rewrite !Z.leb_le; lia.
Qed.

Lemma digit_not c d : is_digit_char d = false → is_digit_char c = true → negb (Ascii.eqb c d) = true.
Proof. intros Hd Hc. destruct (Ascii.eqb_spec c d) as [->|]; [congruence|done]. Qed.

Lemma rate_text n :
  0 < n →
  trim (show_Z n +:+ "rps") = show_Z n +:+ "rps" ∧ trim_end_matches "rps" (show_Z n +:+ "rps") = show_Z n ∧
  forall_ascii (λ a, negb (Ascii.eqb a ",")) (show_Z n +:+ "rps") = true.
Proof.
  intros Hn. destruct (show_Z_digits n) as (Hf & _ & _); [lia|]. split_and!.
  - apply trim_graphic. rewrite forall_ascii_app. by rewrite (forall_ascii_impl is_digit_char _ _ digit_graphic Hf).
  - by apply (trim_end_once is_digit_char).
  - rewrite forall_ascii_app, (forall_ascii_impl is_digit_char _ (show_Z n)); [done| |done].
    intros c. by apply digit_not.
Qed.

Lemma burst_text n :
  0 <= n →
  trim ("burst=" +:+ show_Z n) = "burst=" +:+ show_Z n ∧
  trim_start_matches "burst=" ("burst=" +:+ show_Z n) = show_Z n ∧
  forall_ascii (λ a, negb (Ascii.eqb a ",")) ("burst=" +:+ show_Z n) = true.
Proof.
  intros Hn. destruct (show_Z_digits n) as (Hf & _ & _); [lia|]. split_and!.
  - apply trim_graphic. rewrite forall_ascii_app. by rewrite (forall_ascii_impl is_digit_char _ _ digit_graphic Hf).
  - by apply (trim_start_once is_digit_char).
  - rewrite forall_ascii_app, (forall_ascii_impl is_digit_char _ (show_Z n)); [done| |done].
    intros c. by apply digit_not.
Qed.

Lemma whole_positive p : Zpos p < 2 ^ 52 → f64_leb (f64_of_Z (Zpos p)) (f64_of_Z 0) = false.
Proof. intros Hp. by rewrite f64_of_pos. Qed.

(** The text of a rate and a burst, and of a rate alone. *)
Definition annotation_of (rate : Z) (burst : option Z) : string :=
  show_Z rate +:+ "rps" +:+ match burst with Some b => ",burst=" +:+ show_Z b | None => "" end.

(** C35: round trip of the rate limit annotation.  The text of any whole rate below
2^52 and any 64-bit burst is parsed to exactly that rate and burst; without a
burst, the burst is the rate. *)
Theorem annotation_roundtrip rate burst :
  0 < rate < 2 ^ 52 → (∀ b, burst = Some b → in_width 64 b) →
  parse_rate_limit_annotation (annotation_of rate burst) = Ok (f64_of_Z rate, default rate burst).
Proof.
  intros Hr Hb. destruct (rate_text rate) as (Ht & Hm & Hc); [lia|].
  assert (f64_leb (f64_of_Z rate) (f64_of_Z 0) = false) as Hpos.
  { destruct rate as [|p|p]; [lia| |lia]. apply whole_positive. lia. }
  unfold parse_rate_limit_annotation, annotation_of. destruct burst as [b|].
  - destruct (burst_text b) as (Bt & Bm & Bc); [by apply Hb|]. cbn [default].
    change (",burst=" +:+ show_Z b) with (String "," ("burst=" +:+ show_Z b)).
    rewrite <- string_app_assoc, split_app by done. rewrite (split_none _ ("burst=" +:+ _)) by done.
    rewrite Ht, ends_with_app, Hm, parse_f64_show by lia. cbn [negb]. rewrite Hpos, Bt, starts_with_app, Bm. cbn [negb].
    rewrite parse_uint_show; [done|by apply Hb].
  - change ("rps" +:+ "") with "rps".
    rewrite split_none, Ht, ends_with_app, Hm, parse_f64_show by (done || lia). cbn [negb default]. rewrite Hpos.
    destruct rate as [|p|p]; [lia| |lia]. rewrite ceil_whole by lia. done.
Qed.

Lemma annotation_roundtrip_witness :
  parse_rate_limit_annotation (annotation_of 100 (Some 200)) = Ok (f64_of_Z 100, 200).
Proof. apply (annotation_roundtrip 100 (Some 200)); [lia|]. intros b [= <-]. vm_compute. split; [discriminate|done]. Defined.
