(* ===== verification/IpText.v ===== *)
(** * IpText: addresses as text

The address parsers of the standard library ([FromStr] of [Ipv4Addr] and
[Ipv6Addr]), and that they read back what [Display] prints ([show_ipv4] and
[show_ipv6] of [Common]), so that the text form of a backend identifies it. *)

From S2P Require Import Prelude Common Float Text Decimal.

#[local] Open Scope Z_scope.

(** ** The parser of addresses: a reader takes bytes and may fail *)
Definition reader (A : Type) : Type := list Z → option (A * list Z).

(** [to_digit(radix)] *)
Definition digit_value (radix b : Z) : option Z :=
  let d := if is_ascii_digit b then b - 48
           else if byte_in 97 122 b then b - 87
           else if byte_in 65 90 b then b - 55
           else radix in
  if d <? radix then Some d else None.

(** The loop of [read_number]: the value, the number of digits, and the rest; it
fails on overflow of the target and on too many digits. *)
Fixpoint read_digits (radix bound : Z) (max_digits : nat) (result : Z) (count : nat) (bs : list Z)
  : option (Z * nat * list Z) :=
  match bs with
  | [] => Some (result, count, [])
  | b :: bs' =>
      match digit_value radix b with
      | None => Some (result, count, bs)
      | Some d =>
          let result := result * radix + d in
          let count := S count in
          if bound <=? result then None
          else if (max_digits <? count)%nat then None
          else read_digits radix bound max_digits result count bs'
      end
  end.

Definition read_number (radix bound : Z) (max_digits : nat) (allow_zero_prefix : bool) : reader Z := λ bs,
  let has_leading_zero := match bs with b :: _ => b =? 48 | [] => false end in
  '(result, count, rest) ← read_digits radix bound max_digits 0 0 bs;
  if (count =? 0)%nat then None
  else if negb allow_zero_prefix && has_leading_zero && (1 <? count)%nat then None
  else Some (result, rest).

Definition read_given_char (c : ascii) : reader unit := λ bs,
  match bs with
  | b :: bs => if b =? byte_of_ascii c then Some (tt, bs) else None
  | [] => None
  end.

(** [read_separator]: the separator, except before the first item. *)
Definition read_separator {A} (sep : ascii) (index : nat) (inner : reader A) : reader A := λ bs,
  if (index =? 0)%nat then inner bs else '(_, bs) ← read_given_char sep bs; inner bs.

(** Four numbers of at most three digits without leading zeros. *)
Definition read_octet (index : nat) : reader Z := read_separator "." index (read_number 10 256 3 false).

Definition read_ipv4_addr : reader Ipv4Addr := λ bs,
  '(a, bs) ← read_octet 0 bs;
  '(b, bs) ← read_octet 1 bs;
  '(c, bs) ← read_octet 2 bs;
  '(d, bs) ← read_octet 3 bs;
  Some (mk_ipv4 a b c d, bs).

(** The groups of one side of a double colon: those read, whether the last two came
from an IPv4 tail, and the rest.  [i] is the index of the next of [left] slots. *)
Fixpoint read_groups (i left : nat) (bs : list Z) : list Z * bool * list Z :=
  match left with
  | O => ([], false, bs)
  | S left' =>
      let tail :=
        if (0 <? left')%nat then read_separator ":" i read_ipv4_addr bs else None in
      match tail with
      | Some (v4, rest) => ([ip4_a v4 * 256 + ip4_b v4; ip4_c v4 * 256 + ip4_d v4], true, rest)
      | None =>
          match read_separator ":" i (read_number 16 65536 4 true) bs with
          | Some (g, rest) =>
              let '(gs, ipv4, rest) := read_groups (S i) left' rest in (g :: gs, ipv4, rest)
          | None => ([], false, bs)
          end
      end
  end.

Definition bytes_of_groups (gs : list Z) : Ipv6Addr := gs ≫= λ g, [g / 256; g mod 256].

Definition read_ipv6_addr : reader Ipv6Addr := λ bs,
  let '(head, head_ipv4, bs) := read_groups 0 8 bs in
  let head_size := length head in
  if (head_size =? 8)%nat then Some (bytes_of_groups head, bs)
  else if head_ipv4 then None
  else
    '(_, bs) ← read_given_char ":" bs;
    '(_, bs) ← read_given_char ":" bs;
    let '(tail, _, bs) := read_groups 0 (7 - head_size) bs in
    let zeros := replicate (8 - head_size - length tail) 0 in
    Some (bytes_of_groups (head ++ zeros ++ tail), bs).

(** The whole text must be read. *)
Definition parse_with {A} (r : reader A) (s : string) : option A :=
  match r (as_bytes s) with
  | Some (a, []) => Some a
  | _ => None
  end.

Definition parse_ipv4 (s : string) : option Ipv4Addr :=
  if (15 <? String.length s)%nat then None else parse_with read_ipv4_addr s.

Definition parse_ipv6 (s : string) : option Ipv6Addr := parse_with read_ipv6_addr s.

Example parse_addresses :
  parse_ipv4 "10.0.0.1" = Some (mk_ipv4 10 0 0 1) ∧ parse_ipv4 "10.0.0.01" = None ∧ parse_ipv4 "256.0.0.1" = None ∧
  parse_ipv6 "2001:db8::1" = Some ([0x20; 1; 0x0d; 0xb8] ++ replicate 11 0 ++ [1]) ∧
  parse_ipv6 "::" = Some (replicate 16 0) ∧ parse_ipv6 "1::2::3" = None ∧
  parse_ipv6 "::ffff:10.0.0.1" = Some (to_ipv6_mapped (mk_ipv4 10 0 0 1)).
Proof. vm_compute. repeat split. Qed.

(** ** Reading digits *)
Definition stops (radix : Z) (rest : list Z) : Prop :=
  match rest with
  | b :: _ => digit_value radix b = None
  | [] => True
  end.

(** A text that is all digits is read the same before any rest that stops it. *)
Lemma read_digits_app radix bound max ds rest : ∀ r c r' c',
  read_digits radix bound max r c ds = Some (r', c', []) → stops radix rest →
  read_digits radix bound max r c (ds ++ rest) = Some (r', c', rest).
Proof.
  induction ds as [|b ds IH]; intros r c r' c' H Hs; cbn [app].
  - cbn in H. simplify_eq. destruct rest as [|b rest]; [done|]. cbn in *. by rewrite Hs.
  - cbn [read_digits] in *. destruct (digit_value radix b); [|done].
    destruct (_ <=? _); [done|]. destruct (_ <? _)%nat; [done|]. by apply IH.
Qed.

(** What is left by a number that was read is a suffix that begins no digit. *)
Lemma read_digits_suffix radix bound max bs : ∀ r c r' c' rest,
  read_digits radix bound max r c bs = Some (r', c', rest) → ∃ l, bs = l ++ rest.
Proof.
  induction bs as [|b bs IH]; intros r c r' c' rest; cbn [read_digits].
  - intros [= _ _ <-]. by exists [].
  - destruct (digit_value radix b).
    + destruct (_ <=? _); [done|]. destruct (_ <? _)%nat; [done|]. intros [l ->]%IH. by exists (b :: l).
    + intros [= _ _ <-]. by exists [].
Qed.

Lemma read_digits_range radix bound max bs : ∀ r c r' c' rest,
  0 <= radix → 0 <= r < bound → read_digits radix bound max r c bs = Some (r', c', rest) → 0 <= r' < bound.
Proof.
  induction bs as [|b bs IH]; intros r c r' c' rest Hr Hb; cbn [read_digits].
  - by intros [= <- _ _].
  - destruct (digit_value radix b) as [d|] eqn:Ed; [|by intros [= <- _ _]].
    destruct (_ <=? _) eqn:El; [done|]. destruct (_ <? _)%nat; [done|]. zbool. apply IH; [done|].
    split; [|done]. unfold digit_value, is_ascii_digit, byte_in in Ed.
    assert (0 <= d); [|nia].
    destruct ((48 <=? b) && (b <=? 57)) eqn:E1, ((97 <=? b) && (b <=? 122)) eqn:E2, ((65 <=? b) && (b <=? 90)) eqn:E3;
      destruct (_ <? radix) eqn:E4; simplify_eq; zbool; lia.
Qed.

Lemma read_number_range radix bound max z bs n rest :
  0 <= radix → 0 < bound → read_number radix bound max z bs = Some (n, rest) → 0 <= n < bound.
Proof.
  intros Hr Hb. unfold read_number. destruct (read_digits _ _ _ _ _ _) as [[[r c] rest']|] eqn:E; [|done]. cbn.
  do 2 (case_if; [done|]). intros [= <- <-]. eapply read_digits_range; [done| |exact E]. lia.
Qed.

Lemma read_separator_inv {A} sep i (inner : reader A) bs x :
  read_separator sep i inner bs = Some x → ∃ bs', inner bs' = Some x.
Proof.
  unfold read_separator. destruct (_ =? _)%nat; [eauto|]. destruct (read_given_char sep bs) as [[[] bs']|]; [|done].
  cbn. eauto.
Qed.

(** ** The ranges of what is read *)
Lemma read_octet_range i bs n rest : read_octet i bs = Some (n, rest) → in_width 8 n.
Proof. intros [bs' H]%read_separator_inv. apply read_number_range in H; [done|lia..]. Qed.

Lemma read_ipv4_wf bs a rest : read_ipv4_addr bs = Some (a, rest) → ipv4_wf a.
Proof.
  unfold read_ipv4_addr, ipv4_wf. intros H.
  repeat match type of H with
  | (read_octet ?i ?bs ≫= _) = Some _ =>
      let E := fresh "E" in destruct (read_octet i bs) as [[? ?]|] eqn:E; [apply read_octet_range in E; cbn [mbind option_bind] in H|done]
  end.
  simplify_eq. unfold octets. cbn. rewrite !Forall_cons. by split_and!.
Qed.

Lemma read_groups_wf left : ∀ i bs gs v rest,
  read_groups i left bs = (gs, v, rest) → (length gs <= left)%nat ∧ Forall (in_width 16) gs.
Proof.
  induction left as [|left IH]; intros i bs gs v rest; cbn [read_groups].
  { intros ?. by simplify_eq. }
  destruct (if (0 <? left)%nat then _ else None) as [[v4 rest']|] eqn:E.
  - intros ?. simplify_eq. destruct (0 <? left)%nat eqn:El; [|done]. apply Nat.ltb_lt in El. cbn. split; [lia|].
    apply read_separator_inv in E as [bs' E]. apply read_ipv4_wf in E. destruct v4 as [a b c d]. cbn in *.
    repeat (apply Forall_cons in E as [? E]). cbn [ip4_a ip4_b ip4_c ip4_d] in *.
    rewrite !Forall_cons, Forall_nil. unfold in_width in *. lia.
  - destruct (read_separator ":" i (read_number _ _ _ _) bs) as [[g rest']|] eqn:Eg; [|intros ?; simplify_eq; split; [apply Nat.le_0_l|done]].
    destruct (read_groups (S i) left rest') as [[gs' v'] rest''] eqn:Er. intros ?. simplify_eq.
    apply IH in Er as [Hl Hf]. apply read_separator_inv in Eg as [bs' Eg]. apply read_number_range in Eg; [|lia..].
    split; [cbn; lia|]. by constructor.
Qed.

Lemma bytes_of_groups_wf gs :
  Forall (in_width 16) gs → length (bytes_of_groups gs) = (2 * length gs)%nat ∧ Forall (in_width 8) (bytes_of_groups gs).
Proof.
  induction 1 as [|g gs Hg Hgs [IHl IHf]]; [done|]. cbn [bytes_of_groups mbind list_bind length app].
  fold (bytes_of_groups gs). split; [change (gs ≫= _) with (bytes_of_groups gs); rewrite IHl; cbn; lia|].
  destruct Hg. change (2 ^ 16) with (256 * 256) in *.
  rewrite !Forall_cons. split_and!; [|apply Z.mod_pos_bound; lia|done].
  split; [apply Z.div_pos; lia|apply Z.div_lt_upper_bound; lia].
Qed.

Lemma read_ipv6_wf bs a rest :
  read_ipv6_addr bs = Some (a, rest) → length a = 16%nat ∧ Forall (in_width 8) a.
Proof.
  unfold read_ipv6_addr. destruct (read_groups 0 8 bs) as [[head v4] bs'] eqn:Eh. apply read_groups_wf in Eh as [Hl Hf].
  destruct (_ =? 8)%nat eqn:E8.
  { apply Nat.eqb_eq in E8. intros [= <- _]. apply bytes_of_groups_wf in Hf as [Hl' ?]. by rewrite Hl', E8. }
  apply Nat.eqb_neq in E8. destruct v4; [done|].
  destruct (read_given_char ":" bs') as [[[] b1]|]; [|done]. cbn [mbind option_bind].
  destruct (read_given_char ":" b1) as [[[] b2]|]; [|done]. cbn [mbind option_bind].
  destruct (read_groups 0 _ b2) as [[tail v] b3] eqn:Et. apply read_groups_wf in Et as [Ht Hft]. intros [= <- _].
  match goal with |- context [bytes_of_groups ?l] => destruct (bytes_of_groups_wf l) as [Hl' Hf'] end.
  { apply Forall_app; split; [done|]. apply Forall_app; split; [|done]. by apply Forall_replicate. }
  split; [|done]. rewrite Hl', !length_app, length_replicate. lia.
Qed.

(** ** Reading what was printed *)

(** The digits of a printed number, read back; checked for every octet and group. *)
Definition reads_back (radix bound : Z) (max : nat) (zero_prefix : bool) (show : Z → string) (n : Z) : bool :=
  let bs := as_bytes (show n) in
  match read_digits radix bound max 0 0 bs with
  | Some (r, c, []) =>
      (r =? n) && negb (c =? 0)%nat &&
      negb (negb zero_prefix && (match bs with b :: _ => b =? 48 | [] => false end) && (1 <? c)%nat)
  | _ => false
  end.

Lemma reads_back_range radix bound max z show k n :
  forallb (λ n, reads_back radix bound max z show (Z.of_nat n)) (seq 0 k) = true →
  0 <= n < Z.of_nat k → reads_back radix bound max z show n = true.
Proof.
  intros H Hn. rewrite forallb_forall in H. specialize (H (Z.to_nat n)). rewrite Z2Nat.id in H by lia.
  apply H, in_seq. lia.
Qed.

Lemma octet_reads_back n : in_width 8 n → reads_back 10 256 3 false show_Z n = true.
Proof. intros Hn. apply (reads_back_range _ _ _ _ _ 256); [vm_compute; reflexivity|done]. Qed.

(** A test of all 16-bit numbers, by their two bytes. *)
Definition all16 (f : Z → bool) : bool :=
  forallb (λ h, forallb (λ l, f (256 * Z.of_nat h + Z.of_nat l)) (seq 0 256)) (seq 0 256).

Lemma all16_spec f n : all16 f = true → in_width 16 n → f n = true.
Proof.
  unfold all16. intros H [Hn1 Hn2]. change (2 ^ 16) with (256 * 256) in Hn2. rewrite forallb_forall in H.
  assert (0 <= n / 256 < 256) as Hh by (split; [apply Z.div_pos; lia|apply Z.div_lt_upper_bound; lia]).
  assert (0 <= n mod 256 < 256) as Hl by (apply Z.mod_pos_bound; lia).
  specialize (H (Z.to_nat (n / 256))). rewrite forallb_forall in H.
  replace n with (256 * Z.of_nat (Z.to_nat (n / 256)) + Z.of_nat (Z.to_nat (n mod 256))).
  - apply H; apply in_seq; lia.
  - rewrite !Z2Nat.id by lia. symmetry. by apply Z.div_mod.
Qed.

Lemma group_reads_back n : in_width 16 n → reads_back 16 65536 4 true show_hex16 n = true.
Proof. apply all16_spec. vm_compute. reflexivity. Qed.

Lemma read_number_text radix bound max z show n rest :
  reads_back radix bound max z show n = true → stops radix rest →
  read_number radix bound max z (as_bytes (show n) ++ rest) = Some (n, rest).
Proof.
  unfold reads_back, read_number. intros H Hs.
  destruct (read_digits _ _ _ _ _ (as_bytes (show n))) as [[[r c] [|]]|] eqn:E; [|done..].
  rewrite (read_digits_app _ _ _ _ _ _ _ _ _ E Hs). cbn [mbind option_bind].
  apply andb_true_iff in H as [[Hr%Z.eqb_eq Hc%negb_true_iff]%andb_true_iff Hz%negb_true_iff]. rewrite Hc.
  destruct (as_bytes (show n)) as [|b bs]; cbn in E; [by simplify_eq|]. cbn [app]. rewrite Hz. by subst.
Qed.

Lemma read_ipv4_text a b c d rest :
  Forall (in_width 8) [a; b; c; d] → stops 10 rest →
  read_ipv4_addr (as_bytes (show_ipv4 [a; b; c; d]) ++ rest) = Some (mk_ipv4 a b c d, rest).
Proof.
  rewrite !Forall_cons. intros (Ha & Hb & Hc & Hd & _) Hs. cbn [show_ipv4].
  rewrite !as_bytes_app. change (as_bytes ".") with [46]. rewrite <- !(assoc_L (++)). cbn [app].
  unfold read_ipv4_addr, read_octet, read_separator. cbn [Nat.eqb].
  rewrite read_number_text by (done || by apply octet_reads_back). cbn [mbind option_bind read_given_char].
  do 2 (change (46 =? byte_of_ascii ".") with true; cbn [mbind option_bind];
        rewrite read_number_text by (done || by apply octet_reads_back); cbn [mbind option_bind read_given_char]).
  change (46 =? byte_of_ascii ".") with true. cbn [mbind option_bind].
  by rewrite read_number_text by (done || by apply octet_reads_back).
Qed.

(** An IPv4 address needs a dot after its first number. *)
Lemma read_digits_within radix bound max l rest : ∀ r c r' c' rest',
  stops radix rest → read_digits radix bound max r c (l ++ rest) = Some (r', c', rest') →
  ∃ l', rest' = l' ++ rest ∧ l' `suffix_of` l.
Proof.
  induction l as [|b l IH]; intros r c r' c' rest' Hs; cbn [app].
  - destruct rest as [|b rest]; cbn in *; [|rewrite Hs]; intros [= _ _ <-]; by exists [].
  - cbn [read_digits]. destruct (digit_value radix b).
    + destruct (_ <=? _); [done|]. destruct (_ <? _)%nat; [done|]. intros (l' & -> & Hl)%IH; [|done].
      exists l'. split; [done|]. by apply suffix_cons_r.
    + intros [= _ _ <-]. by exists (b :: l).
Qed.

Lemma read_number_within radix bound max z l rest n rest' :
  stops radix rest → read_number radix bound max z (l ++ rest) = Some (n, rest') →
  ∃ l', rest' = l' ++ rest ∧ l' `suffix_of` l.
Proof.
  intros Hs. unfold read_number. destruct (read_digits _ _ _ _ _ _) as [[[r c] r']|] eqn:E; [|done].
  cbn [mbind option_bind]. do 2 (case_if; [done|]). intros [= _ <-]. by eapply read_digits_within.
Qed.

Definition no_dot_head (rest : list Z) : Prop := match rest with b :: _ => b ≠ 46 | [] => True end.

Lemma read_ipv4_no_dot l rest :
  Forall (λ b, b ≠ 46) l → stops 10 rest → no_dot_head rest → read_ipv4_addr (l ++ rest) = None.
Proof.
  intros Hl Hs Hr. unfold read_ipv4_addr. change (read_octet 0) with (read_number 10 256 3 false).
  destruct (read_number 10 256 3 false (l ++ rest)) as [[n rest']|] eqn:E; [|done].
  apply read_number_within in E as (l' & -> & Hl'); [|done]. cbn [mbind option_bind].
  change (read_octet 1) with (λ bs, '(_, bs) ← read_given_char "." bs; read_number 10 256 3 false bs). cbn beta.
  assert (read_given_char "." (l' ++ rest) = None) as ->; [|done].
  destruct l' as [|b l']; cbn [app].
  - destruct rest as [|b rest]; [done|]. unfold read_given_char. cbn in Hr. by rewrite (proj2 (Z.eqb_neq _ _)).
  - unfold read_given_char. destruct Hl' as [k ->]. rewrite Forall_app, Forall_cons in Hl.
    by rewrite (proj2 (Z.eqb_neq b _)) by apply Hl.
Qed.

(** ** Groups *)
Fixpoint groups_bytes (i : nat) (gs : list Z) : list Z :=
  match gs with
  | [] => []
  | g :: gs => (if (i =? 0)%nat then [] else [58]) ++ as_bytes (show_hex16 g) ++ groups_bytes (S i) gs
  end.

Lemma groups_bytes_S i j gs : groups_bytes (S i) gs = groups_bytes (S j) gs.
Proof. revert i j. induction gs as [|g gs IH]; intros i j; [done|]. cbn. by rewrite (IH (S i) (S j)). Qed.

Lemma fmt_subslice_bytes gs : as_bytes (fmt_subslice gs) = groups_bytes 0 gs.
Proof.
  induction gs as [|g gs IH]; [done|]. destruct gs as [|g' gs].
  - change (fmt_subslice [g]) with (show_hex16 g). cbn [groups_bytes Nat.eqb app]. by rewrite app_nil_r.
  - change (fmt_subslice (g :: g' :: gs)) with (show_hex16 g +:+ ":" +:+ fmt_subslice (g' :: gs)).
    rewrite !as_bytes_app, IH. cbn [groups_bytes Nat.eqb app]. change (as_bytes ":") with [58].
    cbn [app]. by rewrite (groups_bytes_S 1 0).
Qed.

(** The rest after the last group: the end or a double colon. *)
Definition closes (rest : list Z) : Prop := rest = [] ∨ ∃ r, rest = 58 :: 58 :: r.

Lemma hex_no_dot g : in_width 16 g → Forall (λ b, b ≠ 46) (as_bytes (show_hex16 g)).
Proof.
  intros Hg. assert (forallb (λ b, negb (b =? 46)) (as_bytes (show_hex16 g)) = true) as H.
  { revert Hg. apply (all16_spec (λ g, forallb (λ b, negb (b =? 46)) (as_bytes (show_hex16 g)))).
    vm_compute. reflexivity. }
  rewrite forallb_forall in H. apply Forall_forall. intros b Hb.
  apply Z.eqb_neq, negb_true_iff, H. by apply list_elem_of_In.
Qed.

Lemma groups_stop i gs rest :
  closes rest → let r := groups_bytes (S i) gs ++ rest in stops 10 r ∧ stops 16 r ∧ no_dot_head r.
Proof. intros [->|[r ->]]; destruct gs; cbn; done. Qed.

Lemma read_ipv4_colon bs : read_ipv4_addr (58 :: bs) = None.
Proof. apply (read_ipv4_no_dot [] (58 :: bs)); done. Qed.

Lemma read_groups_closed i left rest : closes rest → read_groups i left rest = ([], false, rest).
Proof.
  intros Hc. destruct left as [|left]; [done|]. cbn [read_groups]. unfold read_separator.
  destruct Hc as [->|[r ->]]; destruct (i =? 0)%nat; cbn [read_given_char]; try change (58 =? byte_of_ascii ":") with true;
    cbn [mbind option_bind]; rewrite ?read_ipv4_colon; by destruct (0 <? left)%nat.
Qed.

Lemma read_groups_text gs : ∀ i left rest,
  Forall (in_width 16) gs → (length gs <= left)%nat → closes rest →
  read_groups i left (groups_bytes i gs ++ rest) = (gs, false, rest).
Proof.
  induction gs as [|g gs IH]; intros i left rest Hw Hl Hc; [by apply read_groups_closed|].
  apply Forall_cons in Hw as [Hg Hw]. destruct left as [|left]; [cbn in Hl; lia|]. cbn [groups_bytes read_groups].
  destruct (groups_stop i gs rest Hc) as (H10 & H16 & Hd).
  assert (∀ (A : Type) (inner : reader A),
    read_separator ":" i inner (((if (i =? 0)%nat then [] else [58]) ++ as_bytes (show_hex16 g) ++ groups_bytes (S i) gs) ++ rest)
    = inner (as_bytes (show_hex16 g) ++ groups_bytes (S i) gs ++ rest)) as Hsep.
  { intros A inner. unfold read_separator. rewrite <- !(assoc_L (++)). by destruct (i =? 0)%nat. }
  rewrite !Hsep. rewrite read_ipv4_no_dot by (done || by apply hex_no_dot).
  rewrite read_number_text by (done || by apply group_reads_back).
  rewrite IH by (done || (cbn in Hl; lia)). by destruct (0 <? left)%nat.
Qed.

(** ** The compressed run *)

(** [segs] has zeros at the [len] positions from [start]. *)
Definition zero_run (segs : list Z) (start len : nat) : Prop :=
  (start + len <= length segs)%nat ∧ ∀ j, (start <= j < start + len)%nat → segs !! j = Some 0.

Lemma longest_zeroes_run all : ∀ segs i current longest,
  drop i all = segs → (i <= length all)%nat →
  zero_run all longest.1 longest.2 →
  (current.2 = 0 ∨ current.1 + current.2 = i)%nat ∧ zero_run all current.1 current.2 →
  let r := longest_zeroes i segs current longest in zero_run all r.1 r.2.
Proof.
  induction segs as [|s segs IH]; intros i [cs cl] longest Hd Hi Hlong [Hcur Hrun]; cbn [longest_zeroes]; [done|].
  assert (all !! i = Some s) as Hs by (rewrite <- (Nat.add_0_r i), <- lookup_drop, Hd; done).
  assert (drop (S i) all = segs) as Hd' by (rewrite <- Nat.add_1_r, <- drop_drop, Hd; done).
  apply lookup_lt_Some in Hs as Hlt. destruct (s =? 0) eqn:E; zbool; cbn [fst snd] in *.
  - assert (zero_run all (if (cl =? 0)%nat then i else cs) (S cl)) as Hrun'.
    { destruct (cl =? 0)%nat eqn:Ec; [apply Nat.eqb_eq in Ec|apply Nat.eqb_neq in Ec]; split; [lia| |lia|].
      - intros j Hj. assert (j = i) as -> by lia. by rewrite Hs, E.
      - intros j Hj. destruct (decide (j = i)) as [->|]; [by rewrite Hs, E|]. apply Hrun. lia. }
    apply IH; [done|lia| |].
    + destruct (_ <? _)%nat; cbn; done.
    + cbn. split; [|done]. destruct (cl =? 0)%nat eqn:Ec; [apply Nat.eqb_eq in Ec|apply Nat.eqb_neq in Ec]; lia.
  - apply IH; [done|lia|done|]. cbn. split; [by left|]. split; [lia|]. intros j Hj. lia.
Qed.

Lemma zero_run_split segs start len :
  zero_run segs start len → segs = take start segs ++ replicate len 0 ++ drop (start + len) segs.
Proof.
  intros [Hl Hz]. rewrite <- (take_drop start segs) at 1. f_equal. rewrite <- (take_drop len (drop start segs)) at 1.
  rewrite drop_drop. f_equal. apply list_eq. intros j. destruct (decide (j < len)%nat) as [Hj|Hj].
  - rewrite lookup_take_lt, lookup_drop, lookup_replicate_2 by lia. apply Hz. lia.
  - rewrite lookup_take_ge by lia. symmetry. apply lookup_replicate_None. lia.
Qed.

(** ** Bytes and groups *)
Lemma pairs_ind (P : list Z → Prop) :
  P [] → (∀ x, P [x]) → (∀ h l bs, P bs → P (h :: l :: bs)) → ∀ bs, P bs.
Proof.
  intros H0 H1 H2 bs. enough (P bs ∧ ∀ x, P (x :: bs)) by tauto.
  induction bs as [|b bs [IH1 IH2]]; [auto|]. split; [apply IH2|]. intros x. by apply H2.
Qed.

Lemma segments_spec bs :
  Forall (in_width 8) bs → Nat.even (length bs) = true →
  Forall (in_width 16) (segments bs) ∧ length bs = (2 * length (segments bs))%nat ∧ bytes_of_groups (segments bs) = bs.
Proof.
  induction bs as [|x|h l bs IH] using pairs_ind; [done|done|].
  rewrite !Forall_cons. intros (Hh & Hl & Hf) He. destruct (IH Hf He) as (H1 & H2 & H3).
  cbn [segments length bytes_of_groups mbind list_bind app]. change (segments bs ≫= _) with (bytes_of_groups (segments bs)).
  unfold in_width in *. change (2 ^ 8) with 256 in *. split_and!.
  - apply Forall_cons. split; [lia|done].
  - cbn [length]. lia.
  - rewrite H3. rewrite Z.div_add_l, (Z.div_small l) by lia.
    rewrite (Z.add_comm (h * 256)), Z.mod_add, Z.mod_small by lia. by rewrite Z.add_0_r.
Qed.

(** ** Round trips *)
Lemma parse_show_ipv4 a b c d :
  Forall (in_width 8) [a; b; c; d] → parse_ipv4 (show_ipv4 [a; b; c; d]) = Some (mk_ipv4 a b c d).
Proof.
  intros Hw. unfold parse_ipv4, parse_with. rewrite <- (app_nil_r (as_bytes _)), read_ipv4_text by done.
  assert (∀ n, in_width 8 n → (String.length (show_Z n) <= 3)%nat) as Hlen.
  { intros n Hn. assert (forallb (λ n, (String.length (show_Z (Z.of_nat n)) <=? 3)%nat) (seq 0 256) = true) as H
      by (vm_compute; reflexivity).
    rewrite forallb_forall in H. specialize (H (Z.to_nat n)). rewrite Z2Nat.id in H by apply Hn.
    apply Nat.leb_le, H, in_seq. destruct Hn as [? Hn]. change (2 ^ 8) with 256 in Hn. lia. }
  destruct (_ <? _)%nat eqn:E; [|done]. apply Nat.ltb_lt in E. exfalso. revert E. cbn [show_ipv4].
  rewrite !Forall_cons in Hw. destruct Hw as (Ha & Hb & Hc & Hd & _).
  rewrite !length_string_app. change (String.length ".") with 1%nat.
  pose proof (Hlen a Ha). pose proof (Hlen b Hb). pose proof (Hlen c Hc). pose proof (Hlen d Hd). lia.
Qed.

Lemma read_compressed head tail n :
  Forall (in_width 16) head → Forall (in_width 16) tail → (length head + length tail <= 6)%nat →
  n = (8 - length head - length tail)%nat →
  read_ipv6_addr (groups_bytes 0 head ++ [58; 58] ++ groups_bytes 0 tail) =
    Some (bytes_of_groups (head ++ replicate n 0 ++ tail), []).
Proof.
  intros Hh Ht Hl ->. unfold read_ipv6_addr.
  rewrite read_groups_text; [|done|lia|right; by eexists]. cbn [app].
  rewrite (proj2 (Nat.eqb_neq _ _)) by lia. cbn [read_given_char mbind option_bind].
  change (58 =? byte_of_ascii ":") with true. cbn [mbind option_bind read_given_char].
  change (58 =? byte_of_ascii ":") with true. cbn [mbind option_bind].
  rewrite <- (app_nil_r (groups_bytes 0 tail)), read_groups_text; [done|done|lia|by left].
Qed.

Lemma read_full gs :
  Forall (in_width 16) gs → length gs = 8%nat → read_ipv6_addr (groups_bytes 0 gs) = Some (bytes_of_groups gs, []).
Proof.
  intros Hw Hl. unfold read_ipv6_addr. rewrite <- (app_nil_r (groups_bytes 0 gs)).
  rewrite read_groups_text; [|done|lia|by left]. by rewrite Hl.
Qed.

Lemma read_mapped a b c d :
  Forall (in_width 8) [a; b; c; d] →
  read_ipv6_addr (as_bytes ("::ffff:" +:+ show_ipv4 [a; b; c; d])) = Some (to_ipv6_mapped (mk_ipv4 a b c d), []).
Proof.
  intros Hw. rewrite as_bytes_app. change (as_bytes "::ffff:") with [58; 58; 102; 102; 102; 102; 58].
  unfold read_ipv6_addr. rewrite read_groups_closed by (right; by eexists). cbn [length Nat.eqb app read_given_char].
  change (58 =? byte_of_ascii ":") with true. cbn [mbind option_bind read_given_char].
  change (58 =? byte_of_ascii ":") with true. cbn [mbind option_bind].
  assert (read_groups 0 (7 - 0) (102 :: 102 :: 102 :: 102 :: 58 :: as_bytes (show_ipv4 [a; b; c; d]))
    = ([65535; a * 256 + b; c * 256 + d], true, [])) as ->.
  { pose proof (read_ipv4_text a b c d [] Hw I) as H4. rewrite app_nil_r in H4.
    change (7 - 0)%nat with 7%nat. cbn [read_groups Nat.ltb Nat.leb]. unfold read_separator at 1. cbn [Nat.eqb].
    pose proof (read_ipv4_no_dot [102; 102; 102; 102] (58 :: as_bytes (show_ipv4 [a; b; c; d]))) as Hno.
    cbn [app] in Hno. rewrite Hno; [|by repeat (constructor; [done|])|done|done].
    change (read_separator ":" 0 (read_number 16 65536 4 true)
      (102 :: 102 :: 102 :: 102 :: 58 :: as_bytes (show_ipv4 [a; b; c; d])))
      with (Some (65535, 58 :: as_bytes (show_ipv4 [a; b; c; d]))).
    cbn [read_groups]. change (read_separator ":" 1 read_ipv4_addr (58 :: as_bytes (show_ipv4 [a; b; c; d])))
      with (read_ipv4_addr (as_bytes (show_ipv4 [a; b; c; d]))). by rewrite H4. }
  rewrite !Forall_cons in Hw. destruct Hw as (Ha & Hb & Hc & Hd & _). unfold in_width in *. change (2 ^ 8) with 256 in *.
  change (bytes_of_groups _) with (replicate 10 0 ++ [255; 255; (a * 256 + b) / 256; (a * 256 + b) mod 256;
    (c * 256 + d) / 256; (c * 256 + d) mod 256]). unfold to_ipv6_mapped, octets. cbn [ip4_a ip4_b ip4_c ip4_d app].
  rewrite !Z.div_add_l, (Z.div_small b), (Z.div_small d) by lia.
  rewrite !(Z.add_comm (_ * 256)), !Z.mod_add, (Z.mod_small b), (Z.mod_small d) by lia. by rewrite !Z.add_0_r.
Qed.

(** The text of the address of a backend, without its port. *)
Definition address_text (b : Backend) : string := if is_ipv6 b then show_ipv6 (ip b) else show_ipv4 (ip b).

(** The bytes an IPv6 text is made of. *)
Lemma show_ipv6_bytes bs :
  length bs = 16%nat → Forall (in_width 8) bs →
  (∃ a b c d, bs = to_ipv6_mapped (mk_ipv4 a b c d) ∧ Forall (in_width 8) [a; b; c; d] ∧
    show_ipv6 bs = "::ffff:" +:+ show_ipv4 [a; b; c; d]) ∨
  (∃ head tail n, Forall (in_width 16) head ∧ Forall (in_width 16) tail ∧ (length head + length tail <= 6)%nat ∧
    n = (8 - length head - length tail)%nat ∧ bs = bytes_of_groups (head ++ replicate n 0 ++ tail) ∧
    as_bytes (show_ipv6 bs) = groups_bytes 0 head ++ [58; 58] ++ groups_bytes 0 tail) ∨
  (∃ gs, Forall (in_width 16) gs ∧ length gs = 8%nat ∧ bs = bytes_of_groups gs ∧
    as_bytes (show_ipv6 bs) = groups_bytes 0 gs).
Proof.
  intros Hl Hw. unfold show_ipv6. case_bool_decide as Hm.
  { left. rewrite <- (take_drop 12 bs) in Hw. apply Forall_app in Hw as [_ Hw].
    assert (length (drop 12 bs) = 4%nat) as Hd by (rewrite length_drop; lia).
    assert (bs = take 12 bs ++ drop 12 bs) as Eb by (by rewrite take_drop).
    destruct (drop 12 bs) as [|a [|b [|c [|d [|]]]]]; try done.
    exists a, b, c, d. split_and!; [|done|done]. rewrite Eb, Hm. by rewrite <- (assoc_L (++)). }
  right. destruct (segments_spec bs Hw) as (Hs & Hn & Hb); [by rewrite Hl|].
  assert (length (segments bs) = 8%nat) as H8 by lia.
  pose proof (longest_zeroes_run (segments bs) (segments bs) 0 (0%nat, 0%nat) (0%nat, 0%nat)) as Hr.
  destruct (longest_zeroes _ _ _ _) as [start len]. destruct Hr as [Hle Hz]; [done|lia| | |].
  { split; [cbn; lia|]. intros j Hj. cbn in Hj. lia. }
  { split; [by left|]. split; [cbn; lia|]. intros j Hj. cbn in Hj. lia. }
  cbn [fst snd] in *. destruct (1 <? len)%nat eqn:E.
  - left. apply Nat.ltb_lt in E. exists (take start (segments bs)), (drop (start + len) (segments bs)), len.
    rewrite length_take, length_drop. split_and!; [by apply Forall_take|by apply Forall_drop|lia|lia| |].
    + rewrite <- zero_run_split by done. done.
    + rewrite !as_bytes_app, !fmt_subslice_bytes. done.
  - right. exists (segments bs). split_and!; [done..|]. apply fmt_subslice_bytes.
Qed.

Lemma parse_show_ipv6 bs :
  length bs = 16%nat → Forall (in_width 8) bs → parse_ipv6 (show_ipv6 bs) = Some bs.
Proof.
  intros Hl Hw. unfold parse_ipv6, parse_with.
  destruct (show_ipv6_bytes bs Hl Hw) as [(a & b & c & d & -> & Hf & ->)|[(h & t & n & Hh & Ht & Hlt & Hn & -> & ->)|
    (gs & Hg & H8 & -> & ->)]].
  - by rewrite read_mapped.
  - by rewrite (read_compressed h t n).
  - by rewrite read_full.
Qed.

(** No IPv6 text is read as an IPv4 address. *)
Lemma read_ipv4_show_ipv6 bs :
  length bs = 16%nat → Forall (in_width 8) bs → read_ipv4_addr (as_bytes (show_ipv6 bs)) = None.
Proof.
  intros Hl Hw.
  destruct (show_ipv6_bytes bs Hl Hw) as [(a & b & c & d & _ & Hf & ->)|[(h & t & n & Hh & Ht & _ & _ & _ & ->)|
    (gs & Hg & H8 & _ & ->)]].
  - rewrite as_bytes_app. apply read_ipv4_colon.
  - destruct h as [|g h]; [apply read_ipv4_colon|]. cbn [groups_bytes Nat.eqb app]. rewrite <- (assoc_L (++)).
    apply Forall_cons in Hh as [Hg _]. apply read_ipv4_no_dot; [by apply hex_no_dot|by destruct h..].
  - destruct gs as [|g gs]; [done|]. cbn [groups_bytes Nat.eqb app]. apply Forall_cons in Hg as [Hg _].
    apply read_ipv4_no_dot; [by apply hex_no_dot|by destruct gs..].
Qed.

Lemma parse_ipv4_show_ipv6 bs :
  length bs = 16%nat → Forall (in_width 8) bs → parse_ipv4 (show_ipv6 bs) = None.
Proof.
  intros Hl Hw. unfold parse_ipv4, parse_with. destruct (_ <? _)%nat; [done|]. by rewrite read_ipv4_show_ipv6.
Qed.

Lemma show_ipv6_inj x y :
  length x = 16%nat → length y = 16%nat → Forall (in_width 8) x → Forall (in_width 8) y →
  show_ipv6 x = show_ipv6 y → x = y.
Proof. intros Lx Ly Fx Fy E. apply (f_equal parse_ipv6) in E. rewrite !parse_show_ipv6 in E by done. congruence. Qed.

(** A bracket ends the address. *)
Lemma bracket_split s t p q :
  forall_ascii (λ c, negb (Ascii.eqb c "]")) s = true → forall_ascii (λ c, negb (Ascii.eqb c "]")) t = true →
  s +:+ String "]" p = t +:+ String "]" q → s = t ∧ p = q.
Proof.
  intros Hs Ht E. pose proof (split_app "]" s p Hs) as E1. pose proof (split_app "]" t q Ht) as E2.
  rewrite E, E2 in E1. injection E1 as -> _. split; [done|].
  clear E2 Ht Hs. induction s as [|c s IH]; [by injection E|]. apply IH. injection E. done.
Qed.

Lemma forall_ascii_bytes d s :
  Forall (λ b, b ≠ byte_of_ascii d) (as_bytes s) → forall_ascii (λ c, negb (Ascii.eqb c d)) s = true.
Proof.
  induction s as [|c s IH]; [done|]. cbn [as_bytes forall_ascii]. rewrite Forall_cons. intros [Hc Hs].
  rewrite IH by done. destruct (Ascii.eqb_spec c d) as [->|]; done.
Qed.

Lemma hex_no_bracket g : in_width 16 g → Forall (λ b, b ≠ 93) (as_bytes (show_hex16 g)).
Proof.
  intros Hg. assert (forallb (λ b, negb (b =? 93)) (as_bytes (show_hex16 g)) = true) as H.
  { revert Hg. apply (all16_spec (λ g, forallb (λ b, negb (b =? 93)) (as_bytes (show_hex16 g)))).
    vm_compute. reflexivity. }
  rewrite forallb_forall in H. apply Forall_forall. intros b Hb.
  apply Z.eqb_neq, negb_true_iff, H. by apply list_elem_of_In.
Qed.

Lemma groups_no_bracket gs : ∀ i, Forall (in_width 16) gs → Forall (λ b, b ≠ 93) (groups_bytes i gs).
Proof.
  induction gs as [|g gs IH]; intros i Hw; [done|]. apply Forall_cons in Hw as [Hg Hw]. cbn [groups_bytes].
  rewrite !Forall_app. split_and!; [|by apply hex_no_bracket|by apply IH].
  destruct (i =? 0)%nat; [done|]. by apply Forall_singleton.
Qed.

Lemma show_ipv6_no_bracket bs :
  length bs = 16%nat → Forall (in_width 8) bs → forall_ascii (λ c, negb (Ascii.eqb c "]")) (show_ipv6 bs) = true.
Proof.
  intros Hl Hw.
  destruct (show_ipv6_bytes bs Hl Hw) as [(a & b & c & d & _ & Hf & ->)|[(h & t & n & Hh & Ht & _ & _ & _ & E)|
    (gs & Hg & H8 & _ & E)]]; [|apply forall_ascii_bytes; rewrite E..].
  - rewrite !Forall_cons in Hf. destruct Hf as ([Ha _] & [Hb _] & [Hc _] & [Hd _] & _). cbn [show_ipv4].
    rewrite !forall_ascii_app. cbn [forall_ascii andb].
    assert (∀ n, 0 <= n → forall_ascii (λ c, negb (Ascii.eqb c "]")) (show_Z n) = true) as Hn.
    { intros k Hk. apply (forall_ascii_impl is_digit_char); [|by apply show_Z_digits].
      intros ch Hch. destruct (Ascii.eqb_spec ch "]") as [->|]; done. }
    by rewrite !Hn by done.
  - rewrite !Forall_app. split_and!; [by apply groups_no_bracket| |by apply groups_no_bracket].
    rewrite !Forall_cons. by split_and!.
  - by apply groups_no_bracket.
Qed.

(** C34: the text form of a backend, which keys its circuit breaker, its protocol cache
and its metrics, identifies it: two well-formed backends, IPv4 or IPv6, with the
same label have the same address, port and family. *)
Theorem backend_label_identifies b1 b2 :
  backend_wf b1 → backend_wf b2 → backend_to_string b1 = backend_to_string b2 →
  is_ipv6 b1 = is_ipv6 b2 ∧ ip b1 = ip b2 ∧ port b1 = port b2.
Proof.
  intros W1 W2 E. destruct (is_ipv6 b1) eqn:E1.
  - destruct (is_ipv6 b2) eqn:E2.
    + destruct W1 as (L1 & F1 & [P1 _] & _), W2 as (L2 & F2 & [P2 _] & _).
      unfold backend_to_string in E. rewrite E1, E2 in E. injection E as E.
      apply bracket_split in E as [Ei Ep]; [|by apply show_ipv6_no_bracket..].
      injection Ep as Ep. apply show_Z_inj in Ep; [|done..]. by apply show_ipv6_inj in Ei.
    + symmetry in E. destruct (backend_label_injective b2 b1 W2 W1 E2 E) as [H _]. congruence.
  - destruct (backend_label_injective b1 b2 W1 W2 E1 E) as (-> & ? & ?). done.
Qed.

Lemma backend_label_identifies_witness :
  let b1 := from_ipv6 (replicate 15 0 ++ [1]) 80 100 in
  let b2 := from_ipv6 (replicate 15 0 ++ [1]) 80 50 in
  is_ipv6 b1 = is_ipv6 b2 ∧ ip b1 = ip b2 ∧ port b1 = port b2.
Proof.
  apply (backend_label_identifies (from_ipv6 (replicate 15 0 ++ [1]) 80 100) (from_ipv6 (replicate 15 0 ++ [1]) 80 50));
    [| |reflexivity].
  all: split; [reflexivity|]; split; [repeat (apply Forall_cons; split; [split; [discriminate|reflexivity]|]); apply Forall_nil; exact I|].
  all: split; [split; [discriminate|reflexivity]|]; split; [split; [discriminate|reflexivity]|discriminate].
Defined.
