(* ===== verification/Endpoints.v ===== *)
(** * Endpoints: from a Service to its backends ([http_route.rs])

The backends of an EndpointSlice, and the resolution of a Service to the backends
of all its slices.  The answers of the Kubernetes API server are
inputs. *)

From S2P Require Import Prelude Common Float Text Decimal IpText.

#[local] Open Scope Z_scope.

(** ** EndpointSlices *)
Record Endpoint : Type := mk_endpoint {
  addresses : list string;
  (** [conditions], then [conditions.ready] *)
  conditions_ready : option (option bool)
}.

Record EndpointSlice : Type := mk_slice {
  (** [ports[].port], each optional *)
  slice_ports : option (list (option Z));
  endpoints : list Endpoint
}.

Definition slice_port (slice : EndpointSlice) (target_port : Z) : Z :=
  match slice_ports slice with
  | Some ports =>
      as_u16 (default target_port
        (List.find (λ p, match p with Some n => as_u16 n =? target_port | None => false end) ports ≫= λ p, p))
  | None => target_port
  end.

Definition endpoint_is_ready (e : Endpoint) : bool :=
  match conditions_ready e with
  | Some ready => default false ready
  | None => true
  end.

Definition address_backend (port : Z) (address : string) : option Backend :=
  match parse_ipv4 address with
  | Some ipv4 => Some (from_ipv4 ipv4 port 100)
  | None =>
      match parse_ipv6 address with
      | Some ipv6 => Some (from_ipv6 ipv6 port 100)
      | None => None
      end
  end.

Definition parse_endpointslice_to_backends (slice : EndpointSlice) (target_port : Z) : list Backend :=
  let port := slice_port slice target_port in
  endpoints slice ≫= λ e, if endpoint_is_ready e then omap (address_backend port) (addresses e) else [].

(** ** Services *)
Inductive IntOrString : Type := PInt (n : Z) | PString (s : string).

Record ServicePort : Type := mk_service_port { sp_port : Z; sp_target_port : option IntOrString }.

(** A Service: its [spec.ports], if it has a [spec] and [ports]. *)
Definition Service : Type := option (option (list ServicePort)).

(** [x as i32] of a [u32]. *)
Definition as_i32 (x : Z) : Z := let y := as_u32 x in if y <? 2 ^ 31 then y else y - 2 ^ 32.

Definition resolve_target_port (service : Service) (service_port : Z) : Z :=
  let fallback := as_u16 service_port in
  match service with
  | Some (Some ports) =>
      match List.find (λ p, sp_port p =? as_i32 service_port) ports with
      | Some p =>
          match sp_target_port p with
          | Some (PInt n) => as_u16 n
          | Some (PString _) => fallback
          | None => fallback
          end
      | None => fallback
      end
  | _ => fallback
  end.

(** The answers of the API server: the Service, and the list of its slices. *)
Record ApiAnswers : Type := mk_api {
  get_service : string → string → result Service string;
  list_slices : string → string → result (list EndpointSlice) string
}.

Definition resolve_service_endpoints (api : ApiAnswers) (service_name namespace : string) (service_port : Z)
  : result (list Backend) string :=
  match get_service api namespace service_name with
  | Err e => Err e
  | Ok service =>
      let target_port := resolve_target_port service service_port in
      match list_slices api namespace service_name with
      | Err e => Err e
      | Ok slices => Ok (slices ≫= λ s, parse_endpointslice_to_backends s target_port)
      end
  end.

(** ** What the resolution gives *)
Lemma as_u16_range x : in_width 16 (as_u16 x).
Proof. apply wrap_range. lia. Qed.

Lemma resolve_target_port_range service p : in_width 16 (resolve_target_port service p).
Proof. unfold resolve_target_port. repeat case_match; apply as_u16_range. Qed.

Lemma slice_port_range slice p : in_width 16 p → in_width 16 (slice_port slice p).
Proof. intros Hp. unfold slice_port. case_match; [apply as_u16_range|done]. Qed.

(** A backend a slice may give: well formed, with the weight of every endpoint. *)
Definition endpoint_backend (b : Backend) : Prop := backend_wf b ∧ weight b = 100.

Lemma address_backend_wf port address b :
  in_width 16 port → address_backend port address = Some b → endpoint_backend b.
Proof.
  intros Hp. unfold address_backend, parse_ipv4, parse_ipv6, parse_with.
  assert (∀ v4 l, read_ipv4_addr (as_bytes address) = Some (v4, l) → endpoint_backend (from_ipv4 v4 port 100)) as H4.
  { intros v4 l Hr%read_ipv4_wf. split; [|done]. by apply from_ipv4_wf. }
  assert (∀ v6 l, read_ipv6_addr (as_bytes address) = Some (v6, l) → endpoint_backend (from_ipv6 v6 port 100)) as H6.
  { intros v6 l [Hl Hf]%read_ipv6_wf. split; [|done]. by split_and!. }
  destruct (_ <? _)%nat.
  - destruct (read_ipv6_addr _) as [[v6 [|]]|]; [|done..]. intros [= <-]. by eapply H6.
  - destruct (read_ipv4_addr _) as [[v4 [|]]|]; [intros [= <-]; by eapply H4|..];
      (destruct (read_ipv6_addr _) as [[v6 [|]]|]; [|done..]); intros [= <-]; by eapply H6.
Qed.

Lemma slice_backends_wf slice p :
  in_width 16 p → Forall endpoint_backend (parse_endpointslice_to_backends slice p).
Proof.
  intros Hp. apply Forall_forall. intros b (e & Hb & _)%list_elem_of_bind.
  destruct (endpoint_is_ready e); [|by apply not_elem_of_nil in Hb].
  apply list_elem_of_omap in Hb as (a & _ & Ha). eapply address_backend_wf; [|exact Ha]. by apply slice_port_range.
Qed.

Lemma resolved_backends_wf api service_name namespace port bs :
  resolve_service_endpoints api service_name namespace port = Ok bs → Forall endpoint_backend bs.
Proof.
  unfold resolve_service_endpoints. destruct (get_service _ _ _); [|done].
  destruct (list_slices _ _ _) as [slices|]; [|done]. intros [= <-]. apply Forall_forall. intros b (s & Hb & _)%list_elem_of_bind.
  eapply Forall_forall; [|exact Hb]. by apply slice_backends_wf, resolve_target_port_range.
Qed.

(** ** What a Service stands for *)

(** The first entry of a Service for a port. *)
Definition first_entry (service : Service) (service_port : Z) (p : ServicePort) : Prop :=
  ∃ before after, service = Some (Some (before ++ p :: after)) ∧ sp_port p = as_i32 service_port ∧
    Forall (λ q, sp_port q ≠ as_i32 service_port) before.

(** The port of its pods: the target port of that entry if it is a number; the port itself
if there is no entry, no target port, or one with a name. *)
Definition pod_port (service : Service) (service_port port : Z) : Prop :=
  (∃ p n, first_entry service service_port p ∧ sp_target_port p = Some (PInt n) ∧ port = as_u16 n) ∨
  ((∀ p n, first_entry service service_port p → sp_target_port p ≠ Some (PInt n)) ∧ port = as_u16 service_port).

Definition is_ready (e : Endpoint) : Prop := conditions_ready e = None ∨ conditions_ready e = Some (Some true).

(** The address and port of a backend, read from a text. *)
Definition backend_at (address : string) (port : Z) (b : Backend) : Prop :=
  (∃ v4, parse_ipv4 address = Some v4 ∧ b = from_ipv4 v4 port 100) ∨
  (parse_ipv4 address = None ∧ ∃ v6, parse_ipv6 address = Some v6 ∧ b = from_ipv6 v6 port 100).

(** An address of a ready endpoint of a slice of the Service, at the port of its pods. *)
Definition service_endpoint (api : ApiAnswers) (service_name namespace : string) (service_port : Z) (b : Backend) : Prop :=
  ∃ service slices slice e address port,
    get_service api namespace service_name = Ok service ∧ list_slices api namespace service_name = Ok slices ∧
    slice ∈ slices ∧ e ∈ endpoints slice ∧ is_ready e ∧ address ∈ addresses e ∧
    pod_port service service_port port ∧ backend_at address port b.

Lemma find_first {A} (f : A → bool) l x :
  List.find f l = Some x ↔ ∃ before after, l = before ++ x :: after ∧ f x = true ∧ Forall (λ y, f y = false) before.
Proof.
  split.
  - induction l as [|y l IH]; [done|]. cbn [List.find]. destruct (f y) eqn:E; [intros [= ->]; by exists [], l|].
    intros (before & after & -> & Hx & Hf)%IH. exists (y :: before), after. split_and!; [done..|]. by constructor.
  - intros (before & after & -> & Hx & Hf). induction Hf as [|y before Hy _ IH]; cbn; [by rewrite Hx|by rewrite Hy].
Qed.

Lemma first_entry_find service port p ports :
  service = Some (Some ports) → first_entry service port p ↔ List.find (λ p, sp_port p =? as_i32 port) ports = Some p.
Proof.
  intros ->. rewrite find_first. split.
  - intros (before & after & [= ->] & Hp & Hf). exists before, after. rewrite Z.eqb_eq. split_and!; [done..|].
    eapply Forall_impl; [exact Hf|]. intros q Hq. by apply Z.eqb_neq.
  - intros (before & after & -> & Hp & Hf). exists before, after. split_and!; [done|by apply Z.eqb_eq|].
    eapply Forall_impl; [exact Hf|]. intros q Hq. by apply Z.eqb_neq.
Qed.

Lemma pod_port_spec service service_port port :
  pod_port service service_port port ↔ port = resolve_target_port service service_port.
Proof.
  unfold pod_port, resolve_target_port. destruct service as [[ports|]|]; cycle 1.
  { split; [intros [(p & n & (? & ? & [=] & _) & _)|[_ ->]]; done|]. intros ->. right. split; [|done]. by intros p n (? & ? & [=] & _). }
  { split; [intros [(p & n & (? & ? & [=] & _) & _)|[_ ->]]; done|]. intros ->. right. split; [|done]. by intros p n (? & ? & [=] & _). }
  setoid_rewrite (λ p, first_entry_find _ service_port p ports eq_refl).
  destruct (List.find _ ports) as [p|]; [|naive_solver]. destruct (sp_target_port p) as [[n|s]|] eqn:Et; naive_solver.
Qed.

Lemma slice_port_target slice port : in_width 16 port → slice_port slice port = port.
Proof.
  intros Hp. unfold slice_port. destruct (slice_ports slice) as [ports|]; [|done].
  destruct (List.find _ ports) as [[n|]|] eqn:E; cbn [mbind option_bind default]; [|by apply wrap_small..].
  apply find_some in E as [_ E]. by apply Z.eqb_eq in E.
Qed.

Lemma backend_at_spec address port b : backend_at address port b ↔ address_backend port address = Some b.
Proof.
  unfold backend_at, address_backend. destruct (parse_ipv4 address); [naive_solver|]. destruct (parse_ipv6 address); naive_solver.
Qed.

Lemma slice_backends_spec slice port b :
  in_width 16 port →
  b ∈ parse_endpointslice_to_backends slice port ↔
  ∃ e address, e ∈ endpoints slice ∧ is_ready e ∧ address ∈ addresses e ∧ backend_at address port b.
Proof.
  intros Hp. unfold parse_endpointslice_to_backends. rewrite slice_port_target, list_elem_of_bind by done.
  assert (∀ e, is_ready e ↔ endpoint_is_ready e = true) as Hr.
  { intros e. unfold is_ready, endpoint_is_ready. destruct (conditions_ready e) as [[[]|]|]; naive_solver. }
  setoid_rewrite backend_at_spec. split.
  - intros (e & Hb & He). destruct (endpoint_is_ready e) eqn:E; [|by apply not_elem_of_nil in Hb].
    apply list_elem_of_omap in Hb as (a & Ha & Hb). exists e, a. by rewrite Hr.
  - intros (e & a & He & Hre & Ha & Hb). apply Hr in Hre. exists e. rewrite Hre. split; [|done]. apply list_elem_of_omap. eauto.
Qed.

Lemma resolved_backends_spec api service_name namespace port bs :
  resolve_service_endpoints api service_name namespace port = Ok bs →
  ∀ b, b ∈ bs ↔ service_endpoint api service_name namespace port b.
Proof.
  unfold resolve_service_endpoints. destruct (get_service api namespace service_name) as [service|] eqn:Es; [|done].
  destruct (list_slices api namespace service_name) as [slices|] eqn:El; [|done]. intros [= <-] b.
  rewrite list_elem_of_bind. setoid_rewrite slice_backends_spec; [|apply resolve_target_port_range]. split.
  - intros (slice & (e & a & He & Hr & Ha & Hb) & Hs). eexists service, slices, slice, e, a, _. split_and!; [done..| |exact Hb].
    by apply pod_port_spec.
  - intros (service' & slices' & slice & e & a & tp & Es' & El' & Hs & He & Hr & Ha & Hp & Hb).
    rewrite Es in Es'. injection Es' as <-. rewrite El in El'. injection El' as <-. apply pod_port_spec in Hp as ->.
    exists slice. split; [by exists e, a|done].
Qed.

Lemma service_endpoint_resolved api service_name namespace port b :
  service_endpoint api service_name namespace port b → ∃ bs, resolve_service_endpoints api service_name namespace port = Ok bs ∧ b ∈ bs.
Proof.
  intros Hb. assert (∃ bs, resolve_service_endpoints api service_name namespace port = Ok bs) as [bs E].
  { destruct Hb as (? & ? & ? & ? & ? & ? & Es & El & _). unfold resolve_service_endpoints. rewrite Es, El. eauto. }
  exists bs. split; [done|]. by rewrite (resolved_backends_spec _ _ _ _ _ E).
Qed.

(** C36: a Service resolves to exactly its ready endpoints.  Whatever the API server answers
(any port numbers, target ports, conditions and address texts), the backends of a Service
at a port are exactly the addresses, as far as they are addresses, of the ready endpoints
of its slices, at the target port of the Service's first entry for the port, or at the
port itself if that entry has no target port or a named one; an endpoint without
conditions is ready, and one with conditions only if they say so.  Every one is
well formed.  The resolution fails exactly if one of the two API calls fails. *)
Theorem resolved_backends_exact api service_name namespace port :
  match resolve_service_endpoints api service_name namespace port with
  | Ok bs =>
      (∃ service slices, get_service api namespace service_name = Ok service ∧ list_slices api namespace service_name = Ok slices) ∧
      ∀ b, (b ∈ bs ↔ service_endpoint api service_name namespace port b) ∧ (b ∈ bs → backend_wf b)
  | Err e =>
      get_service api namespace service_name = Err e ∨
      (∃ service, get_service api namespace service_name = Ok service) ∧ list_slices api namespace service_name = Err e
  end.
Proof.
  destruct (resolve_service_endpoints _ _ _ _) as [bs|e] eqn:E.
  - split; [|intros b; split; [by apply resolved_backends_spec|]].
    + revert E. unfold resolve_service_endpoints. destruct (get_service _ _ _); [|done]. destruct (list_slices _ _ _); [eauto|done].
    + intros Hb. apply resolved_backends_wf in E. rewrite Forall_forall in E. by apply E.
  - revert E. unfold resolve_service_endpoints. destruct (get_service _ _ _); [|intros [= ->]; by left].
    destruct (list_slices _ _ _); [done|]. intros [= ->]. right. eauto.
Qed.

(** An address survives its text.  The text [Display] prints for the address of any
well-formed backend, IPv4 or IPv6 with its run of zeros compressed or its mapped
form, is parsed from an EndpointSlice back to the same address and family. *)
Theorem address_roundtrip b :
  backend_wf b →
  address_backend (port b) (address_text b) = Some (mk_backend (ip b) (port b) 100 (is_ipv6 b)).
Proof.
  intros (Hl & Hf & _ & _ & Hz). unfold address_backend, address_text. destruct (is_ipv6 b) eqn:E.
  - rewrite parse_ipv4_show_ipv6, parse_show_ipv6 by done. done.
  - destruct (ipv4_padding (ip b) Hl Hf (Hz eq_refl)) as (o & Ho & Ei & Hw).
    destruct o as [|a0 [|b0 [|c0 [|d0 []]]]]; try done.
    assert (show_ipv4 (ip b) = show_ipv4 [a0; b0; c0; d0]) as -> by (by rewrite Ei).
    rewrite parse_show_ipv4 by done. unfold from_ipv4, octets. by rewrite Ei.
Qed.

Lemma address_roundtrip_witness :
  let b := from_ipv6 (replicate 15 0 ++ [1]) 8080 7 in
  address_text b = "::1" ∧ address_backend 8080 (address_text b) = Some (from_ipv6 (replicate 15 0 ++ [1]) 8080 100).
Proof.
  split; [vm_compute; reflexivity|]. apply (address_roundtrip (from_ipv6 (replicate 15 0 ++ [1]) 8080 7)).
  split; [reflexivity|]; split; [repeat (apply Forall_cons; split; [split; [discriminate|reflexivity]|]); apply Forall_nil; exact I|].
  split; [split; [discriminate|reflexivity]|]; split; [split; [discriminate|reflexivity]|discriminate].
Defined.
