(* ===== verification/Weights.v ===== *)
(** * Weights: from weighted Services to a backend list ([reconcile] of [http_route.rs])

A rule of an HTTPRoute sends its requests to several Services with weights.  The
controller turns them into one list of at most 31 backends, in which a backend may
occur several times: it shares 31 slots by the method of the largest remainder, in
floating point, replicates the pods of every Service to cover its slots, and
interleaves the Services. *)

From S2P Require Import Prelude Common Float.
From Stdlib Require Import Sorted.

#[local] Open Scope Z_scope.
#[local] Open Scope rauta_scope.

Definition MAX_MAGLEV_BACKENDS : Z := 31.

(** ** Slots *)
Definition exact_slots (weight total_weight : Z) : f64 :=
  f64_mul (f64_div (f64_of_Z weight) (f64_of_Z total_weight)) (f64_of_Z MAX_MAGLEV_BACKENDS).

Record Allocation : Type := mk_allocation { al_pods : list Backend; al_slots : Z; al_remainder : f64 }.

Definition allocation (total_weight : Z) (service : list Backend * Z) : Allocation :=
  let exact := exact_slots service.2 total_weight in
  let floor_slots := f64_as_u64 (f64_floor exact) in
  mk_allocation service.1 floor_slots (f64_sub exact (f64_of_Z floor_slots)).

(** [sort_by] with the descending comparison of remainders: a stable sort.  It
panics on a value that is not a number, as soon as there are two to compare. *)
Fixpoint sort_insert (x : nat * f64) (l : list (nat * f64)) : list (nat * f64) :=
  match l with
  | [] => [x]
  | y :: l' => if f64_ltb x.2 y.2 then y :: sort_insert x l' else x :: l
  end.

Definition is_nan (x : f64) : bool := match x with S754_nan => true | _ => false end.

Definition sort_by_remainder (l : list (nat * f64)) : outcome (list (nat * f64)) :=
  if (2 <=? length l)%nat && existsb (λ x, is_nan x.2) l then Panic
  else Ret (foldr sort_insert [] l).

Definition add_slot (slots : list Allocation) (idx : nat) : list Allocation :=
  alter (λ a, mk_allocation (al_pods a) (as_u64 (al_slots a + 1)) (al_remainder a)) idx slots.

(** The floors, and one more slot for the largest remainders. *)
Definition allocate (services : list (list Backend * Z)) (total_weight : Z) : outcome (list Allocation) :=
  let slot_allocations := allocation total_weight <$> services in
  let allocated_slots := foldl (λ n a, as_u64 (n + al_slots a)) 0 slot_allocations in
  let remaining_slots := as_u64 (MAX_MAGLEV_BACKENDS - allocated_slots) in
  let indexed_remainders := imap (λ i a, (i, al_remainder a)) slot_allocations in
  sorted <-! sort_by_remainder indexed_remainders ;;
  let winners := take (Z.to_nat (Z.min remaining_slots (Z.of_nat (length sorted)))) sorted in
  Ret (foldl (λ slots w, add_slot slots w.1) slot_allocations winners).

(** ** Replicas *)
Definition replicas_per_pod (a : Allocation) : Z :=
  f64_as_u64 (f64_max (f64_ceil (f64_div (f64_of_Z (al_slots a)) (f64_of_Z (Z.of_nat (length (al_pods a))))))
                (f64_of_Z 1)).

Definition interleave (service_targets : list (list Backend * Z)) : list Backend :=
  let max_replicas := foldr Z.max 0 service_targets.*2 in
  seq 0 (Z.to_nat max_replicas) ≫= λ replica_round,
    service_targets ≫= λ '(pods, replicas), if Z.of_nat replica_round <? replicas then pods else [].

(** The second pass of a rule: the backends of its resolved Services. *)
Definition weighted_backends (services : list (list Backend * Z)) (total_weight : Z) : outcome (list Backend) :=
  if 0 <? total_weight then
    slots <-! allocate services total_weight ;;
    let service_targets := (λ a, (al_pods a, replicas_per_pod a)) <$> slots in
    Ret (take (Z.to_nat MAX_MAGLEV_BACKENDS) (interleave service_targets))
  else Ret [].

(** ** Examples *)
Definition pod (n : Z) : Backend := from_ipv4 (mk_ipv4 10 0 0 n) 8080 100.
Definition pods_from (first count : Z) : list Backend := pod <$> seqZ first count.

Definition occurrences (b : Backend) (l : list Backend) : nat := length (filter (λ x, x = b) l).

Example split_90_10 :
  match weighted_backends [([pod 1], 90); ([pod 2], 10)] 100 with
  | Ret bs => (length bs, occurrences (pod 1) bs, occurrences (pod 2) bs) = (31, 28, 3)%nat
  | Panic => False
  end.
Proof. vm_compute. reflexivity. Qed.

(** ** The share of a Service in floating point *)
Lemma f64_31 : f64_of_Z MAX_MAGLEV_BACKENDS = S754_finite false (31 * 2 ^ 48) (-48).
Proof. reflexivity. Qed.

Lemma mul_31 m k :
  Zpos (digits2_pos m) = 53 → 0 <= k <= 200 →
  ∃ x n j, (n = 52 ∨ n = 53) ∧ 0 <= j <= 1 ∧ Zpos (digits2_pos x) = 53 ∧
    f64_mul (S754_finite false m (- k)) (f64_of_Z MAX_MAGLEV_BACKENDS) = S754_finite false x (- (k + 48 - n - j)) ∧
    2 * Z.abs (Zpos x * 2 ^ j * 2 ^ n - Zpos m * 31 * 2 ^ 48) <= 2 ^ n.
Proof.
  intros Hd Hk. apply normal_mantissa in Hd. rewrite f64_31. unfold f64_mul. cbn [SFmul xorb].
  assert (Zpos (m * (31 * 2 ^ 48)) = Zpos m * 31 * 2 ^ 48) as Em by lia.
  assert (∃ n, (n = 52 ∨ n = 53) ∧ 2 ^ 52 * 2 ^ n <= Zpos (m * (31 * 2 ^ 48)) < 2 ^ 53 * 2 ^ n) as (n & Hn & Hq).
  { rewrite Em. destruct (Z.lt_ge_cases (Zpos m * 31) (2 ^ 57)); [exists 52|exists 53]; lia. }
  destruct (round_exact (Zpos (m * (31 * 2 ^ 48))) (- k + -48) n) as (x & j & Hj & Hx & E & Herr);
    [lia|done|unfold in_range; lia|unfold in_range; lia|].
  exists x, n, j. split_and!; [done|lia|lia|done| |by rewrite <- Em]. rewrite E. f_equal. lia.
Qed.

(** The two roundings move the share by less than one part of [total]. *)
Lemma share_bounds total w K A m X :
  0 < total < 2 ^ 31 → 2 ^ 52 <= A →
  K * (A * 2 ^ 48) <= X < (K + 1) * (A * 2 ^ 48) →
  2 * Z.abs (X - m * 31 * 2 ^ 48) <= 2 ^ 53 → 2 * Z.abs (m * total - w * A) <= total →
  total * K <= 31 * w <= total * (K + 1).
Proof.
  intros Ht HA [HK1 HK2] HX Hm.
  assert (total * (K * (A * 2 ^ 48)) <= total * X) as H1 by (apply Z.mul_le_mono_nonneg_l; lia).
  assert (total * X <= total * ((K + 1) * (A * 2 ^ 48))) as H2 by (apply Z.mul_le_mono_nonneg_l; lia).
  assert (total * (2 * X) <= total * (62 * 2 ^ 48 * m + 2 ^ 53)) as H3 by (apply Z.mul_le_mono_nonneg_l; lia).
  assert (total * (62 * 2 ^ 48 * m - 2 ^ 53) <= total * (2 * X)) as H4 by (apply Z.mul_le_mono_nonneg_l; lia).
  assert (A * (2 * (total * K)) <= A * (62 * w) + 63 * total) as H5 by lia.
  assert (A * (62 * w) <= A * (2 * (total * (K + 1))) + 63 * total) as H6 by lia.
  split.
  - destruct (Z.le_gt_cases (total * K) (31 * w)) as [|Hgt]; [done|].
    assert (A * (62 * w + 2) <= A * (2 * (total * K))) by (apply Z.mul_le_mono_nonneg_l; lia). lia.
  - destruct (Z.le_gt_cases (31 * w) (total * (K + 1))) as [|Hgt]; [done|].
    assert (A * (2 * (total * (K + 1)) + 2) <= A * (62 * w)) by (apply Z.mul_le_mono_nonneg_l; lia). lia.
Qed.

(** The whole part of the exact share, at most one too small when the share is whole. *)
Lemma floor_share w total :
  0 <= w <= total → 0 < total < 2 ^ 31 →
  let slots := f64_as_u64 (f64_floor (exact_slots w total)) in
  total * slots <= 31 * w <= total * (slots + 1) ∧ 0 <= slots ∧ is_finite (exact_slots w total) = true.
Proof.
  intros Hw Ht. unfold exact_slots. destruct (decide (w = 0)) as [->|Hne].
  { assert (f64_div (f64_of_Z 0) (f64_of_Z total) = S754_zero false) as ->.
    { destruct total as [|p|p]; [lia| |lia]. rewrite (f64_of_pos p) by lia. done. }
    change (f64_mul (S754_zero false) _) with (S754_zero false). change (f64_as_u64 _) with 0.
    cbn zeta. split; [lia|]. done. }
  destruct (f64_div_nearest w total) as (m & k & Hk & Hd & -> & Herr); [lia..|].
  apply normal_mantissa in Hd as Hm. assert (0 < 2 ^ k) as Hp by (apply Z.pow_pos_nonneg; lia).
  assert (2 ^ 52 <= 2 ^ k) as HA.
  { destruct (Z.le_gt_cases (2 ^ 52) (2 ^ k)) as [|Hlt]; [done|exfalso].
    assert (w * 2 ^ k <= total * (2 ^ 52 - 1)) by (apply Z.mul_le_mono_nonneg; lia).
    assert (2 ^ 52 * total <= Zpos m * total) by (apply Z.mul_le_mono_nonneg_r; lia). lia. }
  assert (2 ^ k <= 2 ^ 100) as HA'.
  { assert (1 * 2 ^ k <= w * 2 ^ k) by (apply Z.mul_le_mono_nonneg_r; lia).
    assert (Zpos m * total <= 2 ^ 53 * 2 ^ 31) by (apply Z.mul_le_mono_nonneg; lia). lia. }
  apply Z.pow_le_mono_r_iff in HA as Hk52; [|lia..]. apply Z.pow_le_mono_r_iff in HA' as Hk100; [|lia..].
  destruct (mul_31 m k Hd) as (x & n & j & Hn & Hj & Hx & -> & Herr2); [lia|].
  set (c := k + 48 - n - j).
  assert (1 <= c) as Hc.
  { destruct (decide (k = 52 ∧ n = 53 ∧ j = 1)) as [(-> & -> & ->)|]; unfold c; lia. }
  assert (2 ^ c * (2 ^ j * 2 ^ n) = 2 ^ k * 2 ^ 48) as Ec.
  { rewrite <- !Z.pow_add_r by lia. f_equal. unfold c. lia. }
  rewrite floor_as_u64 by done. cbn zeta. assert (0 < 2 ^ c) as Hpc by (apply Z.pow_pos_nonneg; lia).
  pose proof (Z.div_mod (Zpos x) (2 ^ c) ltac:(lia)) as Hdm. pose proof (Z.mod_pos_bound (Zpos x) (2 ^ c) ltac:(lia)) as Hmb.
  set (K := Zpos x / 2 ^ c) in *. assert (0 <= K) by (apply Z.div_pos; lia).
  assert (K * (2 ^ k * 2 ^ 48) <= Zpos x * 2 ^ j * 2 ^ n < (K + 1) * (2 ^ k * 2 ^ 48)) as HK.
  { rewrite <- Ec. assert (0 < 2 ^ j * 2 ^ n) by (apply Z.mul_pos_pos; apply Z.pow_pos_nonneg; lia).
    rewrite !Z.mul_assoc, <- !(Z.mul_assoc _ (2 ^ j)). split; [apply Z.mul_le_mono_nonneg_r; lia|apply Z.mul_lt_mono_pos_r; lia]. }
  assert (2 ^ n <= 2 ^ 53) by (apply Z.pow_le_mono_r; lia).
  split; [|split; [done|done]]. apply (share_bounds total w K (2 ^ k) (Zpos m) (Zpos x * 2 ^ j * 2 ^ n)); [lia|done|done|lia|done].
Qed.

(** ** The allocation *)
Definition sumZ (l : list Z) : Z := foldr Z.add 0 l.

Lemma sumZ_cons x l : sumZ (x :: l) = x + sumZ l.
Proof. done. Qed.

Lemma sumZ_nonneg l : Forall (λ x, 0 <= x) l → 0 <= sumZ l.
Proof. induction 1; [done|]. rewrite sumZ_cons. lia. Qed.

Lemma sort_insert_perm x l : sort_insert x l ≡ₚ x :: l.
Proof.
  induction l as [|y l IH]; [done|]. cbn [sort_insert]. destruct (f64_ltb _ _); [|done]. rewrite IH. by constructor.
Qed.

Lemma sort_perm l : foldr sort_insert [] l ≡ₚ l.
Proof. induction l as [|x l IH]; [done|]. cbn [foldr]. by rewrite sort_insert_perm, IH. Qed.

(** The largest remainders come first. *)
Definition not_smaller (x y : nat * f64) : Prop := f64_ltb x.2 y.2 = false.

Lemma sort_insert_sorted x l :
  x.2 ≠ S754_nan → Forall (λ y, y.2 ≠ S754_nan) l → StronglySorted not_smaller l → StronglySorted not_smaller (sort_insert x l).
Proof.
  intros Hx Hl Hs. induction Hs as [|y l Hs IH Hy]; cbn [sort_insert]; [by repeat constructor|].
  apply Forall_cons in Hl as [Hny Hl]. destruct (f64_ltb x.2 y.2) eqn:E.
  - constructor; [by apply IH|]. rewrite sort_insert_perm. constructor; [|done]. unfold not_smaller.
    apply not_true_iff_false. rewrite ltb_rank in * by done. unfold rank_lt in *. lia.
  - constructor; [by constructor|]. constructor; [done|]. apply Forall_forall. intros z Hz. rewrite Forall_forall in Hy, Hl.
    unfold not_smaller. apply (not_ltb_trans x.2 y.2 z.2); auto. by apply Hy.
Qed.

Lemma sort_sorted l : Forall (λ x, x.2 ≠ S754_nan) l → StronglySorted not_smaller (foldr sort_insert [] l).
Proof.
  induction 1 as [|x l Hx Hl IH]; cbn [foldr]; [constructor|]. apply sort_insert_sorted; [done| |done]. by rewrite sort_perm.
Qed.

Lemma sorted_take_drop {A} (R : A → A → Prop) l n x y : StronglySorted R l → x ∈ take n l → y ∈ drop n l → R x y.
Proof.
  intros Hs. revert n. induction Hs as [|z l Hs IH Hz]; intros [|n]; cbn; try by intros ?%not_elem_of_nil.
  intros [->|Hx]%elem_of_cons Hy; [|by eapply IH]. rewrite Forall_forall in Hz. apply Hz. by eapply subseteq_drop.
Qed.

Definition slots_of (l : list Allocation) : list Z := al_slots <$> l.

Lemma add_slot_sum l : ∀ i a,
  l !! i = Some a → 0 <= al_slots a <= 31 → sumZ (slots_of (add_slot l i)) = sumZ (slots_of l) + 1.
Proof.
  induction l as [|b l IH]; intros [|i] a; [done..| |].
  - intros [= ->] Hs. change (slots_of (add_slot (a :: l) 0)) with (as_u64 (al_slots a + 1) :: slots_of l).
    change (slots_of (a :: l)) with (al_slots a :: slots_of l).
    rewrite !sumZ_cons, wrap_small; [lia|]. unfold in_width. lia.
  - intros Hi Hs. change (slots_of (add_slot (b :: l) (S i))) with (al_slots b :: slots_of (add_slot l i)).
    change (slots_of (b :: l)) with (al_slots b :: slots_of l).
    rewrite !sumZ_cons, (IH i a) by done. lia.
Qed.

Lemma add_slots_spec idxs : ∀ l,
  NoDup idxs → Forall (λ i, ∃ a, l !! i = Some a ∧ 0 <= al_slots a <= 31) idxs →
  let l' := foldl add_slot l idxs in
  sumZ (slots_of l') = sumZ (slots_of l) + Z.of_nat (length idxs) ∧
  (∀ i, i ∉ idxs → l' !! i = l !! i) ∧
  (∀ i, i ∈ idxs → ∃ a, l !! i = Some a ∧
     l' !! i = Some (mk_allocation (al_pods a) (al_slots a + 1) (al_remainder a))).
Proof.
  induction idxs as [|i idxs IH]; intros l Hnd Hall; cbn [foldl length].
  { split; [lia|]. split; [done|]. intros i Hi. by apply not_elem_of_nil in Hi. }
  apply NoDup_cons in Hnd as [Hi Hnd]. apply Forall_cons in Hall as [(a & Ha & Hs) Hall].
  assert (∀ j, j ≠ i → add_slot l i !! j = l !! j) as Hother by (intros j Hj; by apply list_lookup_alter_ne).
  destruct (IH (add_slot l i)) as (Hsum & Hout & Hin); [done| |].
  { apply Forall_forall. intros j Hj. rewrite Forall_forall in Hall. rewrite Hother by set_solver. by apply Hall. }
  split_and!.
  - rewrite Hsum, (add_slot_sum l i a) by done. lia.
  - intros j Hj. rewrite Hout, Hother by set_solver. done.
  - intros j [->|Hj]%elem_of_cons.
    + exists a. split; [done|]. rewrite Hout by done. unfold add_slot. rewrite list_lookup_alter_eq, Ha. cbn.
      rewrite wrap_small; [done|]. unfold in_width. lia.
    + destruct (Hin j Hj) as (b & Hb & Hb'). exists b. split; [|done]. rewrite <- Hb. symmetry. apply Hother. set_solver.
Qed.

Lemma foldl_slots l : ∀ n,
  0 <= n → Forall (λ x, 0 <= x) (slots_of l) → n + sumZ (slots_of l) < 2 ^ 64 →
  foldl (λ n a, as_u64 (n + al_slots a)) n l = n + sumZ (slots_of l).
Proof.
  induction l as [|a l IH]; intros n Hn Hf Hb; cbn [foldl].
  - change (sumZ (slots_of [])) with 0. lia.
  - change (slots_of (a :: l)) with (al_slots a :: slots_of l) in *. apply Forall_cons in Hf as [Ha Hf].
    rewrite sumZ_cons in *. pose proof (sumZ_nonneg _ Hf). rewrite wrap_small by (unfold in_width; lia).
    rewrite IH; [lia|lia|done|lia].
Qed.

(** Services with pods, weights that are not negative, and a total of at least one. *)
Definition services_ok (services : list (list Backend * Z)) (total : Z) : Prop :=
  total = sumZ services.*2 ∧ 0 < total < 2 ^ 31 ∧
  Forall (λ s, 0 <= s.2 ∧ s.1 ≠ [] ∧ Z.of_nat (length s.1) < 2 ^ 52) services.

Lemma foldl_winners l (ws : list (nat * f64)) : foldl (λ s (w : nat * f64), add_slot s w.1) l ws = foldl add_slot l ws.*1.
Proof. revert l. induction ws as [|w ws IH]; intros l; [done|]. cbn. apply IH. Qed.

Lemma add_slots_length l ws : length (foldl add_slot l ws) = length l.
Proof. revert l. induction ws as [|w ws IH]; intros l; [done|]. cbn. rewrite IH. apply length_alter. Qed.

Lemma imap_keys {A B} (f : A → B) l : (imap (λ i a, (i, f a)) l).*1 = seq 0 (length l).
Proof.
  apply list_eq. intros i. rewrite list_lookup_fmap, list_lookup_imap. destruct (l !! i) as [a|] eqn:Ha; cbn; symmetry.
  - apply lookup_seq. split; [lia|by eapply lookup_lt_Some].
  - apply lookup_ge_None in Ha. apply lookup_ge_None. by rewrite length_seq.
Qed.

Section fair.
Context (services : list (list Backend * Z)) (total : Z).
Hypothesis Hok : services_ok services total.

Lemma weight_le_total s : s ∈ services → 0 <= s.2 <= total.
Proof.
  destruct Hok as (-> & _ & Hf). clear -Hf. induction services as [|t l IH]; [by intros H%not_elem_of_nil|].
  apply Forall_cons in Hf as [[Ht _] Hf]. cbn [fmap list_fmap]. rewrite sumZ_cons.
  assert (0 <= sumZ l.*2) as Hl.
  { apply sumZ_nonneg, Forall_fmap. eapply Forall_impl; [exact Hf|]. by intros x [? _]. }
  intros [->|Hs]%elem_of_cons; [lia|]. specialize (IH Hf Hs). lia.
Qed.

Lemma allocation_spec s :
  s ∈ services →
  let a := allocation total s in
  total * al_slots a <= 31 * s.2 <= total * (al_slots a + 1) ∧ 0 <= al_slots a <= 31 ∧ is_nan (al_remainder a) = false.
Proof.
  intros Hs. pose proof (weight_le_total s Hs) as Hw. destruct Hok as (_ & Ht & _).
  destruct (floor_share s.2 total Hw Ht) as (Hb & Hn & Hf). cbn [allocation al_slots al_remainder].
  set (k := f64_as_u64 _) in *. assert (k <= 31) as Hk by nia. split; [done|]. split; [lia|].
  assert (is_finite (f64_of_Z k) = true) as Hf'.
  { destruct k as [|p|p]; [done| |lia]. by rewrite f64_of_pos by lia. }
  pose proof (f64_sub_not_nan _ _ Hf Hf'). by destruct (f64_sub _ _).
Qed.

Lemma floors_sum :
  let floors := slots_of (allocation total <$> services) in
  sumZ floors <= 31 <= sumZ floors + Z.of_nat (length services) ∧ Forall (λ x, 0 <= x) floors.
Proof.
  destruct Hok as (Et & Ht & _). cbn zeta.
  assert (∀ l, (∀ s, s ∈ l → s ∈ services) →
    let floors := slots_of (allocation total <$> l) in
    total * sumZ floors <= 31 * sumZ l.*2 <= total * (sumZ floors + Z.of_nat (length l)) ∧ Forall (λ x, 0 <= x) floors) as H.
  { induction l as [|s l IH]; intros Hin; [cbn; split; [lia|done]|].
    destruct IH as [IH1 IH2]; [intros x Hx; apply Hin; by right|].
    destruct (allocation_spec s) as (Hb & Hn & _); [apply Hin; by left|].
    cbn [fmap list_fmap slots_of length]. change (al_slots <$> (allocation total <$> l)) with (slots_of (allocation total <$> l)).
    change (al_slots <$> allocation total s :: (allocation total <$> l)) with (al_slots (allocation total s) :: slots_of (allocation total <$> l)).
    rewrite !sumZ_cons, Nat2Z.inj_succ. split; [lia|]. apply Forall_cons. split; [lia|done]. }
  destruct (H services) as [Hb Hf]; [done|]. rewrite <- Et in Hb. split; [split; nia|done].
Qed.

Lemma remainders_not_nan :
  existsb (λ x, is_nan x.2) (imap (λ i a, (i, al_remainder a)) (allocation total <$> services)) = false.
Proof.
  apply not_true_iff_false. rewrite existsb_exists. intros ([i r] & Hin & Hn).
  apply list_elem_of_In, list_elem_of_lookup in Hin as [j Hj]. rewrite list_lookup_imap in Hj.
  destruct ((allocation total <$> services) !! j) as [a|] eqn:Ha; [|done]. injection Hj as <- <-.
  apply list_lookup_fmap_Some in Ha as (s & -> & Hs).
  apply list_elem_of_lookup_2, allocation_spec in Hs as (_ & _ & Hn'). cbn [snd] in Hn. cbn zeta in Hn'. congruence.
Qed.

(** Who gets no slot more has no larger remainder than who does. *)
Lemma extra_largest l :
  (∀ i a, l !! i = Some a → ∃ s, services !! i = Some s ∧ a = allocation total s) → ∀ sorted winners n,
  l = allocation total <$> services → sorted = foldr sort_insert [] (imap (λ i a, (i, al_remainder a)) l) → winners = take n sorted →
  ∀ i j s s', services !! i = Some s → services !! j = Some s' → i ∈ winners.*1 → j ∉ winners.*1 →
    f64_ltb (al_remainder (allocation total s)) (al_remainder (allocation total s')) = false.
Proof.
  intros Hl sorted winners n El Es -> i j s s' Hi Hj Hin Hout. subst l sorted. set (ix := imap _ _) in *.
  assert (∀ i s, services !! i = Some s → ix !! i = Some (i, al_remainder (allocation total s))) as Hix.
  { intros k x Hk. unfold ix. by rewrite list_lookup_imap, list_lookup_fmap, Hk. }
  assert (∀ k r, (k, r) ∈ ix → ∀ x, services !! k = Some x → r = al_remainder (allocation total x)) as Hval.
  { intros k r [m Hm]%list_elem_of_lookup x Hx. unfold ix in Hm. rewrite list_lookup_imap, list_lookup_fmap in Hm.
    destruct (services !! m) as [y|] eqn:Ey; [|done]. cbn [fmap option_fmap option_map] in Hm. injection Hm as -> <-. rewrite Ey in Hx. by injection Hx as ->. }
  assert (StronglySorted not_smaller (foldr sort_insert [] ix)) as Hsort.
  { apply sort_sorted, Forall_forall. intros [k r] Hk. pose proof remainders_not_nan as Hn. fold ix in Hn.
    apply not_true_iff_false in Hn. rewrite existsb_exists in Hn. intros E. cbn in E. subst r. apply Hn. exists (k, S754_nan).
    split; [by apply list_elem_of_In|done]. }
  apply list_elem_of_fmap in Hin as ([i' r] & -> & Hw). cbn [fst] in Hi.
  assert (r = al_remainder (allocation total s)) as <-.
  { apply (Hval i'); [|done]. rewrite <- (sort_perm ix). by eapply subseteq_take. }
  change r with (i', r).2. change (al_remainder (allocation total s')) with (j, al_remainder (allocation total s')).2.
  apply (sorted_take_drop not_smaller (foldr sort_insert [] ix) n); [done|done|].
  assert ((j, al_remainder (allocation total s')) ∈ foldr sort_insert [] ix) as Hall.
  { rewrite sort_perm. eapply list_elem_of_lookup_2. by apply Hix. }
  rewrite <- (take_drop n (foldr sort_insert [] ix)) in Hall. apply elem_of_app in Hall as [Hx|Hx]; [|done].
  exfalso. apply Hout. apply list_elem_of_fmap. by exists (j, al_remainder (allocation total s')).
Qed.

Lemma allocate_spec :
  ∃ slots (extra : list nat), allocate services total = Ret slots ∧ sumZ (slots_of slots) = 31 ∧ length slots = length services ∧
    (∀ i pods w, services !! i = Some (pods, w) →
      ∃ a, slots !! i = Some a ∧ al_pods a = pods ∧ 0 <= al_slots a <= 32 ∧
        total * (al_slots a - 1) <= 31 * w <= total * (al_slots a + 1) ∧
        al_slots a = al_slots (allocation total (pods, w)) + if decide (i ∈ extra) then 1 else 0) ∧
    (∀ i j s s', services !! i = Some s → services !! j = Some s' → i ∈ extra → j ∉ extra →
      f64_ltb (al_remainder (allocation total s)) (al_remainder (allocation total s')) = false).
Proof.
  destruct floors_sum as [[Hs1 Hs2] Hf]. unfold allocate. set (l := allocation total <$> services) in *.
  assert (∀ i a, l !! i = Some a → ∃ s, services !! i = Some s ∧ a = allocation total s) as Hl.
  { intros i a Ha. apply list_lookup_fmap_Some in Ha as (s & -> & Hs). eauto. }
  unfold sort_by_remainder. set (ix := imap _ l).
  assert (existsb (λ x, is_nan x.2) ix = false) as Hnan by apply remainders_not_nan.
  rewrite Hnan, andb_false_r. cbn [obind].
  rewrite foldl_slots, Z.add_0_l by (done || lia). pose proof (sumZ_nonneg _ Hf).
  rewrite wrap_small by (unfold in_width, MAX_MAGLEV_BACKENDS; lia).
  set (sorted := foldr sort_insert [] ix). assert (sorted ≡ₚ ix) as Hperm by apply sort_perm.
  assert (length sorted = length services) as Hlen by (rewrite Hperm; subst ix l; by rewrite length_imap, length_fmap).
  rewrite Hlen. replace (Z.min _ _) with (31 - sumZ (slots_of l)) by (unfold MAX_MAGLEV_BACKENDS; lia).
  set (winners := take _ sorted).
  rewrite foldl_winners.
  assert (sorted.*1 ≡ₚ seq 0 (length l)) as Hp1 by (rewrite Hperm; unfold ix; by rewrite imap_keys).
  assert (NoDup winners.*1) as Hnd.
  { unfold winners. rewrite fmap_take. apply (NoDup_app (take _ _) (drop (Z.to_nat (31 - sumZ (slots_of l))) sorted.*1)).
    rewrite take_drop, Hp1. apply NoDup_seq. }
  destruct (add_slots_spec winners.*1 l Hnd) as (Hsum & Hout & Hin).
  { apply Forall_forall. intros i Hi. assert (i ∈ seq 0 (length l)) as Hi'.
    { rewrite <- Hp1. unfold winners in Hi. rewrite fmap_take in Hi. by eapply subseteq_take. }
    apply elem_of_seq in Hi' as [_ Hi']. destruct (lookup_lt_is_Some_2 l i) as [a Ha]; [lia|]. exists a. split; [done|].
    apply Hl in Ha as (s & Hs & ->). by apply list_elem_of_lookup_2, allocation_spec in Hs as (_ & ? & _). }
  eexists _, winners.*1. split; [done|]. rewrite Hsum. unfold winners at 1. rewrite length_fmap, length_take, Hlen.
  split; [lia|]. split.
  { unfold l. by rewrite add_slots_length, length_fmap. }
  split; [|by apply (extra_largest l Hl sorted winners (Z.to_nat (31 - sumZ (slots_of l))))].
  intros i pods w Hi. assert (l !! i = Some (allocation total (pods, w))) as Ha by (unfold l; by rewrite list_lookup_fmap, Hi).
  destruct (allocation_spec (pods, w)) as (Hb & Hn & _); [by eapply list_elem_of_lookup_2|].
  cbn [fst snd] in Hb. change pods with (al_pods (allocation total (pods, w))).
  set (a := allocation total (pods, w)) in *. destruct Hok as (_ & Ht & _).
  destruct (decide (i ∈ winners.*1)) as [Hw|Hw].
  - destruct (Hin i Hw) as (a' & Ha' & E). rewrite Ha in Ha'. injection Ha' as <-. eexists. split; [exact E|].
    cbn [al_pods al_slots]. split; [done|]. split; [lia|]. split; [lia|reflexivity].
  - exists a. rewrite Hout by done. split; [done|]. split; [done|]. split; [lia|]. split; [lia|]. symmetry. apply Z.add_0_r.
Qed.
End fair.

(** ** Replicas *)
Definition ceil_div (a b : Z) : Z := (a + b - 1) / b.

Lemma f64_max_one n : 0 <= n < 2 ^ 52 → f64_as_u64 (f64_max (f64_of_Z n) (f64_of_Z 1)) = Z.max 1 n.
Proof.
  intros Hn. destruct n as [|p|p]; [done| |lia]. destruct (decide (p = 1%positive)) as [->|Hne]; [done|].
  assert (f64_ltb (f64_of_Z (Zpos p)) (f64_of_Z 1) = false) as E.
  { rewrite f64_of_pos by lia. destruct (normal_shift p) as (m & k & Ep & Hm); [lia|].
    unfold normal in Ep. injection Ep as Em Ek. unfold normal. rewrite Ek, Em. unfold f64_ltb, SFltb.
    change (f64_of_Z 1) with (S754_finite false 4503599627370496 (-52)). cbn [SFcompare].
    destruct (Z.compare_spec (Zneg k) (-52)) as [E|E|E]; [|exfalso|done].
    - rewrite compare_mantissa. assert (k = 52)%positive as -> by lia.
      destruct (Z.compare_spec (Zpos m) 4503599627370496); [done| |done]. lia.
    - pose proof (digits_bound p) as [Hd _]. assert (Zpos k < 53) by lia. lia. }
  unfold f64_max. rewrite f64_of_pos in * by lia. unfold normal in *. change (f64_of_Z 1) with (S754_finite false 4503599627370496 (-52)) in *.
  rewrite E. fold (normal p). rewrite <- f64_of_pos, f64_whole by lia. lia.
Qed.

Lemma replicas_spec a :
  0 <= al_slots a <= 32 → al_pods a ≠ [] → Z.of_nat (length (al_pods a)) < 2 ^ 52 →
  replicas_per_pod a = Z.max 1 (ceil_div (al_slots a) (Z.of_nat (length (al_pods a)))).
Proof.
  intros Hs Hne Hl. assert (0 < Z.of_nat (length (al_pods a))) as Hp by (destruct (al_pods a); [done|cbn; lia]).
  unfold replicas_per_pod, ceil_div. destruct (decide (al_slots a = 0)) as [E|E].
  - rewrite E. set (p := Z.of_nat _) in *. rewrite (Z.div_small (0 + p - 1)) by lia.
    destruct p as [|p|p]; [lia| |lia]. by rewrite (f64_of_pos p) by lia.
  - rewrite ceil_quotient by lia. apply f64_max_one. split; [apply Z.div_pos; lia|].
    apply Z.div_lt_upper_bound; nia.
Qed.

Lemma ceil_div_bound a b : 0 <= a → 0 < b → a <= b * ceil_div a b.
Proof.
  intros Ha Hb. unfold ceil_div. pose proof (Z.div_mod (a + b - 1) b ltac:(lia)).
  pose proof (Z.mod_pos_bound (a + b - 1) b ltac:(lia)). lia.
Qed.

Lemma ceil_div_exact a b : 0 <= a → 0 < b → (b | a) → ceil_div a b = a / b.
Proof.
  intros Ha Hb [k ->]. unfold ceil_div. replace (k * b + b - 1) with ((b - 1) + k * b) by lia.
  rewrite Z.div_add, Z.div_mul, Z.div_small by lia. lia.
Qed.

(** ** Interleaving *)
Lemma bind_app_perm {A B} (l : list A) (g h : A → list B) :
  l ≫= (λ y, g y ++ h y) ≡ₚ (l ≫= g) ++ (l ≫= h).
Proof.
  induction l as [|y l IH]; [done|]. cbn. rewrite IH. rewrite <- !(assoc_L (++)). apply Permutation_app_head.
  rewrite !(assoc_L (++)). apply Permutation_app_tail, Permutation_app_comm.
Qed.

Lemma bind_swap {A B C} (l : list A) (k : list B) (f : A → B → list C) :
  l ≫= (λ x, k ≫= f x) ≡ₚ k ≫= λ y, l ≫= λ x, f x y.
Proof.
  induction l as [|x l IH]; cbn.
  - induction k; [done|]. done.
  - rewrite IH. symmetry. apply bind_app_perm.
Qed.

Lemma bind_perm_pointwise {A B} (l : list A) (f g : A → list B) :
  (∀ x, x ∈ l → f x = g x) → l ≫= f = l ≫= g.
Proof.
  induction l as [|x l IH]; intros H; [done|]. cbn. rewrite (H x), IH; [done| |by left].
  intros y Hy. apply H. by right.
Qed.

Lemma rounds_replicate (pods : list Backend) r n :
  0 <= r <= Z.of_nat n →
  seq 0 n ≫= (λ k, if Z.of_nat k <? r then pods else []) = mjoin (replicate (Z.to_nat r) pods).
Proof.
  intros Hr. replace n with (Z.to_nat r + (n - Z.to_nat r))%nat by lia. rewrite seq_app, bind_app.
  assert (seq (0 + Z.to_nat r) (n - Z.to_nat r) ≫= (λ k, if Z.of_nat k <? r then pods else []) = []) as ->.
  { rewrite (bind_perm_pointwise _ _ (λ _, [])); [by induction (seq _ _)|].
    intros k Hk%elem_of_seq. by rewrite (proj2 (Z.ltb_ge _ _)) by lia. }
  rewrite app_nil_r, (bind_perm_pointwise _ _ (λ _, pods)).
  2:{ intros k Hk%elem_of_seq. by rewrite (proj2 (Z.ltb_lt _ _)) by lia. }
  clear. generalize 0%nat as i. induction (Z.to_nat r) as [|m IH]; intros i; [done|].
  change (pods ++ (seq (S i) m ≫= λ _, pods) = pods ++ mjoin (replicate m pods)). by rewrite IH.
Qed.

Lemma max_ge ts t : t ∈ ts → t.2 <= foldr Z.max 0 (ts : list (list Backend * Z)).*2.
Proof. induction ts as [|u ts IH]; [by intros ?%not_elem_of_nil|]. cbn. intros [->|H]%elem_of_cons; [lia|]. specialize (IH H). lia. Qed.

Definition replicated (t : list Backend * Z) : list Backend := mjoin (replicate (Z.to_nat t.2) t.1).

(** Interleaving only reorders the replicas. *)
Lemma interleave_perm ts : Forall (λ t, 0 <= t.2) ts → interleave ts ≡ₚ ts ≫= replicated.
Proof.
  intros Hf. unfold interleave. rewrite bind_swap. apply reflexive_eq, bind_perm_pointwise. intros [pods r] Ht.
  unfold replicated. cbn [fst snd]. apply rounds_replicate. rewrite Forall_forall in Hf. specialize (Hf _ Ht).
  apply max_ge in Ht. cbn [snd] in *. lia.
Qed.

(** The first round has every pod once. *)
Lemma interleave_first ts :
  ts ≠ [] → Forall (λ t, 1 <= t.2) ts → ∃ rest, interleave ts = (ts ≫= fst) ++ rest.
Proof.
  intros Hne Hf. unfold interleave.
  assert (1 <= foldr Z.max 0 ts.*2) as Hmax.
  { destruct ts as [|t ts]; [done|]. apply Forall_cons in Hf as [Ht _]. cbn. lia. }
  destruct (Z.to_nat (foldr Z.max 0 ts.*2)) as [|n] eqn:En; [lia|]. cbn [seq]. eexists.
  cbn [mbind list_bind]. f_equal. apply (bind_perm_pointwise ts). intros [pods r] Ht. rewrite Forall_forall in Hf.
  specialize (Hf _ Ht). cbn [fst snd] in *. by rewrite (proj2 (Z.ltb_lt _ _)) by lia.
Qed.

Lemma length_replicated_bind ts :
  Forall (λ t, 0 <= t.2) ts →
  Z.of_nat (length (ts ≫= replicated)) = sumZ ((λ t, t.2 * Z.of_nat (length t.1)) <$> ts).
Proof.
  induction 1 as [|[pods r] ts Hr Hf IH]; [done|].
  change (((pods, r) :: ts) ≫= replicated) with (replicated (pods, r) ++ (ts ≫= replicated)).
  rewrite length_app, Nat2Z.inj_add, IH. cbn [fmap list_fmap]. rewrite sumZ_cons. f_equal. unfold replicated. cbn [fst snd].
  rewrite <- (Z2Nat.id r) at 2 by done. clear. induction (Z.to_nat r) as [|n IHn]; [done|].
  cbn [replicate]. change (mjoin (pods :: replicate n pods)) with (pods ++ mjoin (replicate n pods)).
  rewrite length_app, Nat2Z.inj_add, IHn. lia.
Qed.

(** ** The list of a rule *)
Definition target (a : Allocation) : list Backend * Z := (al_pods a, replicas_per_pod a).

Definition slot_ok (a : Allocation) : Prop :=
  0 <= al_slots a <= 32 ∧ al_pods a ≠ [] ∧ Z.of_nat (length (al_pods a)) < 2 ^ 52.

Lemma allocate_targets services total :
  services_ok services total →
  ∃ slots, allocate services total = Ret slots ∧ sumZ (slots_of slots) = 31 ∧ Forall slot_ok slots ∧
    al_pods <$> slots = services.*1 ∧ ∃ extra : list nat,
    (∀ i pods w, services !! i = Some (pods, w) →
      ∃ a, slots !! i = Some a ∧ al_pods a = pods ∧ total * (al_slots a - 1) <= 31 * w <= total * (al_slots a + 1) ∧
        al_slots a = al_slots (allocation total (pods, w)) + if decide (i ∈ extra) then 1 else 0) ∧
    (∀ i j s s', services !! i = Some s → services !! j = Some s' → i ∈ extra → j ∉ extra →
      f64_ltb (al_remainder (allocation total s)) (al_remainder (allocation total s')) = false).
Proof.
  intros Hok. destruct (allocate_spec services total Hok) as (slots & extra & E & Hsum & Hlen & Hat & Hextra).
  exists slots. split; [done|]. split; [done|]. destruct Hok as (_ & _ & Hf). split_and!.
  - apply Forall_forall. intros a [i Ha]%list_elem_of_lookup.
    destruct (lookup_lt_is_Some_2 services i) as [[pods w] Hi]; [rewrite <- Hlen; by eapply lookup_lt_Some|].
    destruct (Hat i pods w Hi) as (a' & Ha' & Ep & Hs & _). rewrite Ha in Ha'. injection Ha' as <-.
    rewrite Forall_forall in Hf. destruct (Hf (pods, w)) as (_ & Hne & Hl); [by eapply list_elem_of_lookup_2|].
    unfold slot_ok. rewrite Ep. done.
  - apply list_eq. intros i. rewrite !list_lookup_fmap. destruct (services !! i) as [[pods w]|] eqn:Hi; cbn.
    + destruct (Hat i pods w Hi) as (a & -> & <- & _). done.
    + apply lookup_ge_None in Hi. rewrite <- Hlen in Hi. apply lookup_ge_None in Hi. by rewrite Hi.
  - exists extra. split; [|done]. intros i pods w Hi. destruct (Hat i pods w Hi) as (a & ? & ? & _ & ?). eauto.
Qed.

Lemma targets_replicas slots :
  Forall slot_ok slots →
  Forall (λ t, 1 <= t.2) (target <$> slots) ∧
  sumZ (slots_of slots) <= sumZ ((λ t, t.2 * Z.of_nat (length t.1)) <$> (target <$> slots)).
Proof.
  induction 1 as [|a slots (Hs & Hne & Hl) Hf [IH1 IH2]]; [done|].
  change (target <$> a :: slots) with (target a :: (target <$> slots)). split.
  - apply Forall_cons. split; [|done]. cbn [target snd]. rewrite replicas_spec by done. lia.
  - change (slots_of (a :: slots)) with (al_slots a :: slots_of slots). rewrite fmap_cons, !sumZ_cons.
    cbn [target fst snd]. rewrite replicas_spec by done.
    assert (0 < Z.of_nat (length (al_pods a))) as Hp by (destruct (al_pods a); [done|cbn; lia]).
    pose proof (ceil_div_bound (al_slots a) (Z.of_nat (length (al_pods a))) ltac:(lia) Hp) as Hb.
    assert (al_slots a <= Z.max 1 (ceil_div (al_slots a) (Z.of_nat (length (al_pods a)))) * Z.of_nat (length (al_pods a))) by nia.
    lia.
Qed.

Lemma targets_nonneg slots : Forall slot_ok slots → Forall (λ t, 0 <= t.2) (target <$> slots).
Proof. intros [Hf _]%targets_replicas. eapply Forall_impl; [exact Hf|]. intros t Ht. cbn beta in *. lia. Qed.

Lemma weighted_backends_eq services total slots :
  0 < total → allocate services total = Ret slots →
  weighted_backends services total = Ret (take 31 (interleave (target <$> slots))).
Proof. intros Ht E. unfold weighted_backends. rewrite (proj2 (Z.ltb_lt _ _)) by done. rewrite E. done. Qed.

Lemma slots_nonempty slots : sumZ (slots_of slots) = 31 → target <$> slots ≠ [].
Proof. by destruct slots. Qed.

Lemma target_fst slots : (target <$> slots) ≫= fst = mjoin (al_pods <$> slots).
Proof. induction slots as [|a slots IH]; [done|]. cbn in *. by rewrite IH. Qed.

Lemma interleave_31 slots :
  Forall slot_ok slots → sumZ (slots_of slots) = 31 → (31 <= length (interleave (target <$> slots)))%nat.
Proof.
  intros Hf Hsum. destruct (targets_replicas slots Hf) as [H1 H2].
  pose proof (targets_nonneg slots Hf) as H0. rewrite interleave_perm by done. pose proof (length_replicated_bind _ H0). lia.
Qed.

(** C14: the slots are shared fairly, although in floating point.  For Services with
pods and weights that are not negative and sum to a positive total below 2^31, the 31
slots are all given away.  Every Service gets the whole part of its share
[31 * weight / total], computed in floating point, and at most one slot more; what it gets
differs from the exact share by at most one slot; and no Service that gets no slot more
has a larger remainder than one that does. *)
Theorem slots_are_fair services total :
  services_ok services total →
  let floor w := f64_as_u64 (f64_floor (exact_slots w total)) in
  let remainder w := f64_sub (exact_slots w total) (f64_of_Z (floor w)) in
  ∃ slots (extra : list nat), allocate services total = Ret slots ∧ sumZ (slots_of slots) = MAX_MAGLEV_BACKENDS ∧
    al_pods <$> slots = services.*1 ∧
    (∀ i pods w, services !! i = Some (pods, w) →
      ∃ a, slots !! i = Some a ∧ al_pods a = pods ∧ total * (al_slots a - 1) <= 31 * w <= total * (al_slots a + 1) ∧
        al_slots a = floor w + if decide (i ∈ extra) then 1 else 0) ∧
    (∀ i j s s', services !! i = Some s → services !! j = Some s' → i ∈ extra → j ∉ extra →
      f64_ltb (remainder s.2) (remainder s'.2) = false).
Proof. intros Hok floor remainder. destruct (allocate_targets services total Hok) as (slots & E & Hs & _ & Hp & extra & Hat & Hx). eauto 10. Qed.

(** The backend list of a rule is complete.  It is always exactly 31 long, holds
only pods of the rule's Services, and if these have at most 31 pods in all, it
holds every one of them; and if the slots of every Service divide evenly among its
pods, every pod occurs exactly as often as its part of the slots. *)
Theorem backend_list_complete services total :
  services_ok services total →
  ∃ bs slots, weighted_backends services total = Ret bs ∧ allocate services total = Ret slots ∧
    length bs = Z.to_nat MAX_MAGLEV_BACKENDS ∧
    (∀ b, b ∈ bs → b ∈ mjoin services.*1) ∧
    ((length (mjoin services.*1) <= 31)%nat → ∀ b, b ∈ mjoin services.*1 → b ∈ bs) ∧
    (Forall (λ a, 0 < al_slots a ∧ (Z.of_nat (length (al_pods a)) | al_slots a)) slots →
     bs ≡ₚ slots ≫= λ a, mjoin (replicate (Z.to_nat (al_slots a / Z.of_nat (length (al_pods a)))) (al_pods a))).
Proof.
  intros Hok. destruct (allocate_targets services total Hok) as (slots & E & Hsum & Hf & Hp & _).
  pose proof (interleave_31 slots Hf Hsum) as H31. destruct (targets_replicas slots Hf) as [H1 _].
  pose proof (targets_nonneg slots Hf) as H0.
  exists (take 31 (interleave (target <$> slots))), slots.
  split; [apply weighted_backends_eq; [apply Hok|done]|]. split; [done|]. split.
  { rewrite length_take. change (Z.to_nat MAX_MAGLEV_BACKENDS) with 31%nat. lia. } split_and!.
  - intros b Hb%subseteq_take. rewrite interleave_perm in Hb by done. rewrite <- Hp.
    apply list_elem_of_bind in Hb as (t & Hb & (a & -> & Ha)%list_elem_of_fmap).
    apply list_elem_of_join in Hb as (l & Hb & [-> _]%elem_of_replicate).
    apply list_elem_of_join. exists (al_pods a). split; [done|]. by apply list_elem_of_fmap_2.
  - intros Hl b Hb. destruct (interleave_first (target <$> slots)) as [rest ->]; [by apply slots_nonempty|done|].
    rewrite target_fst, Hp, take_app_ge by done. apply elem_of_app. by left.
  - intros Hd. assert (target <$> slots = (λ a, (al_pods a, al_slots a / Z.of_nat (length (al_pods a)))) <$> slots) as Et.
    { apply list_fmap_ext. intros i a Ha%list_elem_of_lookup_2. rewrite !Forall_forall in *.
      destruct (Hf a Ha) as (Hs & Hne & Hl), (Hd a Ha) as [Hpos Hdiv]. unfold target. rewrite replicas_spec by done.
      assert (0 < Z.of_nat (length (al_pods a))) by (destruct (al_pods a); [done|cbn; lia]).
      rewrite ceil_div_exact by (done || lia). f_equal. apply Z.max_r. apply Z.div_le_lower_bound; [lia|].
      apply Z.divide_pos_le in Hdiv; lia. }
    assert (length (interleave (target <$> slots)) = 31%nat) as Hlen.
    { rewrite interleave_perm by done. apply Nat2Z.inj. rewrite length_replicated_bind by done.
      rewrite Et, <- list_fmap_compose. change (Z.of_nat 31) with 31. rewrite <- Hsum. unfold slots_of. f_equal. apply list_fmap_ext. intros i a Ha%list_elem_of_lookup_2.
      rewrite !Forall_forall in Hd. destruct (Hd a Ha) as [Hpos [k Hk]]. cbn [compose fst snd].
      rewrite Hk in *. rewrite Z.div_mul; [done|]. destruct (length (al_pods a)); [lia|done]. }
    rewrite take_ge by lia. rewrite interleave_perm, Et by done. apply reflexive_eq.
    clear. induction slots as [|a l IH]; [done|]. cbn in *. by rewrite IH.
Qed.

(** A Service of weight zero is served.  Every Service keeps at least one replica of
each of its pods, so the pods of a Service with weight 0, which the Gateway API
sends no requests, are in the list (when there are at most 31 pods in all). *)
Theorem zero_weight_served services total pods b :
  services_ok services total → (length (mjoin services.*1) <= 31)%nat →
  (pods, 0) ∈ services → b ∈ pods →
  ∃ bs, weighted_backends services total = Ret bs ∧ b ∈ bs.
Proof.
  intros Hok Hl Hs Hb. destruct (allocate_targets services total Hok) as (slots & E & Hsum & Hf & Hp & _).
  destruct (targets_replicas slots Hf) as [H1 _]. eexists. split; [apply weighted_backends_eq; [apply Hok|done]|].
  destruct (interleave_first (target <$> slots)) as [rest ->]; [by apply slots_nonempty|done|].
  rewrite target_fst, Hp, take_app_ge by done. apply elem_of_app. left. apply list_elem_of_join. exists pods. split; [done|].
  by apply (list_elem_of_fmap_2 fst) in Hs.
Qed.

(** The order of the Services decides over many pods.  If the first Service of a
rule has 31 pods or more, the list holds its pods only, whatever the weights are:
a Service after it gets no requests even with a million times its weight. *)
Theorem first_service_takes_all services total pods w rest :
  services_ok services total → services = (pods, w) :: rest → (31 <= length pods)%nat →
  weighted_backends services total = Ret (take 31 pods).
Proof.
  intros Hok Es Hl. destruct (allocate_targets services total Hok) as (slots & E & Hsum & Hf & Hp & _).
  destruct (targets_replicas slots Hf) as [H1 _]. rewrite (weighted_backends_eq _ _ slots); [|apply Hok|done].
  destruct (interleave_first (target <$> slots)) as [more ->]; [by apply slots_nonempty|done|].
  rewrite target_fst, Hp, Es. cbn [fmap list_fmap fst].
  change (mjoin (pods :: rest.*1)) with (pods ++ mjoin rest.*1). rewrite <- (assoc_L (++)).
  by rewrite take_app_le.
Qed.

(** ** Witnesses *)
Definition canary : list (list Backend * Z) := [([pod 1], 90); ([pod 2], 10)].
Definition drained : list (list Backend * Z) := [([pod 1], 1); ([pod 2], 0)].
Definition crowded : list (list Backend * Z) := [(pods_from 1 40, 1); ([pod 200], 1000000)].

Ltac check_services :=
  split; [reflexivity|]; split; [lia|];
  repeat (apply Forall_cons; split; [split; [cbn; lia|]; split; [discriminate|reflexivity]|]); apply Forall_nil; exact I.

Lemma canary_ok : services_ok canary 100.
Proof. check_services. Qed.

(** 28 and 3 of 31: the shares are 27.9 and 3.1, and the first has the larger remainder. *)
Lemma slots_are_fair_witness :
  ∃ slots (extra : list nat), allocate canary 100 = Ret slots ∧ sumZ (slots_of slots) = MAX_MAGLEV_BACKENDS ∧
    slots_of slots = [28; 3] ∧ 0%nat ∈ extra ∧ 1%nat ∉ extra.
Proof.
  destruct (slots_are_fair canary 100 canary_ok) as (slots & extra & E & Hs & _ & Hat & _). exists slots, extra.
  split; [exact E|]. split; [exact Hs|].
  assert (slots_of slots = [28; 3]) as Hsl by (revert E; clear; vm_compute; intros E; by injection E as <-).
  split; [exact Hsl|].
  destruct (Hat 0%nat _ _ eq_refl) as (a & Ha & _ & _ & Ea). destruct (Hat 1%nat _ _ eq_refl) as (a' & Ha' & _ & _ & Ea').
  assert (al_slots a = 28) as Fa by (apply (f_equal (λ l, l !! 0%nat)) in Hsl; unfold slots_of in Hsl; rewrite list_lookup_fmap, Ha in Hsl; by injection Hsl).
  assert (al_slots a' = 3) as Fa' by (apply (f_equal (λ l, l !! 1%nat)) in Hsl; unfold slots_of in Hsl; rewrite list_lookup_fmap, Ha' in Hsl; by injection Hsl).
  rewrite Fa in Ea. rewrite Fa' in Ea'. split; [|intros Hin].
  - destruct (decide (0%nat ∈ extra)); [done|]. exfalso. revert Ea. vm_compute. discriminate.
  - rewrite decide_True in Ea' by done. revert Ea'. vm_compute. discriminate.
Defined.

Lemma backend_list_complete_witness :
  ∃ bs slots, weighted_backends canary 100 = Ret bs ∧ allocate canary 100 = Ret slots ∧
    length bs = Z.to_nat MAX_MAGLEV_BACKENDS ∧
    (∀ b, b ∈ bs → b ∈ mjoin canary.*1) ∧
    ((length (mjoin canary.*1) <= 31)%nat → ∀ b, b ∈ mjoin canary.*1 → b ∈ bs) ∧
    (Forall (λ a, 0 < al_slots a ∧ (Z.of_nat (length (al_pods a)) | al_slots a)) slots →
     bs ≡ₚ slots ≫= λ a, mjoin (replicate (Z.to_nat (al_slots a / Z.of_nat (length (al_pods a)))) (al_pods a))).
Proof. apply backend_list_complete. apply canary_ok. Defined.

Lemma zero_weight_served_witness : ∃ bs, weighted_backends drained 1 = Ret bs ∧ pod 2 ∈ bs.
Proof.
  apply (zero_weight_served drained 1 [pod 2] (pod 2)); [check_services|cbn; lia| |].
  - right. left.
  - left.
Defined.

Lemma first_service_takes_all_witness :
  weighted_backends crowded 1000001 = Ret (take 31 (pods_from 1 40)).
Proof.
  apply (first_service_takes_all crowded 1000001 (pods_from 1 40) 1 [([pod 200], 1000000)]);
    [check_services|reflexivity|apply Nat.leb_le; reflexivity].
Defined.
