(* ===== verification/HttpRoute.v ===== *)
(** * HttpRoute: the HTTPRoute controller ([http_route.rs])

[reconcile] turns one HTTPRoute into routes: it keeps the parents that are managed
Gateways, checks the paths of every rule, resolves its Services to backends with
their weights, adds a route per match to the router, configures the rate limit of
the annotation, and reports a status.  It composes [GatewayIndex], [Validation],
[Endpoints], [Weights], [Router] and [RateLimiter].  The answers of the API server
(Services, EndpointSlices, the status patch), the time and its text are inputs. *)

From S2P Require Import Prelude Common Maglev Float Health HealthChecker Filters Matching RouteCache Matchit.
From S2P Require Import Selection Router RouterSpec Prefix RateLimiter.
From S2P Require Import Text Decimal GatewayIndex Validation IpText Endpoints Weights.

#[local] Open Scope Z_scope.
#[local] Open Scope rauta_scope.

(** ** The resource, as far as the controller reads it *)
Record ParentRef : Type := mk_parent_ref {
  parent_name : string;
  parent_namespace : option string;
  section_name : option string
}.

Record BackendRef : Type := mk_backend_ref {
  ref_name : string;
  ref_port : option Z;
  ref_weight : option Z
}.

Record HTTPRouteMatch : Type := mk_match {
  (** [path], then [path.value] *)
  match_path : option (option string);
  match_method : option HTTPRouteMethod
}.

Record HTTPRouteRule : Type := mk_rule {
  rule_matches : option (list HTTPRouteMatch);
  rule_backend_refs : option (list BackendRef)
}.

Record HTTPRoute : Type := mk_http_route {
  hr_name : string;
  hr_namespace : option string;
  hr_generation : option Z;
  hr_annotations : option (gmap string string);
  hr_parent_refs : option (list ParentRef);
  hr_rules : option (list HTTPRouteRule)
}.

(** ** Status *)
Record Condition : Type := mk_condition {
  c_type : string;
  c_status : string;
  c_reason : string;
  c_message : string;
  c_last_transition : string;
  c_generation : Z
}.

Record ParentStatus : Type := mk_parent_status {
  ps_group : string;
  ps_kind : string;
  ps_name : string;
  ps_namespace : string;
  ps_section : option string;
  ps_controller : string;
  ps_conditions : list Condition
}.

Record RouteStatus : Type := mk_route_status {
  accepted : bool;
  resolved_refs : bool;
  resolved_refs_reason : string;
  resolved_refs_message : string;
  generation : Z;
  parent_refs : list ParentRef
}.

Definition parent_status (namespace : string) (conditions : list Condition) (p : ParentRef) : ParentStatus :=
  mk_parent_status "gateway.networking.k8s.io" "Gateway" (parent_name p) (default namespace (parent_namespace p)) (section_name p)
    "rauta.io/gateway-controller" conditions.

Definition bool_text (b : bool) : string := if b then "True" else "False".

(** The patch of [set_route_status]. *)
Definition set_route_status (namespace time : string) (s : RouteStatus) : list ParentStatus :=
  let conditions :=
    mk_condition "Accepted" (bool_text (accepted s)) (if accepted s then "Accepted" else "NoRules")
      (if accepted s then "HTTPRoute is accepted and configured" else "HTTPRoute has no valid routing rules")
      time (generation s) ::
    (if accepted s then
       [mk_condition "ResolvedRefs" (bool_text (resolved_refs s)) (resolved_refs_reason s) (resolved_refs_message s)
          time (generation s)]
     else []) in
  parent_status namespace conditions <$> parent_refs s.

Definition set_route_status_invalid (namespace time error_message : string) (gen : Z) (refs : list ParentRef)
  : list ParentStatus :=
  parent_status namespace [mk_condition "Accepted" "False" "Invalid" error_message time gen] <$> refs.

(** What the controller asks of its runtime. *)
Inductive Action : Type := AwaitChange | Requeue (seconds : Z).

Definition error_policy : Action := Requeue 60.

(** ** Parents *)
Fixpoint matching_refs (i : GatewayIndex) (route_namespace : string) (refs : list ParentRef)
  : list ParentRef * GatewayIndex :=
  match refs with
  | [] => ([], i)
  | p :: refs =>
      let '(is_managed, i) := index_contains i (default route_namespace (parent_namespace p)) (parent_name p) in
      let '(rest, i) := matching_refs i route_namespace refs in
      (if is_managed then p :: rest else rest, i)
  end.

Definition get_matching_parent_refs (i : GatewayIndex) (refs : option (list ParentRef)) (route_namespace : string)
  : list ParentRef * GatewayIndex :=
  match refs with
  | None => ([], i)
  | Some refs => matching_refs i route_namespace refs
  end.

(** ** One rule *)
Definition match_pair (m : HTTPRouteMatch) : string * option HttpMethod :=
  (default "/" (match_path m ≫= λ v, v), match_method m ≫= parse_http_method).

Definition path_method_pairs (rule : HTTPRouteRule) : list (string * option HttpMethod) :=
  match match_pair <$> default [] (rule_matches rule) with
  | [] => [("/", None)]
  | pairs => pairs
  end.

Definition first_path (pairs : list (string * option HttpMethod)) : string :=
  match pairs with
  | (p, _) :: _ => p
  | [] => "/"
  end.

(** The loop over the references: the resolved Services, the sum of their weights (a
wrapping [i32]), and the resolution state: whether all resolved, reason, message. *)
Record Resolution : Type := mk_resolution { all_resolved : bool; res_reason : string; res_message : string }.

Fixpoint resolve_refs (api : ApiAnswers) (namespace : string) (refs : list BackendRef)
    (services : list (list Backend * Z)) (total_weight : Z) (res : Resolution)
  : list (list Backend * Z) * Z * Resolution :=
  match refs with
  | [] => (services, total_weight, res)
  | r :: refs =>
      let service_name := ref_name r in
      let port := as_u32 (default 80 (ref_port r)) in
      let weight := default 1 (ref_weight r) in
      match resolve_service_endpoints api service_name namespace port with
      | Ok [] =>
          resolve_refs api namespace refs services total_weight
            (mk_resolution false "BackendNotFound"
               ("Service " +:+ namespace +:+ "/" +:+ service_name +:+ " has no ready endpoints"))
      | Ok bs => resolve_refs api namespace refs (services ++ [(bs, weight)]) (as_i32 (total_weight + weight)) res
      | Err _ =>
          resolve_refs api namespace refs services total_weight
            (mk_resolution false "BackendNotFound"
               ("Failed to resolve service " +:+ namespace +:+ "/" +:+ service_name))
      end
  end.

Section controller.
Context {M : Type} `{!Matchit RouteKey M} `{!MapOrder}.

Record Controller : Type := mk_controller {
  router : Router M;
  gateway_index : GatewayIndex;
  rate_limiter : RateLimiter
}.

(** The answers and clock readings a reconciliation gets. *)
Record Environment : Type := mk_environment {
  env_api : ApiAnswers;
  env_patch : list ParentStatus → result unit string;
  env_now : Z;
  env_time_text : string
}.

Definition set_router (c : Controller) (r : Router M) : Controller :=
  mk_controller r (gateway_index c) (rate_limiter c).
Definition set_rate_limiter (c : Controller) (l : RateLimiter) : Controller :=
  mk_controller (router c) (gateway_index c) l.

(** A route per pair; a path that is not valid is skipped, and an error of the router
is only logged. *)
Fixpoint add_pairs (r : Router M) (pairs : list (string * option HttpMethod)) (bs : list Backend) : outcome (Router M) :=
  match pairs with
  | [] => Ret r
  | (path, method) :: pairs =>
      match validate_path path with
      | Err _ => add_pairs r pairs bs
      | Ok _ =>
          x <-! add_route r (default ALL method) path bs ;;
          add_pairs x.2 pairs bs
      end
  end.

Definition configure_limit (l : RateLimiter) (annotations : option (gmap string string)) (path : string) (now : Z)
  : RateLimiter :=
  match annotations ≫= λ a, a !! "rauta.io/rate-limit" with
  | Some text =>
      match parse_rate_limit_annotation text with
      | Ok (rate, burst) => configure_route l path rate burst now
      | Err _ => l
      end
  | None => l
  end.

(** A rule whose first path is valid: the new state, whether it added routes, and the
resolution state. *)
Definition apply_rule (env : Environment) (c : Controller) (namespace : string)
    (annotations : option (gmap string string)) (rule : HTTPRouteRule) (res : Resolution)
  : outcome (Controller * bool * Resolution) :=
  match rule_backend_refs rule with
  | None => Ret (c, false, res)
  | Some refs =>
      let '(services, total_weight, res) := resolve_refs (env_api env) namespace refs [] 0 res in
      bs <-! weighted_backends services total_weight ;;
      match bs with
      | [] => Ret (c, false, res)
      | _ =>
          let pairs := path_method_pairs rule in
          r <-! add_pairs (router c) pairs bs ;;
          let l := configure_limit (rate_limiter c) annotations (first_path pairs) (env_now env) in
          Ret (mk_controller r (gateway_index c) l, true, res)
      end
  end.

Inductive rules_result : Type :=
| Applied (c : Controller) (routes_added : nat) (res : Resolution)
| Rejected (c : Controller) (error : string).

Fixpoint apply_rules (env : Environment) (c : Controller) (namespace : string)
    (annotations : option (gmap string string)) (rules : list HTTPRouteRule) (routes_added : nat) (res : Resolution)
  : outcome rules_result :=
  match rules with
  | [] => Ret (Applied c routes_added res)
  | rule :: rules =>
      match validate_path (first_path (path_method_pairs rule)) with
      | Err e => Ret (Rejected c e)
      | Ok _ =>
          x <-! apply_rule env c namespace annotations rule res ;;
          let '(c, added, res) := x in
          apply_rules env c namespace annotations rules (if added then S routes_added else routes_added) res
      end
  end.

(** What a reconciliation did besides changing the controller's state. *)
Record Report : Type := mk_report {
  patches : list (list ParentStatus);
  (** (name, namespace, result) of the recorded metric *)
  recorded : option (string * string * string)
}.

Definition no_error : Resolution := mk_resolution true "ResolvedRefs" "All backend refs resolved".

Definition result_controller (x : rules_result) : Controller :=
  match x with
  | Applied c _ _ => c
  | Rejected c _ => c
  end.

(** The status patch and the metric label of a reconciliation. *)
Definition route_patch (env : Environment) (namespace : string) (gen : Z) (refs : list ParentRef) (x : rules_result)
  : list ParentStatus :=
  match x with
  | Rejected _ e => set_route_status_invalid namespace (env_time_text env) ("Invalid path: " +:+ e) gen refs
  | Applied _ routes_added res =>
      set_route_status namespace (env_time_text env)
        (mk_route_status (0 <? routes_added)%nat (all_resolved res) (res_reason res) (res_message res) gen refs)
  end.

Definition result_label (x : rules_result) : string :=
  match x with
  | Rejected _ _ => "validation_failed"
  | Applied _ _ _ => "success"
  end.

Definition reconcile (env : Environment) (c : Controller) (route : HTTPRoute)
  : outcome (result Action string * Controller * Report) :=
  let namespace := default "default" (hr_namespace route) in
  let name := hr_name route in
  let '(refs, index) := get_matching_parent_refs (gateway_index c) (hr_parent_refs route) namespace in
  let c := mk_controller (router c) index (rate_limiter c) in
  match refs with
  | [] => Ret (Ok AwaitChange, c, mk_report [] None)
  | _ =>
      let gen := default 0 (hr_generation route) in
      x <-! apply_rules env c namespace (hr_annotations route) (default [] (hr_rules route)) 0 no_error ;;
      let patch := route_patch env namespace gen refs x in
      match env_patch env patch with
      | Err e => Ret (Err e, result_controller x, mk_report [patch] None)
      | Ok _ => Ret (Ok (Requeue 300), result_controller x, mk_report [patch] (Some (name, namespace, result_label x)))
      end
  end.
End controller.
Arguments Controller M : clear implicits.

(** ** Services of a rule *)

(** What the API server admits in a rule: weights up to a million and at most sixteen
references (the bounds of the HTTPRoute schema), and Services of less than 2^52 pods. *)
Definition refs_admissible (api : ApiAnswers) (namespace : string) (refs : list BackendRef) : Prop :=
  (length refs <= 16)%nat ∧
  Forall (λ r, 0 <= default 1 (ref_weight r) <= 1000000 ∧
    ∀ port bs, resolve_service_endpoints api (ref_name r) namespace port = Ok bs → Z.of_nat (length bs) < 2 ^ 52) refs.

(** What a reference resolves to: the pods of its Service and its weight, if there are any. *)
Definition resolved_ref (api : ApiAnswers) (namespace : string) (r : BackendRef) : option (list Backend * Z) :=
  match resolve_service_endpoints api (ref_name r) namespace (as_u32 (default 80 (ref_port r))) with
  | Ok (b :: bs) => Some (b :: bs, default 1 (ref_weight r))
  | _ => None
  end.

Definition service_ok (s : list Backend * Z) : Prop :=
  0 <= s.2 <= 1000000 ∧ s.1 ≠ [] ∧ Z.of_nat (length s.1) < 2 ^ 52 ∧ Forall endpoint_backend s.1.

Lemma as_i32_small x : 0 <= x < 2 ^ 31 → as_i32 x = x.
Proof.
  intros Hx. unfold as_i32. rewrite wrap_small by (unfold in_width; lia). by rewrite (proj2 (Z.ltb_lt _ _)) by lia.
Qed.

Lemma sumZ_app l k : sumZ (l ++ k) = sumZ l + sumZ k.
Proof. induction l as [|x l IH]; [done|]. cbn [app]. rewrite !sumZ_cons, IH. lia. Qed.

Lemma sumZ_weights services :
  Forall service_ok services → 0 <= sumZ services.*2 <= 1000000 * Z.of_nat (length services).
Proof.
  induction 1 as [|s services (Hw & _) _ IH]; [done|]. cbn [fmap list_fmap length]. rewrite sumZ_cons.
  change (list_fmap _ _ snd services) with services.*2. lia.
Qed.

Lemma resolve_refs_spec api namespace refs : ∀ services res,
  Forall (λ r, 0 <= default 1 (ref_weight r) <= 1000000 ∧
    ∀ port bs, resolve_service_endpoints api (ref_name r) namespace port = Ok bs → Z.of_nat (length bs) < 2 ^ 52) refs →
  Forall service_ok services → (length services + length refs <= 16)%nat →
  ∃ services' res', resolve_refs api namespace refs services (sumZ services.*2) res = (services', sumZ services'.*2, res') ∧
    Forall service_ok services' ∧ (length services' <= 16)%nat ∧ services' = services ++ omap (resolved_ref api namespace) refs.
Proof.
  induction refs as [|r refs IH]; intros services res Hr Hs Hl; cbn [resolve_refs].
  { exists services, res. split_and!; [done..| |by rewrite app_nil_r]. cbn in Hl. lia. }
  apply Forall_cons in Hr as [[Hw Hb] Hr]. cbn in Hl. cbn [omap list_omap]. unfold resolved_ref at 1.
  destruct (resolve_service_endpoints api (ref_name r) namespace (as_u32 (default 80 (ref_port r)))) as [[|b bs]|e] eqn:E.
  - apply IH; [done..|cbn; lia].
  - assert (service_ok (b :: bs, default 1 (ref_weight r))) as Hok.
    { unfold service_ok. cbn [fst snd]. split_and!; [lia..|done|by eapply Hb|by eapply resolved_backends_wf]. }
    assert (Forall service_ok (services ++ [(b :: bs, default 1 (ref_weight r))])) as Hs'
      by (apply Forall_app; split; [done|by apply Forall_singleton]).
    pose proof (sumZ_weights _ Hs') as Hsum. rewrite fmap_app, sumZ_app, length_app in Hsum. cbn in Hsum.
    rewrite as_i32_small by lia. destruct (IH _ res Hr Hs') as (s' & res' & E' & H'); [rewrite length_app; cbn; lia|].
    exists s', res'. split; [|by rewrite <- (assoc_L (++)) in H']. rewrite <- E'. f_equal. rewrite fmap_app, sumZ_app. cbn. lia.
  - apply IH; [done..|lia].
Qed.

Lemma service_ok_services services :
  Forall service_ok services → (length services <= 16)%nat → sumZ services.*2 ≠ 0 → services_ok services (sumZ services.*2).
Proof.
  intros Hs Hl Hne. pose proof (sumZ_weights _ Hs) as Hsum. split; [done|]. split; [lia|].
  eapply Forall_impl; [exact Hs|]. intros s (Hw & Hp & Hlen & _). split; [apply Hw|]. by split.
Qed.

(** The second pass on admissible Services: nothing, or a full list of their pods. *)
Lemma weighted_backends_spec services :
  Forall service_ok services → (length services <= 16)%nat →
  ∃ bs, weighted_backends services (sumZ services.*2) = Ret bs ∧ (length bs <= 31)%nat ∧ Forall endpoint_backend bs ∧
    (bs = [] ↔ sumZ services.*2 = 0).
Proof.
  intros Hs Hl. pose proof (sumZ_weights _ Hs) as Hsum. destruct (decide (sumZ services.*2 = 0)) as [E|E].
  { exists []. unfold weighted_backends. rewrite E. cbn. split_and!; [done|lia|done|done]. }
  pose proof (service_ok_services services Hs Hl E) as Hok.
  destruct (allocate_targets _ _ Hok) as (slots & Ea & Hsum' & Hf & Hp & _).
  pose proof (interleave_31 slots Hf Hsum') as H31. pose proof (targets_nonneg slots Hf) as H0.
  eexists. split; [apply weighted_backends_eq; [lia|done]|]. split; [rewrite length_take; lia|]. split.
  - apply Forall_take. apply Forall_forall. intros b Hb. rewrite interleave_perm in Hb by done.
    apply list_elem_of_bind in Hb as (t & Hb & (a & -> & Ha)%list_elem_of_fmap).
    apply list_elem_of_join in Hb as (l & Hb & [-> _]%elem_of_replicate). cbn [target fst] in Hb.
    assert (al_pods a ∈ services.*1) as (s & Es & Hin)%list_elem_of_fmap by (rewrite <- Hp; by apply list_elem_of_fmap_2).
    rewrite Forall_forall in Hs. destruct (Hs s Hin) as (_ & _ & _ & Hfb). rewrite Es in Hb. by eapply Forall_forall in Hfb.
  - split; [|done]. intros Hnil. exfalso. apply (f_equal length) in Hnil. rewrite length_take in Hnil. change (length (@nil Backend)) with 0%nat in Hnil. lia.
Qed.

Section theorems.
Context {M : Type} `{!Matchit RouteKey M} `{!MapOrder}.

Abbreviation Controller := (Controller M).
Abbreviation Router := (Router M).

(** ** Routes of one rule *)
Definition pair_key (p : string * option HttpMethod) : RouteKey := route_key (default ALL p.2) p.1.

Definition serves (r : Router) (key : RouteKey) (bs : list Backend) : Prop :=
  ∃ route, routes r !! key = Some route ∧ backends route = bs.

Lemma add_route_total (r : Router) method path bs :
  router_ok r → (length bs <= 32)%nat →
  ∃ res r', add_route r method path bs = Ret (res, r') ∧ router_ok r' ∧ serves r' (route_key method path) bs ∧
    ∀ k, k ≠ route_key method path → routes r' !! k = routes r !! k.
Proof.
  intros Hok Hl. unfold add_route. destruct (same_backends r (route_key method path) bs) eqn:Hs.
  { exists (Ok ()), r. split_and!; try done. unfold same_backends in Hs.
    destruct (routes r !! route_key method path) as [route|] eqn:E; [|done]. apply bool_decide_eq_true in Hs. by exists route. }
  pose proof (build_table_spec bs) as Hb. destruct (build_table bs) as [table|] eqn:Eb; [|unfold MAX_BACKENDS in Hb; lia].
  cbn [obind]. pose proof (insert_router_ok r method path bs table) as Hins.
  destruct (rebuild _) as [m|e]; eexists _, _; (split; [done|]); (split; [|split]).
  - apply Hins; [done..|]. by apply cache_invalidate_refines, (ro_cache r Hok).
  - eexists. split; [apply lookup_insert_eq|done].
  - intros k Hk. cbn. by rewrite lookup_insert_ne.
  - apply Hins; [done..|]. apply (ro_cache r Hok).
  - eexists. split; [apply lookup_insert_eq|done].
  - intros k Hk. cbn. by rewrite lookup_insert_ne.
Qed.

Definition valid_pair (p : string * option HttpMethod) : Prop := validate_path p.1 = Ok ().

#[export] Instance valid_pair_dec p : Decision (valid_pair p).
Proof. unfold valid_pair. destruct (validate_path p.1) as [[]|]; [by left|by right]. Defined.

Lemma add_pairs_spec pairs bs : ∀ r : Router,
  router_ok r → (length bs <= 32)%nat →
  ∃ r', add_pairs r pairs bs = Ret r' ∧ router_ok r' ∧
    (∀ k, serves r k bs → serves r' k bs) ∧
    (∀ p, p ∈ pairs → valid_pair p → serves r' (pair_key p) bs) ∧
    (∀ k, (∀ p, p ∈ pairs → valid_pair p → pair_key p ≠ k) → routes r' !! k = routes r !! k).
Proof.
  induction pairs as [|[path method] pairs IH]; intros r Hok Hl; cbn [add_pairs].
  { exists r. split_and!; try done. intros p Hp. by apply not_elem_of_nil in Hp. }
  destruct (validate_path path) as [[]|e] eqn:Ev.
  - destruct (add_route_total r (default ALL method) path bs Hok Hl) as (res & r1 & -> & Hok1 & Hs & Hother). cbn [obind snd].
    destruct (IH r1 Hok1 Hl) as (r' & -> & Hok' & Hkeep & Hin & Hout). exists r'. split_and!; try done.
    + intros k (route & Hk & Hb). apply Hkeep. destruct (decide (k = route_key (default ALL method) path)) as [->|Hne]; [done|].
      exists route. by rewrite Hother.
    + intros p [->|Hp]%elem_of_cons Hv; [by apply Hkeep|by apply Hin].
    + intros k Hk. rewrite Hout; [apply Hother; intros ->; apply (Hk (path, method)); [left|exact Ev|done]|].
      intros p Hp. apply Hk. by right.
  - destruct (IH r Hok Hl) as (r' & -> & Hok' & Hkeep & Hin & Hout). exists r'. split_and!; try done.
    + intros p [->|Hp]%elem_of_cons Hv; [unfold valid_pair in Hv; cbn in Hv; congruence|by apply Hin].
    + intros k Hk. apply Hout. intros p Hp. apply Hk. by right.
Qed.

Lemma serves_some (r : Router) k bs : serves r k bs → is_Some (routes r !! k).
Proof. intros (route & -> & _). eauto. Qed.

(** The table only grows. *)
Definition table_grows (r r' : Router) : Prop := ∀ k, is_Some (routes r !! k) → is_Some (routes r' !! k).

Lemma add_pairs_grows pairs bs (r r' : Router) :
  router_ok r → (length bs <= 32)%nat → add_pairs r pairs bs = Ret r' → table_grows r r'.
Proof.
  intros Hok Hl E k Hk. destruct (add_pairs_spec pairs bs r Hok Hl) as (r1 & E1 & _ & _ & Hin & Hout).
  rewrite E in E1. injection E1 as <-.
  destruct (decide (Exists (λ p, valid_pair p ∧ pair_key p = k) pairs)) as [He|He].
  - apply Exists_exists in He as (p & Hp & Hv & <-). by eapply serves_some, Hin.
  - rewrite Hout; [done|]. intros p Hp Hv Ek. apply He, Exists_exists. eauto.
Qed.
(** ** One rule *)
Definition rule_admissible (api : ApiAnswers) (namespace : string) (rule : HTTPRouteRule) : Prop :=
  ∀ refs, rule_backend_refs rule = Some refs → refs_admissible api namespace refs.

(** The backends a rule stands for: none if it has no references or nothing resolved. *)
Definition rule_backends (api : ApiAnswers) (namespace : string) (rule : HTTPRouteRule) : list Backend :=
  match rule_backend_refs rule with
  | None => []
  | Some refs =>
      let '(services, total_weight, _) := resolve_refs api namespace refs [] 0 no_error in
      match weighted_backends services total_weight with
      | Ret bs => bs
      | Panic => []
      end
  end.

Lemma resolve_refs_services api namespace refs : ∀ services total res res',
  (resolve_refs api namespace refs services total res).1 = (resolve_refs api namespace refs services total res').1.
Proof.
  induction refs as [|r refs IH]; intros services total res res'; [done|]. cbn [resolve_refs].
  destruct (resolve_service_endpoints _ _ _ _) as [[|]|]; apply IH.
Qed.

(** The keys a rule may write, and the keys that any of some rules may. *)
Definition writes (rule : HTTPRouteRule) (k : RouteKey) : Prop :=
  ∃ p, p ∈ path_method_pairs rule ∧ valid_pair p ∧ pair_key p = k.

Definition rule_installed (r : Router) (rule : HTTPRouteRule) (bs : list Backend) : Prop :=
  ∀ p, p ∈ path_method_pairs rule → valid_pair p → serves r (pair_key p) bs.

Lemma apply_rule_spec env (c : Controller) namespace annotations rule res :
  router_ok (router c) → rule_admissible (env_api env) namespace rule →
  ∃ c' res', let bs := rule_backends (env_api env) namespace rule in
    apply_rule env c namespace annotations rule res = Ret (c', negb (bool_decide (bs = [])), res') ∧
    router_ok (router c') ∧ table_grows (router c) (router c') ∧ gateway_index c' = gateway_index c ∧
    (∀ k, ¬ writes rule k → routes (router c') !! k = routes (router c) !! k) ∧
    (bs ≠ [] → rule_installed (router c') rule bs ∧
       rate_limiter c' = configure_limit (rate_limiter c) annotations (first_path (path_method_pairs rule)) (env_now env)).
Proof.
  intros Hok Ha. unfold apply_rule, rule_backends. destruct (rule_backend_refs rule) as [refs|] eqn:Er.
  2:{ exists c, res. split_and!; try done. by intros k. }
  destruct (Ha refs Er) as [Hl Hf].
  destruct (resolve_refs_spec (env_api env) namespace refs [] res Hf) as (services & res' & Es & Hs & Hs16 & _); [done|done|].
  change (sumZ [].*2) with 0 in Es. pose proof (resolve_refs_services (env_api env) namespace refs [] 0 res no_error) as Ei.
  rewrite Es in *. destruct (resolve_refs _ _ _ _ _ no_error) as [p res0]. cbn [fst] in Ei. subst p.
  destruct (weighted_backends_spec services Hs Hs16) as (bs & -> & Hbl & _ & _). cbn [obind].
  destruct bs as [|b bs]; [exists c, res'; split_and!; try done; by intros k|].
  destruct (add_pairs_spec (path_method_pairs rule) (b :: bs) (router c) Hok) as (r' & E & Hok' & _ & Hin & Hout); [lia|].
  assert (table_grows (router c) r') as Hg by (eapply add_pairs_grows; [done| |exact E]; lia). rewrite E. cbn [obind].
  eexists _, res'. split_and!; try done.
  intros k Hk. apply Hout. intros p Hp Hv Ek. apply Hk. by exists p.
Qed.

(** ** All rules *)
Definition first_valid (rule : HTTPRouteRule) : Prop := validate_path (first_path (path_method_pairs rule)) = Ok ().

Definition has_backends (api : ApiAnswers) (namespace : string) (rule : HTTPRouteRule) : Prop :=
  rule_backends api namespace rule ≠ [].

#[export] Instance has_backends_dec api namespace rule : Decision (has_backends api namespace rule).
Proof. unfold has_backends. apply _. Defined.

(** ** The backends of a rule *)

(** An endpoint of a reference, and of any reference of a rule. *)
Definition ref_endpoint (api : ApiAnswers) (namespace : string) (r : BackendRef) (b : Backend) : Prop :=
  service_endpoint api (ref_name r) namespace (as_u32 (default 80 (ref_port r))) b.

Definition rule_refs (rule : HTTPRouteRule) : list BackendRef := default [] (rule_backend_refs rule).

Definition rule_endpoint (api : ApiAnswers) (namespace : string) (rule : HTTPRouteRule) (b : Backend) : Prop :=
  ∃ r, r ∈ rule_refs rule ∧ ref_endpoint api namespace r b.

(** A reference of the rule with a positive weight has an endpoint. *)
Definition rule_serves (api : ApiAnswers) (namespace : string) (rule : HTTPRouteRule) : Prop :=
  ∃ r b, r ∈ rule_refs rule ∧ 0 < default 1 (ref_weight r) ∧ ref_endpoint api namespace r b.

(** The Services of a rule that have endpoints, with their weights. *)
Definition rule_services (api : ApiAnswers) (namespace : string) (rule : HTTPRouteRule) : list (list Backend * Z) :=
  omap (resolved_ref api namespace) (rule_refs rule).

(** A list of 31 endpoints of the rule: all of them, if there are at most 31; and every
Service has slots that differ from its share [31 * weight / total] by at most one, of which each
of its pods has the same part, if they can be parted evenly. *)
Definition backends_of_rule (api : ApiAnswers) (namespace : string) (rule : HTTPRouteRule) (bs : list Backend) : Prop :=
  let services := rule_services api namespace rule in
  let total := sumZ services.*2 in
  length bs = 31%nat ∧
  (∀ b, b ∈ bs → rule_endpoint api namespace rule b) ∧
  ((length (mjoin services.*1) <= 31)%nat → ∀ b, rule_endpoint api namespace rule b → b ∈ bs) ∧
  ∃ slots : list Z, length slots = length services ∧ sumZ slots = 31 ∧
    (∀ i pods w n, services !! i = Some (pods, w) → slots !! i = Some n → total * (n - 1) <= 31 * w <= total * (n + 1)) ∧
    ((∀ i pods w n, services !! i = Some (pods, w) → slots !! i = Some n → 0 < n ∧ (Z.of_nat (length pods) | n)) →
     bs ≡ₚ zip services slots ≫= λ x, mjoin (replicate (Z.to_nat (x.2 / Z.of_nat (length x.1.1))) x.1.1)).

Lemma resolved_ref_Some api namespace r pods w :
  resolved_ref api namespace r = Some (pods, w) →
  w = default 1 (ref_weight r) ∧ pods ≠ [] ∧ ∀ b, b ∈ pods ↔ ref_endpoint api namespace r b.
Proof.
  unfold resolved_ref. destruct (resolve_service_endpoints _ _ _ _) as [[|b bs]|] eqn:E; [done| |done]. intros [= <- <-].
  split_and!; [done..|]. by apply resolved_backends_spec.
Qed.

Lemma ref_endpoint_resolved api namespace r b :
  ref_endpoint api namespace r b → ∃ pods, resolved_ref api namespace r = Some (pods, default 1 (ref_weight r)) ∧ b ∈ pods.
Proof.
  intros (bs & E & Hb)%service_endpoint_resolved. unfold resolved_ref. rewrite E.
  destruct bs as [|b' bs]; [by apply not_elem_of_nil in Hb|]. eauto.
Qed.

Lemma rule_endpoint_pods api namespace rule b :
  rule_endpoint api namespace rule b ↔ b ∈ mjoin (rule_services api namespace rule).*1.
Proof.
  rewrite list_elem_of_join. split.
  - intros (r & Hr & (pods & E & Hb)%ref_endpoint_resolved). exists pods. split; [done|]. apply list_elem_of_fmap.
    exists (pods, default 1 (ref_weight r)). split; [done|]. apply list_elem_of_omap. eauto.
  - intros (pods & Hb & ([p w] & -> & (r & Hr & E)%list_elem_of_omap)%list_elem_of_fmap).
    apply resolved_ref_Some in E as (_ & _ & Hin). exists r. split; [done|]. by apply Hin.
Qed.

Lemma sumZ_positive l : Forall (λ x, 0 <= x) l → sumZ l ≠ 0 ↔ ∃ x, x ∈ l ∧ 0 < x.
Proof.
  induction 1 as [|x l Hx Hl IH].
  { split; [done|]. intros (x & Hx & _). by apply not_elem_of_nil in Hx. }
  pose proof (sumZ_nonneg l Hl). rewrite sumZ_cons. split.
  - intros Hne. destruct (decide (0 < x)); [exists x; split; [left|done]|]. destruct IH as [(y & Hy & ?) _]; [lia|]. exists y. split; [by right|done].
  - intros (y & [->|Hy]%elem_of_cons & Hp); [lia|]. assert (sumZ l ≠ 0) by (apply IH; eauto). lia.
Qed.

Lemma rule_services_ok api namespace rule :
  rule_admissible api namespace rule →
  rule_backends api namespace rule = match weighted_backends (rule_services api namespace rule) (sumZ (rule_services api namespace rule).*2) with Ret bs => bs | Panic => [] end ∧
  Forall service_ok (rule_services api namespace rule) ∧ (length (rule_services api namespace rule) <= 16)%nat.
Proof.
  intros Ha. unfold rule_backends, rule_services, rule_refs. destruct (rule_backend_refs rule) as [refs|] eqn:Er; [|split_and!; [done|done|cbn; lia]].
  destruct (Ha refs Er) as [Hl Hf].
  destruct (resolve_refs_spec api namespace refs [] no_error Hf) as (services & res' & Es & Hs & Hs16 & E); [done|done|].
  change (sumZ [].*2) with 0 in Es. rewrite Es. cbn [app default] in *. by subst services.
Qed.

Lemma rule_serves_total api namespace rule :
  rule_admissible api namespace rule → rule_serves api namespace rule ↔ sumZ (rule_services api namespace rule).*2 ≠ 0.
Proof.
  intros Ha. destruct (rule_services_ok _ _ _ Ha) as (_ & Hs & _). rewrite sumZ_positive.
  2:{ apply Forall_fmap. eapply Forall_impl; [exact Hs|]. intros s (Hw & _). apply Hw. }
  setoid_rewrite list_elem_of_fmap. split.
  - intros (r & b & Hr & Hw & (pods & E & _)%ref_endpoint_resolved). eexists. split; [|exact Hw].
    exists (pods, default 1 (ref_weight r)). split; [done|]. apply list_elem_of_omap. eauto.
  - intros (w & ([pods w'] & -> & (r & Hr & E)%list_elem_of_omap) & Hw). apply resolved_ref_Some in E as (-> & Hne & Hin).
    destruct pods as [|b pods]; [done|]. exists r, b. split_and!; [done..|]. apply Hin. left.
Qed.

Lemma has_backends_serves api namespace rule :
  rule_admissible api namespace rule → has_backends api namespace rule ↔ rule_serves api namespace rule.
Proof.
  intros Ha. rewrite rule_serves_total by done. unfold has_backends. destruct (rule_services_ok _ _ _ Ha) as (-> & Hs & Hl).
  destruct (weighted_backends_spec _ Hs Hl) as (bs & -> & _ & _ & <-). done.
Qed.

Lemma rule_backends_spec api namespace rule :
  rule_admissible api namespace rule → rule_serves api namespace rule →
  backends_of_rule api namespace rule (rule_backends api namespace rule).
Proof.
  intros Ha Hw. apply rule_serves_total in Hw; [|done]. destruct (rule_services_ok _ _ _ Ha) as (-> & Hs & Hl).
  pose proof (service_ok_services _ Hs Hl Hw) as Hok.
  destruct (backend_list_complete _ _ Hok) as (bs & slots & -> & Es & Hlen & Hin & Hall & Heven).
  destruct (allocate_targets _ _ Hok) as (slots' & Es' & Hsum & _ & Hpods & extra & Hat & _).
  rewrite Es in Es'. injection Es' as <-. clear Hw Hs Hl. unfold backends_of_rule. setoid_rewrite rule_endpoint_pods.
  set (services := rule_services _ _ _) in *.
  assert (length slots = length services) as Hls by (rewrite <- (length_fmap al_pods), Hpods; apply length_fmap).
  split_and!; [done..|]. exists (slots_of slots). unfold slots_of at 1. rewrite length_fmap. split; [done|]. split; [done|]. split.
  - intros i pods w n Hi Hn. destruct (Hat i pods w Hi) as (a & Ha' & _ & Hb & _).
    unfold slots_of in Hn. rewrite list_lookup_fmap, Ha' in Hn. by injection Hn as <-.
  - intros Hdiv. rewrite Heven.
    + apply reflexive_eq. clear -Hpods. revert Hpods. generalize services as l. clear. induction slots as [|a slots IH]; intros [|[pods w] l]; try done.
      cbn. intros [= -> E]. f_equal. by apply IH.
    + apply Forall_lookup. intros i a Hi. destruct (lookup_lt_is_Some_2 services i) as [[pods w] Hsi]; [rewrite <- Hls; by eapply lookup_lt_Some|].
      destruct (Hat i pods w Hsi) as (a' & Hi' & <- & _). rewrite Hi in Hi'. injection Hi' as <-.
      apply (Hdiv i (al_pods a) w (al_slots a) Hsi). unfold slots_of. by rewrite list_lookup_fmap, Hi.
Qed.

Lemma table_grows_trans r1 r2 r3 : table_grows r1 r2 → table_grows r2 r3 → table_grows r1 r3.
Proof. intros H1 H2 k Hk. by apply H2, H1. Qed.

Lemma apply_rules_spec env namespace annotations rules : ∀ (c : Controller) added res,
  router_ok (router c) → Forall (rule_admissible (env_api env) namespace) rules →
  ∃ x, apply_rules env c namespace annotations rules added res = Ret x ∧
    let c' := result_controller x in
    router_ok (router c') ∧ table_grows (router c) (router c') ∧ gateway_index c' = gateway_index c ∧
    (∀ k, (∀ rule, rule ∈ rules → ¬ writes rule k) → routes (router c') !! k = routes (router c) !! k) ∧
    match x with
    | Applied _ n _ =>
        Forall first_valid rules ∧
        n = (added + length (filter (has_backends (env_api env) namespace) rules))%nat ∧
        (∀ rules0 rule rules1 p, rules = rules0 ++ rule :: rules1 → has_backends (env_api env) namespace rule →
           p ∈ path_method_pairs rule → valid_pair p → (∀ rule', rule' ∈ rules1 → ¬ writes rule' (pair_key p)) →
           serves (router c') (pair_key p) (rule_backends (env_api env) namespace rule))
    | Rejected _ e => ∃ rule, rule ∈ rules ∧ validate_path (first_path (path_method_pairs rule)) = Err e
    end.
Proof.
  induction rules as [|rule rules IH]; intros c added res Hok Ha; cbn [apply_rules].
  { exists (Applied c added res). split_and!; try done.
    - by intros k.
    - intros [|] ? ? ? ?; done. }
  apply Forall_cons in Ha as [Hr Ha].
  destruct (validate_path (first_path (path_method_pairs rule))) as [[]|e] eqn:Ev.
  2:{ exists (Rejected c e). split_and!; try done; [by intros k|]. exists rule. split; [left|done]. }
  destruct (apply_rule_spec env c namespace annotations rule res Hok Hr) as (c1 & res1 & -> & Hok1 & Hg1 & Hi1 & Ho1 & Hin1).
  cbn [obind]. set (added1 := if negb _ then _ else _).
  destruct (IH c1 added1 res1 Hok1 Ha) as (x & -> & Hok' & Hg & Hi & Ho & Hx). exists x.
  split; [done|]. split; [done|]. split; [by eapply table_grows_trans|]. split; [by rewrite Hi|]. split.
  { intros k Hk. rewrite Ho, Ho1; [done|apply Hk; left|]. intros rule' Hin. apply Hk. by right. }
  destruct x as [c' n res'|c' e].
  - destruct Hx as (Hv & Hn & Hlast). split_and!.
    + by apply Forall_cons.
    + rewrite Hn. unfold added1. rewrite filter_cons.
      case_bool_decide as E; cbn [negb]; [rewrite decide_False by (intros Hb; by apply Hb)|rewrite decide_True by done; cbn [length]]; lia.
    + intros rules0 rule0 rules1 p E Hb Hp Hv' Hlater. destruct rules0 as [|rule1 rules0]; cbn in E; injection E as -> E.
      * subst rules. destruct (Hin1 Hb) as [Hinst _]. destruct (Hinst p Hp Hv') as (route & Hl & Hbk).
        exists route. split; [|done]. cbn [result_controller] in Ho. by rewrite Ho.
      * by eapply Hlast.
  - destruct Hx as (rule' & Hr' & He). exists rule'. split; [by right|done].
Qed.
(** ** The parents of a route *)
Definition parent_key (route_namespace : string) (p : ParentRef) : GatewayKey :=
  mk_gateway_key (default route_namespace (parent_namespace p)) (parent_name p).

Lemma matching_refs_spec namespace refs : ∀ i,
  (matching_refs i namespace refs).1 = filter (λ p, parent_key namespace p ∈ inner i) refs ∧
  inner (matching_refs i namespace refs).2 = inner i.
Proof.
  induction refs as [|p refs IH]; intros i; [done|]. cbn [matching_refs].
  unfold index_contains. set (i' := mk_index _ _ _). destruct (IH i') as [IH1 IH2].
  destruct (matching_refs i' namespace refs) as [rest i'']. cbn [fst snd] in *. split; [|done].
  rewrite filter_cons. unfold parent_key at 1. case_bool_decide as E.
  - rewrite decide_True by done. by rewrite IH1.
  - rewrite decide_False by done. by rewrite IH1.
Qed.

Definition namespace_of (route : HTTPRoute) : string := default "default" (hr_namespace route).

Definition rules_of (route : HTTPRoute) : list HTTPRouteRule := default [] (hr_rules route).

(** The parents that are Gateways of our class. *)
Definition managed_parents (i : GatewayIndex) (route : HTTPRoute) : list ParentRef :=
  filter (λ p, parent_key (namespace_of route) p ∈ inner i) (default [] (hr_parent_refs route)).

Lemma get_matching_spec i route :
  ∃ i', get_matching_parent_refs i (hr_parent_refs route) (namespace_of route) = (managed_parents i route, i') ∧ inner i' = inner i.
Proof.
  unfold get_matching_parent_refs, managed_parents. destruct (hr_parent_refs route) as [refs|]; [|by exists i].
  destruct (matching_refs_spec (namespace_of route) refs i) as [H1 H2].
  destruct (matching_refs i (namespace_of route) refs) as [l i']. cbn in *. subst l. eauto.
Qed.

Definition route_admissible (env : Environment) (route : HTTPRoute) : Prop :=
  Forall (rule_admissible (env_api env) (namespace_of route)) (rules_of route).

(** A reconciliation of a route with managed parents: the rules are applied and one
patch is sent. *)
Lemma reconcile_managed env (c : Controller) route :
  router_ok (router c) → route_admissible env route → managed_parents (gateway_index c) route ≠ [] →
  ∃ i' x result rep,
    let c1 := mk_controller (router c) i' (rate_limiter c) in
    inner i' = inner (gateway_index c) ∧
    apply_rules env c1 (namespace_of route) (hr_annotations route) (rules_of route) 0 no_error = Ret x ∧
    reconcile env c route = Ret (result, result_controller x, rep) ∧
    patches rep = [route_patch env (namespace_of route) (default 0 (hr_generation route))
                     (managed_parents (gateway_index c) route) x].
Proof.
  intros Hok Ha Hm. destruct (get_matching_spec (gateway_index c) route) as (i' & E & Hi).
  set (c1 := mk_controller (router c) i' (rate_limiter c)).
  destruct (apply_rules_spec env (namespace_of route) (hr_annotations route) (rules_of route) c1 0 no_error Hok Ha)
    as (x & Ex & _). unfold reconcile. fold (namespace_of route). rewrite E. fold c1.
  destruct (managed_parents (gateway_index c) route) as [|p ps]; [done|]. fold (rules_of route). rewrite Ex. cbn [obind].
  destruct (env_patch env _); eexists i', x, _, _; done.
Qed.

(** C5: a reconciliation is safe and does its work.  On a well-formed router and for any
answers of the API server within the schema's bounds it never panics, keeps the
router well formed, removes no route, and changes no route but those of the
HTTPRoute's valid paths; without a managed parent it changes no route and sends no
status.  With a managed parent and rules whose first paths are all valid, every valid
match of a rule that no later rule replaces is in the table, provided that a reference of
the rule with a positive weight has a ready endpoint; its backends are 31 ready endpoints of
the rule's Services, with repetitions: all of them if there are at most 31 (those of
Services with weight zero too), and each as often as its Service's share says, if that can
be parted evenly. *)
Theorem reconcile_correct env (c : Controller) route :
  router_ok (router c) → route_admissible env route →
  ∃ result c' rep, reconcile env c route = Ret (result, c', rep) ∧
    router_ok (router c') ∧ table_grows (router c) (router c') ∧ inner (gateway_index c') = inner (gateway_index c) ∧
    (∀ k, (∀ rule, rule ∈ rules_of route → ¬ writes rule k) → routes (router c') !! k = routes (router c) !! k) ∧
    (managed_parents (gateway_index c) route = [] → router c' = router c ∧ patches rep = []) ∧
    (managed_parents (gateway_index c) route ≠ [] → Forall first_valid (rules_of route) →
     ∀ rules0 rule rules1, rules_of route = rules0 ++ rule :: rules1 → rule_serves (env_api env) (namespace_of route) rule →
       ∃ bs, backends_of_rule (env_api env) (namespace_of route) rule bs ∧
         ∀ p, p ∈ path_method_pairs rule → valid_pair p → (∀ rule', rule' ∈ rules1 → ¬ writes rule' (pair_key p)) →
           serves (router c') (pair_key p) bs).
Proof.
  intros Hok Ha. destruct (decide (managed_parents (gateway_index c) route = [])) as [Em|Em].
  - destruct (get_matching_spec (gateway_index c) route) as (i' & E & Hi).
    unfold reconcile. fold (namespace_of route). rewrite E, Em. eexists _, _, _. split; [done|]. cbn [router gateway_index].
    split_and!; try done. by intros k.
  - destruct (reconcile_managed env c route Hok Ha Em) as (i' & x & result & rep & Hi & Ex & Er & Ep).
    destruct (apply_rules_spec env (namespace_of route) (hr_annotations route) (rules_of route)
      (mk_controller (router c) i' (rate_limiter c)) 0 no_error Hok Ha) as (x' & Ex' & Hok' & Hg & Hi' & Ho & Hx).
    rewrite Ex in Ex'. injection Ex' as <-. eexists _, _, _. split; [exact Er|]. split; [done|]. split; [done|].
    split; [by rewrite Hi'|]. split; [done|]. split; [done|]. intros _ Hv rules0 rule rules1 E Hb.
    assert (rule_admissible (env_api env) (namespace_of route) rule) as Har.
    { unfold route_admissible in Ha. rewrite E, Forall_app, Forall_cons in Ha. tauto. }
    exists (rule_backends (env_api env) (namespace_of route) rule). split; [by apply rule_backends_spec|].
    intros p Hp Hvp Hlater. apply has_backends_serves in Hb; [|done].
    destruct x as [c' n res|c' e]; [by eapply Hx|]. destruct Hx as (rule' & Hr & He). rewrite Forall_forall in Hv.
    specialize (Hv rule' Hr). unfold first_valid in Hv. congruence.
Qed.
End theorems.
