(* ===== verification/HttpRouteSpec.v ===== *)
(** * HttpRouteSpec: what the status of an HTTPRoute says, and what it does not

Theorems on [reconcile]: when a route is reported as accepted, and the behaviours
of the controller that its status does not show. *)

From S2P Require Import Prelude Common Maglev Float Health HealthChecker Filters Matching RouteCache Matchit.
From S2P Require Import Selection Router RouterSpec Prefix RateLimiter.
From S2P Require Import Text Decimal GatewayIndex Validation IpText Endpoints Weights HttpRoute.

#[local] Open Scope Z_scope.
#[local] Open Scope rauta_scope.

(** A report whose one patch says [Accepted: True] for every parent. *)
Definition says_accepted (ps : ParentStatus) : Prop :=
  ∃ cond conds, ps_conditions ps = cond :: conds ∧ c_type cond = "Accepted" ∧ c_status cond = "True".

Definition reports_accepted (rep : Report) : Prop :=
  ∃ patch, patches rep = [patch] ∧ patch ≠ [] ∧ Forall says_accepted patch.

Lemma accepted_patch namespace time s :
  parent_refs s ≠ [] → (Forall says_accepted (set_route_status namespace time s) ↔ accepted s = true).
Proof.
  intros Hne. unfold set_route_status. split.
  - intros Hf. destruct (parent_refs s) as [|p ps]; [done|]. cbn [fmap list_fmap] in Hf.
    apply Forall_cons in Hf as [(cond & conds & E & _ & Hs) _]. cbn in E. injection E as <- _. cbn in Hs.
    by destruct (accepted s).
  - intros Ha. apply Forall_fmap, Forall_true. intros p. unfold says_accepted. cbn. rewrite Ha. by eexists _, _.
Qed.

Lemma invalid_patch namespace time e gen refs :
  refs ≠ [] → ¬ Forall says_accepted (set_route_status_invalid namespace time e gen refs).
Proof.
  destruct refs as [|p ps]; [done|]. intros _ Hf. cbn [set_route_status_invalid fmap list_fmap] in Hf.
  apply Forall_cons in Hf as [(cond & conds & E & _ & Hs) _]. cbn in E. injection E as <- _. done.
Qed.

Section theorems.
Context {M : Type} `{!Matchit RouteKey M} `{!MapOrder}.

Abbreviation Controller := (Controller M).

(** C16: the Accepted condition is exact.  A reconciliation of a route with managed
parents sends one status with an entry for exactly those parents, and it says
Accepted: True if and only if the first path of every rule is valid and some rule
stands for at least one backend. *)
Theorem accepted_exact env (c : Controller) route :
  router_ok (router c) → route_admissible env route → managed_parents (gateway_index c) route ≠ [] →
  ∃ result c' rep patch, reconcile env c route = Ret (result, c', rep) ∧ patches rep = [patch] ∧
    (λ ps, (ps_name ps, ps_section ps)) <$> patch =
      (λ p, (parent_name p, section_name p)) <$> managed_parents (gateway_index c) route ∧
    (reports_accepted rep ↔
       Forall first_valid (rules_of route) ∧
       Exists (has_backends (env_api env) (namespace_of route)) (rules_of route)).
Proof.
  intros Hok Ha Hm. destruct (reconcile_managed env c route Hok Ha Hm) as (i' & x & result & rep & _ & Ex & Er & Ep).
  destruct (apply_rules_spec env (namespace_of route) (hr_annotations route) (rules_of route)
    (mk_controller (router c) i' (rate_limiter c)) 0 no_error Hok Ha) as (x' & Ex' & _ & _ & _ & _ & Hx).
  rewrite Ex in Ex'. injection Ex' as <-.
  eexists _, _, _, _. split; [exact Er|]. split; [exact Ep|]. split.
  { unfold route_patch, set_route_status, set_route_status_invalid. destruct x; rewrite <- list_fmap_compose; done. }
  set (refs := managed_parents (gateway_index c) route) in *.
  assert (∀ patch : list ParentStatus, patches rep = [patch] → patch ≠ [] →
    (reports_accepted rep ↔ Forall says_accepted patch)) as Hrep.
  { intros patch E Hne. unfold reports_accepted. rewrite E. split; [by intros (q & [= <-] & _ & ?)|eauto]. }
  rewrite (Hrep _ Ep).
  2:{ unfold route_patch, set_route_status, set_route_status_invalid. by destruct x, refs. }
  destruct x as [c' n res|c' e]; cbn [route_patch].
  - destruct Hx as (Hv & -> & _). rewrite accepted_patch by done. cbn [accepted]. rewrite Nat.add_0_l, Nat.ltb_lt.
    split; [|intros [_ (rule & Hr & Hb)%Exists_exists]].
    + intros Hlt. split; [done|]. apply Exists_exists.
      destruct (filter _ (rules_of route)) as [|rule l] eqn:Ef; [cbn in Hlt; lia|].
      assert (rule ∈ filter (has_backends (env_api env) (namespace_of route)) (rules_of route)) as Hin by (rewrite Ef; left).
      apply list_elem_of_filter in Hin as [? ?]. eauto.
    + assert (rule ∈ filter (has_backends (env_api env) (namespace_of route)) (rules_of route)) as Hin
        by (by apply list_elem_of_filter).
      destruct (filter _ _); [by apply not_elem_of_nil in Hin|]. cbn. lia.
  - split; [intros Hf; by apply invalid_patch in Hf|]. intros [Hv _]. destruct Hx as (rule & Hr & He).
    rewrite Forall_forall in Hv. specialize (Hv rule Hr). unfold first_valid in Hv. congruence.
Qed.

(** A rejected route is applied in part.  If a later rule has an invalid first path,
the status says that the route is not accepted, while the matches of the rules
before it are in the table and are served. *)
Theorem rejected_route_applied env (c : Controller) route good bad rest :
  router_ok (router c) → route_admissible env route → managed_parents (gateway_index c) route ≠ [] →
  rules_of route = good :: bad :: rest → first_valid good → ¬ first_valid bad →
  has_backends (env_api env) (namespace_of route) good →
  ∃ result c' rep, reconcile env c route = Ret (result, c', rep) ∧ ¬ reports_accepted rep ∧
    rule_installed (router c') good (rule_backends (env_api env) (namespace_of route) good).
Proof.
  intros Hok Ha Hm Er Hg Hb Hbk.
  destruct (reconcile_managed env c route Hok Ha Hm) as (i' & x & result & rep & _ & Ex & Erec & Ep).
  unfold route_admissible in Ha. rewrite Er in Ha, Ex. apply Forall_cons in Ha as [Hga _].
  cbn [apply_rules] in Ex. unfold first_valid in Hg, Hb. rewrite Hg in Ex.
  destruct (apply_rule_spec env (mk_controller (router c) i' (rate_limiter c)) (namespace_of route) (hr_annotations route)
    good no_error Hok Hga) as (c1 & res1 & E1 & _ & _ & _ & _ & Hin). rewrite E1 in Ex. cbn [obind] in Ex.
  destruct (validate_path (first_path (path_method_pairs bad))) as [[]|e]; [done|]. injection Ex as <-.
  eexists _, _, _. split; [exact Erec|]. split.
  - intros (patch & E & _ & Hf). rewrite Ep in E. injection E as <-. by apply invalid_patch in Hf.
  - by apply Hin.
Qed.

(** A match for TRACE or CONNECT matches every method.  The controller does not know
these methods and adds the route for all of them, so a request with any method that
has no route of its own for this path is resolved to it. *)
Theorem unknown_method_matches_all env (c : Controller) route rules0 rule path m :
  router_ok (router c) → route_admissible env route → managed_parents (gateway_index c) route ≠ [] →
  Forall first_valid (rules_of route) → rules_of route = rules0 ++ [rule] →
  has_backends (env_api env) (namespace_of route) rule →
  rule_matches rule = Some [mk_match (Some (Some path)) (Some m)] → m = MTrace ∨ m = MConnect →
  ∃ result c' rep, reconcile env c route = Ret (result, c', rep) ∧
    ∀ method, routes (router c') !! route_key method path = None →
      resolve (router c') method path = Some (route_key ALL path).
Proof.
  intros Hok Ha Hm Hv Er Hb Hmatch Hmm.
  destruct (reconcile_managed env c route Hok Ha Hm) as (i' & x & result & rep & _ & Ex & Erec & _).
  destruct (apply_rules_spec env (namespace_of route) (hr_annotations route) (rules_of route)
    (mk_controller (router c) i' (rate_limiter c)) 0 no_error Hok Ha) as (x' & Ex' & _ & _ & _ & _ & Hx).
  rewrite Ex in Ex'. injection Ex' as <-. eexists _, _, _. split; [exact Erec|].
  destruct x as [c' n res|c' e].
  2:{ destruct Hx as (rule' & Hr & He). rewrite Forall_forall in Hv. specialize (Hv rule' Hr). unfold first_valid in Hv. congruence. }
  destruct Hx as (_ & _ & Hlast). specialize (Hlast rules0 rule [] (path, None) Er Hb).
  assert (path_method_pairs rule = [(path, None)]) as Epairs.
  { unfold path_method_pairs. rewrite Hmatch. by destruct Hmm as [->| ->]. }
  assert (serves (router c') (route_key ALL path) (rule_backends (env_api env) (namespace_of route) rule)) as (route' & Hl & _).
  { apply Hlast; [rewrite Epairs; left| |by intros ? ?%not_elem_of_nil].
    rewrite Er, Forall_app, Forall_singleton in Hv. destruct Hv as [_ Hv]. unfold first_valid in Hv.
    rewrite Epairs in Hv. exact Hv. }
  cbn [result_controller]. intros method Hnone. unfold resolve, has_route. rewrite bool_decide_false by (rewrite Hnone; by intros [? ?]).
  assert (method ≠ ALL) as Hne by (intros ->; congruence).
  rewrite (bool_decide_true (method ≠ ALL)) by done. rewrite bool_decide_true by (rewrite Hl; eauto). done.
Qed.

(** Every reconciliation refills the rate limit.  The limiter is configured anew for
the first path of the rule whenever the route is reconciled, which happens at
least every five minutes and on every change of the resource: whatever was left of
the bucket, afterwards it is a new one, full up to its burst. *)
Theorem reconcile_refills_limit env (c : Controller) route rule annotations text rate burst :
  router_ok (router c) → route_admissible env route → managed_parents (gateway_index c) route ≠ [] →
  rules_of route = [rule] → first_valid rule → has_backends (env_api env) (namespace_of route) rule →
  hr_annotations route = Some annotations → annotations !! "rauta.io/rate-limit" = Some text →
  parse_rate_limit_annotation text = Ok (rate, burst) →
  ∃ result c' rep, reconcile env c route = Ret (result, c', rep) ∧
    buckets (rate_limiter c') !! first_path (path_method_pairs rule) = Some (bucket_new rate burst (env_now env)).
Proof.
  intros Hok Ha Hm Er Hv Hb Hann Htext Hparse.
  destruct (reconcile_managed env c route Hok Ha Hm) as (i' & x & result & rep & _ & Ex & Erec & _).
  unfold route_admissible in Ha. rewrite Er in Ha, Ex. apply Forall_cons in Ha as [Hra _].
  cbn [apply_rules] in Ex. unfold first_valid in Hv. rewrite Hv in Ex.
  destruct (apply_rule_spec env (mk_controller (router c) i' (rate_limiter c)) (namespace_of route) (hr_annotations route)
    rule no_error Hok Hra) as (c1 & res1 & E1 & _ & _ & _ & _ & Hin). rewrite E1 in Ex. cbn [obind] in Ex.
  injection Ex as <-. eexists _, _, _. split; [exact Erec|]. cbn [result_controller].
  destruct (Hin Hb) as [_ ->]. unfold configure_limit. rewrite Hann. cbn [mbind option_bind]. rewrite Htext, Hparse.
  cbn [configure_route buckets]. apply lookup_insert_eq.
Qed.
(** ** A path that is a pattern *)

(** The patterns a route puts into the prefix router. *)
Definition exact_pattern (k : RouteKey) (route : Route) : string := get_method_prefix (key_method k) +:+ pattern route.
Definition catch_pattern (k : RouteKey) (route : Route) : string :=
  prefix_pattern (get_method_prefix (key_method k)) (pattern route).

(** A rebuild that succeeds put every pattern once. *)
Lemma rebuild_fresh es : ∀ (a b : M) k route,
  rebuild_loop get_method_prefix a es = Ok b → (k, route) ∈ es →
  ∀ k', (exact_pattern k route, k') ∉ mt_routes a ∧ (catch_pattern k route, k') ∉ mt_routes a.
Proof.
  induction es as [|[k0 route0] es IH]; intros a b k route; cbn [rebuild_loop].
  { intros _ Hin. by apply not_elem_of_nil in Hin. }
  unfold insert_route. cbn zeta. change (get_method_prefix (key_method k0) +:+ pattern route0) with (exact_pattern k0 route0).
  change (prefix_pattern (get_method_prefix (key_method k0)) (pattern route0)) with (catch_pattern k0 route0).
  destruct (mt_insert a (exact_pattern k0 route0) k0) as [a1|e] eqn:E1; [|done].
  destruct (mt_insert a1 (catch_pattern k0 route0) k0) as [a2|e] eqn:E2; [|done].
  intros Hl Hin k'. apply elem_of_cons in Hin as [[= -> ->]|Hin].
  - split; intros Hin.
    + destruct (mt_insert_conflict _ _ k0 _ Hin) as [e He]. congruence.
    + assert ((catch_pattern k0 route0, k') ∈ mt_routes a1) as Hin1 by (rewrite (mt_insert_routes _ _ _ _ E1); by right).
      destruct (mt_insert_conflict _ _ k0 _ Hin1) as [e He]. congruence.
  - destruct (IH a2 b k route Hl Hin k') as [H1 H2]. rewrite (mt_insert_routes _ _ _ _ E2), (mt_insert_routes _ _ _ _ E1) in H1, H2.
    split; intros Hx; [apply H1|apply H2]; do 2 right; done.
Qed.

Lemma rebuild_no_clash es : ∀ (a b : M) k1 k2 r1 r2,
  rebuild_loop get_method_prefix a es = Ok b → k1 ≠ k2 → (k1, r1) ∈ es → (k2, r2) ∈ es →
  catch_pattern k1 r1 ≠ exact_pattern k2 r2.
Proof.
  induction es as [|[k0 route0] es IH]; intros a b k1 k2 r1 r2; cbn [rebuild_loop].
  { intros _ _ Hin. by apply not_elem_of_nil in Hin. }
  unfold insert_route. cbn zeta. change (get_method_prefix (key_method k0) +:+ pattern route0) with (exact_pattern k0 route0).
  change (prefix_pattern (get_method_prefix (key_method k0)) (pattern route0)) with (catch_pattern k0 route0).
  destruct (mt_insert a (exact_pattern k0 route0) k0) as [a1|e] eqn:E1; [|done].
  destruct (mt_insert a1 (catch_pattern k0 route0) k0) as [a2|e] eqn:E2; [|done].
  intros Hl Hk Hin1 Hin2 Heq.
  assert (mt_routes a2 = (catch_pattern k0 route0, k0) :: (exact_pattern k0 route0, k0) :: mt_routes a) as R2
    by (by rewrite (mt_insert_routes _ _ _ _ E2), (mt_insert_routes _ _ _ _ E1)).
  apply elem_of_cons in Hin1 as [[= -> ->]|Hin1]; apply elem_of_cons in Hin2 as [[= -> ->]|Hin2].
  - done.
  - destruct (rebuild_fresh es a2 b k2 r2 Hl Hin2 k0) as [Hf _]. apply Hf. rewrite R2, <- Heq. left.
  - destruct (rebuild_fresh es a2 b k1 r1 Hl Hin1 k0) as [_ Hf]. apply Hf. rewrite R2, Heq. right. left.
  - by eapply (IH a2 b k1 k2 r1 r2).
Qed.

(** Two routes of which one has the other's catch-all pattern as its path. *)
Definition clash (r : Router M) (m : HttpMethod) (path : string) : Prop :=
  ∃ r1 r2, routes r !! route_key m path = Some r1 ∧ routes r !! route_key m (path +:+ "/{*rest}") = Some r2 ∧
    pattern r1 = path ∧ pattern r2 = path +:+ "/{*rest}".

Definition plain_end (path : string) : Prop := path ≠ "/" ∧ trim_end_slashes path = path.

Lemma clash_rebuild (r : Router M) m path :
  clash r m path → plain_end path → route_key m path ≠ route_key m (path +:+ "/{*rest}") →
  ∃ e, rebuild (routes r) = Err e.
Proof.
  intros (r1 & r2 & H1 & H2 & P1 & P2) [Hn Ht] Hk. destruct (rebuild (routes r)) as [b|e] eqn:E; [exfalso|eauto].
  eapply (rebuild_no_clash (iter (routes r)) mt_new b _ _ r1 r2 E Hk); rewrite ?iter_perm; try by apply elem_of_map_to_list.
  unfold catch_pattern, exact_pattern, prefix_pattern. rewrite P1, P2. cbn [key_method route_key].
  destruct (String.eqb_spec path "/"); [done|]. by rewrite Ht.
Qed.

(** A path that shares its key with one of the two only if it is the same. *)
Definition no_collision (m : HttpMethod) (path : string) (method : HttpMethod) (p : string) : Prop :=
  ∀ p', p' = path ∨ p' = path +:+ "/{*rest}" → route_key method p = route_key m p' → p = p'.

Lemma clash_add_route (r r' : Router M) m path method p bs res :
  clash r m path → plain_end path → route_key m path ≠ route_key m (path +:+ "/{*rest}") → no_collision m path method p →
  add_route r method p bs = Ret (res, r') →
  (same_backends r (route_key method p) bs = false → ∃ e, res = Err e) ∧ prefix_router r' = prefix_router r ∧ clash r' m path.
Proof.
  intros (r1 & r2 & H1 & H2 & P1 & P2) Hpe Hk Hn. unfold add_route.
  destruct (same_backends r (route_key method p) bs); [intros [= <- <-]; split_and!; [done..|by exists r1, r2]|].
  destruct (build_table bs) as [table|]; [|done]. cbn [obind routes set_routes set_health_checker].
  set (r0 := mk_router (<[route_key method p := plain_route p bs table]> (routes r)) (prefix_router r) (health r)
               (health_checker r) (route_cache r)).
  assert (clash r0 m path) as Hc.
  { unfold clash. cbn [routes r0]. rewrite !lookup_insert.
    destruct (decide (route_key method p = route_key m path)) as [E1|], (decide (route_key method p = route_key m (path +:+ "/{*rest}"))) as [E2|];
      [congruence|apply Hn in E1 as ->; [|by left]|apply Hn in E2 as ->; [|by right]|]; by eexists _, _. }
  destruct (clash_rebuild r0 m path Hc Hpe Hk) as [e He]. change (rebuild (<[_ := _]> (routes r))) with (rebuild (routes r0)).
  rewrite He. intros [= <- <-]. split; [eauto|]. split; [done|]. exact Hc.
Qed.

(** One addition of a route after another, whatever their answers. *)
Definition addition (m : HttpMethod) (path : string) (r r' : Router M) : Prop :=
  ∃ method p bs res, no_collision m path method p ∧ add_route r method p bs = Ret (res, r').

Lemma clash_additions m path r r' :
  rtc (addition m path) r r' → plain_end path → route_key m path ≠ route_key m (path +:+ "/{*rest}") →
  clash r m path → prefix_router r' = prefix_router r ∧ clash r' m path.
Proof.
  intros Hr Hpe Hk. induction Hr as [|r1 r2 r3 (method & p & bs & res & Hn & Hadd) _ IH]; intros Hc; [done|].
  destruct (clash_add_route _ _ _ _ _ _ _ _ Hc Hpe Hk Hn Hadd) as (_ & E & Hc'). destruct (IH Hc') as [E' ?]. by rewrite E', E.
Qed.

End theorems.

(** ** Limits that let nothing through *)
Lemma zero_burst_denies rate created now : (try_acquire (bucket_new rate 0 created) now).1 = false ∧
  capacity_fixed (try_acquire (bucket_new rate 0 created) now).2 = 0.
Proof.
  unfold try_acquire, try_acquire_n. rewrite one_positive. unfold acquire_body. rewrite one_fixed.
  assert (refilled (bucket_new rate 0 created) (packed (bucket_new rate 0 created)) (now_ms (bucket_new rate 0 created) now) <= 0) as H.
  { unfold refilled. etrans; [apply Z.le_min_r|]. done. }
  rewrite (proj2 (Z.leb_gt _ _)) by lia. done.
Qed.

(** Annotations that block a route are accepted.  A burst of 0, and a rate that is
not a number (whose burst is then 0), are parsed without an error, and a route
configured with them rejects its first request at whatever time it comes. *)
Theorem blocking_annotation_accepted l path now later :
  (∃ rate, parse_rate_limit_annotation "100rps,burst=0" = Ok (rate, 0)) ∧
  parse_rate_limit_annotation "NaNrps" = Ok (S754_nan, 0) ∧
  ∀ annotations : gmap string string,
    annotations !! "rauta.io/rate-limit" = Some "100rps,burst=0" ∨ annotations !! "rauta.io/rate-limit" = Some "NaNrps" →
    (check_rate_limit (configure_limit l (Some annotations) path now) path later).1 = false.
Proof.
  split; [eexists; vm_compute; reflexivity|]. split; [vm_compute; reflexivity|].
  assert (∀ rate, (check_rate_limit (configure_route l path rate 0 now) path later).1 = false) as H.
  { intros rate. unfold check_rate_limit, configure_route. cbn [buckets]. rewrite lookup_insert_eq.
    destruct (zero_burst_denies rate now later) as [E _]. destruct (try_acquire _ _) as [a b]. exact E. }
  intros annotations [E|E]; unfold configure_limit; cbn [mbind option_bind]; rewrite E.
  - assert (parse_rate_limit_annotation "100rps,burst=0" = Ok (f64_of_Z 100, 0)) as -> by (vm_compute; reflexivity). apply H.
  - assert (parse_rate_limit_annotation "NaNrps" = Ok (S754_nan, 0)) as -> by (vm_compute; reflexivity). apply H.
Qed.

(** ** Witnesses *)
#[local] Existing Instance list_matchit.
#[local] Existing Instance key_order.

Definition sample_slice : EndpointSlice := mk_slice (Some [Some 8080]) [mk_endpoint ["10.0.0.1"] None].
Definition sample_api : ApiAnswers := mk_api (λ _ _, Ok None) (λ _ _, Ok [sample_slice]).
Definition sample_env : Environment := mk_environment sample_api (λ _, Ok ()) 0 "2024-01-01T00:00:00Z".
Definition sample_index : GatewayIndex := (index_add (index_new "rauta") "default" "gw").2.
Definition sample_controller (keys : list (HttpMethod * string)) : Controller (list (string * RouteKey)) :=
  mk_controller (sample_router keys) sample_index limiter_new.

Definition sample_rule (path : string) (m : option HTTPRouteMethod) : HTTPRouteRule :=
  mk_rule (Some [mk_match (Some (Some path)) m]) (Some [mk_backend_ref "web" (Some 8080) None]).
Definition sample_annotations : gmap string string := {[ "rauta.io/rate-limit" := "100rps,burst=200" ]}.
Definition sample_route (rules : list HTTPRouteRule) : HTTPRoute :=
  mk_http_route "route" None (Some 1) (Some sample_annotations) (Some [mk_parent_ref "gw" None None]) (Some rules).

Lemma sample_admissible path m : rule_admissible sample_api "default" (sample_rule path m).
Proof.
  intros refs [= <-]. split; [cbn; lia|]. apply Forall_singleton. split; [cbn; lia|].
  intros port bs [= <-]. reflexivity.
Qed.

Lemma sample_route_admissible rules :
  Forall (λ rule, ∃ path m, rule = sample_rule path m) rules → route_admissible sample_env (sample_route rules).
Proof. intros Hf. eapply Forall_impl; [exact Hf|]. intros rule (path & m & ->). apply sample_admissible. Qed.

Lemma sample_managed keys rules : managed_parents (gateway_index (sample_controller keys)) (sample_route rules) ≠ [].
Proof. vm_compute. discriminate. Qed.

Lemma sample_endpoint path m : rule_endpoint sample_api "default" (sample_rule path m) (pod 1).
Proof.
  eexists. split; [left|]. eexists None, [sample_slice], sample_slice, (mk_endpoint ["10.0.0.1"] None), "10.0.0.1", 8080.
  split_and!; [reflexivity|reflexivity|left|left|by left|left| |left; by eexists].
  right. split; [|reflexivity]. by intros p n (before & after & [=] & _).
Qed.

Lemma sample_serves path m : rule_serves sample_api "default" (sample_rule path m).
Proof. destruct (sample_endpoint path m) as (r & Hr & Hb). exists r, (pod 1). split_and!; [done| |done]. by apply list_elem_of_singleton in Hr as ->. Qed.

(** Two rules: the path of the first is in the table with its pod. *)
Lemma reconcile_correct_witness :
  let route := sample_route [sample_rule "/web" None; sample_rule "/api" None] in
  ∃ result c' rep bs, reconcile sample_env (sample_controller []) route = Ret (result, c', rep) ∧
    router_ok (router c') ∧ serves (router c') (route_key ALL "/web") bs ∧ length bs = 31%nat ∧ pod 1 ∈ bs.
Proof.
  intros route.
  destruct (reconcile_correct sample_env (sample_controller []) route) as (result & c' & rep & E & Hok & _ & _ & _ & _ & Hin).
  - apply sample_router_ok.
  - apply sample_route_admissible. repeat (apply Forall_cons; split; [eexists _, _; reflexivity|]). apply Forall_nil. exact I.
  - destruct (Hin ltac:(vm_compute; discriminate) ltac:(repeat (apply Forall_cons; split; [reflexivity|]); apply Forall_nil; exact I)
      [] (sample_rule "/web" None) [sample_rule "/api" None] eq_refl (sample_serves _ _)) as (bs & (Hl & _ & Hall & _) & Hs).
    exists result, c', rep, bs. split; [exact E|]. split; [exact Hok|]. split; [|split; [exact Hl|]].
    + apply (Hs ("/web", None)); [left|reflexivity|]. intros rule' ->%list_elem_of_singleton (p & ->%list_elem_of_singleton & _ & [=]).
    + apply Hall; [apply Nat.leb_le; reflexivity|apply sample_endpoint].
Defined.

Lemma accepted_exact_witness :
  let c := sample_controller [] in
  let route := sample_route [sample_rule "/api" None] in
  ∃ result c' rep patch, reconcile sample_env c route = Ret (result, c', rep) ∧ patches rep = [patch] ∧
    (λ ps, (ps_name ps, ps_section ps)) <$> patch =
      (λ p, (parent_name p, section_name p)) <$> managed_parents (gateway_index c) route ∧
    (reports_accepted rep ↔
       Forall first_valid (rules_of route) ∧
       Exists (has_backends (env_api sample_env) (namespace_of route)) (rules_of route)).
Proof.
  apply (accepted_exact sample_env (sample_controller []) (sample_route [sample_rule "/api" None])).
  - apply sample_router_ok.
  - apply sample_route_admissible. apply Forall_singleton. eexists _, _. reflexivity.
  - apply sample_managed.
Defined.

Lemma rejected_route_applied_witness :
  let good := sample_rule "/api" None in
  let route := sample_route [good; sample_rule "/api/" None] in
  ∃ result c' rep, reconcile sample_env (sample_controller []) route = Ret (result, c', rep) ∧ ¬ reports_accepted rep ∧
    rule_installed (router c') good (rule_backends (env_api sample_env) (namespace_of route) good).
Proof.
  apply (rejected_route_applied sample_env (sample_controller [])
           (sample_route [sample_rule "/api" None; sample_rule "/api/" None]) (sample_rule "/api" None)
           (sample_rule "/api/" None) []).
  - apply sample_router_ok.
  - apply sample_route_admissible. repeat (apply Forall_cons; split; [eexists _, _; reflexivity|]). apply Forall_nil. exact I.
  - apply sample_managed.
  - reflexivity.
  - reflexivity.
  - vm_compute. discriminate.
  - vm_compute. discriminate.
Defined.

Lemma unknown_method_matches_all_witness :
  ∃ result c' rep, reconcile sample_env (sample_controller []) (sample_route [sample_rule "/api" (Some MTrace)]) = Ret (result, c', rep) ∧
    ∀ method, routes (router c') !! route_key method "/api" = None →
      resolve (router c') method "/api" = Some (route_key ALL "/api").
Proof.
  apply (unknown_method_matches_all sample_env (sample_controller []) (sample_route [sample_rule "/api" (Some MTrace)]) []
           (sample_rule "/api" (Some MTrace)) "/api" MTrace).
  - apply sample_router_ok.
  - apply sample_route_admissible. apply Forall_singleton. eexists _, _. reflexivity.
  - apply sample_managed.
  - apply Forall_singleton. reflexivity.
  - reflexivity.
  - vm_compute. discriminate.
  - reflexivity.
  - left. reflexivity.
Defined.

Lemma reconcile_refills_limit_witness :
  ∃ result c' rep, reconcile sample_env (sample_controller []) (sample_route [sample_rule "/api" None]) = Ret (result, c', rep) ∧
    buckets (rate_limiter c') !! "/api" = Some (bucket_new (f64_of_Z 100) 200 0).
Proof.
  apply (reconcile_refills_limit sample_env (sample_controller []) (sample_route [sample_rule "/api" None])
           (sample_rule "/api" None) sample_annotations "100rps,burst=200" (f64_of_Z 100) 200).
  - apply sample_router_ok.
  - apply sample_route_admissible. apply Forall_singleton. eexists _, _. reflexivity.
  - apply sample_managed.
  - reflexivity.
  - reflexivity.
  - vm_compute. discriminate.
  - reflexivity.
  - reflexivity.
  - vm_compute. reflexivity.
Defined.

