(* ===== verification/Listeners.v ===== *)
(** * Listeners: shared listeners with reference counts ([listener_manager.rs])

Several Gateways share a port; the manager opens a port for the first of them and
closes it with the last.  A listener is a task that holds the socket: closing sends
it a signal, and the socket is free only once the task has stopped, a step of its
own here.  All operations of the manager hold one lock.  What else the operating
system may answer to a bind is an input. *)

From S2P Require Import Prelude Common.

#[local] Open Scope Z_scope.

(** ** Data *)
Inductive Protocol : Type := HTTP | HTTPS.

#[export] Instance Protocol_eq_dec : EqDecision Protocol.
Proof. solve_decision. Defined.

Record GatewayRef : Type := mk_gateway_ref {
  gr_namespace : string;
  gr_name : string;
  gr_listener_name : string;
  gr_hostname : option string
}.

#[export] Instance GatewayRef_eq_dec : EqDecision GatewayRef.
Proof. solve_decision. Defined.

#[export] Instance GatewayRef_countable : Countable GatewayRef.
Proof.
  apply (inj_countable' (λ g, (gr_namespace g, gr_name g, gr_listener_name g, gr_hostname g))
           (λ '(ns, n, l, h), mk_gateway_ref ns n l h)).
  by intros [].
Defined.

Definition ref_id (g : GatewayRef) : string := gr_namespace g +:+ "/" +:+ gr_name g +:+ "/" +:+ gr_listener_name g.

Record ListenerConfig : Type := mk_config { lc_port : Z; lc_protocol : Protocol }.

Definition bind_addr (c : ListenerConfig) : string := "0.0.0.0:" +:+ show_Z (lc_port c).

(** The task is its index among the tasks the manager ever spawned. *)
Record ActiveListener : Type := mk_listener {
  l_config : ListenerConfig;
  l_gateways : gset GatewayRef;
  l_task : nat
}.

(** A task that holds its port: accepting, or told to stop. *)
Record Task : Type := mk_task { t_port : Z; t_cancelled : bool }.

Record ListenerManager : Type := mk_manager {
  listeners : gmap Z ActiveListener;
  tasks : gmap nat Task;
  spawned : nat;
  has_tls : bool
}.

Definition manager_new (has_tls : bool) : ListenerManager := mk_manager ∅ ∅ 0 has_tls.

Definition set_listeners (m : ListenerManager) (l : gmap Z ActiveListener) : ListenerManager :=
  mk_manager l (tasks m) (spawned m) (has_tls m).

(** ** Operations *)
Definition protocol_text (p : Protocol) : string := match p with HTTP => "HTTP" | HTTPS => "HTTPS" end.

(** Some task, stopping or not, still holds the port. *)
Definition port_held (m : ListenerManager) (port : Z) : bool :=
  bool_decide (map_Exists (λ _ t, t_port t = port) (tasks m)).

(** [spawn_listener]: the check for TLS, the bind, the task.  [os_error] is a failure of
the bind for a reason outside the process. *)
Definition spawn_listener (m : ListenerManager) (config : ListenerConfig) (os_error : option string)
  : result nat string * ListenerManager :=
  if bool_decide (lc_protocol config = HTTPS) && negb (has_tls m)
  then (Err "HTTPS listener requires TLS configuration. Use ListenerManager::with_tls()", m)
  else
    let failed e := (Err ("Failed to bind to " +:+ bind_addr config +:+ ": " +:+ e), m) in
    if port_held m (lc_port config) then failed "Address already in use (os error 98)"
    else match os_error with
         | Some e => failed e
         | None =>
             let t := spawned m in
             (Ok t, mk_manager (listeners m) (<[t := mk_task (lc_port config) false]> (tasks m)) (S t) (has_tls m))
         end.

Definition register_gateway (m : ListenerManager) (config : ListenerConfig) (gateway : GatewayRef) (os_error : option string)
  : result unit string * ListenerManager :=
  match listeners m !! lc_port config with
  | Some l =>
      if bool_decide (lc_protocol (l_config l) ≠ lc_protocol config)
      then (Err ("Port " +:+ show_Z (lc_port config) +:+ " already bound with protocol " +:+
                 protocol_text (lc_protocol (l_config l)) +:+ ", cannot bind with " +:+
                 protocol_text (lc_protocol config)), m)
      else (Ok (), set_listeners m (<[lc_port config :=
              mk_listener (l_config l) ({[ gateway ]} ∪ l_gateways l) (l_task l)]> (listeners m)))
  | None =>
      let '(r, m) := spawn_listener m config os_error in
      match r with
      | Err e => (Err e, m)
      | Ok t => (Ok (), set_listeners m (<[lc_port config := mk_listener config {[ gateway ]} t]> (listeners m)))
      end
  end.

(** The signal to a task. *)
Definition cancel (t : nat) (ts : gmap nat Task) : gmap nat Task :=
  alter (λ x, mk_task (t_port x) true) t ts.

Definition unregister_gateway (m : ListenerManager) (port : Z) (gateway : GatewayRef)
  : result unit string * ListenerManager :=
  match listeners m !! port with
  | None => (Err ("No listener on port " +:+ show_Z port), m)
  | Some l =>
      if bool_decide (gateway ∉ l_gateways l)
      then (Err ("Gateway " +:+ ref_id gateway +:+ " not registered on port " +:+ show_Z port), m)
      else
        let gateways := l_gateways l ∖ {[ gateway ]} in
        if bool_decide (gateways = ∅)
        then (Ok (), mk_manager (delete port (listeners m)) (cancel (l_task l) (tasks m)) (spawned m) (has_tls m))
        else (Ok (), set_listeners m (<[port := mk_listener (l_config l) gateways (l_task l)]> (listeners m)))
  end.

Definition list_listeners (m : ListenerManager) : list (Z * Protocol * nat) :=
  (λ '(port, l), (port, lc_protocol (l_config l), size (l_gateways l))) <$> map_to_list (listeners m).

Definition manager_shutdown (m : ListenerManager) : ListenerManager :=
  mk_manager ∅ (foldr (λ l ts, cancel (l_task l) ts) (tasks m) (snd <$> map_to_list (listeners m))) (spawned m) (has_tls m).

(** A task that was told to stop leaves its loop and frees the port. *)
Definition task_stops (m : ListenerManager) (t : nat) : ListenerManager :=
  mk_manager (listeners m) (delete t (tasks m)) (spawned m) (has_tls m).

(** ** Steps *)
Inductive manager_step : ListenerManager → ListenerManager → Prop :=
| step_register m config gateway os_error :
    manager_step m (register_gateway m config gateway os_error).2
| step_unregister m port gateway : manager_step m (unregister_gateway m port gateway).2
| step_shutdown m : manager_step m (manager_shutdown m)
| step_stop m t port : tasks m !! t = Some (mk_task port true) → manager_step m (task_stops m t).

(** ** Invariant: reference counts and tasks agree *)
Record manager_ok (m : ListenerManager) : Prop := {
  mo_listener : ∀ port l, listeners m !! port = Some l →
    lc_port (l_config l) = port ∧ l_gateways l ≠ ∅ ∧ tasks m !! l_task l = Some (mk_task port false) ∧
    (lc_protocol (l_config l) = HTTPS → has_tls m = true);
  mo_task : ∀ t port, tasks m !! t = Some (mk_task port false) →
    ∃ l, listeners m !! port = Some l ∧ l_task l = t;
  mo_port : ∀ t1 t2 x1 x2, tasks m !! t1 = Some x1 → tasks m !! t2 = Some x2 → t_port x1 = t_port x2 → t1 = t2;
  mo_fresh : ∀ t, (spawned m <= t)%nat → tasks m !! t = None
}.

Lemma new_manager_ok tls : manager_ok (manager_new tls).
Proof. split; cbn; intros *; rewrite ?lookup_empty; done. Qed.

Lemma cancel_lookup t ts i x :
  cancel t ts !! i = Some x →
  ∃ y, ts !! i = Some y ∧ t_port y = t_port x ∧ (i ≠ t → x = y) ∧ (i = t → t_cancelled x = true).
Proof.
  unfold cancel. destruct (decide (i = t)) as [->|Hne].
  - rewrite lookup_alter_eq. destruct (ts !! t) as [y|]; [|done]. intros [= <-]. by exists y.
  - rewrite lookup_alter_ne by done. intros ->. by exists x.
Qed.

Lemma port_held_false m port : port_held m port = false → ∀ t x, tasks m !! t = Some x → t_port x ≠ port.
Proof.
  unfold port_held. intros H%bool_decide_eq_false t x Ht E. apply H. exists t, x. done.
Qed.

Lemma port_held_true m port t x : tasks m !! t = Some x → t_port x = port → port_held m port = true.
Proof. intros Ht Hp. apply bool_decide_eq_true. exists t, x. done. Qed.

(** What a bind that succeeds does. *)
Lemma spawn_ok_inv m config os_error t m' :
  spawn_listener m config os_error = (Ok t, m') →
  t = spawned m ∧ port_held m (lc_port config) = false ∧ (lc_protocol config = HTTPS → has_tls m = true) ∧
  m' = mk_manager (listeners m) (<[t := mk_task (lc_port config) false]> (tasks m)) (S t) (has_tls m).
Proof.
  unfold spawn_listener. destruct (bool_decide _ && negb _) eqn:E; [done|].
  destruct (port_held m (lc_port config)); [done|]. destruct os_error; [done|]. intros [= <- <-].
  split_and!; try done. intros Hp. rewrite bool_decide_true in E by done. by destruct (has_tls m).
Qed.

Lemma spawn_err_inv m config os_error e m' : spawn_listener m config os_error = (Err e, m') → m' = m.
Proof.
  unfold spawn_listener. destruct (bool_decide _ && negb _); [congruence|].
  destruct (port_held m (lc_port config)); [congruence|]. destruct os_error; congruence.
Qed.

Lemma register_ok m config gateway os_error : manager_ok m → manager_ok (register_gateway m config gateway os_error).2.
Proof.
  intros [Hl Ht Hp Hf]. unfold register_gateway. destruct (listeners m !! lc_port config) as [l|] eqn:E.
  - case_bool_decide; [by split|]. destruct (Hl _ _ E) as (H1 & H2 & H3 & H4). split; cbn [listeners tasks set_listeners spawned has_tls snd]; [| |done|done].
    + intros port l' [[<- <-]|[_ Hx]]%lookup_insert_Some; [|by apply Hl]. split_and!; try done. cbn. set_solver.
    + intros t port Hx. destruct (Ht t port Hx) as (l' & Hl' & <-).
      destruct (decide (port = lc_port config)) as [->|]; [|exists l'; by rewrite lookup_insert_ne].
      eexists. split; [by apply lookup_insert_eq|]. cbn. congruence.
  - destruct (spawn_listener m config os_error) as [[t|e] m'] eqn:Es; [|apply spawn_err_inv in Es as ->; by split].
    apply spawn_ok_inv in Es as (-> & Hh & Htls & ->). pose proof (port_held_false _ _ Hh) as Hfree.
    split; cbn [listeners tasks set_listeners spawned has_tls snd].
    + intros port l [[<- <-]|[Hne Hx]]%lookup_insert_Some.
      * cbn. split_and!; [done|set_solver|by apply lookup_insert_eq|done].
      * destruct (Hl _ _ Hx) as (? & ? & Hx' & ?). split_and!; try done. rewrite lookup_insert_ne; [done|].
        intros E'. rewrite <- E', Hf in Hx' by lia. done.
    + intros t port [[<- [= <-]]|[Hne Hx]]%lookup_insert_Some; [eexists; split; [by apply lookup_insert_eq|done]|].
      destruct (Ht t port Hx) as (l & Hx' & <-). exists l. split; [|done]. rewrite lookup_insert_ne; [done|].
      intros E'. by apply (Hfree _ _ Hx).
    + intros t1 t2 x1 x2 [[<- <-]|[N1 H1]]%lookup_insert_Some [[<- <-]|[N2 H2]]%lookup_insert_Some Heq; [done|..].
      * exfalso. by apply (Hfree _ _ H2).
      * exfalso. by apply (Hfree _ _ H1).
      * by eapply Hp.
    + intros t Hle. rewrite lookup_insert_ne by lia. apply Hf. lia.
Qed.

(** A closed listener: its task is told to stop, the others are as they were. *)
Lemma close_ok m port l :
  manager_ok m → listeners m !! port = Some l →
  manager_ok (mk_manager (delete port (listeners m)) (cancel (l_task l) (tasks m)) (spawned m) (has_tls m)).
Proof.
  intros [Hl Ht Hp Hf] E. split; cbn [listeners tasks spawned has_tls].
  - intros p l' [Hne Hx]%lookup_delete_Some. destruct (Hl _ _ Hx) as (H1 & H2 & H3 & H4). split_and!; try done.
    unfold cancel. rewrite lookup_alter_ne; [done|]. intros E'. destruct (Hl _ _ E) as (_ & _ & H3' & _). congruence.
  - intros t p Hx. apply cancel_lookup in Hx as (y & Hy & Hpy & Hne & Heq). cbn in *.
    destruct (decide (t = l_task l)) as [->|Hn]; [discriminate (Heq eq_refl)|]. rewrite <- (Hne Hn) in Hy.
    destruct (Ht t p Hy) as (l' & Hl' & <-). exists l'. split; [|done]. apply lookup_delete_Some. split; [|done].
    intros ->. apply Hn. congruence.
  - intros t1 t2 x1 x2 (y1 & H1 & E1 & _)%cancel_lookup (y2 & H2 & E2 & _)%cancel_lookup Heq. eapply Hp; eauto. congruence.
  - intros t Hle. unfold cancel. rewrite lookup_alter. case_decide; subst; by rewrite Hf.
Qed.

Lemma unregister_ok m port gateway : manager_ok m → manager_ok (unregister_gateway m port gateway).2.
Proof.
  intros Hok. unfold unregister_gateway. destruct (listeners m !! port) as [l|] eqn:E; [|done].
  case_bool_decide as Hg; [done|]. case_bool_decide as He; [by apply close_ok|].
  destruct Hok as [Hl Ht Hp Hf]. destruct (Hl _ _ E) as (H1 & H2 & H3 & H4).
  split; cbn [listeners tasks set_listeners spawned has_tls snd]; [| |done|done].
  - intros p l' [[<- <-]|[_ Hx]]%lookup_insert_Some; [|by apply Hl]. by split_and!.
  - intros t p Hx. destruct (Ht t p Hx) as (l' & Hl' & <-).
    destruct (decide (p = port)) as [->|]; [|exists l'; by rewrite lookup_insert_ne].
    eexists. split; [by apply lookup_insert_eq|]. cbn. congruence.
Qed.

Lemma cancels_lookup ls ts i x :
  foldr (λ l ts, cancel (l_task l) ts) ts ls !! i = Some x →
  ∃ y, ts !! i = Some y ∧ t_port y = t_port x ∧ (t_cancelled x = false → x = y ∧ i ∉ l_task <$> ls).
Proof.
  revert x. induction ls as [|l ls IH]; intros x; cbn [foldr].
  - intros H. exists x. split_and!; try done. intros _. split; [done|]. apply not_elem_of_nil.
  - intros (z & Hz & Pz & Hne & Heq)%cancel_lookup. destruct (IH z Hz) as (y & Hy & Py & Hc). exists y.
    split_and!; [done|congruence|]. intros Hx. destruct (decide (i = l_task l)) as [->|Hn].
    + rewrite Heq in Hx by done. done.
    + rewrite (Hne Hn) in *. destruct (Hc Hx) as [-> Hnot]. split; [done|]. cbn. set_solver.
Qed.

Lemma shutdown_ok m : manager_ok m → manager_ok (manager_shutdown m).
Proof.
  intros [Hl Ht Hp Hf]. split; cbn [listeners tasks spawned has_tls manager_shutdown].
  - intros port l. by rewrite lookup_empty.
  - intros t port (y & Hy & _ & Hc)%cancels_lookup. destruct (Hc eq_refl) as [<- Hnot]. exfalso. apply Hnot.
    destruct (Ht t port Hy) as (l & Hx & <-). apply list_elem_of_fmap. exists l. split; [done|].
    apply list_elem_of_fmap. exists (port, l). split; [done|]. by apply elem_of_map_to_list.
  - intros t1 t2 x1 x2 (y1 & H1 & E1 & _)%cancels_lookup (y2 & H2 & E2 & _)%cancels_lookup Heq. eapply Hp; eauto. congruence.
  - intros t Hle. destruct (foldr _ _ _ !! t) as [x|] eqn:E; [|done]. apply cancels_lookup in E as (y & Hy & _).
    by rewrite Hf in Hy.
Qed.

Lemma stop_ok m t port : manager_ok m → tasks m !! t = Some (mk_task port true) → manager_ok (task_stops m t).
Proof.
  intros [Hl Ht Hp Hf] E. split; cbn [listeners tasks spawned has_tls task_stops].
  - intros p l Hx. destruct (Hl _ _ Hx) as (? & ? & H3 & ?). split_and!; try done. rewrite lookup_delete_ne; [done|].
    intros ->. congruence.
  - intros t' p [_ Hx]%lookup_delete_Some. by apply Ht.
  - intros t1 t2 x1 x2 [_ H1]%lookup_delete_Some [_ H2]%lookup_delete_Some. by eapply Hp.
  - intros t' Hle. rewrite lookup_delete. case_decide; [done|]. by apply Hf.
Qed.

Lemma manager_step_ok m m' : manager_step m m' → manager_ok m → manager_ok m'.
Proof. destruct 1; eauto using register_ok, unregister_ok, shutdown_ok, stop_ok. Qed.

Lemma manager_reachable_ok m m' : rtc manager_step m m' → manager_ok m → manager_ok m'.
Proof. induction 1; eauto using manager_step_ok. Qed.

(** ** Specification: the set of registrations *)
Definition registered (m : ListenerManager) (port : Z) (g : GatewayRef) : Prop :=
  ∃ l, listeners m !! port = Some l ∧ g ∈ l_gateways l.

(** A task accepts connections on the port. *)
Definition accepting (m : ListenerManager) (port : Z) : Prop := ∃ t, tasks m !! t = Some (mk_task port false).

(** Why a registration is refused. *)
Definition refused (m : ListenerManager) (config : ListenerConfig) (os_error : option string) : Prop :=
  match listeners m !! lc_port config with
  | Some l => lc_protocol (l_config l) ≠ lc_protocol config
  | None => (lc_protocol config = HTTPS ∧ has_tls m = false) ∨ port_held m (lc_port config) = true ∨ is_Some os_error
  end.

Lemma register_cases m config gateway os_error :
  match register_gateway m config gateway os_error with
  | (Ok _, m') =>
      ¬ refused m config os_error ∧
      (∀ p g, registered m' p g ↔ registered m p g ∨ (p = lc_port config ∧ g = gateway))
  | (Err _, m') => refused m config os_error ∧ m' = m
  end.
Proof.
  unfold register_gateway, refused, registered. destruct (listeners m !! lc_port config) as [l|] eqn:E.
  - case_bool_decide as Hp; [by split|]. split; [tauto|]. intros p g. cbn [set_listeners listeners].
    destruct (decide (p = lc_port config)) as [->|Hne].
    + rewrite lookup_insert_eq, E. split.
      * intros (l' & [= <-] & Hg). cbn in Hg. set_solver.
      * intros [(l' & [= <-] & Hg)|[_ ->]]; eexists; (split; [done|]); cbn; set_solver.
    + rewrite lookup_insert_ne by done. naive_solver.
  - destruct (spawn_listener m config os_error) as [[t|e] m'] eqn:Es.
    + apply spawn_ok_inv in Es as Hs. destruct Hs as (-> & Hh & Htls & ->). split.
      * intros [[Hp Ht]|[Hh'|[e He]]]; [rewrite Htls in Ht by done; done|congruence|]. subst os_error. revert Es.
        unfold spawn_listener. destruct (bool_decide _ && negb _); [done|]. by rewrite Hh.
      * intros p g. cbn [set_listeners listeners]. destruct (decide (p = lc_port config)) as [->|Hne].
        -- rewrite lookup_insert_eq, E. split; [intros (l & [= <-] & Hg); cbn in Hg; set_solver|].
           intros [(l & ? & _)|[_ ->]]; [done|]. eexists. split; [done|]. cbn. set_solver.
        -- rewrite lookup_insert_ne by done. naive_solver.
    + pose proof (spawn_err_inv _ _ _ _ _ Es) as ->. split; [|done]. revert Es. unfold spawn_listener.
      destruct (bool_decide _ && negb _) eqn:E1.
      { intros _. left. apply andb_true_iff in E1 as [E1 E2]. apply bool_decide_eq_true in E1. apply negb_true_iff in E2. done. }
      destruct (port_held m (lc_port config)); [by right; left|]. destruct os_error; [|done]. right. right. eauto.
Qed.

Lemma unregister_cases m port gateway :
  match unregister_gateway m port gateway with
  | (Ok _, m') =>
      registered m port gateway ∧ ∀ p g, registered m' p g ↔ registered m p g ∧ (p, g) ≠ (port, gateway)
  | (Err _, m') => ¬ registered m port gateway ∧ m' = m
  end.
Proof.
  unfold unregister_gateway, registered. destruct (listeners m !! port) as [l|] eqn:E.
  2:{ split; [|done]. intros (l & ? & _). done. }
  case_bool_decide as Hg; [split; [|done]; naive_solver|].
  assert (gateway ∈ l_gateways l) as Hin by (destruct (decide (gateway ∈ l_gateways l)); done).
  case_bool_decide as He; (split; [eauto|]); intros p g; cbn [listeners set_listeners].
  - destruct (decide (p = port)) as [->|Hne].
    + rewrite lookup_delete_eq, E. split; [naive_solver|]. intros [(l' & [= <-] & Hl) Hne]. set_solver.
    + rewrite lookup_delete_ne by done. naive_solver.
  - destruct (decide (p = port)) as [->|Hne].
    + rewrite lookup_insert_eq, E. split.
      * intros (l' & [= <-] & Hl). cbn in Hl. split; [exists l; set_solver|]. intros [= ->]. set_solver.
      * intros [(l' & [= <-] & Hl) Hne]. eexists. split; [done|]. cbn. apply elem_of_difference. split; [done|].
        intros ->%elem_of_singleton. done.
    + rewrite lookup_insert_ne by done. naive_solver.
Qed.

(** C13: the listeners are the registrations.  After any sequence of registrations,
removals, shutdowns and stops of tasks, a port is accepting connections exactly if
some Gateway is registered on it, and at most one task holds any port; a
registration adds exactly its Gateway, or it is refused for a stated reason
(another protocol, no TLS, the port in use, a failed bind) and changes nothing; a
removal succeeds exactly for a registered Gateway and removes exactly it. *)
Theorem listeners_are_registrations tls m config gateway os_error port :
  rtc manager_step (manager_new tls) m →
  (∀ p, accepting m p ↔ ∃ g, registered m p g) ∧
  (∀ t1 t2 x1 x2, tasks m !! t1 = Some x1 → tasks m !! t2 = Some x2 → t_port x1 = t_port x2 → t1 = t2) ∧
  match register_gateway m config gateway os_error with
  | (Ok _, m') =>
      ¬ refused m config os_error ∧
      (∀ p g, registered m' p g ↔ registered m p g ∨ (p = lc_port config ∧ g = gateway))
  | (Err _, m') => refused m config os_error ∧ m' = m
  end ∧
  match unregister_gateway m port gateway with
  | (Ok _, m') =>
      registered m port gateway ∧ ∀ p g, registered m' p g ↔ registered m p g ∧ (p, g) ≠ (port, gateway)
  | (Err _, m') => ¬ registered m port gateway ∧ m' = m
  end.
Proof.
  intros Hr. apply manager_reachable_ok in Hr as [Hl Ht Hp Hf]; [|apply new_manager_ok].
  split_and!; [|done|apply register_cases|apply unregister_cases]. intros p. unfold accepting, registered. split.
  - intros [t Hx]. destruct (Ht t p Hx) as (l & Hx' & _). destruct (Hl _ _ Hx') as (_ & Hne & _).
    apply set_choose_L in Hne as [g Hg]. eauto.
  - intros (g & l & Hx & _). destruct (Hl _ _ Hx) as (_ & _ & H3 & _). eauto.
Qed.

Definition gw1 : GatewayRef := mk_gateway_ref "default" "a" "http" None.
Definition gw2 : GatewayRef := mk_gateway_ref "default" "b" "http" None.
Definition http80 : ListenerConfig := mk_config 80 HTTP.

Lemma listeners_are_registrations_witness :
  let m := (register_gateway (manager_new false) http80 gw1 None).2 in
  (∀ p, accepting m p ↔ ∃ g, registered m p g) ∧
  (∀ t1 t2 x1 x2, tasks m !! t1 = Some x1 → tasks m !! t2 = Some x2 → t_port x1 = t_port x2 → t1 = t2) ∧
  match register_gateway m http80 gw2 None with
  | (Ok _, m') =>
      ¬ refused m http80 None ∧ (∀ p g, registered m' p g ↔ registered m p g ∨ (p = lc_port http80 ∧ g = gw2))
  | (Err _, m') => refused m http80 None ∧ m' = m
  end ∧
  match unregister_gateway m 80 gw2 with
  | (Ok _, m') => registered m 80 gw2 ∧ ∀ p g, registered m' p g ↔ registered m p g ∧ (p, g) ≠ (80, gw2)
  | (Err _, m') => ¬ registered m 80 gw2 ∧ m' = m
  end.
Proof. apply (listeners_are_registrations false). apply rtc_once. apply step_register. Defined.

(** Registering and then removing a Gateway leaves the listeners as they were,
whether the port was open before or not. *)
Theorem register_roundtrip m config gateway os_error m1 :
  (∀ port l, listeners m !! port = Some l → l_gateways l ≠ ∅) → ¬ registered m (lc_port config) gateway →
  register_gateway m config gateway os_error = (Ok (), m1) →
  ∃ m2, unregister_gateway m1 (lc_port config) gateway = (Ok (), m2) ∧ listeners m2 = listeners m.
Proof.
  intros Hne Hn. unfold register_gateway. destruct (listeners m !! lc_port config) as [l|] eqn:E.
  - case_bool_decide; [done|]. intros [= <-]. unfold unregister_gateway. cbn [listeners set_listeners].
    rewrite lookup_insert_eq. cbn [l_gateways l_config l_task].
    assert (gateway ∉ l_gateways l) as Hg by (intros Hg; apply Hn; exists l; done).
    rewrite bool_decide_false by set_solver. assert (({[gateway]} ∪ l_gateways l) ∖ {[gateway]} = l_gateways l) as -> by set_solver.
    rewrite bool_decide_false by (by eapply Hne). eexists. split; [done|]. cbn [listeners set_listeners].
    rewrite insert_insert_eq. apply insert_id. rewrite E. by destruct l.
  - destruct (spawn_listener m config os_error) as [[t|e] m'] eqn:Es; [|done]. intros [= <-].
    apply spawn_ok_inv in Es as (-> & _ & _ & ->). unfold unregister_gateway. cbn [listeners set_listeners].
    rewrite lookup_insert_eq. cbn [l_gateways l_config l_task]. rewrite bool_decide_false by set_solver.
    rewrite bool_decide_true by set_solver. eexists. split; [done|]. cbn [listeners]. by apply delete_insert_id.
Qed.

Lemma register_roundtrip_witness :
  let m1 := (register_gateway (manager_new false) http80 gw1 None).2 in
  ∃ m2, unregister_gateway m1 80 gw1 = (Ok (), m2) ∧ listeners m2 = ∅.
Proof.
  apply (register_roundtrip (manager_new false) http80 gw1 None).
  - intros port l H. exfalso. cbn in H. rewrite lookup_empty in H. discriminate.
  - intros (l & H & _). cbn in H. rewrite lookup_empty in H. discriminate.
  - reflexivity.
Defined.

(** A port is not free at once.  If the last Gateway of a port is removed and the
port is requested again before the old task has stopped, the registration fails
because the address is in use; once the task has stopped, the same call succeeds. *)
Theorem quick_rebind_fails m port l g config g' :
  manager_ok m → listeners m !! port = Some l → l_gateways l = {[ g ]} →
  lc_port config = port → (lc_protocol config = HTTPS → has_tls m = true) →
  ∃ m1, unregister_gateway m port g = (Ok (), m1) ∧
    (∃ e, register_gateway m1 config g' None = (Err e, m1)) ∧
    manager_step m1 (task_stops m1 (l_task l)) ∧
    (register_gateway (task_stops m1 (l_task l)) config g' None).1 = Ok ().
Proof.
  intros [Hl Ht Hp Hf] E Hg Hport Htls. destruct (Hl _ _ E) as (_ & _ & Htask & _).
  set (m1 := mk_manager (delete port (listeners m)) (cancel (l_task l) (tasks m)) (spawned m) (has_tls m)).
  assert (tasks m1 !! l_task l = Some (mk_task port true)) as Hc.
  { cbn [tasks m1]. unfold cancel. by rewrite lookup_alter_eq, Htask. }
  assert (listeners m1 !! lc_port config = None) as Hnone by (rewrite Hport; apply lookup_delete_eq).
  assert (bool_decide (lc_protocol config = HTTPS) && negb (has_tls m) = false) as Hgo.
  { case_bool_decide as Hh; [by rewrite Htls|done]. }
  exists m1. split_and!.
  - unfold unregister_gateway. rewrite E, Hg. rewrite bool_decide_false by set_solver. by rewrite bool_decide_true by set_solver.
  - unfold register_gateway, spawn_listener. rewrite Hnone. cbn [has_tls m1]. rewrite Hgo.
    rewrite (port_held_true m1 (lc_port config) (l_task l) _ Hc) by done. eauto.
  - by eapply step_stop.
  - unfold register_gateway, spawn_listener. cbn [listeners task_stops has_tls m1]. rewrite Hport, lookup_delete_eq, Hgo.
    assert (port_held (task_stops m1 (l_task l)) port = false) as ->; [|done].
    apply bool_decide_eq_false. intros (t & x & Hx & Hpx). cbn [tasks task_stops m1] in Hx.
    apply lookup_delete_Some in Hx as [Hne (y & Hy & Py & _)%cancel_lookup]. apply Hne.
    eapply Hp; [exact Htask|exact Hy|]. cbn. congruence.
Qed.

Lemma quick_rebind_fails_witness :
  let m := (register_gateway (manager_new false) http80 gw1 None).2 in
  ∃ m1, unregister_gateway m 80 gw1 = (Ok (), m1) ∧
    (∃ e, register_gateway m1 http80 gw2 None = (Err e, m1)) ∧
    manager_step m1 (task_stops m1 0) ∧
    (register_gateway (task_stops m1 0) http80 gw2 None).1 = Ok ().
Proof.
  apply (quick_rebind_fails (register_gateway (manager_new false) http80 gw1 None).2 80 (mk_listener http80 {[ gw1 ]} 0) gw1 http80 gw2).
  - apply register_ok, new_manager_ok.
  - reflexivity.
  - reflexivity.
  - reflexivity.
  - discriminate.
Defined.
