(* ===== verification/Gateway.v ===== *)
(** * Gateway: the Gateway controller ([gateway.rs])

[reconcile] of a Gateway keeps the [GatewayIndex] of managed Gateways, registers
its listeners with the [Listeners] manager, and reports a status with a condition
per listener.  The answers of the API server (Secrets, Nodes, the status patch) and
of the operating system are inputs. *)

From S2P Require Import Prelude Common Float Text Decimal GatewayIndex Listeners.

#[local] Open Scope Z_scope.

(** ** The resource, as far as the controller reads it *)
Record CertificateRef : Type := mk_cert_ref {
  cr_group : option string;
  cr_kind : option string;
  cr_name : string;
  cr_namespace : option string
}.

Record RouteGroupKind : Type := mk_route_kind { rk_group : option string; rk_kind : string }.

Record GatewayListener : Type := mk_gateway_listener {
  gl_name : string;
  gl_port : Z;
  gl_protocol : string;
  gl_hostname : option string;
  (** [tls], then [tls.certificateRefs] *)
  gl_tls : option (option (list CertificateRef));
  (** [allowedRoutes], then [allowedRoutes.kinds] *)
  gl_allowed_routes : option (option (list RouteGroupKind))
}.

Record Gateway : Type := mk_gateway {
  gw_name : string;
  gw_namespace : option string;
  gw_generation : option Z;
  gw_class_name : string;
  gw_listeners : list GatewayListener
}.

(** ** Answers of the API server *)
Inductive ApiError : Type := NotFound | OtherError (text : string).

Record GatewayApi : Type := mk_gateway_api {
  (** The names of the data fields of a Secret, if it has data. *)
  get_secret : string → string → result (option (gset string)) ApiError;
  (** The addresses (type, address) of each Node. *)
  list_nodes : result (list (option (option (list (string * string))))) string
}.

(** ** Status *)
Record ListenerCondition : Type := mk_lcondition {
  lcd_type : string;
  lcd_status : string;
  lcd_reason : string;
  lcd_message : string;
  lcd_time : string;
  lcd_generation : Z
}.

Record ListenerStatus : Type := mk_lstatus {
  attached_routes : Z;
  ls_conditions : list ListenerCondition;
  ls_name : string;
  supported_kinds : list (string * string)
}.

Record GatewayStatus : Type := mk_gstatus {
  gs_addresses : option (list (string * string));
  gs_conditions : list ListenerCondition;
  gs_listeners : option (list ListenerStatus)
}.

Definition get_node_addresses (api : GatewayApi) : list (string * string) :=
  match list_nodes api with
  | Err _ => []
  | Ok nodes =>
      nodes ≫= λ node,
        default [] (node ≫= λ addrs, addrs) ≫= λ '(type_, address),
          if String.eqb type_ "InternalIP" then [("IPAddress", address)] else []
  end.

(** (status, reason, message) of the references of a listener. *)
Definition Refs : Type := string * string * string.

Definition refs_resolved : Refs := ("True", "ResolvedRefs", "All references resolved").

Definition invalid_ref (message : string) : Refs := ("False", "InvalidCertificateRef", message).

Fixpoint validate_certificate_refs (api : GatewayApi) (cert_refs : list CertificateRef) (gateway_namespace : string) : Refs :=
  match cert_refs with
  | [] => refs_resolved
  | r :: rest =>
      let group_bad := match cr_group r with
                       | Some g => negb (String.eqb g "") && negb (String.eqb g "core")
                       | None => false
                       end in
      let kind_bad := match cr_kind r with Some k => negb (String.eqb k "Secret") | None => false end in
      if group_bad
      then invalid_ref ("Unsupported group '" +:+ default "" (cr_group r) +:+ "' for certificateRef")
      else if kind_bad
      then invalid_ref ("Unsupported kind '" +:+ default "" (cr_kind r) +:+ "' for certificateRef")
      else
        let secret_namespace := default gateway_namespace (cr_namespace r) in
        let secret := secret_namespace +:+ "/" +:+ cr_name r in
        match get_secret api secret_namespace (cr_name r) with
        | Ok (Some data) =>
            if bool_decide ("tls.crt" ∈ data) && bool_decide ("tls.key" ∈ data)
            then validate_certificate_refs api rest gateway_namespace
            else invalid_ref ("Secret " +:+ secret +:+ " is missing required fields (needs both tls.crt and tls.key)")
        | Ok None => invalid_ref ("Secret " +:+ secret +:+ " has no data")
        | Err NotFound => invalid_ref ("Secret " +:+ secret +:+ " not found")
        | Err (OtherError e) => invalid_ref ("Failed to access Secret " +:+ secret +:+ ": " +:+ e)
        end
  end.

Definition default_group : string := "gateway.networking.k8s.io".
Definition http_route_kind : string * string := (default_group, "HTTPRoute").

(** The references condition and the supported kinds of a listener. *)
Definition listener_refs (tls_validation : Refs) (l : GatewayListener) : Refs * list (string * string) :=
  if String.eqb tls_validation.1.1 "False" then (tls_validation, [http_route_kind])
  else
    match gl_allowed_routes l with
    | Some (Some kinds) =>
        match kinds with
        | [] => (("False", "InvalidRouteKinds", "No route kinds specified"), [])
        | _ =>
            let valid_kinds := filter (λ k, rk_kind k = "HTTPRoute") kinds in
            match valid_kinds with
            | [] => (("False", "InvalidRouteKinds", "No supported route kinds found"), [])
            | _ =>
                let supported := (λ k, (default default_group (rk_group k), rk_kind k)) <$> valid_kinds in
                if (length valid_kinds <? length kinds)%nat
                then (("False", "InvalidRouteKinds", "Some route kinds are not supported"), supported)
                else (refs_resolved, supported)
            end
        end
    | Some None => (refs_resolved, [http_route_kind])
    | None => (refs_resolved, [http_route_kind])
    end.

Definition tls_validation (api : GatewayApi) (namespace : string) (l : GatewayListener) : Refs :=
  match gl_tls l with
  | Some (Some cert_refs) => validate_certificate_refs api cert_refs namespace
  | Some None => refs_resolved
  | None => refs_resolved
  end.

Definition listener_status (api : GatewayApi) (namespace time : string) (generation : Z) (l : GatewayListener) : ListenerStatus :=
  let '((status, reason, message), kinds) := listener_refs (tls_validation api namespace l) l in
  mk_lstatus 0
    [mk_lcondition "Accepted" "True" "Accepted" "Listener is accepted" time generation;
     mk_lcondition "Programmed" "True" "Programmed" "Listener is programmed" time generation;
     mk_lcondition "ResolvedRefs" status reason message time generation]
    (gl_name l) kinds.

Definition set_gateway_status (api : GatewayApi) (namespace time : string) (accepted : bool) (gateway : Gateway) (generation : Z)
  : GatewayStatus :=
  let addresses := get_node_addresses api in
  if accepted then
    mk_gstatus (Some addresses)
      [mk_lcondition "Accepted" "True" "Accepted" "Gateway is accepted" time generation;
       mk_lcondition "Programmed" "True" "Programmed" "Gateway is programmed" time generation]
      (Some (listener_status api namespace time generation <$> gw_listeners gateway))
  else
    mk_gstatus None
      [mk_lcondition "Accepted" "False" "Invalid" "Gateway configuration is invalid" time generation] None.

(** ** Reconciliation *)
Record GatewayReconciler : Type := mk_gateway_reconciler {
  class_name : string;
  listener_manager : ListenerManager;
  gw_index : GatewayIndex
}.

Record GatewayEnv : Type := mk_gateway_env {
  ge_api : GatewayApi;
  (** What the operating system answers to a bind of a port. *)
  ge_bind : Z → option string;
  ge_patch : GatewayStatus → result unit string;
  ge_time : string
}.

Definition should_reconcile (c : GatewayReconciler) (gateway_class_name : string) : bool :=
  String.eqb gateway_class_name (class_name c).

Definition parse_protocol (s : string) : option Protocol :=
  if String.eqb s "HTTP" then Some HTTP else if String.eqb s "HTTPS" then Some HTTPS else None.

Definition listener_ref (namespace name : string) (l : GatewayListener) : GatewayRef :=
  mk_gateway_ref namespace name (gl_name l) (gl_hostname l).

Definition configure_listener (env : GatewayEnv) (namespace name : string) (m : ListenerManager) (l : GatewayListener)
  : ListenerManager :=
  match parse_protocol (gl_protocol l) with
  | None => m
  | Some protocol =>
      let port := as_u16 (gl_port l) in
      (register_gateway m (mk_config port protocol) (listener_ref namespace name l) (ge_bind env port)).2
  end.

Definition configure_listeners (env : GatewayEnv) (namespace name : string) (m : ListenerManager) (ls : list GatewayListener)
  : ListenerManager := foldl (configure_listener env namespace name) m ls.

Inductive GatewayAction : Type := GwAwaitChange | GwRequeue (seconds : Z).

Definition gateway_error_policy : GatewayAction := GwRequeue 60.

(** The result, the new state, and the status that was sent. *)
Definition reconcile_gateway (env : GatewayEnv) (c : GatewayReconciler) (gateway : Gateway)
  : result GatewayAction string * GatewayReconciler * option GatewayStatus :=
  let namespace := default "default" (gw_namespace gateway) in
  let name := gw_name gateway in
  if negb (should_reconcile c (gw_class_name gateway)) then
    (Ok GwAwaitChange, mk_gateway_reconciler (class_name c) (listener_manager c) (index_remove (gw_index c) namespace name).2, None)
  else
    let index := (index_add (gw_index c) namespace name).2 in
    let manager := configure_listeners env namespace name (listener_manager c) (gw_listeners gateway) in
    let c := mk_gateway_reconciler (class_name c) manager index in
    let status := set_gateway_status (ge_api env) namespace (ge_time env) true gateway (default 0 (gw_generation gateway)) in
    match ge_patch env status with
    | Err e => (Err e, c, Some status)
    | Ok _ => (Ok (GwRequeue 300), c, Some status)
    end.

(** ** What a reconciliation leaves *)
Lemma configure_listener_ok env ns n m l : manager_ok m → manager_ok (configure_listener env ns n m l).
Proof. intros Hok. unfold configure_listener. destruct (parse_protocol _); [by apply register_ok|done]. Qed.

Lemma configure_listeners_ok env ns n ls : ∀ m, manager_ok m → manager_ok (configure_listeners env ns n m ls).
Proof.
  induction ls as [|l ls IH]; intros m Hok; [done|]. unfold configure_listeners. cbn [foldl]. apply IH.
  by apply configure_listener_ok.
Qed.

Lemma configure_listener_grows env ns n m l p g :
  registered m p g → registered (configure_listener env ns n m l) p g.
Proof.
  intros Hr. unfold configure_listener. destruct (parse_protocol _) as [pr|]; [|done].
  pose proof (register_cases m (mk_config (as_u16 (gl_port l)) pr) (listener_ref ns n l) (ge_bind env (as_u16 (gl_port l)))) as H.
  destruct (register_gateway _ _ _ _) as [[]  m']; cbn [snd]; [apply H; by left|]. by destruct H as [_ ->].
Qed.

Lemma configure_listeners_grows env ns n ls : ∀ m p g,
  registered m p g → registered (configure_listeners env ns n m ls) p g.
Proof.
  induction ls as [|l ls IH]; intros m p g Hr; [done|]. unfold configure_listeners. cbn [foldl]. apply IH.
  by apply configure_listener_grows.
Qed.

(** What a listener of a Gateway may register. *)
Definition listener_registers (ns n : string) (l : GatewayListener) (p : Z) (g : GatewayRef) : Prop :=
  is_Some (parse_protocol (gl_protocol l)) ∧ p = as_u16 (gl_port l) ∧ g = listener_ref ns n l.

Lemma configure_listeners_only env ns n ls : ∀ m p g,
  registered (configure_listeners env ns n m ls) p g →
  registered m p g ∨ ∃ l, l ∈ ls ∧ listener_registers ns n l p g.
Proof.
  induction ls as [|l ls IH]; intros m p g Hr; [by left|]. unfold configure_listeners in *. cbn [foldl] in Hr.
  apply IH in Hr as [Hr|(l' & Hl & Hx)]; [|right; exists l'; split; [by right|done]].
  unfold configure_listener in Hr. destruct (parse_protocol (gl_protocol l)) as [pr|] eqn:Ep; [|by left].
  pose proof (register_cases m (mk_config (as_u16 (gl_port l)) pr) (listener_ref ns n l) (ge_bind env (as_u16 (gl_port l)))) as H.
  destruct (register_gateway _ _ _ _) as [[]  m']; cbn [snd] in Hr; [|by left; destruct H as [_ ->]].
  apply H in Hr as [Hr|[-> ->]]; [by left|]. right. exists l. split; [left|]. unfold listener_registers. by rewrite Ep.
Qed.

(** A port that can be opened or shared with the protocol. *)
Definition port_ready (m : ListenerManager) (port : Z) (p : Protocol) : Prop :=
  (p = HTTPS → has_tls m = true) ∧
  match listeners m !! port with
  | Some l => lc_protocol (l_config l) = p
  | None => port_held m port = false
  end.

Lemma register_ready m config g os_error port p :
  port_ready m port p → (lc_port config = port → lc_protocol config = p) →
  port_ready (register_gateway m config g os_error).2 port p.
Proof.
  intros [Htls Hp] Hc. unfold register_gateway. destruct (listeners m !! lc_port config) as [l|] eqn:E.
  - case_bool_decide as Hd; [by split|]. split; [done|]. cbn [snd set_listeners listeners].
    destruct (decide (port = lc_port config)) as [->|Hne].
    + rewrite lookup_insert_eq. rewrite E in Hp. done.
    + by rewrite lookup_insert_ne.
  - destruct (spawn_listener m config os_error) as [[t|e] m'] eqn:Es; [|by apply spawn_err_inv in Es as ->].
    apply spawn_ok_inv in Es as (-> & Hh & _ & ->). split; [done|]. cbn [snd set_listeners listeners].
    destruct (decide (port = lc_port config)) as [->|Hne]; [rewrite lookup_insert_eq; by apply Hc|].
    rewrite lookup_insert_ne by done. destruct (listeners m !! port) as [l|]; [done|].
    apply bool_decide_eq_false. intros (t & x & Hx & Hpx). cbn [tasks set_listeners] in Hx.
    apply lookup_insert_Some in Hx as [[_ <-]|[_ Hx]]; [by apply Hne|]. by apply (port_held_false _ _ Hp t x).
Qed.

Lemma register_ready_ok m config g :
  port_ready m (lc_port config) (lc_protocol config) →
  ∃ m', register_gateway m config g None = (Ok (), m') ∧ registered m' (lc_port config) g.
Proof.
  intros [Htls Hp]. pose proof (register_cases m config g None) as H.
  destruct (register_gateway m config g None) as [[[]|e] m']; [exists m'; split; [done|]; apply H; by right|].
  exfalso. destruct H as [H _]. unfold refused in H. destruct (listeners m !! lc_port config); [by apply H|].
  destruct H as [[H1 H2]|[H|[e' H]]]; [rewrite Htls in H2 by done; done|congruence|done].
Qed.

(** The listeners of a Gateway agree with [l] about its port. *)
Definition ports_agree (ls : list GatewayListener) (l : GatewayListener) : Prop :=
  ∀ l', l' ∈ ls → as_u16 (gl_port l') = as_u16 (gl_port l) → gl_protocol l' = gl_protocol l.

Lemma configure_listeners_installs env ns n ls : ∀ m l p,
  l ∈ ls → parse_protocol (gl_protocol l) = Some p → ports_agree ls l →
  port_ready m (as_u16 (gl_port l)) p → ge_bind env (as_u16 (gl_port l)) = None →
  registered (configure_listeners env ns n m ls) (as_u16 (gl_port l)) (listener_ref ns n l).
Proof.
  induction ls as [|l0 ls IH]; intros m l p Hl Hp Ha Hr Hb; [by apply not_elem_of_nil in Hl|].
  unfold configure_listeners. cbn [foldl]. apply elem_of_cons in Hl as [->|Hl].
  - apply configure_listeners_grows. unfold configure_listener. rewrite Hp, Hb.
    by destruct (register_ready_ok m (mk_config (as_u16 (gl_port l0)) p) (listener_ref ns n l0) Hr) as (m' & -> & ?).
  - eapply (IH _ l p); [done|done|by intros l' Hl'; apply Ha; right| |done].
    unfold configure_listener. destruct (parse_protocol (gl_protocol l0)) as [p0|] eqn:E0; [|done].
    apply register_ready; [done|]. cbn. intros Heq. rewrite (Ha l0 (list_elem_of_here _ _) Heq), Hp in E0. congruence.
Qed.

Definition gateway_namespace (g : Gateway) : string := default "default" (gw_namespace g).

(** A Gateway of our class. *)
Definition ours (c : GatewayReconciler) (g : Gateway) : Prop := gw_class_name g = class_name c.

(** C15: a reconciled Gateway is managed and listening.  The index holds the Gateway
afterwards exactly if it is of our class, and all others as before.  A listener of a
Gateway of our class is registered if its protocol is HTTP or HTTPS, its port is open with
that protocol or else free, the system lets it be bound and, for HTTPS, the manager has a TLS
configuration (it has none in Kubernetes mode), and no other listener of the Gateway wants
the port with another protocol.  Nothing is registered but the Gateway's listeners and
what was before, and nothing is removed; and reference counts and tasks still agree. *)
Theorem gateway_reconciled env c g :
  manager_ok (listener_manager c) →
  let '(_, c', status) := reconcile_gateway env c g in
  let ns := gateway_namespace g in
  manager_ok (listener_manager c') ∧
  (∀ k, k ∈ inner (gw_index c') ↔ if decide (k = mk_gateway_key ns (gw_name g)) then ours c g else k ∈ inner (gw_index c)) ∧
  (∀ p r, registered (listener_manager c) p r → registered (listener_manager c') p r) ∧
  (∀ p r, registered (listener_manager c') p r →
     registered (listener_manager c) p r ∨ ∃ l, l ∈ gw_listeners g ∧ listener_registers ns (gw_name g) l p r) ∧
  (ours c g → is_Some status ∧ ∀ l p, l ∈ gw_listeners g → parse_protocol (gl_protocol l) = Some p →
     ports_agree (gw_listeners g) l → port_ready (listener_manager c) (as_u16 (gl_port l)) p →
     ge_bind env (as_u16 (gl_port l)) = None →
     registered (listener_manager c') (as_u16 (gl_port l)) (listener_ref ns (gw_name g) l)).
Proof.
  intros Hok. unfold reconcile_gateway, should_reconcile, ours. fold (gateway_namespace g).
  destruct (String.eqb_spec (gw_class_name g) (class_name c)) as [E|E]; cbn [negb].
  - set (m' := configure_listeners _ _ _ _ _). set (st := set_gateway_status _ _ _ _ _ _).
    assert (manager_ok m' ∧
      (∀ k, k ∈ inner (index_add (gw_index c) (gateway_namespace g) (gw_name g)).2 ↔
         if decide (k = mk_gateway_key (gateway_namespace g) (gw_name g)) then gw_class_name g = class_name c else k ∈ inner (gw_index c)) ∧
      (∀ p r, registered (listener_manager c) p r → registered m' p r) ∧
      (∀ p r, registered m' p r → registered (listener_manager c) p r ∨
         ∃ l, l ∈ gw_listeners g ∧ listener_registers (gateway_namespace g) (gw_name g) l p r)) as (H1 & H2 & H3 & H4).
    { split_and!; [by apply configure_listeners_ok| |apply configure_listeners_grows|apply configure_listeners_only].
      intros k. cbn [index_add snd inner]. destruct (decide _) as [->|]; set_solver. }
    destruct (ge_patch env st); cbn [listener_manager gw_index]; split_and!; try done; intros _; (split; [done|]);
      intros l p; by apply configure_listeners_installs.
  - cbn [listener_manager gw_index]. split_and!; try done; [|by left].
    intros k. cbn [index_remove snd inner]. destruct (decide _) as [->|]; set_solver.
Qed.

(** A certificate reference as the Gateway API wants it. *)
Definition cert_ref_ok (api : GatewayApi) (namespace : string) (r : CertificateRef) : Prop :=
  (cr_group r = None ∨ cr_group r = Some "" ∨ cr_group r = Some "core") ∧
  (cr_kind r = None ∨ cr_kind r = Some "Secret") ∧
  ∃ data, get_secret api (default namespace (cr_namespace r)) (cr_name r) = Ok (Some data) ∧
    "tls.crt" ∈ data ∧ "tls.key" ∈ data.

Lemma invalid_not_resolved message : (invalid_ref message).1.1 = "True" ↔ False.
Proof. split; [discriminate|done]. Qed.

(** The certificate condition is exact.  The references of a listener are reported
as resolved if and only if each of them names a Secret of the core group that exists
and has both [tls.crt] and [tls.key]. *)
Theorem certificate_refs_exact api refs namespace :
  (validate_certificate_refs api refs namespace).1.1 = "True" ↔ Forall (cert_ref_ok api namespace) refs.
Proof.
  induction refs as [|r refs IH]; cbn [validate_certificate_refs]; [done|]. rewrite Forall_cons, <- IH. clear IH.
  unfold cert_ref_ok at 1. destruct r as [group kind name ns]. cbn [cr_group cr_kind cr_name cr_namespace].
  destruct group as [grp|]; [destruct (String.eqb_spec grp "") as [->|H1]; [|destruct (String.eqb_spec grp "core") as [->|H2]]|]; cbn [negb andb].
  all: try (rewrite invalid_not_resolved; split; [done|]; intros [([?|[?|?]] & _) _]; congruence).
  all: destruct kind as [k|]; [destruct (String.eqb_spec k "Secret") as [->|Hk]|]; cbn [negb].
  all: try (rewrite invalid_not_resolved; split; [done|]; intros [(_ & [?|?] & _) _]; congruence).
  all: destruct (get_secret api (default namespace ns) name) as [[data|]|[|e]];
    try (rewrite invalid_not_resolved; split; [done|]; intros [(_ & _ & d & ? & _) _]; congruence).
  all: case_bool_decide as Hc; case_bool_decide as Hkey; cbn [andb];
    try (rewrite invalid_not_resolved; split; [done|]; intros [(_ & _ & d & [= <-] & ? & ?) _]; done).
  all: split; [intros H; split; [|done]; split_and!; [auto|auto|eauto]|by intros [_ ?]].
Qed.

(** ** What the status and the controller leave out *)

(** A listener is reported as programmed whether or not it is.  The status has, for
every listener of a Gateway of our class, Accepted and Programmed conditions that
say True, also for a listener with an unsupported protocol or one whose
registration was refused. *)
Theorem programmed_regardless env c g l :
  ours c g → l ∈ gw_listeners g →
  ∃ status ls, (reconcile_gateway env c g).2 = Some status ∧ gs_listeners status = Some ls ∧
    ∃ st, st ∈ ls ∧ ls_name st = gl_name l ∧ attached_routes st = 0 ∧
      take 2 ((λ x, (lcd_type x, lcd_status x)) <$> ls_conditions st) = [("Accepted", "True"); ("Programmed", "True")].
Proof.
  intros Ho Hl. unfold reconcile_gateway, should_reconcile. rewrite Ho, String.eqb_refl. cbn [negb].
  set (st := set_gateway_status _ _ _ _ _ _). exists st. eexists. split; [by destruct (ge_patch env st)|]. split; [done|].
  eexists. split; [by apply list_elem_of_fmap_2|]. unfold listener_status.
  by destruct (listener_refs _ _) as [[[status reason] message] kinds].
Qed.

Definition bad_listener : GatewayListener := mk_gateway_listener "udp" 53 "UDP" None None None.
Definition bad_gateway : Gateway := mk_gateway "gw" None (Some 1) "rauta" [bad_listener].
Definition plain_env : GatewayEnv :=
  mk_gateway_env (mk_gateway_api (λ _ _, Err NotFound) (Ok [])) (λ _, None) (λ _, Ok ()) "2024-01-01T00:00:00Z".
Definition plain_reconciler : GatewayReconciler :=
  mk_gateway_reconciler "rauta" (manager_new false) (index_new "rauta").

Lemma programmed_regardless_witness :
  ∃ status ls, (reconcile_gateway plain_env plain_reconciler bad_gateway).2 = Some status ∧ gs_listeners status = Some ls ∧
    ∃ st, st ∈ ls ∧ ls_name st = "udp" ∧ attached_routes st = 0 ∧
      take 2 ((λ x, (lcd_type x, lcd_status x)) <$> ls_conditions st) = [("Accepted", "True"); ("Programmed", "True")].
Proof. apply (programmed_regardless plain_env plain_reconciler bad_gateway bad_listener); [reflexivity|left]. Defined.

(** The same Gateway with other listeners, of another class. *)
Definition with_class (g : Gateway) (class : string) : Gateway :=
  mk_gateway (gw_name g) (gw_namespace g) (gw_generation g) class (gw_listeners g).

(** A Gateway that leaves the class keeps its ports.  When a Gateway changes to
another class it is taken out of the index, but none of its listeners is
unregistered: every port it opened stays open. *)
Theorem left_gateway_keeps_ports env c g class :
  class ≠ class_name c →
  let '(_, c', status) := reconcile_gateway env c (with_class g class) in
  mk_gateway_key (gateway_namespace g) (gw_name g) ∉ inner (gw_index c') ∧
  listener_manager c' = listener_manager c ∧ status = None.
Proof.
  intros Hne. unfold reconcile_gateway, should_reconcile. cbn [gw_class_name with_class].
  destruct (String.eqb_spec class (class_name c)); [done|]. cbn [negb listener_manager gw_index]. split; [|done].
  cbn [index_remove snd inner gw_namespace gw_name with_class]. unfold gateway_namespace. set_solver.
Qed.

Lemma left_gateway_keeps_ports_witness :
  let '(_, c', status) := reconcile_gateway plain_env plain_reconciler (with_class bad_gateway "other") in
  mk_gateway_key (gateway_namespace bad_gateway) (gw_name bad_gateway) ∉ inner (gw_index c') ∧
  listener_manager c' = listener_manager plain_reconciler ∧ status = None.
Proof. apply (left_gateway_keeps_ports plain_env plain_reconciler bad_gateway "other"). discriminate. Defined.

Definition good_gateway : Gateway :=
  mk_gateway "gw" None (Some 1) "rauta" [mk_gateway_listener "http" 80 "HTTP" None None None].

(** A free port of a Gateway of our class is registered, and the Gateway is in the index. *)
Lemma gateway_reconciled_witness :
  let '(_, c', status) := reconcile_gateway plain_env plain_reconciler good_gateway in
  mk_gateway_key "default" "gw" ∈ inner (gw_index c') ∧
  registered (listener_manager c') 80 (mk_gateway_ref "default" "gw" "http" None).
Proof.
  pose proof (gateway_reconciled plain_env plain_reconciler good_gateway (new_manager_ok false)) as H.
  destruct (reconcile_gateway plain_env plain_reconciler good_gateway) as [[r c'] status]. cbn zeta in H.
  destruct H as (_ & Hi & _ & _ & Hl). split.
  - apply Hi. rewrite decide_True by done. reflexivity.
  - destruct (Hl eq_refl) as [_ Hr].
    apply (Hr (mk_gateway_listener "http" 80 "HTTP" None None None) HTTP); [left|reflexivity| |by split|reflexivity].
    by intros l' ->%list_elem_of_singleton _.
Defined.
