(* ===== verification/ControlPlane.v ===== *)
(** * ControlPlane: the controllers and the router together

The Gateway controller fills the index that the HTTPRoute controller reads, and the
HTTPRoute controller fills the router that serves requests.  This file composes
[Gateway], [HttpRoute] and [Router] end to end. *)

From S2P Require Import Prelude Common Maglev Float Health HealthChecker Filters Matching RouteCache Matchit.
From S2P Require Import Selection Router RouterSpec Prefix RateLimiter.
From S2P Require Import Text Decimal GatewayIndex Validation IpText Endpoints Weights HttpRoute HttpRouteSpec.
From S2P Require Import Listeners Gateway.

#[local] Open Scope Z_scope.
#[local] Open Scope rauta_scope.

Section end_to_end.
Context {M : Type} `{!Matchit RouteKey M} `{!MapOrder}.

Abbreviation Controller := (Controller M).
Abbreviation Router := (Router M).

(** The Gateway controller's index, as the HTTPRoute controller sees it. *)
Definition share_index (c : Controller) (i : GatewayIndex) : Controller :=
  mk_controller (router c) i (rate_limiter c).

(** An HTTPRoute names a Gateway as a parent. *)
Definition names_parent (route : HTTPRoute) (g : Gateway) : Prop :=
  ∃ refs p, hr_parent_refs route = Some refs ∧ p ∈ refs ∧
    parent_key (namespace_of route) p = mk_gateway_key (gateway_namespace g) (gw_name g).

Lemma managed_by_gateway env gc g (c : Controller) route :
  ours gc g → names_parent route g →
  managed_parents (gateway_index (share_index c (gw_index (reconcile_gateway env gc g).1.2))) route ≠ [].
Proof.
  intros Ho (refs & p & Hr & Hp & Hk). unfold managed_parents. rewrite Hr. cbn [default gateway_index share_index].
  intros Hnil. assert (p ∈ @nil ParentRef) as Hin; [|by apply not_elem_of_nil in Hin]. rewrite <- Hnil.
  apply list_elem_of_filter. split; [|done]. rewrite Hk. unfold reconcile_gateway, should_reconcile.
  rewrite Ho, String.eqb_refl. cbn [negb]. destruct (ge_patch env _); cbn [fst snd gw_index index_add inner];
    fold (gateway_namespace g); set_solver.
Qed.

(** ** The router, as the controllers keep it *)

(** Only plain routes, as [add_route] makes them. *)
Definition only_plain (r : Router) : Prop := ∀ k route, routes r !! k = Some route → method_matches route = None.

(** No lookup is cached that was not cached before. *)
Definition cache_shrinks (r r' : Router) : Prop :=
  ∀ k, entries (route_cache r) !! k = None → entries (route_cache r') !! k = None.

(** What additions of routes keep: the routes are plain, no lookup is cached anew, and the
which backends may be selected stays. *)
Definition frame (r r' : Router) : Prop :=
  only_plain r' ∧ cache_shrinks r r' ∧ ∀ b, selectable r' b = selectable r b.

Lemma frame_refl (r : Router) : only_plain r → frame r r.
Proof. intros Hp. split; [done|]. split; [by intros k|done]. Qed.

Lemma frame_trans (r1 r2 r3 : Router) : frame r1 r2 → frame r2 r3 → frame r1 r3.
Proof. intros (_ & Hc & Hs) (Hp & Hc' & Hs'). split; [done|]. split; [intros k ?; by apply Hc', Hc|]. intros b. congruence. Qed.

(** A backend that is probed anew is not unhealthy yet. *)
Lemma track_healthy c hm bs b : ∀ m,
  checker_is_healthy (mk_checker c (foldl track m bs) hm) b = checker_is_healthy (mk_checker c m hm) b.
Proof.
  induction bs as [|b' bs IH]; intros m; [done|]. cbn [foldl]. rewrite IH. unfold checker_is_healthy, track, entry. cbn [states].
  destruct (decide (b' = b)) as [<-|]; [|by rewrite lookup_insert_ne]. rewrite lookup_insert_eq. by destruct (m !! b').
Qed.

Lemma start_checking_healthy h bs b : checker_is_healthy (start_checking h bs).1 b = checker_is_healthy h b.
Proof. unfold start_checking. destruct (negb _); [done|]. cbn [fst]. rewrite track_healthy. by destruct h. Qed.

Lemma add_route_frame (r : Router) method path bs res r' :
  add_route r method path bs = Ret (res, r') → only_plain r → frame r r'.
Proof.
  unfold add_route. destruct (same_backends _ _ _); [intros [= _ <-] Hp; by apply frame_refl|].
  destruct (build_table bs) as [table|]; [|done]. cbn [obind]. intros E Hp.
  assert (∀ k route, <[route_key method path := plain_route path bs table]> (routes r) !! k = Some route →
    method_matches route = None) as Hplain.
  { intros k route [[_ <-]|[_ Hl]]%lookup_insert_Some; [done|]. by eapply Hp. }
  destruct (rebuild _) as [m|e]; injection E as _ <-; (split; [exact Hplain|]);
    (split; [|intros b; unfold selectable; cbn; by rewrite start_checking_healthy]).
  - intros k Hk. cbn. apply lookup_delete_None. by right.
  - by intros k.
Qed.

Lemma add_pairs_frame pairs bs : ∀ r r' : Router, add_pairs r pairs bs = Ret r' → only_plain r → frame r r'.
Proof.
  induction pairs as [|[path method] pairs IH]; intros r r'; cbn [add_pairs].
  { intros [= <-] Hp. by apply frame_refl. }
  destruct (validate_path path); [|by apply IH].
  destruct (add_route r (default ALL method) path bs) as [[res r1]|] eqn:E; [|done]. cbn [obind snd]. intros E' Hp.
  pose proof (add_route_frame _ _ _ _ _ _ E Hp) as H1. eapply frame_trans; [exact H1|]. apply IH; [done|apply H1].
Qed.

Lemma apply_rule_frame env (c c' : Controller) ns ann rule res added res' :
  apply_rule env c ns ann rule res = Ret (c', added, res') → only_plain (router c) → frame (router c) (router c').
Proof.
  unfold apply_rule. destruct (rule_backend_refs rule) as [refs|]; [|intros [= <- _ _] Hp; by apply frame_refl].
  destruct (resolve_refs _ _ _ _ _ _) as [[services total] res0]. destruct (weighted_backends services total) as [bs|]; [|done].
  cbn [obind]. destruct bs as [|b bs]; [intros [= <- _ _] Hp; by apply frame_refl|].
  destruct (add_pairs (router c) _ _) as [r|] eqn:E; [|done]. cbn [obind]. intros [= <- _ _] Hp. by eapply add_pairs_frame.
Qed.

Lemma apply_rules_frame env ns ann rules : ∀ (c : Controller) added res x,
  apply_rules env c ns ann rules added res = Ret x → only_plain (router c) → frame (router c) (router (result_controller x)).
Proof.
  induction rules as [|rule rules IH]; intros c added res x; cbn [apply_rules].
  { intros [= <-] Hp. by apply frame_refl. }
  destruct (validate_path _); [|intros [= <-] Hp; by apply frame_refl].
  destruct (apply_rule env c ns ann rule res) as [[[c1 b] res1]|] eqn:E; [|done]. cbn [obind]. intros E' Hp.
  pose proof (apply_rule_frame _ _ _ _ _ _ _ _ _ E Hp) as H1. eapply frame_trans; [exact H1|]. eapply IH; [exact E'|apply H1].
Qed.

(** The requests that a match for [om] is for: those with its method, or, if it names none,
those with any method. *)
Definition matches_method (om : option HttpMethod) (m : HttpMethod) : Prop := om = None ∨ om = Some m.

(** The key of a match serves a request, unless the request has a key of its own. *)
Lemma resolve_pair (r : Router) (om : option HttpMethod) m path :
  matches_method om m → (om = None → m ≠ ALL → routes r !! route_key m path = None) →
  is_Some (routes r !! pair_key (path, om)) → resolve r m path = Some (pair_key (path, om)).
Proof.
  unfold matches_method, pair_key, resolve, has_route. cbn [fst snd]. intros [-> | ->] Hown Hs; [|by rewrite bool_decide_true].
  destruct (decide (m = ALL)) as [->|Hne]; [by rewrite bool_decide_true|].
  rewrite (bool_decide_false (is_Some _)) by (rewrite Hown by done; by intros [? ?]).
  by rewrite !bool_decide_true.
Qed.

(** A route in the table serves the requests for its own key that are not cached. *)
Lemma serves_request (r : Router) om m path bs src_ip src_port :
  router_ok r → only_plain r → matches_method om m → (om = None → m ≠ ALL → routes r !! route_key m path = None) →
  serves r (pair_key (path, om)) bs → bs ≠ [] →
  entries (route_cache r) !! route_key m path = None → Forall (λ b, selectable r b = true) bs →
  ∃ rm r', select_backend r m path src_ip src_port = Ret (Some rm, r') ∧ rm_backend rm ∈ bs.
Proof.
  intros Hok Hp Hm Hown (route & Hl & Hb) Hne Hc Hall.
  assert ((cached_resolve r m path).1 = Some (pair_key (path, om))) as Hres.
  { rewrite cached_resolve_miss by done. apply resolve_pair; [done..|]. rewrite Hl. eauto. }
  destruct (resolved_route_serves r m path _ route src_ip src_port Hok Hres Hl) as (rm & r' & Hs & Hin & _); [..|by rewrite Hb in Hin; eauto].
  - unfold method_allowed. by rewrite (Hp _ _ Hl).
  - by rewrite Hb.
  - by rewrite Hb.
Qed.

Lemma rule_endpoint_wf api namespace rule b : rule_endpoint api namespace rule b → backend_wf b.
Proof.
  intros (r & _ & (bs & E & Hb)%service_endpoint_resolved). apply resolved_backends_wf in E. rewrite Forall_forall in E. by apply E.
Qed.

(** C1: from resources to a served request.  A Gateway of our class is reconciled, then
an HTTPRoute that names it as a parent, whose rules all have a valid first path.  Take a
valid match of one of its rules, a reference of which with a positive weight has a ready
endpoint, and which no later rule replaces.  Then the next request to that path with the method of the
match, or with any method without a route of its own if the match names none, is given a
ready endpoint of a Service that the rule refers to, a well-formed address with a 16-bit
port.  This holds on a router with plain routes, as the controllers make them, on which
the endpoints of the rule are neither unhealthy nor draining and no older lookup of the
path is cached. *)
Theorem resources_serve_requests genv gc g env (c : Controller) route rules0 rule rules1 path om m src_ip src_port :
  let c0 := share_index c (gw_index (reconcile_gateway genv gc g).1.2) in
  ours gc g → names_parent route g →
  router_ok (router c) → only_plain (router c) → route_admissible env route →
  Forall first_valid (rules_of route) → rules_of route = rules0 ++ rule :: rules1 →
  rule_serves (env_api env) (namespace_of route) rule →
  (path, om) ∈ path_method_pairs rule → validate_path path = Ok () →
  (∀ rule', rule' ∈ rules1 → ¬ writes rule' (pair_key (path, om))) → matches_method om m →
  (om = None → m ≠ ALL →
   routes (router c) !! route_key m path = None ∧ ∀ rule', rule' ∈ rules_of route → ¬ writes rule' (route_key m path)) →
  entries (route_cache (router c)) !! route_key m path = None →
  (∀ b, rule_endpoint (env_api env) (namespace_of route) rule b → selectable (router c) b = true) →
  ∃ result c' rep rm r', reconcile env c0 route = Ret (result, c', rep) ∧
    select_backend (router c') m path src_ip src_port = Ret (Some rm, r') ∧
    rule_endpoint (env_api env) (namespace_of route) rule (rm_backend rm) ∧ backend_wf (rm_backend rm).
Proof.
  intros c0 Ho Hnp Hok Hplain Ha Hv Er Hb Hpair Hvalid Hlater Hm Hown Hcache Hsel.
  pose proof (managed_by_gateway genv gc g c route Ho Hnp) as Hman.
  destruct (reconcile_managed env c0 route Hok Ha Hman) as (i' & x & result & rep & _ & Ex & Erec & _).
  destruct (apply_rules_spec env (namespace_of route) (hr_annotations route) (rules_of route)
    (mk_controller (router c0) i' (rate_limiter c0)) 0 no_error Hok Ha) as (x' & Ex' & Hok' & _ & _ & Hkeep & Hx).
  rewrite Ex in Ex'. injection Ex' as <-. pose proof (apply_rules_frame _ _ _ _ _ _ _ _ Ex Hplain) as Hf.
  assert (rule_admissible (env_api env) (namespace_of route) rule) as Har.
  { unfold route_admissible in Ha. rewrite Er, Forall_app, Forall_cons in Ha. tauto. }
  destruct (rule_backends_spec _ _ _ Har Hb) as (_ & Hin & _). apply has_backends_serves in Hb as Hhb; [|done].
  destruct x as [c' n res|c' e].
  2:{ destruct Hx as (rule' & Hr & He). rewrite Forall_forall in Hv. specialize (Hv rule' Hr). unfold first_valid in Hv. congruence. }
  destruct Hx as (_ & _ & Hserves). specialize (Hserves rules0 rule rules1 (path, om) Er Hhb Hpair Hvalid Hlater).
  edestruct (serves_request (router c') om m path) with (5 := Hserves) as (rm & r' & E & Hrm); [exact Hok'|apply Hf|exact Hm|..].
  - intros Hom Hne. destruct (Hown Hom Hne) as [Hn Hw]. cbn [result_controller] in Hkeep. by rewrite Hkeep.
  - exact Hhb.
  - by apply Hf.
  - apply Forall_forall. intros b Hbin. rewrite (proj2 (proj2 Hf)). by apply Hsel, Hin.
  - exists result, c', rep, rm, r'. split_and!; [exact Erec|done|by apply Hin|by eapply rule_endpoint_wf, Hin].
Qed.
End end_to_end.

(** ** Witness *)
#[local] Existing Instance list_matchit.
#[local] Existing Instance key_order.

Lemma sample_plain keys : only_plain (sample_router keys).
Proof. intros k route (m & path & _ & -> & ->)%table_of_inv. done. Qed.

(** The only endpoint of the sample Service. *)
Lemma sample_endpoint_only path m b : rule_endpoint sample_api "default" (sample_rule path m) b → b = pod 1.
Proof.
  intros (r & ->%list_elem_of_singleton & (bs & E & Hb)%service_endpoint_resolved).
  vm_compute in E. injection E as <-. by apply list_elem_of_singleton in Hb as ->.
Qed.

(** A rule for any method and one for POST: a GET request is given the endpoint. *)
Lemma resources_serve_requests_witness :
  let c := sample_controller [(ALL, "/")] in
  let route := sample_route [sample_rule "/api" None; sample_rule "/api" (Some MPost)] in
  let c0 := share_index c (gw_index (reconcile_gateway plain_env plain_reconciler good_gateway).1.2) in
  ∃ result c' rep rm r', reconcile sample_env c0 route = Ret (result, c', rep) ∧
    select_backend (router c') GET "/api" None None = Ret (Some rm, r') ∧ rm_backend rm = pod 1.
Proof.
  destruct (resources_serve_requests plain_env plain_reconciler good_gateway sample_env (sample_controller [(ALL, "/")])
    (sample_route [sample_rule "/api" None; sample_rule "/api" (Some MPost)]) [] (sample_rule "/api" None)
    [sample_rule "/api" (Some MPost)] "/api" None GET None None) as (result & c' & rep & rm & r' & E & Es & Hrm & _).
  - reflexivity.
  - eexists _, _. split; [reflexivity|]. split; [left|reflexivity].
  - apply sample_router_ok.
  - apply sample_plain.
  - apply sample_route_admissible. repeat (apply Forall_cons; split; [eexists _, _; reflexivity|]). apply Forall_nil. exact I.
  - repeat (apply Forall_cons; split; [reflexivity|]). apply Forall_nil. exact I.
  - reflexivity.
  - apply sample_serves.
  - left.
  - reflexivity.
  - intros rule' ->%list_elem_of_singleton (p & ->%list_elem_of_singleton & _ & [=]).
  - by left.
  - intros _ _. split; [reflexivity|].
    intros rule' [-> | ->%list_elem_of_singleton]%elem_of_cons (p & ->%list_elem_of_singleton & _ & [=]).
  - reflexivity.
  - intros b ->%sample_endpoint_only. reflexivity.
  - exists result, c', rep, rm, r'. split; [exact E|]. split; [exact Es|]. by apply sample_endpoint_only in Hrm.
Defined.
