(* ===== verification/ListenerRequest.v ===== *)
(** * ListenerRequest: requests on a shared listener ([handle_request] of [listener_manager.rs])

The pipeline of a request that arrives on a listener of the manager: host and
method checks, selection, rate limit, circuit breaker, reading the body, and
forwarding over HTTP/1.1 or HTTP/2.  The client's body, the connections and the
answers of backends, and whether the request builder of the [http] crate refuses a
request are inputs.  A panic in the pipeline ends the task of the request without an
answer; what the task did before stays done, so the result is an answer or a panic
together with the state. *)

From S2P Require Import Prelude Common Maglev Float Health HealthChecker Filters Matching RouteCache Matchit.
From S2P Require Import Selection Router RouterSpec RateLimiter CowMap CircuitBreaker BreakerManager.

#[local] Open Scope Z_scope.
#[local] Open Scope rauta_scope.

(** ** Data *)
Inductive HttpProtocol : Type := Http1 | Http2.

#[export] Instance HttpProtocol_eq_dec : EqDecision HttpProtocol.
Proof. solve_decision. Defined.

Record ListenerReq : Type := mk_listener_req {
  lr_method : string;
  lr_host : option string;      (** the [host] header, when it is visible ASCII *)
  lr_authority : option string;
  lr_path : string;
  lr_path_and_query : option string;
  lr_headers : list (string * string);
  lr_body : result string string;
  lr_peer : option (IpAddr * Z)
}.

Record ListenerResp : Type := mk_listener_resp {
  lp_status : Z;
  lp_headers : list (string * string);
  lp_body : string
}.

Record BackendReq : Type := mk_backend_req {
  bq_method : string;
  bq_uri : string;
  bq_headers : list (string * string);
  bq_body : string
}.

(** Whether the request builder refuses a request, and what backends do: a TCP connection
and a handshake may fail, an exchange gives a response or an error. *)
Record ListenerNet : Type := mk_listener_net {
  ln_builder : BackendReq → option string;
  ln_connect : Backend → option string;
  ln_handshake : Backend → option string;
  ln_exchange : HttpProtocol → BackendReq → result ListenerResp string
}.

(** The first bytes of an HTTP/2 connection. *)
Definition HTTP2_PREFACE : list Z :=
  as_bytes "PRI * HTTP/2.0" ++ [13; 10; 13; 10] ++ as_bytes "SM" ++ [13; 10; 13; 10].

(** The choice of [serve_http_connection], from the (at most 24) bytes that a peek saw. *)
Definition is_h2c (peeked : option (list Z)) : bool :=
  match peeked with
  | Some bs => (length HTTP2_PREFACE <=? length bs)%nat && bool_decide (take (length HTTP2_PREFACE) bs = HTTP2_PREFACE)
  | None => false
  end.

(** The choice of [serve_https_connection], from the negotiated protocol. *)
Definition is_h2 (alpn : option (list Z)) : bool := bool_decide (alpn = Some (as_bytes "h2")).

Definition text_response (status : Z) (body : string) : ListenerResp := mk_listener_resp status [] body.

Definition build_bad_gateway_response : ListenerResp := text_response 502 "Bad Gateway".

(** Methods the router knows; any other is refused. *)
Definition listener_method (name : string) : option HttpMethod :=
  if String.eqb name "GET" then Some GET else if String.eqb name "POST" then Some POST
  else if String.eqb name "PUT" then Some PUT else if String.eqb name "DELETE" then Some DELETE
  else if String.eqb name "PATCH" then Some PATCH else if String.eqb name "HEAD" then Some HEAD
  else if String.eqb name "OPTIONS" then Some OPTIONS else None.

Definition host_of (req : ListenerReq) : string :=
  match lr_host req with
  | Some h => h
  | None => default "" (lr_authority req)
  end.

Definition listener_skips (name : string) : bool :=
  bool_decide (name ∈ ["connection"; "keep-alive"; "proxy-authenticate"; "proxy-authorization"; "te"; "trailer";
    "transfer-encoding"; "upgrade"; "host"]).

Definition listener_backend_id (b : Backend) : string :=
  match as_ipv4 b with
  | Some v4 => show_ipv4 (octets v4) +:+ ":" +:+ show_Z (port b)
  | None =>
      match as_ipv6 b with
      | Some v6 => "[" +:+ show_ipv6 v6 +:+ "]:" +:+ show_Z (port b)
      | None => "unknown:" +:+ show_Z (port b)
      end
  end.

(** [Display for SocketAddr], and the key of the protocol cache. *)
Definition show_socket (a : SocketAddr) : string :=
  match a with
  | V4 v4 p => show_ipv4 (octets v4) +:+ ":" +:+ show_Z p
  | V6 v6 p _ _ => "[" +:+ show_ipv6 v6 +:+ "]:" +:+ show_Z p
  end.

Definition protocol_key (host : string) (p : Z) : string := host +:+ ":" +:+ show_Z p.

Definition show_ip (a : SocketAddr) : string :=
  match a with
  | V4 v4 _ => show_ipv4 (octets v4)
  | V6 v6 _ _ _ => show_ipv6 v6
  end.

Definition socket_port (a : SocketAddr) : Z := match a with V4 _ p => p | V6 _ p _ _ => p end.

Definition backend_request (req : ListenerReq) (b : Backend) (body : string) : BackendReq :=
  let addr := to_socket_addr b in
  mk_backend_req (lr_method req)
    ("http://" +:+ show_socket addr +:+ default "/" (lr_path_and_query req))
    (filter (λ p, listener_skips p.1 = false) (lr_headers req) ++ [("host", show_socket addr)])
    body.

(** ** The pipeline *)
Section listener.
Context {M : Type} `{!Matchit RouteKey M} `{!MapOrder} `{RegexEngine}.

Record ListenerState : Type := mk_listener_state {
  ln_router : Router M;
  ln_regexes : gmap string Regex;
  ln_limiter : RateLimiter;
  ln_breakers : Manager;
  ln_protocols : gmap string HttpProtocol
}.

Definition set_backend_protocol_http2 (s : ListenerState) (backend_host : string) (backend_port : Z) : ListenerState :=
  mk_listener_state (ln_router s) (ln_regexes s) (ln_limiter s) (ln_breakers s)
    (<[protocol_key backend_host backend_port := Http2]> (ln_protocols s)).

Definition with_breakers (s : ListenerState) (m : Manager) : ListenerState :=
  mk_listener_state (ln_router s) (ln_regexes s) (ln_limiter s) m (ln_protocols s).
Definition with_limiter (s : ListenerState) (l : RateLimiter) : ListenerState :=
  mk_listener_state (ln_router s) (ln_regexes s) l (ln_breakers s) (ln_protocols s).
Definition with_regexes (s : ListenerState) (x : gmap string Regex) : ListenerState :=
  mk_listener_state (ln_router s) x (ln_limiter s) (ln_breakers s) (ln_protocols s).

(** The [expect] on the request builder. *)
Definition build_request (net : ListenerNet) (bq : BackendReq) : outcome BackendReq :=
  match ln_builder net bq with
  | Some _ => Panic
  | None => Ret bq
  end.

(** The exchange with the backend: over HTTP/2 a connection is opened first.  In both
branches the request is built before anything is sent. *)
Definition send_to_backend (net : ListenerNet) (s : ListenerState) (b : Backend) (bq : BackendReq)
  : outcome (result ListenerResp string) :=
  let addr := to_socket_addr b in
  if bool_decide (ln_protocols s !! protocol_key (show_ip addr) (socket_port addr) = Some Http2) then
    bq <-! build_request net bq ;;
    Ret match ln_connect net b with
        | Some e => Err e
        | None =>
            match ln_handshake net b with
            | Some e => Err e
            | None => ln_exchange net Http2 bq
            end
        end
  else
    bq <-! build_request net bq ;;
    Ret (ln_exchange net Http1 bq).

Definition is_server_error (status : Z) : bool := (500 <=? status) && (status <=? 599).

(** After the breaker's admission: the body, the exchange, the accounting. *)
Definition forward_admitted (net : ListenerNet) (s : ListenerState) (req : ListenerReq) (b : Backend) (later : Z)
  : outcome ListenerResp * ListenerState :=
  match lr_body req with
  | Err _ => (Ret (text_response 400 "Bad Request: Failed to read body"), s)
  | Ok body =>
      let id := listener_backend_id b in
      match send_to_backend net s b (backend_request req b body) with
      | Panic => (Panic, s)
      | Ret (Err _) => (Ret build_bad_gateway_response, with_breakers s (manager_record_failure (ln_breakers s) id later))
      | Ret (Ok resp) =>
          if is_server_error (lp_status resp)
          then (Ret resp, with_breakers s (manager_record_failure (ln_breakers s) id later))
          else (Ret resp, with_breakers s (manager_record_success (ln_breakers s) id later))
      end
  end.

(** A request for which the router found a backend. *)
Definition handle_selected (net : ListenerNet) (s : ListenerState) (req : ListenerReq) (m : RouteMatch) (now later : Z)
  : outcome ListenerResp * ListenerState :=
  let b := rm_backend m in
  let '(allowed, limiter) := check_rate_limit (ln_limiter s) (rm_pattern m) now in
  let s := with_limiter s limiter in
  if negb allowed then (Ret (text_response 429 "Too Many Requests"), s)
  else
    let '(admitted, breakers) := manager_allow_request (ln_breakers s) (listener_backend_id b) now in
    let s := with_breakers s breakers in
    if negb admitted then (Ret (text_response 503 "Service Unavailable"), s)
    else forward_admitted net s req b later.

Definition handle_listener_request (net : ListenerNet) (s : ListenerState) (req : ListenerReq) (now later : Z)
  : outcome ListenerResp * ListenerState :=
  let host := host_of req in
  if String.eqb host "" then (Ret (text_response 400 "Bad Request: Missing Host header or :authority"), s)
  else
    match listener_method (lr_method req) with
    | None => (Ret (text_response 405 "Method Not Allowed"), s)
    | Some method =>
        match select_backend_with_headers (ln_router s) (ln_regexes s) method (lr_path req) [("host", host)]
                (fst <$> lr_peer req) (snd <$> lr_peer req) with
        | Panic => (Panic, s)
        | Ret (found, regexes) =>
            let s := with_regexes s regexes in
            match found with
            | None => (Ret (text_response 404 "Not Found"), s)
            | Some m => handle_selected net s req m now later
            end
        end
    end.
End listener.
Arguments ListenerState M {_}.

(** ** What a request does *)
Section theorems.
Context {M : Type} `{!Matchit RouteKey M} `{!MapOrder} `{RegexEngine}.

Abbreviation ListenerState := (ListenerState M).

(** Both labels of a backend are its text form. *)
Lemma backend_id_text b :
  length (ip b) = 16%nat → listener_backend_id b = backend_to_string b ∧ show_socket (to_socket_addr b) = backend_to_string b.
Proof.
  intros Hl. unfold listener_backend_id, backend_to_string, as_ipv4, as_ipv6, to_socket_addr.
  destruct (is_ipv6 b); cbn [negb]; [done|]. unfold show_socket, first_octets, ip_byte.
  destruct (ip b) as [|a0 [|a1 [|a2 [|a3 l]]]]; done.
Qed.

(** *** What a request on the router means *)
Definition flow_of (req : ListenerReq) : Z :=
  compute_flow_hash (fnv1a_hash (as_bytes (lr_path req))) (fst <$> lr_peer req) (snd <$> lr_peer req).

(** A route that is the one of the request, and whose header conditions the host meets. *)
Definition route_of (r : Router M) (req : ListenerReq) (route : Route) : Prop :=
  ∃ method k, listener_method (lr_method req) = Some method ∧ resolve_uncached r method (lr_path req) = Some k ∧
    routes r !! k = Some route ∧ forallb (header_ok [("host", host_of req)]) (header_matches route) = true.

(** The backend that the request is for: the first one of its route, from the slot of its
flow on, that is neither passively unhealthy nor drained. *)
Definition routed (r : Router M) (req : ListenerReq) (route : Route) (b : Backend) : Prop :=
  route_of r req route ∧ b ∈ backends route ∧ selectable_passive r b = true ∧
  first_probed (selectable_passive r) route (flow_of req) b.

Definition unrouted (r : Router M) (req : ListenerReq) : Prop :=
  ∀ route, route_of r req route → ∀ attempt b, 0 <= attempt < 10 * Z.of_nat (length (backends route)) →
    probe (backends route) (maglev_table route) (flow_of req) attempt = Some b → selectable_passive r b = false.

(** The selection of a well-formed router never panics. *)
Lemma select_headers_total (r : Router M) regexes method req :
  router_ok r → regex_cache_ok regexes → listener_method (lr_method req) = Some method →
  ∃ found regexes', select_backend_with_headers r regexes method (lr_path req) [("host", host_of req)]
      (fst <$> lr_peer req) (snd <$> lr_peer req) = Ret (found, regexes') ∧ regex_cache_ok regexes' ∧
    match found with
    | Some m => ∃ route b, routed r req route b ∧ m = route_match route b
    | None => unrouted r req
    end.
Proof.
  intros Hok Hrx Hm. unfold select_backend_with_headers.
  assert (∀ route, route_of r req route → resolve_uncached r method (lr_path req) ≫= (λ k, routes r !! k) = Some route ∧
    forallb (header_ok [("host", host_of req)]) (header_matches route) = true) as Hof.
  { intros route (method' & k & Hm' & Hk & Hr & Hh). rewrite Hm in Hm'. injection Hm' as <-. by rewrite Hk. }
  destruct (resolve_uncached r method (lr_path req)) as [k|] eqn:Ek; cbn [mbind option_bind] in *;
    [|eexists _, _; split_and!; [done..|]; by intros route [? _]%Hof].
  destruct (routes r !! k) as [route|] eqn:El; [|eexists _, _; split_and!; [done..|]; by intros route [? _]%Hof].
  destruct (if bool_decide (header_matches route = []) then _ else _) as [ok regexes'] eqn:Eh.
  assert (ok = forallb (header_ok [("host", host_of req)]) (header_matches route) ∧ regex_cache_ok regexes') as [Hh Hrx'].
  { destruct (bool_decide (header_matches route = [])) eqn:Hnil; [apply bool_decide_eq_true in Hnil; rewrite Hnil; by injection Eh as <- <-|].
    destruct (headers_match_spec (header_matches route) [("host", host_of req)] regexes Hrx) as [<- ?]. by rewrite Eh in *. }
  destruct ok; cbn [negb].
  2:{ eexists _, _. split_and!; [done..|]. intros route' [[= <-] Hh']%Hof. congruence. }
  rewrite select_in_route_set_first by (by eapply (ro_routes r Hok)). cbn [obind]. eexists _, _. split; [done|]. split; [done|].
  fold (flow_of req). destruct (first_ok _ _ _ _ _) as [b|] eqn:Ef; cbn [fmap option_fmap option_map].
  - exists route, b. split; [|done]. split; [by exists method, k|].
    pose proof (first_ok_sound _ _ _ _ _ _ Ef) as [Hin Hs]. split; [done|]. split; [done|].
    apply first_ok_first in Ef as (a & Ha & Hp & _ & Hf). exists a. split_and!; [lia|lia|done|done].
  - intros route' [[= <-] _]%Hof a b Ha Hp. by eapply first_ok_None; [exact Ef| |exact Hp]; apply elem_of_seqZ; lia.
Qed.

(** The backend that a request goes to, its answer or panic, and its calls to the breakers. *)
Inductive traced (net : ListenerNet) (s : ListenerState) (req : ListenerReq) (now later : Z)
  : option Backend → outcome ListenerResp → list (call * Z) → Prop :=
| traced_no_host :
    host_of req = "" →
    traced net s req now later None (Ret (text_response 400 "Bad Request: Missing Host header or :authority")) []
| traced_method :
    host_of req ≠ "" → listener_method (lr_method req) = None →
    traced net s req now later None (Ret (text_response 405 "Method Not Allowed")) []
| traced_unrouted :
    host_of req ≠ "" → unrouted (ln_router s) req →
    traced net s req now later None (Ret (text_response 404 "Not Found")) []
| traced_limited route b :
    routed (ln_router s) req route b → (check_rate_limit (ln_limiter s) (pattern route) now).1 = false →
    traced net s req now later None (Ret (text_response 429 "Too Many Requests")) []
| traced_open b :
    (manager_allow_request (ln_breakers s) (listener_backend_id b) now).1 = false →
    traced net s req now later (Some b) (Ret (text_response 503 "Service Unavailable")) [(CallAllow (listener_backend_id b), now)]
| traced_no_body b e :
    (manager_allow_request (ln_breakers s) (listener_backend_id b) now).1 = true → lr_body req = Err e →
    traced net s req now later (Some b) (Ret (text_response 400 "Bad Request: Failed to read body"))
      [(CallAllow (listener_backend_id b), now)]
| traced_unbuilt b body e :
    (manager_allow_request (ln_breakers s) (listener_backend_id b) now).1 = true → lr_body req = Ok body →
    ln_builder net (backend_request req b body) = Some e →
    traced net s req now later (Some b) Panic [(CallAllow (listener_backend_id b), now)]
| traced_failed b body e :
    (manager_allow_request (ln_breakers s) (listener_backend_id b) now).1 = true → lr_body req = Ok body →
    send_to_backend net s b (backend_request req b body) = Ret (Err e) →
    traced net s req now later (Some b) (Ret build_bad_gateway_response)
      [(CallAllow (listener_backend_id b), now); (CallFailure (listener_backend_id b), later)]
| traced_answered b body resp :
    (manager_allow_request (ln_breakers s) (listener_backend_id b) now).1 = true → lr_body req = Ok body →
    send_to_backend net s b (backend_request req b body) = Ret (Ok resp) →
    traced net s req now later (Some b) (Ret resp)
      [(CallAllow (listener_backend_id b), now);
       (if is_server_error (lp_status resp) then CallFailure (listener_backend_id b)
        else CallSuccess (listener_backend_id b), later)].

Lemma send_panics net (s : ListenerState) b bq : send_to_backend net s b bq = Panic → ∃ e, ln_builder net bq = Some e.
Proof. unfold send_to_backend, build_request. destruct (ln_builder net bq) as [e|]; [eauto|]. by case_bool_decide. Qed.

Lemma handle_selected_traced net (s : ListenerState) req route b now later :
  routed (ln_router s) req route b →
  ∃ resp s' ob calls, handle_selected net s req (route_match route b) now later = (resp, s') ∧
    ln_router s' = ln_router s ∧ ln_protocols s' = ln_protocols s ∧ ln_regexes s' = ln_regexes s ∧
    ln_breakers s' = run_calls (ln_breakers s) calls ∧ traced net s req now later ob resp calls ∧
    ∀ b', ob = Some b' → b' = b ∧ (check_rate_limit (ln_limiter s) (pattern route) now).1 = true.
Proof.
  intros Hr. unfold handle_selected. cbn [route_match rm_backend rm_pattern].
  destruct (check_rate_limit _ _ _) as [allowed l] eqn:El. destruct allowed; cbn [negb].
  2:{ eexists _, _, None, []. split_and!; [done..| |done]. eapply traced_limited; [done|by rewrite El]. }
  set (id := listener_backend_id b).
  destruct (manager_allow_request (ln_breakers (with_limiter s l)) id now) as [admitted brs] eqn:Ea.
  change (ln_breakers (with_limiter s l)) with (ln_breakers s) in Ea.
  assert (run_calls (ln_breakers s) [(CallAllow id, now)] = brs) as Eb by (cbn; by rewrite Ea).
  destruct admitted; cbn [negb].
  2:{ eexists _, _, (Some _), [(CallAllow id, now)]. split_and!; [done..| | |by intros ? [= <-]]; [by rewrite Eb|]. apply traced_open. by fold id; rewrite Ea. }
  unfold forward_admitted. destruct (lr_body req) as [body|e] eqn:Ebody.
  2:{ eexists _, _, (Some _), [(CallAllow id, now)]. split_and!; [done..| | |by intros ? [= <-]]; [by rewrite Eb|]. eapply traced_no_body; [by fold id; rewrite Ea|done]. }
  change (send_to_backend net (with_breakers (with_limiter s l) brs)) with (send_to_backend net s).
  destruct (send_to_backend net s b (backend_request req b body)) as [[resp|e]|] eqn:Esend.
  - set (c := if is_server_error (lp_status resp) then CallFailure id else CallSuccess id).
    assert (traced net s req now later (Some b) (Ret resp) [(CallAllow id, now); (c, later)]) as Ht
      by (eapply traced_answered; [by fold id; rewrite Ea|done|done]).
    subst c. destruct (is_server_error (lp_status resp)); eexists _, _, _, _;
      (split_and!; [done..| |exact Ht|by intros ? [= <-]]); cbn; by rewrite Ea.
  - eexists _, _, (Some _), [(CallAllow id, now); (CallFailure id, later)]. split_and!; [done..| | |by intros ? [= <-]].
    + cbn. by rewrite Ea.
    + eapply traced_failed; [by fold id; rewrite Ea|done|done].
  - apply send_panics in Esend as [e He]. eexists _, _, (Some _), [(CallAllow id, now)]. split_and!; [done..| | |by intros ? [= <-]]; [by rewrite Eb|].
    eapply traced_unbuilt; [by fold id; rewrite Ea|done|done].
Qed.

(** The whole pipeline. *)
Lemma listener_request_traced net (s : ListenerState) req now later :
  router_ok (ln_router s) → regex_cache_ok (ln_regexes s) →
  ∃ resp s' ob calls, handle_listener_request net s req now later = (resp, s') ∧
    ln_router s' = ln_router s ∧ ln_protocols s' = ln_protocols s ∧ regex_cache_ok (ln_regexes s') ∧
    ln_breakers s' = run_calls (ln_breakers s) calls ∧ traced net s req now later ob resp calls ∧
    ∀ b, ob = Some b → ∃ route, routed (ln_router s) req route b ∧ (check_rate_limit (ln_limiter s) (pattern route) now).1 = true.
Proof.
  intros Hok Hrx. unfold handle_listener_request. destruct (String.eqb_spec (host_of req) "") as [Eh|Eh].
  { eexists _, _, None, []. split_and!; [done..| |done]. by apply traced_no_host. }
  destruct (listener_method (lr_method req)) as [method|] eqn:Em.
  2:{ eexists _, _, None, []. split_and!; [done..| |done]. by apply traced_method. }
  destruct (select_headers_total (ln_router s) (ln_regexes s) method req Hok Hrx Em) as (found & regexes' & -> & Hrx' & Hfound).
  destruct found as [m|].
  2:{ eexists _, _, None, []. split_and!; [done..| |done]. by apply traced_unrouted. }
  destruct Hfound as (route & b & Hr & ->).
  destruct (handle_selected_traced net (with_regexes s regexes') req route b now later Hr)
    as (resp & s' & ob & calls & -> & E1 & E2 & E3 & E4 & Ht & Hb).
  eexists _, _, ob, calls. split_and!; [done..|by rewrite E3|done| |].
  - inversion Ht; subst; econstructor; eauto.
  - intros b' Hb'. destruct (Hb b' Hb') as [-> ?]. by exists route.
Qed.

(** C11: a request on a listener is answered and accounted for.  On a well-formed router
the pipeline leaves the router as it is (it records no passive health), and its answer
and its calls to the breakers are one of nine cases: without any call to a breaker, 400
if there is no host, 405 for a method the router does not know, 404 if no backend of the
request's route can be selected, 429 if the limit of the route is used up; after a call,
503 if the breaker rejects; 400 for a body that cannot be read and a panic for a request
that the builder refuses, both after a breaker that admitted it and without a result
call; 502 and a failure for a failed exchange; and the backend's response, with a
failure for 5xx and a success for all else.  The backend it turns to is the first of the
request's route, from the slot of its flow on, that is neither unhealthy nor drained.
There is no other panic. *)
Theorem listener_request_accounted net (s : ListenerState) req now later :
  router_ok (ln_router s) → regex_cache_ok (ln_regexes s) →
  ∃ resp s' ob calls, handle_listener_request net s req now later = (resp, s') ∧
    ln_router s' = ln_router s ∧ ln_protocols s' = ln_protocols s ∧ regex_cache_ok (ln_regexes s') ∧
    ln_breakers s' = run_calls (ln_breakers s) calls ∧ traced net s req now later ob resp calls ∧
    (∀ b, ob = Some b → ∃ route, routed (ln_router s) req route b ∧ (check_rate_limit (ln_limiter s) (pattern route) now).1 = true) ∧
    (resp = Panic → ∃ b body e, lr_body req = Ok body ∧ ln_builder net (backend_request req b body) = Some e).
Proof.
  intros Hok Hrx. destruct (listener_request_traced net s req now later Hok Hrx) as (resp & s' & ob & calls & E & ? & ? & ? & ? & Ht & Hb).
  exists resp, s', ob, calls. split_and!; try done. intros ->. inversion Ht; subst. eauto.
Qed.

(** ** Requests that are aborted *)

(** Requests for one route whose bodies cannot be read. *)
Definition aborted (net : ListenerNet) (s : ListenerState) (m : RouteMatch) (reqs : list (ListenerReq * Z)) : ListenerState :=
  foldl (λ s '(req, now), (handle_selected net s req m now now).2) s reqs.

(** The breaker of the route's backend is half open, with [r] admissions used. *)
Definition half_open_at (s : ListenerState) (m : RouteMatch) (succ r : Z) : Prop :=
  manager_ok (ln_breakers s) ∧ buckets (ln_limiter s) !! rm_pattern m = None ∧
  ∃ cb, breaker_of (ln_breakers s) (listener_backend_id (rm_backend m)) = Some cb ∧ config_ok cb ∧
    half_open_max_requests cb = 3 ∧ packed cb = encode (VHalfOpen succ r) ∧ 0 <= succ < 3 ∧ 1 <= r <= 3.

Lemma half_open_request net (s : ListenerState) m succ r req now later e :
  half_open_at s m succ r → lr_body req = Err e →
  half_open_at (handle_selected net s req m now later).2 m succ (Z.min 3 (r + 1)).
Proof.
  intros (Hok & Hb & cb & Hcb & Hcfg & H3 & Hp & Hs & Hr) Hbody.
  set (id := listener_backend_id (rm_backend m)) in *.
  destruct (run_call_spec (ln_breakers s) (CallAllow id) now Hok) as (Hok' & _ & _ & Hbr & _ & _).
  cbn [call_id] in Hbr. rewrite Hcb in Hbr. unfold apply_call in Hbr. cbn [fst snd default from_option] in Hbr.
  unfold Datatypes.id in Hbr.
  rewrite (half_open_allow cb succ r now), H3 in Hbr by (done || lia).
  unfold handle_selected, check_rate_limit. rewrite Hb. cbn [negb]. fold id.
  change (ln_breakers (with_limiter s ?l)) with (ln_breakers s). cbn [run_call] in Hok', Hbr.
  destruct (manager_allow_request (ln_breakers s) id now) as [admitted brs]. cbn [snd] in Hok', Hbr.
  assert (∀ l, l = mk_limiter (buckets (ln_limiter s)) (rl_inc (rm_pattern m) "allowed" (rl_metrics (ln_limiter s))) →
    half_open_at (with_breakers (with_limiter s l) brs) m succ (Z.min 3 (r + 1))) as Hgoal.
  { intros l ->. split; [done|]. split; [done|]. cbn [ln_breakers with_breakers]. fold id.
    destruct (r <? 3) eqn:Er; zbool; cbn [snd] in Hbr.
    - eexists. split; [exact Hbr|]. split_and!; try done; try lia. cbn [packed CircuitBreaker.set_packed]. by rewrite Z.min_r by lia.
    - eexists. split; [exact Hbr|]. split_and!; try done; try lia. rewrite Hp. do 2 f_equal. lia. }
  destruct admitted; cbn [negb]; [|by apply Hgoal]. unfold forward_admitted. rewrite Hbody. by apply Hgoal.
Qed.

Lemma aborted_half_open net m reqs : ∀ (s : ListenerState) succ r,
  half_open_at s m succ r → Forall (λ q, ∃ e, lr_body q.1 = Err e) reqs →
  half_open_at (aborted net s m reqs) m succ (Z.min 3 (r + Z.of_nat (length reqs))).
Proof.
  induction reqs as [|[req now] reqs IH]; intros s succ r Hh Hf.
  { cbn [aborted foldl length]. destruct Hh as (? & ? & cb & ? & ? & ? & ? & ? & ?). rewrite Z.min_r by (cbn; lia).
    split; [done|]. split; [done|]. exists cb. rewrite Z.add_0_r. done. }
  apply Forall_cons in Hf as [[e He] Hf]. cbn [fst] in He.
  pose proof (half_open_request net s m succ r req now now e Hh He) as Hh1.
  pose proof (IH _ _ _ Hh1 Hf) as Hh2. unfold aborted in *. cbn [foldl length].
  replace (Z.min 3 (r + Z.of_nat (S (length reqs)))) with (Z.min 3 (Z.min 3 (r + 1) + Z.of_nat (length reqs))) by lia. done.
Qed.

(** Aborted requests shut a backend out.  While a breaker is half open each
admission uses up one of its three trials, but a request whose body cannot be read
records no result.  After as many aborted requests as trials are left, every later
request to the backend, at any time, is answered with 503. *)
Theorem aborted_bodies_block_backend net (s : ListenerState) m succ r reqs req now later :
  half_open_at s m succ r → Forall (λ q, ∃ e, lr_body q.1 = Err e) reqs → 3 - r <= Z.of_nat (length reqs) →
  (handle_selected net (aborted net s m reqs) req m now later).1 = Ret (text_response 503 "Service Unavailable").
Proof.
  intros Hh Hf Hl. pose proof (aborted_half_open net m reqs s succ r Hh Hf) as Hh'.
  assert (Z.min 3 (r + Z.of_nat (length reqs)) = 3) as E3.
  { destruct Hh as (_ & _ & cb & _ & _ & _ & _ & _ & ?). lia. }
  rewrite E3 in Hh'. destruct Hh' as (Hok & Hb & cb & Hcb & Hcfg & H3 & Hp & Hs & _).
  unfold handle_selected, check_rate_limit. rewrite Hb. cbn [negb].
  set (s' := aborted net s m reqs) in *. change (ln_breakers (with_limiter s' ?l)) with (ln_breakers s').
  set (id := listener_backend_id (rm_backend m)) in *.
  assert ((manager_allow_request (ln_breakers s') id now).1 = false) as Ha.
  { unfold manager_allow_request. pose proof (get_breaker_spec (ln_breakers s') id now Hok) as G.
    destruct (get_breaker (ln_breakers s') id now) as [a m1]. destruct G as (_ & _ & _ & _ & _ & Hd & _).
    rewrite Hd, Hcb. cbn [default from_option]. unfold Datatypes.id.
    rewrite (half_open_allow cb succ 3 now) by (done || lia). by rewrite H3. }
  destruct (manager_allow_request (ln_breakers s') id now) as [admitted brs]. cbn in Ha. by subst admitted.
Qed.
End theorems.

(** ** Witnesses *)
#[local] Existing Instance list_matchit.
#[local] Existing Instance key_order.
#[local] Existing Instance literal_engine.

Definition probed_backend : Backend := from_ipv4 (mk_ipv4 10 0 0 1) 80 100.
Definition probed_match : RouteMatch := mk_match probed_backend "/api" None None None None None.

(** The breaker of the backend is half open with one trial left. *)
Definition probed_manager : Manager :=
  mk_manager {["10.0.0.1:80" := 0%nat]}
    [CircuitBreaker.set_packed (new 5 30000000000 0) (encode (VHalfOpen 0 2))] 5 30000000000 (mk_metrics ∅ ∅ ∅ ∅).

Definition probed_state : ListenerRequest.ListenerState (list (string * RouteKey)) :=
  mk_listener_state (sample_router [(GET, "/api")]) ∅ limiter_new probed_manager ∅.

Definition working_net : ListenerNet :=
  mk_listener_net (λ _, None) (λ _, None) (λ _, None) (λ _ _, Ok (text_response 200 "ok")).

Definition listener_get (body : result string string) : ListenerReq :=
  mk_listener_req "GET" (Some "example.com") None "/api" (Some "/api") [] body None.

(** The listener before a route with two backends, the first of which is drained. *)
Definition routed_state : ListenerRequest.ListenerState (list (string * RouteKey)) :=
  mk_listener_state drained_router ∅ limiter_new probed_manager ∅.

(** The request is forwarded to the second backend and counted as a success. *)
Lemma listener_request_accounted_witness :
  let b := from_ipv4 (mk_ipv4 10 0 0 2) 80 100 in
  ∃ s' calls, handle_listener_request working_net routed_state (listener_get (Ok "")) 5 6 = (Ret (text_response 200 "ok"), s') ∧
    ln_router s' = drained_router ∧ ln_breakers s' = run_calls probed_manager calls ∧
    calls = [(CallAllow "10.0.0.2:80", 5); (CallSuccess "10.0.0.2:80", 6)] ∧
    traced working_net routed_state (listener_get (Ok "")) 5 6 (Some b) (Ret (text_response 200 "ok")) calls ∧
    ∃ route, routed drained_router (listener_get (Ok "")) route b.
Proof.
  destruct (listener_request_accounted working_net routed_state (listener_get (Ok "")) 5 6 drained_router_ok)
    as (resp & s' & ob & calls & E & Hr & _ & _ & Hbr & Ht & Hb & _); [exact regex_cache_ok_empty|].
  assert (resp = Ret (text_response 200 "ok")) as -> by (revert E; clear; vm_compute; intros E; by injection E).
  assert (ob = Some (from_ipv4 (mk_ipv4 10 0 0 2) 80 100) ∧ calls = [(CallAllow "10.0.0.2:80", 5); (CallSuccess "10.0.0.2:80", 6)]) as [-> ->].
  { inversion Ht; subst. destruct (Hb b eq_refl) as (route & ((method & k & Hm & Hk & Hl & _) & Hin & Hs & _) & _).
    change (routes (ln_router routed_state)) with ({[route_key GET "/api" := plain_route "/api" sample_backends even_table]} : gmap RouteKey Route) in Hl.
    apply lookup_singleton_Some in Hl as [_ <-]. apply elem_of_cons in Hin as [->|[->|[]%not_elem_of_nil]%elem_of_cons].
    - exfalso. revert Hs. vm_compute. discriminate.
    - split; reflexivity. }
  eexists _, _. split; [exact E|]. split; [exact Hr|]. split; [exact Hbr|]. split; [reflexivity|]. split; [exact Ht|].
  destruct (Hb _ eq_refl) as (route & Hroute & _). exists route. exact Hroute.
Defined.

(** A target that is acceptable until the address of the backend is put before it. *)
Example refused_by_builder :
  let net := mk_listener_net (λ q, if String.prefix "http://" (bq_uri q) then Some "uri too long" else None) (λ _, None) (λ _, None)
    (λ _ _, Ok (text_response 200 "ok")) in
  (handle_listener_request net routed_state (listener_get (Ok "")) 5 6).1 = Panic.
Proof. vm_compute. reflexivity. Qed.

Lemma probed_half_open : half_open_at probed_state probed_match 0 2.
Proof.
  split; [|split; [done|]].
  - split; cbn [breakers arcs ln_breakers probed_state probed_manager].
    + intros id a [<- <-]%lookup_singleton_Some. cbn. lia.
    + intros id id' a [<- <-]%lookup_singleton_Some [<- _]%lookup_singleton_Some. done.
  - eexists. split; [vm_compute; reflexivity|]. split_and!; [unfold config_ok; cbn; lia|done|done|lia..].
Qed.

Lemma aborted_bodies_block_backend_witness :
  let s := aborted working_net probed_state probed_match [(listener_get (Err "reset"), 7)] in
  (handle_selected working_net s (listener_get (Ok "")) probed_match (10 ^ 18) (10 ^ 18)).1 =
  Ret (text_response 503 "Service Unavailable").
Proof.
  apply (aborted_bodies_block_backend working_net probed_state probed_match 0 2 [(listener_get (Err "reset"), 7)]).
  - exact probed_half_open.
  - apply Forall_singleton. by exists "reset".
  - cbn. lia.
Defined.
