(* ===== verification/Forwarder.v ===== *)
(** * Forwarder: one attempt to send a request to a backend ([forwarder.rs], [worker.rs])

[forward_to_backend] reads the body, builds the backend's request, picks HTTP/1.1
or HTTP/2 from the protocol cache, gets an HTTP/2 connection from the pools of a
worker or the shared ones ([BackendPool]), sends, falls back to HTTP/1.1 when the
protocol of the backend is not known, and strips the answer.

The client's body, the connections, the answers of backends and the point at which
a timeout strikes are inputs.  A future that times out is dropped where it awaits:
what it did before stays done, which is why the points are inside the model. *)

From S2P Require Import Prelude Common BackendPool Filters Matching RequestHandler.

#[local] Open Scope Z_scope.
#[local] Open Scope rauta_scope.

(** ** Data *)

(** A body that arrives in chunks and may break off. *)
Record Body : Type := mk_body { chunks : list string; body_error : option string }.

Inductive read_error : Type := LengthLimit | ReadFailed (e : string).

Definition MAX_BODY_SIZE : Z := 10 * 1024 * 1024.

(** [Limited::collect]: it fails at the chunk that exceeds what remains of the limit. *)
Fixpoint collect_limited (remaining : Z) (cs : list string) (broken : option string) : result string read_error :=
  match cs with
  | [] => match broken with Some e => Err (ReadFailed e) | None => Ok "" end
  | c :: cs =>
      let n := Z.of_nat (String.length c) in
      if remaining <? n then Err LengthLimit
      else match collect_limited (remaining - n) cs broken with
           | Ok rest => Ok (c +:+ rest)
           | Err e => Err e
           end
  end.

Inductive protocol : Type := Http1 | Http2.

Record OutRequest : Type := mk_out_request {
  out_method : string;
  out_uri : string;
  out_headers : list (string * string);
  out_body : string
}.

(** Where a backend timeout may strike: waiting for a lock, during the [k]-th
connection of a prewarming, during a new connection, during the HTTP/2 exchange,
waiting for the protocol cache, during the fallback. *)
Inductive await_point : Type := AtLock | AtPrewarm (k : nat) | AtConnect | AtSend | AtCache | AtClient.

#[export] Instance await_point_eq_dec : EqDecision await_point.
Proof. solve_decision. Defined.

(** The message of a pool error. *)
Definition pool_error_text (e : PoolError) : string :=
  match e with
  | CircuitBreakerOpen => "Circuit breaker is open"
  | ConnectionFailed m => "Connection failed: " +:+ m
  | HandshakeFailed m => "HTTP/2 handshake failed: " +:+ m
  | NoCapacity => "No connections have capacity"
  | QueueTimeout => "Queue timeout"
  end.

(** ** Connections of a worker *)

(** The inputs of the pools during one call: of the connections of a prewarming, and
of the lookup after it. *)
Record PoolEnv : Type := mk_pool_env { warm_envs : nat → Env; get_env : Env }.

Definition store_pool (ps : BackendConnectionPools) (b : Backend) (p : Http2Pool) : BackendConnectionPools :=
  mk_pools (pools_worker_id ps) (<[backend_key_from b := p]> (pools ps)).

Definition pools_get (ps : BackendConnectionPools) (x : PoolRegistry) (b : Backend) (env : Env)
  : result nat PoolError * (BackendConnectionPools * PoolRegistry) :=
  let '(p, (ps, x)) := get_or_create_pool ps b (now env) x in
  let '(r, (p, x)) := get_connection p x env in
  (r, (store_pool ps b p, x)).

(** [Worker::get_backend_connection] *)
Definition get_backend_connection (ps : BackendConnectionPools) (x : PoolRegistry) (b : Backend) (env : PoolEnv)
  : result nat PoolError * (BackendConnectionPools * PoolRegistry) :=
  let '(ps, x) := prewarm_pool ps b x (warm_envs env) in
  pools_get ps x b (get_env env).

(** The state in which a prewarming awaits its [k]-th connection, if it does. *)
Definition prewarming_at (k : nat) (ps : BackendConnectionPools) (x : PoolRegistry) (b : Backend) (envs : nat → Env)
  : option (BackendConnectionPools * PoolRegistry) :=
  match pools ps !! backend_key_from b with
  | Some p =>
      if bool_decide (connections p = []) && (k <? max_connections p)%nat &&
         forallb (λ i, match connect (envs i) with Connects _ => true | _ => false end) (seq 0 k)
      then let '(p, x) := prewarm_loop p x (envs <$> seq 0 k) in Some (store_pool ps b p, x)
      else None
  | None => None
  end.

(** The state in which [get_connection] awaits a new connection, if it does. *)
Definition connecting (ps : BackendConnectionPools) (x : PoolRegistry) (b : Backend) (env : Env)
  : option (BackendConnectionPools * PoolRegistry) :=
  let '(p, (ps, x)) := get_or_create_pool ps b (now env) x in
  match check_breaker p env with
  | None => None
  | Some p =>
      let '(p, x) := cleanup p x in
      match find_ready env (connections p) (next_conn_index p) 0 (length (connections p)) with
      | Some _ => None
      | None => if (length (connections p) <? max_connections p)%nat then Some (store_pool ps b p, x) else None
      end
  end.

(** Getting a sender, unless the timeout strikes first; [warm] for a worker. *)
Definition acquire (strikes : option await_point) (warm : bool) (ps : BackendConnectionPools) (x : PoolRegistry)
    (b : Backend) (env : PoolEnv) : option (result nat PoolError) * (BackendConnectionPools * PoolRegistry) :=
  let get ps x :=
    match strikes, connecting ps x b (get_env env) with
    | Some AtConnect, Some s => (None, s)
    | _, _ => let '(r, s) := pools_get ps x b (get_env env) in (Some r, s)
    end in
  match strikes with
  | Some AtLock => (None, (ps, x))
  | _ =>
      if warm then
        match strikes ≫= λ a, match a with AtPrewarm k => prewarming_at k ps x b (warm_envs env) | _ => None end with
        | Some s => (None, s)
        | None => let '(ps, x) := prewarm_pool ps b x (warm_envs env) in get ps x
        end
      else get ps x
  end.

(** ** Forwarding *)
Section forwarder.
Context {Hdr : Type} `{!HeaderMap Hdr}.

Abbreviation Response := (Response Hdr).
Abbreviation Request := (Request Hdr).

Record Forwarder : Type := mk_forwarder {
  backend_pools : BackendConnectionPools;
  workers : option (list BackendConnectionPools);
  protocol_cache : gmap string bool;
  registry : PoolRegistry
}.

Record BackendNet : Type := mk_backend_net {
  (** Whether the request builder refuses a request. *)
  builder : OutRequest → option string;
  send_http2 : nat → OutRequest → result Response string;
  client_http1 : OutRequest → result Response string;
  pool_env : PoolEnv;
  strikes : option await_point
}.

Definition read_body (method : string) (body : Body) : result string ProxyError :=
  if bool_decide (method ∈ ["GET"; "HEAD"; "DELETE"]) then Ok ""
  else match collect_limited MAX_BODY_SIZE (chunks body) (body_error body) with
       | Ok bytes => Ok bytes
       | Err LengthLimit => Err (BodyTooLarge 0 MAX_BODY_SIZE)
       | Err (ReadFailed e) => Err (BackendError ("Failed to read request body: " +:+ e))
       end.

(** The URI is written to a buffer of 512 bytes or, if it is longer, to the heap: the
same text. *)
Definition backend_uri (b : Backend) (path_and_query : option string) : string :=
  "http://" +:+ backend_to_string b +:+ default "/" path_and_query.

Definition forwards_header (name : string) : bool := negb (String.eqb name "host") && negb (is_hop_by_hop_header name).

Definition backend_request (req : Request) (b : Backend) (body : string) : OutRequest :=
  mk_out_request (req_method req) (backend_uri b (req_path_and_query req))
    (filter (λ h, forwards_header h.1 = true) (hm_iter (req_headers req)) ++ [("host", backend_to_string b)]) body.

Definition fallback_request (req : Request) (b : Backend) (body : string) : OutRequest :=
  mk_out_request (req_method req) (backend_uri b (req_path_and_query req)) [("host", backend_to_string b)] body.

Definition set_pools (s : Forwarder) (worker : option nat) (ps : BackendConnectionPools) (x : PoolRegistry) : Forwarder :=
  match worker, workers s with
  | Some i, Some ws => mk_forwarder (backend_pools s) (Some (<[i := ps]> ws)) (protocol_cache s) x
  | _, _ => mk_forwarder ps (workers s) (protocol_cache s) x
  end.

Definition cache_http1 (s : Forwarder) (b : Backend) : Forwarder :=
  mk_forwarder (backend_pools s) (workers s) (<[backend_to_string b := false]> (protocol_cache s)) (registry s).

(** The pools a request uses: those of its worker (an index out of range panics), or
the shared ones; and whether they are prewarmed. *)
Definition pools_for (s : Forwarder) (worker : option nat) : outcome (bool * BackendConnectionPools) :=
  match workers s, worker with
  | Some ws, Some i => match ws !! i with Some ps => Ret (true, ps) | None => Panic end
  | _, _ => Ret (false, backend_pools s)
  end.

Definition pool_failure (warm : bool) (e : PoolError) : string :=
  match e with
  | CircuitBreakerOpen => "Circuit breaker open"
  | _ => (if warm then "Failed to get HTTP/2 connection from worker: " else "Failed to get HTTP/2 connection: ") +:+
         pool_error_text e
  end.

(** An answer of the inner future; [None] if the timeout struck. *)
Abbreviation answer := (option (result Response string)).
Abbreviation sent := (list (protocol * OutRequest)).

Definition client_answer (r : result Response string) : result Response string :=
  match r with
  | Ok resp => Ok resp
  | Err e => Err ("Backend connection failed: " +:+ e)
  end.

(** The exchange over HTTP/1.1. *)
Definition exchange_http1 (net : BackendNet) (strikes : option await_point) (q : OutRequest) : answer * sent :=
  (if bool_decide (strikes = Some AtClient) then None else Some (client_answer (client_http1 net q)), [(Http1, q)]).

(** The exchange over HTTP/2, with the fallback if the protocol was not known. *)
Definition exchange_http2 (net : BackendNet) (strikes : option await_point) (s : Forwarder) (req : Request) (b : Backend)
    (q : OutRequest) (fallback_body : option string) (sender : nat) : answer * Forwarder * sent :=
  if bool_decide (strikes = Some AtSend) then (None, s, [(Http2, q)])
  else match send_http2 net sender q with
       | Ok resp => (Some (Ok resp), s, [(Http2, q)])
       | Err e =>
           match fallback_body with
           | None => (Some (Err ("HTTP/2 backend connection failed: " +:+ e)), s, [(Http2, q)])
           | Some body =>
               if bool_decide (strikes = Some AtCache) then (None, s, [(Http2, q)])
               else
                 let s := cache_http1 s b in
                 let fq := fallback_request req b body in
                 match builder net fq with
                 | Some e => (Some (Err ("Failed to build fallback request: " +:+ e)), s, [(Http2, q)])
                 | None =>
                     let '(a, q1) := exchange_http1 net strikes fq in
                     (a, s, (Http2, q) :: q1)
                 end
           end
       end.

(** The inner future. *)
Definition backend_exchange (net : BackendNet) (strikes : option await_point) (s : Forwarder) (req : Request) (b : Backend)
    (worker : option nat) (q : OutRequest) (use_http2 : bool) (fallback_body : option string)
  : outcome (answer * Forwarder * sent) :=
  if use_http2 then
    w <-! pools_for s worker ;;
    let '(warm, ps) := w in
    let '(r, (ps, x)) := acquire strikes warm ps (registry s) b (pool_env net) in
    let s := set_pools s worker ps x in
    match r with
    | None => Ret (None, s, [])
    | Some (Err e) => Ret (Some (Err (pool_failure warm e)), s, [])
    | Some (Ok sender) => Ret (exchange_http2 net strikes s req b q fallback_body sender)
    end
  else
    let '(a, q1) := exchange_http1 net strikes q in Ret (a, s, q1).

(** The answer without hop-by-hop headers. *)
Definition strip_response (resp : Response) : Response :=
  let headers_to_remove :=
    filter (λ n, is_hop_by_hop_header n = true) (remove_dups (hm_iter (resp_headers resp)).*1) in
  mk_response (resp_status resp) (foldl hm_remove (resp_headers resp) headers_to_remove) (resp_body resp).

Definition finish (timeout : option Z) (a : answer) : result Response ProxyError :=
  match a with
  | Some (Ok resp) => Ok (strip_response resp)
  | Some (Err e) => Err (BackendError e)
  | None =>
      Err (TimeoutError ("Backend request exceeded " +:+ show_Z (as_millis (default 0 timeout)) +:+ "ms timeout"))
  end.

Definition forward_to_backend (net : BackendNet) (s : Forwarder) (req : Request) (body : Body) (b : Backend)
    (worker : option nat) (timeout_config : option Timeout) : outcome (result Response ProxyError * Forwarder * sent) :=
  match read_body (req_method req) body with
  | Err e => Ret (Err e, s, [])
  | Ok body_bytes =>
      let q := backend_request req b body_bytes in
      let protocol_cached := protocol_cache s !! backend_to_string b in
      match builder net q with
      | Some e => Ret (Err (BackendError ("Failed to build backend request: " +:+ e)), s, [])
      | None =>
          let '(use_http2, body_for_fallback) :=
            match protocol_cached with
            | Some true => (true, None)
            | Some false => (false, None)
            | None => (true, Some body_bytes)
            end in
          let backend_timeout := timeout_config ≫= backend_request_timeout in
          let strikes := match backend_timeout with Some _ => strikes net | None => None end in
          x <-! backend_exchange net strikes s req b worker q use_http2 body_for_fallback ;;
          let '(a, s, q1) := x in
          Ret (finish backend_timeout a, s, q1)
      end
  end.

(** [ProxyServer::set_backend_protocol_http2] *)
Definition set_protocol_http2 (s : Forwarder) (backend_host : string) (backend_port : Z) : Forwarder :=
  mk_forwarder (backend_pools s) (workers s)
    (<[backend_host +:+ ":" +:+ show_Z backend_port := true]> (protocol_cache s)) (registry s).
End forwarder.
Arguments BackendNet Hdr : clear implicits.

(** ** What is sent, and what comes back *)
Section sending.
Context {Hdr : Type} `{!HeaderMap Hdr}.

Abbreviation Response := (Response Hdr).
Abbreviation Request := (Request Hdr).
Implicit Types (s : Forwarder) (req : Request) (net : BackendNet Hdr).

(** Where a header of the removed names was, it is gone; the others are as before. *)
Lemma get_removes names : ∀ (h : Hdr) k, get_all (foldl hm_remove h names) k = if decide (k ∈ names) then [] else get_all h k.
Proof.
  induction names as [|n names IH]; intros h k; [by rewrite decide_False by apply not_elem_of_nil|].
  cbn [foldl]. rewrite IH, get_remove. repeat case_decide; set_solver.
Qed.

Lemma strip_response_headers (resp : Response) k :
  get_all (resp_headers (strip_response resp)) k = if is_hop_by_hop_header k then [] else get_all (resp_headers resp) k.
Proof.
  unfold strip_response. cbn [resp_headers]. rewrite get_removes.
  destruct (is_hop_by_hop_header k) eqn:E; case_decide as Hin; try done.
  - rewrite list_elem_of_filter, elem_of_remove_dups in Hin. rewrite <- iter_get.
    destruct (filter _ _) as [|[n v] l] eqn:Ef; [done|]. exfalso. apply Hin. split; [done|].
    assert ((n, v) ∈ filter (λ p : string * string, p.1 = k) (hm_iter (resp_headers resp))) as H by (rewrite Ef; left).
    apply list_elem_of_filter in H as [<- H]. apply list_elem_of_fmap. by exists (n, v).
  - apply list_elem_of_filter in Hin as [Hin _]. congruence.
Qed.

(** The index of a worker is in range. *)
Definition worker_ok s (worker : option nat) : Prop :=
  ∀ ws i, workers s = Some ws → worker = Some i → is_Some (ws !! i).

Lemma pools_for_ok s worker : worker_ok s worker → ∃ warm ps, pools_for s worker = Ret (warm, ps).
Proof.
  intros Hw. unfold pools_for, worker_ok in *. destruct (workers s) as [ws|]; [|eauto]. destruct worker as [i|]; [|eauto].
  destruct (Hw ws i eq_refl eq_refl) as [ps ->]. eauto.
Qed.

Lemma pools_for_panics s worker : pools_for s worker = Panic → ¬ worker_ok s worker.
Proof. intros E Hw%pools_for_ok. destruct Hw as (? & ? & Hx). congruence. Qed.

(** A request as the backend should get it. *)
Definition carries req (b : Backend) (bytes : string) (q : OutRequest) : Prop :=
  out_method q = req_method req ∧ out_uri q = backend_uri b (req_path_and_query req) ∧ out_body q = bytes ∧
  Forall (λ h, is_hop_by_hop_header h.1 = false) (out_headers q) ∧
  filter (λ h, h.1 = "host") (out_headers q) = [("host", backend_to_string b)].

Lemma filter_no_host (l : list (string * string)) :
  filter (λ h, h.1 = "host") (filter (λ h, forwards_header h.1 = true) l) = [].
Proof.
  induction l as [|[n v] l IH]; [done|]. rewrite filter_cons. case_decide as Hn; [|done].
  rewrite filter_cons, decide_False, IH; [done|]. cbn in *. intros ->. done.
Qed.

Lemma backend_request_carries req b bytes : carries req b bytes (backend_request req b bytes).
Proof.
  split_and!; [done..| |]; cbn [out_headers backend_request].
  - apply Forall_app. split; [|by repeat constructor]. apply Forall_forall. intros [n v] [Hn _]%list_elem_of_filter.
    cbn in *. unfold forwards_header in Hn. apply andb_true_iff in Hn as [_ Hn]. by apply negb_true_iff in Hn.
  - by rewrite filter_app, filter_no_host.
Qed.

Lemma fallback_request_carries req b bytes : carries req b bytes (fallback_request req b bytes).
Proof. split_and!; [done..| |done]. by repeat constructor. Qed.

(** What one exchange does: its answer, the requests it sent, and whether the backend
was found to speak HTTP/1.1 only. *)
Inductive exchanged net req b bytes (known : option bool)
  : option (result Response string) → list (protocol * OutRequest) → bool → Prop :=
| ex_unsent a :
    known ≠ Some false → a = None ∨ (∃ e, a = Some (Err e)) → exchanged net req b bytes known a [] false
| ex_http1 a :
    let q := backend_request req b bytes in
    known = Some false → a = None ∨ a = Some (client_answer (client_http1 net q)) →
    exchanged net req b bytes known a [(Http1, q)] false
| ex_http2 a :
    let q := backend_request req b bytes in
    known ≠ Some false →
    a = None ∨ (∃ e, a = Some (Err e)) ∨ (∃ sender resp, send_http2 net sender q = Ok resp ∧ a = Some (Ok resp)) →
    exchanged net req b bytes known a [(Http2, q)] false
| ex_no_fallback e :
    known = None → exchanged net req b bytes known (Some (Err e)) [(Http2, backend_request req b bytes)] true
| ex_fallback a :
    let q := fallback_request req b bytes in
    known = None → a = None ∨ a = Some (client_answer (client_http1 net q)) →
    exchanged net req b bytes known a [(Http2, backend_request req b bytes); (Http1, q)] true.

Lemma exchange_http1_spec net strikes q :
  ∃ a, exchange_http1 net strikes q = (a, [(Http1, q)]) ∧ (a = None ∨ a = Some (client_answer (client_http1 net q))).
Proof. unfold exchange_http1. case_bool_decide; eauto. Qed.

Lemma exchange_http2_spec net strikes s req b bytes known sender :
  known ≠ Some false →
  ∃ a sent (learned : bool),
    exchange_http2 net strikes s req b (backend_request req b bytes)
      (match known with None => Some bytes | _ => None end) sender =
      (a, (if learned then cache_http1 s b else s), sent) ∧
    exchanged net req b bytes known a sent learned.
Proof.
  intros Hk. unfold exchange_http2. set (q := backend_request req b bytes).
  case_bool_decide; [by eexists _, _, false; split; [done|constructor; [done|left]]|].
  destruct (send_http2 net sender q) as [resp|e] eqn:Es.
  { eexists _, _, false. split; [done|]. constructor; [done|]. right; right. by exists sender, resp. }
  destruct known as [[]|].
  - eexists _, _, false. split; [done|]. constructor; [done|]. right; left. eauto.
  - done.
  - case_bool_decide; [by eexists _, _, false; split; [done|constructor; [done|left]]|].
    destruct (builder net (fallback_request req b bytes)) as [e'|]; [by eexists _, _, true; split; [done|constructor]|].
    destruct (exchange_http1_spec net strikes (fallback_request req b bytes)) as (a & -> & Ha).
    eexists _, _, true. split; [done|]. by constructor.
Qed.

Lemma set_pools_cache s worker ps x : protocol_cache (set_pools s worker ps x) = protocol_cache s.
Proof. unfold set_pools. by destruct worker, (workers s). Qed.

Lemma cache_http1_cache s b : protocol_cache (cache_http1 s b) = <[backend_to_string b := false]> (protocol_cache s).
Proof. done. Qed.

(** Without a timeout an answer is always reached. *)
Lemma acquire_unstruck warm ps x b env : ∃ r p, acquire None warm ps x b env = (Some r, p).
Proof.
  unfold acquire. cbn [mbind option_bind]. destruct warm; [destruct (prewarm_pool ps b x (warm_envs env))|];
    match goal with |- context [pools_get ?a ?b ?c ?d] => destruct (pools_get a b c d) end; eauto.
Qed.

Lemma exchange_http2_unstruck net s req b q fb sender :
  ∃ r s' sent, exchange_http2 net None s req b q fb sender = (Some r, s', sent).
Proof.
  unfold exchange_http2, exchange_http1. rewrite !bool_decide_false by done.
  destruct (send_http2 net sender q); [eauto|]. destruct fb; [|eauto]. destruct (builder net _); eauto.
Qed.

(** The whole attempt: nothing is sent if the body or the request is refused;
otherwise it is one of the exchanges. *)
Lemma forward_cases net s req body b worker timeout r s' sent :
  forward_to_backend net s req body b worker timeout = Ret (r, s', sent) →
  let known := protocol_cache s !! backend_to_string b in
  ∃ learned : bool,
    protocol_cache s' = (if learned then <[backend_to_string b := false]> (protocol_cache s) else protocol_cache s) ∧
    (known = Some false → s' = s) ∧
    ((sent = [] ∧ learned = false ∧ s' = s ∧ ∃ e, r = Err e ∧
       (read_body (req_method req) body = Err e ∨ ∃ m, e = BackendError m)) ∨
     ∃ bytes a, read_body (req_method req) body = Ok bytes ∧ exchanged net req b bytes known a sent learned ∧
       r = finish (timeout ≫= backend_request_timeout) a ∧
       (a = None → is_Some (timeout ≫= backend_request_timeout) ∧ is_Some (strikes net))).
Proof.
  intros E known. unfold forward_to_backend in E. destruct (read_body (req_method req) body) as [bytes|e].
  2:{ injection E as <- <- <-. exists false. split_and!; [done..|]. left. eauto 10. }
  destruct (builder net (backend_request req b bytes)) as [e|].
  { injection E as <- <- <-. exists false. split_and!; [done..|]. left. eauto 10. }
  fold known in E. set (strikes' := match timeout ≫= backend_request_timeout with Some _ => strikes net | None => None end) in E.
  assert (∀ a : option (result Response string), (strikes' = None → a ≠ None) → a = None →
    is_Some (timeout ≫= backend_request_timeout) ∧ is_Some (strikes net)) as Htime.
  { intros a Ha ->. destruct (timeout ≫= backend_request_timeout), (strikes net); try (by destruct (Ha eq_refl)). done. }
  destruct (decide (known = Some false)) as [Ek|Ek].
  - rewrite Ek in E. unfold backend_exchange, exchange_http1 in E. cbn [obind] in E. injection E as <- <- <-. exists false.
    split_and!; [done..|]. right. eexists _, _. split; [done|]. split; [|split; [done|]].
    + constructor; [done|]. case_bool_decide; eauto.
    + apply Htime. intros ->. by rewrite bool_decide_false.
  - assert (∃ fb, match known with Some true => (true, None) | Some false => (false, None) | None => (true, Some bytes) end = (true, fb) ∧
      fb = match known with None => Some bytes | _ => None end) as (fb & Efb & ->) by (destruct known as [[]|]; eauto; done).
    rewrite Efb in E. unfold backend_exchange in E. destruct (pools_for s worker) as [[warm ps]|]; [|done]. cbn [obind] in E.
    destruct (acquire strikes' warm ps (registry s) b (pool_env net)) as [ra [ps' x']] eqn:Eacq.
    set (s1 := set_pools s worker ps' x') in E.
    assert (protocol_cache s1 = protocol_cache s) as Ec by apply set_pools_cache.
    destruct ra as [[sender|e]|].
    + destruct (exchange_http2_spec net strikes' s1 req b bytes known sender Ek) as (a & sent' & learned & Ex & Hex).
      rewrite Ex in E. cbn [obind] in E. injection E as <- <- <-. exists learned.
      split; [destruct learned; [by rewrite cache_http1_cache, Ec|done]|]. split; [done|].
      right. exists bytes, a. split_and!; try done. apply Htime. intros Hs.
      rewrite Hs in Ex. destruct (exchange_http2_unstruck net s1 req b (backend_request req b bytes)
        (match known with None => Some bytes | _ => None end) sender) as (? & ? & ? & ?). congruence.
    + cbn [obind] in E. injection E as <- <- <-. exists false. split; [exact Ec|]. split; [done|]. right. exists bytes, (Some (Err (pool_failure warm e))).
      split; [done|]. split; [constructor; eauto|]. split; done.
    + cbn [obind] in E. injection E as <- <- <-. exists false. split; [exact Ec|]. split; [done|]. right. exists bytes, None. split; [done|].
      split; [constructor; eauto|]. split; [done|]. apply Htime. intros Hs.
      rewrite Hs in Eacq. destruct (acquire_unstruck warm ps (registry s) b (pool_env net)) as (? & ? & ?); congruence.
Qed.

Lemma forward_total net s req body b worker timeout :
  worker_ok s worker → ∃ r s' sent, forward_to_backend net s req body b worker timeout = Ret (r, s', sent).
Proof.
  intros Hw. unfold forward_to_backend. destruct (read_body _ _) as [bytes|]; [|eauto]. destruct (builder net _); [eauto|].
  destruct (match protocol_cache s !! backend_to_string b with Some true => _ | _ => _ end) as [[] fb]; unfold backend_exchange.
  - destruct (pools_for_ok s worker Hw) as (warm & ps & ->). cbn [obind].
    destruct (acquire _ warm ps (registry s) b (pool_env net)) as [ra [ps' x']].
    destruct ra as [[sender|e]|]; cbn [obind]; eauto. destruct (exchange_http2 _ _ _ _ _ _ _ _) as [[??] ?]. cbn [obind]. eauto.
  - destruct (exchange_http1 _ _ _). cbn [obind]. eauto.
Qed.

(** A response of the network to a request that was sent. *)
Definition responds net (x : protocol * OutRequest) (resp : Response) : Prop :=
  match x.1 with
  | Http1 => client_http1 net x.2 = Ok resp
  | Http2 => ∃ sender, send_http2 net sender x.2 = Ok resp
  end.

(** The requests of one attempt: over HTTP/1.1 exactly to a backend known to speak it,
over HTTP/2 otherwise, and a second one only to a backend not known, without the
client's headers. *)
Definition sent_ok req b (known : option bool) (sent : list (protocol * OutRequest)) : Prop :=
  match sent with
  | [] => True
  | [(Http1, q)] => known = Some false ∧ q = backend_request req b (out_body q)
  | [(Http2, q)] => known ≠ Some false ∧ q = backend_request req b (out_body q)
  | [(Http2, q); (Http1, q')] =>
      known = None ∧ q = backend_request req b (out_body q) ∧ out_headers q' = [("host", backend_to_string b)]
  | _ => False
  end.

Lemma exchanged_sent net req b bytes known a sent learned :
  exchanged net req b bytes known a sent learned →
  sent_ok req b known sent ∧ Forall (λ x, carries req b bytes x.2) sent ∧
  (∀ resp, a = Some (Ok resp) → ∃ x, last sent = Some x ∧ responds net x resp).
Proof.
  destruct 1 as [a Hk Ha|a q Hk Ha|a q Hk Ha|e Hk|a q Hk Ha].
  - split_and!; [done..|]. intros resp ->. destruct Ha as [|[]]; done.
  - split_and!; [by cbn|repeat constructor; apply backend_request_carries|]. intros resp ->. destruct Ha as [|Ha]; [done|].
    eexists. split; [done|]. unfold client_answer in Ha. cbn. destruct (client_http1 net q); congruence.
  - split_and!; [by cbn|repeat constructor; apply backend_request_carries|]. intros resp ->.
    destruct Ha as [|[[]|(sender & resp' & Hs & Ha)]]; [done..|]. eexists. split; [done|]. exists sender. cbn. congruence.
  - split_and!; [by cbn; rewrite Hk|repeat constructor; apply backend_request_carries|done].
  - split_and!; [by cbn|repeat constructor; apply backend_request_carries || apply fallback_request_carries|].
    intros resp ->. destruct Ha as [|Ha]; [done|]. eexists. split; [done|].
    unfold client_answer in Ha. cbn. destruct (client_http1 net q); congruence.
Qed.

(** *** The body of the client *)
Definition has_body (method : string) : bool := negb (bool_decide (method ∈ ["GET"; "HEAD"; "DELETE"])).

Definition body_size (body : Body) : Z := foldr (λ c n, Z.of_nat (String.length c) + n) 0 (chunks body).

Definition body_text (body : Body) : string := foldr (λ c t, c +:+ t) "" (chunks body).

Lemma collect_limited_spec cs broken : ∀ remaining,
  collect_limited remaining cs broken =
    if remaining <? foldr (λ c n, Z.of_nat (String.length c) + n) 0 cs then
      match cs with [] => collect_limited remaining [] broken | _ => Err LengthLimit end
    else match broken with Some e => Err (ReadFailed e) | None => Ok (foldr (λ c t, c +:+ t) "" cs) end.
Proof.
  assert (∀ cs : list string, 0 <= foldr (λ c n, Z.of_nat (String.length c) + n) 0 cs) as Hpos.
  { clear. induction cs as [|c cs IH]; cbn; lia. }
  induction cs as [|c cs IH]; intros remaining; cbn [collect_limited foldr]; [by destruct (_ <? _)|]. specialize (Hpos cs).
  set (n := Z.of_nat (String.length c)). set (m := foldr _ 0 cs) in *.
  destruct (remaining <? n) eqn:E1; zbool; [rewrite (proj2 (Z.ltb_lt _ _)) by lia; done|]. rewrite IH. fold m.
  replace (remaining <? n + m) with (remaining - n <? m) by (destruct (remaining - n <? m) eqn:E; zbool; symmetry; [apply Z.ltb_lt|apply Z.ltb_ge]; lia).
  destruct (remaining - n <? m) eqn:E; zbool; [|by destruct broken]. destruct cs; [cbn in m; lia|done].
Qed.

(** Reading it: none for the methods without; else all of it, up to the limit. *)
Lemma read_body_spec method body :
  read_body method body =
    if has_body method then
      if MAX_BODY_SIZE <? body_size body then Err (BodyTooLarge 0 MAX_BODY_SIZE)
      else match body_error body with
           | Some e => Err (BackendError ("Failed to read request body: " +:+ e))
           | None => Ok (body_text body)
           end
    else Ok "".
Proof.
  unfold read_body, has_body. case_bool_decide; cbn [negb]; [done|]. rewrite collect_limited_spec. unfold body_size, body_text.
  destruct (_ <? _) eqn:E; [|by destruct (body_error body)]. by destruct (chunks body); [vm_compute in E|].
Qed.

(** C12: an attempt is faithful.  Whatever the network does and wherever a timeout
strikes, an attempt with a valid worker index ends.  Unless the method is GET, HEAD or
DELETE, a body over the limit, or one that breaks off, ends it with its error before
anything is sent.  Every request it sends has the client's method, path and query and the
whole body (none for GET, HEAD and DELETE), no hop-by-hop header, and exactly one [host],
that of the backend; there are at most two, as [sent_ok] says.  A response is the
network's to the last of them, with its status and body and without its hop-by-hop
headers; a timeout is reported only if one is configured and has struck, and a body over
the limit only if there is one. *)
Theorem forward_faithful net s req body b worker timeout :
  worker_ok s worker →
  ∃ r s' sent, forward_to_backend net s req body b worker timeout = Ret (r, s', sent) ∧
    sent_ok req b (protocol_cache s !! backend_to_string b) sent ∧
    Forall (λ x, carries req b (if has_body (req_method req) then body_text body else "") x.2) sent ∧
    (has_body (req_method req) = true → MAX_BODY_SIZE < body_size body →
       r = Err (BodyTooLarge 0 MAX_BODY_SIZE) ∧ sent = [] ∧ s' = s) ∧
    (∀ e, has_body (req_method req) = true → body_size body <= MAX_BODY_SIZE → body_error body = Some e →
       r = Err (BackendError ("Failed to read request body: " +:+ e)) ∧ sent = [] ∧ s' = s) ∧
    match r with
    | Ok resp => ∃ x resp0, last sent = Some x ∧ responds net x resp0 ∧
        resp_status resp = resp_status resp0 ∧ resp_body resp = resp_body resp0 ∧
        ∀ k, get_all (resp_headers resp) k = if is_hop_by_hop_header k then [] else get_all (resp_headers resp0) k
    | Err (TimeoutError m) => ∃ d, timeout ≫= backend_request_timeout = Some d ∧ is_Some (strikes net) ∧
        m = "Backend request exceeded " +:+ show_Z (as_millis d) +:+ "ms timeout"
    | Err (BodyTooLarge size max) =>
        size = 0 ∧ max = MAX_BODY_SIZE ∧ has_body (req_method req) = true ∧ MAX_BODY_SIZE < body_size body
    | Err (BackendError _) => True
    | Err (FilterError _) => False
    end.
Proof.
  intros Hw. destruct (forward_total net s req body b worker timeout Hw) as (r & s' & sent & E).
  destruct (forward_cases _ _ _ _ _ _ _ _ _ _ E) as (learned & _ & _ & Hc).
  exists r, s', sent. split; [done|]. pose proof (read_body_spec (req_method req) body) as Hbody.
  destruct Hc as [(-> & _ & -> & e & -> & He)|(bytes & a & Hb & Hex & -> & Htime)].
  - unfold forward_to_backend in E.
    destruct (read_body (req_method req) body) as [bytes|e'] eqn:Er.
    + destruct He as [|[m ->]]; [done|]. split_and!; try done; intros; destruct (has_body _); try done; destruct (_ <? _) eqn:El; zbool; try done; try lia;
        destruct (body_error body); done.
    + injection E as <-. destruct (has_body (req_method req)); [|done].
      destruct (MAX_BODY_SIZE <? body_size body) eqn:El; zbool.
      * injection Hbody as ->. split_and!; try done. intros; lia.
      * destruct (body_error body) as [e0|]; [|done]. injection Hbody as ->. split_and!; try done; [lia|]. by intros e _ _ [= ->].
  - rewrite Hb in Hbody. destruct (exchanged_sent _ _ _ _ _ _ _ _ Hex) as (Hso & Hca & Hre). split; [done|].
    assert (bytes = (if has_body (req_method req) then body_text body else "") ∧
      (has_body (req_method req) = true → body_size body <= MAX_BODY_SIZE ∧ body_error body = None)) as [-> Hok].
    { destruct (has_body _); [|by injection Hbody as ->]. destruct (_ <? _) eqn:El; zbool; [done|]. destruct (body_error body); [done|].
      by injection Hbody as ->. }
    split; [done|]. split; [intros Hh; destruct (Hok Hh); lia|]. split; [intros e Hh _; destruct (Hok Hh); congruence|].
    destruct a as [[resp|e]|]; cbn [finish]; [|done|].
    + destruct (Hre resp eq_refl) as (x & Hx & Hr). exists x, resp. split_and!; try done. intros k. apply strip_response_headers.
    + destruct (Htime eq_refl) as [[d ->] Hst]. by exists d.
Qed.

(** ** What is learned about protocols *)
Record forward_call : Type := mk_call {
  fc_net : BackendNet Hdr; fc_req : Request; fc_body : Body; fc_backend : Backend; fc_worker : option nat;
  fc_timeout : option Timeout
}.

(** A run of attempts; the requests each of them sent. *)
Fixpoint forwards s (calls : list forward_call) : outcome (Forwarder * list (list (protocol * OutRequest))) :=
  match calls with
  | [] => Ret (s, [])
  | c :: calls =>
      x <-! forward_to_backend (fc_net c) s (fc_req c) (fc_body c) (fc_backend c) (fc_worker c) (fc_timeout c) ;;
      y <-! forwards x.1.2 calls ;;
      Ret (y.1, x.2 :: y.2)
  end.

(** Between two states of a run: a protocol once known stays, and only HTTP/1.1 is
ever learned. *)
Definition cache_step (c c' : gmap string bool) : Prop :=
  ∀ k, match c !! k with
       | Some p => c' !! k = Some p
       | None => c' !! k = None ∨ c' !! k = Some false
       end.

#[local] Instance cache_step_preorder : PreOrder cache_step.
Proof.
  split.
  - intros c k. destruct (c !! k); eauto.
  - intros c1 c2 c3 H1 H2 k. specialize (H1 k). specialize (H2 k).
    destruct (c1 !! k); [by rewrite H1 in H2|]. destruct H1 as [H1|H1]; rewrite H1 in H2; eauto.
Qed.

Lemma exchanged_learned net req b bytes known a sent : exchanged net req b bytes known a sent true → known = None.
Proof. by inversion 1. Qed.

Lemma forward_step net s req body b worker timeout r s' sent :
  forward_to_backend net s req body b worker timeout = Ret (r, s', sent) →
  cache_step (protocol_cache s) (protocol_cache s') ∧
  sent_ok req b (protocol_cache s !! backend_to_string b) sent ∧
  (protocol_cache s !! backend_to_string b = Some false → s' = s).
Proof.
  intros E. destruct (forward_cases _ _ _ _ _ _ _ _ _ _ E) as (learned & Ec & Hs & Hc). split; [|split; [|done]].
  - rewrite Ec. destruct learned; [|done]. destruct Hc as [(_ & ? & _)|(bytes & a & _ & Hex%exchanged_learned & _)]; [done|].
    intros k. destruct (decide (k = backend_to_string b)) as [->|Hne].
    + rewrite Hex, lookup_insert_eq. by right.
    + rewrite lookup_insert_ne by done. destruct (protocol_cache s !! k); eauto.
  - destruct Hc as [(-> & _)|(bytes & a & _ & Hex & _)]; [done|]. by apply exchanged_sent in Hex as [? _].
Qed.

Lemma forwards_step calls : ∀ s s' trace,
  forwards s calls = Ret (s', trace) → cache_step (protocol_cache s) (protocol_cache s').
Proof.
  induction calls as [|c calls IH]; intros s s' trace E; cbn [forwards] in E; [by injection E as <- _|].
  destruct (forward_to_backend _ _ _ _ _ _ _) as [[[r s1] sent]|] eqn:Ef; [|done]. cbn [obind fst snd] in E.
  destruct (forwards s1 calls) as [[s2 t]|] eqn:Er; [|done]. cbn in E. injection E as <- _.
  etrans; [by eapply forward_step|by eapply IH].
Qed.

(** What the forwarder learns.  Over any run of attempts a backend known to speak
HTTP/1.1 stays so: every later attempt sends it at most one request, over HTTP/1.1,
with all the client's headers, and leaves the connection pools alone.  HTTP/2 is
never learned: a backend that was not marked stays unknown or becomes HTTP/1.1,
however often HTTP/2 succeeds. *)
Theorem protocols_learned s calls s' trace c r s'' sent :
  forwards s calls = Ret (s', trace) →
  forward_to_backend (fc_net c) s' (fc_req c) (fc_body c) (fc_backend c) (fc_worker c) (fc_timeout c) = Ret (r, s'', sent) →
  let key := backend_to_string (fc_backend c) in
  (protocol_cache s !! key = Some false →
     s'' = s' ∧ (sent = [] ∨ ∃ q, sent = [(Http1, q)] ∧ q = backend_request (fc_req c) (fc_backend c) (out_body q))) ∧
  (protocol_cache s'' !! key = Some true → protocol_cache s !! key = Some true).
Proof.
  intros Hrun E key. pose proof (forwards_step _ _ _ _ Hrun key) as H1.
  destruct (forward_step _ _ _ _ _ _ _ _ _ _ E) as (H2 & Hsent & Hs). specialize (H2 key). fold key in Hsent, Hs.
  split.
  - intros Ek. rewrite Ek in H1. split; [by apply Hs|]. rewrite H1 in Hsent.
    destruct sent as [|[[] q] [|[[] q'] [|]]]; cbn in Hsent; try done; [by left|right|naive_solver|naive_solver].
    exists q. naive_solver.
  - intros Et. destruct (protocol_cache s !! key) as [p|]; [rewrite H1 in H2; congruence|].
    destruct H1 as [H1|H1]; rewrite H1 in H2; [destruct H2|]; congruence.
Qed.
End sending.

(** ** The pools of a worker *)

(** A run of accesses to one backend, with a function to get a connection. *)
Fixpoint accesses
    (get : BackendConnectionPools → PoolRegistry → PoolEnv → result nat PoolError * (BackendConnectionPools * PoolRegistry))
    (ps : BackendConnectionPools) (x : PoolRegistry) (envs : list PoolEnv)
  : list (result nat PoolError) * (BackendConnectionPools * PoolRegistry) :=
  match envs with
  | [] => ([], (ps, x))
  | env :: envs =>
      let '(r, (ps, x)) := get ps x env in
      let '(rs, px) := accesses get ps x envs in (r :: rs, px)
  end.

Definition worker_get (b : Backend) ps x env := get_backend_connection ps x b env.
Definition plain_get (b : Backend) ps x env := pools_get ps x b (get_env env).

(** The pool of a backend has a connection. *)
Definition warmed (ps : BackendConnectionPools) (b : Backend) : Prop :=
  ∃ p, pools ps !! backend_key_from b = Some p ∧ pool_ok p ∧ connections p ≠ [].

Lemma get_connection_keeps p x env r p' x' :
  pool_ok p → connections p ≠ [] → get_connection p x env = (r, (p', x')) → pool_ok p' ∧ connections p' ≠ [].
Proof.
  intros Hok Hne E. destruct (get_connection_spec _ _ _ _ _ _ Hok E) as (Hs & Hok' & _). split; [done|].
  destruct r as [n|[]]; cbn [get_spec] in Hs.
  - destruct Hs as [(i & c & Hi & _ & _ & ->)|(_ & _ & _ & Hs)].
    + intros H. apply (f_equal length) in H. rewrite length_insert in H. by destruct (connections p).
    + intros H. rewrite H in Hs. by destruct (sender <$> connections p).
  - by destruct Hs as [_ ->].
  - by destruct Hs as (_ & _ & _ & ->).
  - by destruct Hs as (_ & _ & _ & ->).
  - by destruct Hs as (_ & _ & ->).
  - done.
Qed.

Lemma warmed_get ps x b env :
  warmed ps b → prewarm_pool ps b x (warm_envs env) = (ps, x) ∧ warmed (plain_get b ps x env).2.1 b.
Proof.
  intros (p & Hp & Hok & Hne). unfold prewarm_pool, plain_get, pools_get, get_or_create_pool. rewrite Hp.
  split; [by rewrite decide_False|]. destruct (get_connection p x (get_env env)) as [r [p' x']] eqn:E.
  destruct (get_connection_keeps _ _ _ _ _ _ Hok Hne E) as [Hok' Hne']. exists p'. cbn. by rewrite lookup_insert_eq.
Qed.

Lemma warmed_accesses b envs : ∀ ps x, warmed ps b → accesses (worker_get b) ps x envs = accesses (plain_get b) ps x envs.
Proof.
  induction envs as [|env envs IH]; intros ps x Hw; [done|]. cbn [accesses].
  destruct (warmed_get ps x b env Hw) as [E Hw']. unfold worker_get at 1, get_backend_connection. rewrite E.
  fold (plain_get b ps x env). destruct (plain_get b ps x env) as [r [ps' x']]. by rewrite IH.
Qed.

(** The first access to a backend. *)
Lemma fresh_get ps x b env s :
  pools ps !! backend_key_from b = None → connect (get_env env) = Connects s →
  ∃ p ps' x', worker_get b ps x env = (Ok s, (ps', x')) ∧ plain_get b ps x env = (Ok s, (ps', x')) ∧
    pools ps' !! backend_key_from b = Some p ∧ pool_ok p ∧ sender <$> connections p = [s] ∧
    health_state p = Healthy ∧ next_conn_index p = 0%nat.
Proof.
  intros Hnone Hc.
  assert (worker_get b ps x env = plain_get b ps x env) as ->.
  { unfold worker_get, get_backend_connection, prewarm_pool. by rewrite Hnone. }
  unfold plain_get, pools_get, get_or_create_pool. rewrite Hnone.
  pose proof (pool_new_ok b (pools_worker_id ps) (now (get_env env)) x) as Hok.
  destruct (pool_new b (pools_worker_id ps) (now (get_env env)) x) as [p x1] eqn:En. cbn [fst] in Hok.
  assert (connections p = [] ∧ health_state p = Healthy ∧ max_connections p = 8%nat ∧ next_conn_index p = 0%nat) as (H1 & H2 & H3 & H4)
    by (unfold pool_new in En; injection En as <- _; done).
  destruct (get_connection p x1 (get_env env)) as [r [p' x']] eqn:Eg.
  destruct (get_connection_spec _ _ _ _ _ _ Hok Eg) as (_ & Hok' & _).
  unfold get_connection, check_breaker in Eg. rewrite decide_False in Eg by (by rewrite H2).
  rewrite cleanup_id in Eg by (by rewrite H1). rewrite H1, H3 in Eg. cbn [length find_ready Nat.ltb Nat.leb] in Eg.
  unfold create_connection in Eg. rewrite Hc in Eg. injection Eg as <- <- <-.
  eexists _, _, _. split; [done|]. split; [done|]. cbn [pools store_pool]. rewrite lookup_insert_eq. split; [done|]. split; [done|].
  cbn [connections set_connections set_metrics health_state next_conn_index].
  unfold record_success. cbn [health_state set_last_success set_health]. rewrite decide_False by (by rewrite H2).
  cbn [connections set_last_success set_health health_state next_conn_index]. by rewrite H1, H2, H4.
Qed.

(** A healthy pool is never prewarmed.  The worker asks for a prewarming before the
pool of the backend exists, and later only if the pool is empty: if the first
connection succeeds, all accesses are those of a worker that never prewarms, and
the first one opens a single connection. *)
Theorem first_access_not_prewarmed ps x b env s envs :
  pools ps !! backend_key_from b = None → connect (get_env env) = Connects s →
  accesses (worker_get b) ps x (env :: envs) = accesses (plain_get b) ps x (env :: envs) ∧
  ∃ p, pools (worker_get b ps x env).2.1 !! backend_key_from b = Some p ∧ length (connections p) = 1%nat.
Proof.
  intros Hnone Hc. destruct (fresh_get ps x b env s Hnone Hc) as (p & ps' & x' & Ew & Ep & Hp & Hok & Hs & _).
  cbn [accesses]. rewrite Ew, Ep. split; [|exists p; split; [done|]; by rewrite <- (length_fmap sender), Hs].
  rewrite warmed_accesses; [done|]. exists p. split_and!; try done. by destruct (connections p).
Qed.

(** Pools are shared across address families.  The key of a pool is the sixteen
bytes of the address and the port, and an IPv4 address has its bytes first: the
IPv6 address with the same bytes has the same pool, so a request for the one
backend is sent over a connection of the other, although their labels differ. *)
Theorem pool_key_confuses_families ps x a p w4 w6 env4 env6 s :
  let b4 := from_ipv4 a p w4 in
  let b6 := from_ipv6 (octets a ++ replicate 12 0) p w6 in
  backend_wf b4 → backend_wf b6 → pools ps !! backend_key_from b4 = None →
  connect (get_env env4) = Connects s → ready (get_env env6) s = true →
  let '(r4, (ps4, x4)) := worker_get b4 ps x env4 in
  r4 = Ok s ∧ (worker_get b6 ps4 x4 env6).1 = Ok s ∧ backend_to_string b4 ≠ backend_to_string b6.
Proof.
  intros b4 b6 Hw4 Hw6 Hnone Hc Hr.
  destruct (fresh_get ps x b4 env4 s Hnone Hc) as (q & ps' & x' & -> & _ & Hq & Hok & Hs & Hh & Hi).
  change (backend_key_from b4) with (backend_key_from b6) in Hq. split; [done|]. split.
  - assert (warmed ps' b6) as Hwarm by (exists q; split_and!; try done; by destruct (connections q)).
    destruct (warmed_get ps' x' b6 env6 Hwarm) as [E _]. unfold worker_get, get_backend_connection. rewrite E.
    unfold pools_get, get_or_create_pool. rewrite Hq. unfold get_connection, check_breaker.
    rewrite decide_False by (by rewrite Hh). rewrite cleanup_id by apply (ok_active q Hok). rewrite Hi.
    pose proof (ok_active q Hok) as Ha. destruct (connections q) as [|c [|]]; [done| |done]. injection Hs as <-.
    apply Forall_cons in Ha as [Ha _]. assert (find_ready (get_env env6) [c] 0 0 (length [c]) = Some 0%nat) as ->; [|done].
    cbn. by rewrite bool_decide_true, Hr.
  - intros E. apply backend_label_injective in E as [E _]; done.
Qed.

(** ** Witnesses *)

Definition plain_request : Request assoc_headers :=
  mk_request "POST" (mk_target None None None "/api" None) [("content-type", "text/plain"); ("connection", "close"); ("host", "a")]
    (Some "/api") None.

Definition up_env : PoolEnv := mk_pool_env (λ i, mk_env 1 1 (λ _, true) (Connects i)) (mk_env 1 1 (λ _, true) (Connects 7)).

(** A backend that speaks HTTP/1.1 only. *)
Definition http1_net : BackendNet assoc_headers :=
  mk_backend_net (λ _, None) (λ _ _, Err "reset") (λ _, Ok (mk_response 200 [("connection", "close"); ("x", "1")] "hi")) up_env None.

Definition cold : Forwarder := mk_forwarder (pools_new 0) (Some [pools_new 0; pools_new 1]) ∅ registry_new.

Definition b1 : Backend := from_ipv4 (mk_ipv4 10 0 0 1) 80 100.

Example fallback_drops_headers :
  match forward_to_backend http1_net cold plain_request (mk_body ["ab"; "c"] None) b1 (Some 1%nat) None with
  | Ret (r, s, sent) =>
      r = Ok (mk_response 200 [("x", "1")] "hi") ∧ protocol_cache s !! "10.0.0.1:80" = Some false ∧
      ((λ x, (out_headers x.2, out_body x.2)) <$> sent) =
        [([("content-type", "text/plain"); ("host", "10.0.0.1:80")], "abc"); ([("host", "10.0.0.1:80")], "abc")]
  | Panic => False
  end.
Proof. vm_compute. done. Qed.

(** A POST whose body comes in two chunks reaches the backend whole. *)
Lemma forward_faithful_witness :
  ∃ r s' sent, forward_to_backend http1_net cold plain_request (mk_body ["ab"; "c"] None) b1 (Some 1%nat) None = Ret (r, s', sent) ∧
    sent ≠ [] ∧ sent_ok plain_request b1 (protocol_cache cold !! backend_to_string b1) sent ∧
    Forall (λ x, carries plain_request b1 "abc" x.2) sent.
Proof.
  destruct (forward_faithful http1_net cold plain_request (mk_body ["ab"; "c"] None) b1 (Some 1%nat) None) as (r & s' & sent & E & Hs & Hc & _).
  { intros ws i [= <-] [= <-]. by eexists. }
  exists r, s', sent. split; [exact E|]. split; [|split; [exact Hs|exact Hc]]. intros ->. revert E. vm_compute. discriminate.
Defined.

Definition post_call : forward_call := mk_call http1_net plain_request (mk_body ["abc"] None) b1 (Some 0%nat) None.

Lemma protocols_learned_witness :
  ∃ s' trace r s'' sent, forwards (cache_http1 cold b1) [post_call] = Ret (s', trace) ∧
    forward_to_backend http1_net s' plain_request (mk_body ["abc"] None) b1 (Some 0%nat) None = Ret (r, s'', sent) ∧
    (protocol_cache (cache_http1 cold b1) !! backend_to_string b1 = Some false →
       s'' = s' ∧ (sent = [] ∨ ∃ q, sent = [(Http1, q)] ∧ q = backend_request plain_request b1 (out_body q))) ∧
    (protocol_cache s'' !! backend_to_string b1 = Some true → protocol_cache (cache_http1 cold b1) !! backend_to_string b1 = Some true).
Proof.
  eexists _, _, _, _, _. split; [reflexivity|]. split; [reflexivity|].
  eapply (protocols_learned (cache_http1 cold b1) [post_call] _ _ post_call); reflexivity.
Defined.

Lemma first_access_not_prewarmed_witness :
  accesses (worker_get b1) (pools_new 0) registry_new [up_env; up_env] =
    accesses (plain_get b1) (pools_new 0) registry_new [up_env; up_env] ∧
  ∃ p, pools (worker_get b1 (pools_new 0) registry_new up_env).2.1 !! backend_key_from b1 = Some p ∧
    length (connections p) = 1%nat.
Proof. apply (first_access_not_prewarmed (pools_new 0) registry_new b1 up_env 7 [up_env]); reflexivity. Defined.

Lemma pool_key_confuses_families_witness :
  let b4 := from_ipv4 (mk_ipv4 32 1 13 184) 80 100 in
  let b6 := from_ipv6 ([32; 1; 13; 184] ++ replicate 12 0) 80 100 in
  let '(r4, (ps4, x4)) := worker_get b4 (pools_new 0) registry_new up_env in
  r4 = Ok 7%nat ∧ (worker_get b6 ps4 x4 up_env).1 = Ok 7%nat ∧ backend_to_string b4 ≠ backend_to_string b6.
Proof.
  apply (pool_key_confuses_families (pools_new 0) registry_new (mk_ipv4 32 1 13 184) 80 100 100 up_env up_env 7).
  - apply from_ipv4_wf; [repeat constructor; vm_compute; done|vm_compute; done..].
  - apply from_ipv6_wf; [done|repeat constructor; vm_compute; done|vm_compute; done..].
  - reflexivity.
  - reflexivity.
  - reflexivity.
Defined.
