(* ===== verification/EndpointWatch.v ===== *)
(** * EndpointWatch: the EndpointSlice watcher ([endpointslice_watcher.rs])

The watcher keeps every EndpointSlice of every Service, by the name of the Service
and of the slice; when one changes it gathers the backends of all slices of the
Service and updates the routes that use it.  The events of the API server, and the
iteration order of a [HashMap], are inputs. *)

From S2P Require Import Prelude Common Maglev Float Health HealthChecker Filters Matching RouteCache Matchit.
From S2P Require Import Selection Router RouterSpec Text Decimal IpText Endpoints.

#[local] Open Scope Z_scope.
#[local] Open Scope rauta_scope.

(** ** Data *)
Record WatchedSlice : Type := mk_watched {
  ws_namespace : option string;
  ws_name : string;
  ws_labels : option (gmap string string);
  (** [ports[]]: name and port, each optional *)
  ws_ports : option (list (option string * option Z));
  ws_endpoints : list Endpoint
}.

(** The slices of a Service by name; all of them by Service. *)
Abbreviation slices := (gmap string WatchedSlice).

Record Watcher : Type := mk_watcher {
  service_routes : gmap string (list string);
  service_slices : gmap string slices
}.

Definition watcher_new : Watcher := mk_watcher ∅ ∅.

Inductive watch_event : Type :=
| EvApply (s : WatchedSlice)
| EvInitApply (s : WatchedSlice)
| EvDelete (s : WatchedSlice)
| EvInit
| EvInitDone
| EvError (e : string).

(** The order in which the values of a [HashMap] are iterated. *)
Class SliceOrder : Type := {
  iter_slices : slices → list WatchedSlice;
  iter_slices_perm : ∀ m, iter_slices m ≡ₚ (map_to_list m).*2
}.

Definition SERVICE_LABEL : string := "kubernetes.io/service-name".

Definition slice_namespace (s : WatchedSlice) : string := default "default" (ws_namespace s).

(** ** Backends of a Service *)

(** The copy of [parse_endpointslice_to_backends] in this file. *)
Definition watched_backends (s : WatchedSlice) (target_port : Z) : list Backend :=
  parse_endpointslice_to_backends (mk_slice ((λ ports : list (option string * option Z), ports.*2) <$> ws_ports s) (ws_endpoints s)) target_port.

Definition watched_port (s : WatchedSlice) : Z :=
  default 8080
    (ws_ports s ≫= λ ports,
       match List.find (λ p, bool_decide (p.1 = Some "http")) ports with
       | Some p => p.2
       | None => head ports ≫= snd
       end).

(** Backends whose address was not seen before, and the addresses seen. *)
Fixpoint push_new (seen : list (list Z)) (bs : list Backend) : list Backend * list (list Z) :=
  match bs with
  | [] => ([], seen)
  | b :: bs =>
      if bool_decide (ip_bytes b ∈ seen) then push_new seen bs
      else let '(rest, seen) := push_new (ip_bytes b :: seen) bs in (b :: rest, seen)
  end.

Section watcher.
Context {M : Type} `{!Matchit RouteKey M} `{!MapOrder} `{!SliceOrder}.

Definition aggregate_backends_for_service (all : gmap string slices) (service_key : string) (target_port : Z)
  : list Backend :=
  match all !! service_key with
  | Some ss =>
      (foldl (λ '(bs, seen) s, let '(fresh, seen) := push_new seen (watched_backends s target_port) in (bs ++ fresh, seen))
         ([], []) (iter_slices ss)).1
  | None => []
  end.

(** [update_route_backends(GET, path, backends)?] for every route of the Service. *)
Fixpoint update_routes (r : Router M) (paths : list string) (bs : list Backend) : outcome (result unit string * Router M) :=
  match paths with
  | [] => Ret (Ok (), r)
  | path :: paths =>
      x <-! update_route_backends r GET path bs ;;
      match x with
      | (Ok _, r) => update_routes r paths bs
      | (Err e, r) => Ret (Err e, r)
      end
  end.

Definition handle_endpointslice_apply (w : Watcher) (r : Router M) (s : WatchedSlice)
  : outcome (result unit string * Watcher * Router M) :=
  let namespace := slice_namespace s in
  match ws_labels s ≫= λ l, l !! SERVICE_LABEL with
  | None =>
      Ret (Err ("EndpointSlice " +:+ namespace +:+ "/" +:+ ws_name s +:+ " missing kubernetes.io/service-name label"), w, r)
  | Some service_name =>
      let service_key := namespace +:+ "/" +:+ service_name in
      let all := <[service_key := <[ws_name s := s]> (default ∅ (service_slices w !! service_key))]> (service_slices w) in
      let w := mk_watcher (service_routes w) all in
      match aggregate_backends_for_service all service_key (as_u16 (watched_port s)) with
      | [] => Ret (Ok (), w, r)
      | bs =>
          match service_routes w !! service_key with
          | Some paths => x <-! update_routes r paths bs ;; Ret (x.1, w, x.2)
          | None => Ret (Ok (), w, r)
          end
      end
  end.

(** The branch of the loop for a deleted slice. *)
Definition handle_delete (w : Watcher) (s : WatchedSlice) : Watcher :=
  let service_name := default "" (ws_labels s ≫= λ l, l !! SERVICE_LABEL) in
  let service_key := slice_namespace s +:+ "/" +:+ service_name in
  match service_slices w !! service_key with
  | Some ss =>
      let ss := delete (ws_name s) ss in
      if bool_decide (ss = ∅)
      then mk_watcher (delete service_key (service_routes w)) (delete service_key (service_slices w))
      else mk_watcher (service_routes w) (<[service_key := ss]> (service_slices w))
  | None => w
  end.

(** One turn of the loop of [watch_endpointslices]; an error is only logged. *)
Definition watch_turn (w : Watcher) (r : Router M) (e : watch_event) : outcome (Watcher * Router M) :=
  match e with
  | EvApply s | EvInitApply s => x <-! handle_endpointslice_apply w r s ;; Ret (x.1.2, x.2)
  | EvDelete s => Ret (handle_delete w s, r)
  | EvInit | EvInitDone | EvError _ => Ret (w, r)
  end.

Fixpoint watch_endpointslices (w : Watcher) (r : Router M) (events : list watch_event) : outcome (Watcher * Router M) :=
  match events with
  | [] => Ret (w, r)
  | e :: events => x <-! watch_turn w r e ;; watch_endpointslices x.1 x.2 events
  end.

(** ** Specification: what is tracked is the last that was heard *)
Definition service_of (s : WatchedSlice) : option string := ws_labels s ≫= λ l, l !! SERVICE_LABEL.

(** The key under which an event files its slice. *)
Definition filed (s : WatchedSlice) (service : string) : string := slice_namespace s +:+ "/" +:+ service.

(** [past] has the latest event first. *)
Fixpoint tracked (past : list watch_event) (key name : string) : option WatchedSlice :=
  match past with
  | [] => None
  | (EvApply s | EvInitApply s) :: past =>
      if bool_decide (filed s <$> service_of s = Some key ∧ ws_name s = name) then Some s else tracked past key name
  | EvDelete s :: past =>
      if bool_decide (filed s (default "" (service_of s)) = key ∧ ws_name s = name) then None else tracked past key name
  | _ :: past => tracked past key name
  end.

Definition slice_at (w : Watcher) (key name : string) : option WatchedSlice :=
  service_slices w !! key ≫= λ ss, ss !! name.

(** No Service is kept without a slice. *)
Definition no_empty (w : Watcher) : Prop := ∀ key ss, service_slices w !! key = Some ss → ss ≠ ∅.

(** A watcher that has heard [past]. *)
Definition heard (past : list watch_event) (w : Watcher) : Prop :=
  service_routes w = ∅ ∧ no_empty w ∧ ∀ key name, slice_at w key name = tracked past key name.

Lemma apply_heard past w (r : Router M) s :
  heard past w → ∃ res w', handle_endpointslice_apply w r s = Ret (res, w', r) ∧ heard (EvApply s :: past) w'.
Proof.
  intros (Hr & Hne & Ht). unfold handle_endpointslice_apply. fold (service_of s).
  destruct (service_of s) as [service|] eqn:Es.
  2:{ eexists _, _. split; [done|]. split_and!; [done..|]. intros key name. cbn [tracked]. rewrite Es. cbn.
      rewrite bool_decide_false by naive_solver. apply Ht. }
  fold (filed s service). set (key0 := filed s service).
  set (w' := mk_watcher (service_routes w) (<[key0 := <[ws_name s := s]> (default ∅ (service_slices w !! key0))]> (service_slices w))).
  assert (heard (EvApply s :: past) w') as Hw'.
  { split_and!; [done| |].
    - intros key ss Hss. unfold w' in Hss. cbn [service_slices] in Hss.
      apply lookup_insert_Some in Hss as [[<- <-]|[_ Hss]]; [|by eapply Hne]. apply insert_non_empty.
    - intros key name. cbn [tracked]. rewrite Es. cbn [fmap option_fmap option_map]. fold key0. unfold slice_at, w'. cbn [service_slices].
      destruct (decide (key = key0)) as [->|Hk].
      + rewrite lookup_insert_eq. cbn [mbind option_bind]. destruct (decide (name = ws_name s)) as [->|Hn].
        * by rewrite lookup_insert_eq, bool_decide_true.
        * rewrite lookup_insert_ne, bool_decide_false by naive_solver. rewrite <- Ht. unfold slice_at.
          by destruct (service_slices w !! key0).
      + rewrite lookup_insert_ne, bool_decide_false by naive_solver. apply Ht. }
  exists (Ok ()), w'. split; [|done].
  change (<[key0 := _]> (service_slices w)) with (service_slices w').
  destruct (aggregate_backends_for_service _ _ _); [done|]. by rewrite (proj1 Hw'), lookup_empty.
Qed.

Lemma delete_heard past w s : heard past w → heard (EvDelete s :: past) (handle_delete w s).
Proof.
  intros (Hr & Hne & Ht). unfold handle_delete. fold (service_of s). fold (filed s (default "" (service_of s))).
  set (key0 := filed s (default "" (service_of s))).
  assert (∀ w', service_routes w' = ∅ → no_empty w' →
    (∀ key, key ≠ key0 → service_slices w' !! key = service_slices w !! key) →
    (∀ name, slice_at w' key0 name = if decide (name = ws_name s) then None else slice_at w key0 name) →
    heard (EvDelete s :: past) w') as Hheard.
  { intros w' H1 H2 H3 H4. split_and!; [done..|]. intros key name. cbn [tracked]. fold key0.
    destruct (decide (key = key0)) as [->|Hk].
    - rewrite H4, Ht. case_decide; [by rewrite bool_decide_true|by rewrite bool_decide_false by naive_solver].
    - rewrite bool_decide_false by naive_solver. rewrite <- Ht. unfold slice_at. by rewrite H3. }
  destruct (service_slices w !! key0) as [ss|] eqn:E.
  - case_bool_decide as He; apply Hheard; cbn [service_routes service_slices]; try done.
    + by rewrite Hr, delete_empty.
    + intros key ss' Hss. cbn in Hss. apply lookup_delete_Some in Hss as [_ Hss]. by eapply Hne.
    + intros key Hk. by rewrite lookup_delete_ne.
    + intros name. unfold slice_at. cbn [service_slices]. rewrite lookup_delete_eq, E. cbn. case_decide as Hn; [done|].
      rewrite <- (lookup_delete_ne ss (ws_name s) name), He by done. by rewrite lookup_empty.
    + intros key ss' Hss. cbn in Hss. apply lookup_insert_Some in Hss as [[_ <-]|[_ Hss]]; [done|by eapply Hne].
    + intros key Hk. by rewrite lookup_insert_ne.
    + intros name. unfold slice_at. cbn [service_slices]. rewrite lookup_insert_eq, E. cbn. case_decide as Hn.
      * subst. apply lookup_delete_eq.
      * by rewrite lookup_delete_ne.
  - apply Hheard; try done. intros name. unfold slice_at. rewrite E. by case_decide.
Qed.

Lemma turn_heard past w (r : Router M) e :
  heard past w → ∃ w', watch_turn w r e = Ret (w', r) ∧ heard (e :: past) w'.
Proof.
  intros Hh. destruct e as [s|s|s| | |m]; cbn [watch_turn]; try (eexists; split; [reflexivity|exact Hh]).
  - destruct (apply_heard past w r s Hh) as (res & w' & -> & Hw'). eauto.
  - destruct (apply_heard past w r s Hh) as (res & w' & -> & Hw'). eauto.
  - eexists. split; [reflexivity|]. by apply delete_heard.
Qed.

Lemma watch_heard events : ∀ past w (r : Router M),
  heard past w → ∃ w', watch_endpointslices w r events = Ret (w', r) ∧ heard (rev events ++ past) w'.
Proof.
  induction events as [|e events IH]; intros past w r Hh; [by exists w|]. cbn [watch_endpointslices].
  destruct (turn_heard past w r e Hh) as (w1 & -> & H1). cbn [obind fst snd].
  destruct (IH (e :: past) w1 r H1) as (w' & -> & Hw'). exists w'. split; [done|]. cbn [rev]. by rewrite <- app_assoc.
Qed.

Lemma new_heard : heard [] watcher_new.
Proof. split_and!; [done|intros key ss Hss; cbn in Hss; by rewrite lookup_empty in Hss|]. intros key name. unfold slice_at. cbn. by rewrite lookup_empty. Qed.

(** C26: the watcher tracks what it heard.  After any events, the slice kept for a
Service and a name is the last one applied under them, unless it was deleted under
them since; and no Service is kept without slices. *)
Theorem watcher_tracks_slices (r : Router M) events :
  ∃ w, watch_endpointslices watcher_new r events = Ret (w, r) ∧ no_empty w ∧
    ∀ key name, slice_at w key name = tracked (rev events) key name.
Proof.
  destruct (watch_heard events [] watcher_new r new_heard) as (w & E & _ & Hne & Ht). rewrite app_nil_r in Ht. eauto.
Qed.

(** The watcher updates no route.  Nothing ever adds to the routes of a Service, so
whatever events arrive, the router stays as it is: backends that come or go are
not seen before the next reconciliation of the HTTPRoute. *)
Theorem watcher_never_updates_routes (r : Router M) events w r' :
  watch_endpointslices watcher_new r events = Ret (w, r') → r' = r ∧ service_routes w = ∅.
Proof.
  intros E. destruct (watch_heard events [] watcher_new r new_heard) as (w' & E' & Hr & _). rewrite E in E'. by injection E' as -> ->.
Qed.

(** ** Aggregation *)
Lemma push_new_spec bs : ∀ seen fresh seen',
  push_new seen bs = (fresh, seen') →
  (∀ b, b ∈ fresh → b ∈ bs) ∧ NoDup (ip_bytes <$> fresh) ∧ (∀ b, b ∈ fresh → ip_bytes b ∉ seen) ∧
  (∀ i, i ∈ seen' ↔ i ∈ seen ∨ i ∈ ip_bytes <$> fresh) ∧ (∀ b, b ∈ bs → ip_bytes b ∈ seen').
Proof.
  induction bs as [|b bs IH]; intros seen fresh seen' E; cbn [push_new] in E.
  { injection E as <- <-. split_and!; try (intros; by set_solver). constructor. }
  case_bool_decide as Hb.
  - destruct (IH _ _ _ E) as (H1 & H2 & H3 & H4 & H5). split_and!; try done; [set_solver|].
    intros b' [->|Hin]%elem_of_cons; [by apply H4; left|by apply H5].
  - destruct (push_new (ip_bytes b :: seen) bs) as [rest seen1] eqn:Ep. injection E as <- <-.
    destruct (IH _ _ _ Ep) as (H1 & H2 & H3 & H4 & H5). split_and!.
    + set_solver.
    + rewrite fmap_cons. constructor; [|done]. intros (b' & Hb' & Hin)%list_elem_of_fmap. apply (H3 b' Hin). rewrite Hb'. left.
    + intros b' [->|Hin]%elem_of_cons; [done|]. specialize (H3 b' Hin). set_solver.
    + intros i. rewrite H4, fmap_cons. set_solver.
    + intros b' [->|Hin]%elem_of_cons; [apply H4; left; left|by apply H5].
Qed.

Lemma aggregate_fold port l : ∀ bs seen,
  (∀ i, i ∈ seen ↔ i ∈ ip_bytes <$> bs) → NoDup (ip_bytes <$> bs) →
  let '(bs', seen') :=
    foldl (λ '(bs, seen) s, let '(fresh, seen) := push_new seen (watched_backends s port) in (bs ++ fresh, seen)) (bs, seen) l in
  (∀ i, i ∈ seen' ↔ i ∈ ip_bytes <$> bs') ∧ NoDup (ip_bytes <$> bs') ∧
  (∀ b, b ∈ bs' → b ∈ bs ∨ ∃ s, s ∈ l ∧ b ∈ watched_backends s port) ∧ (∀ i, i ∈ seen → i ∈ seen') ∧
  (∀ s b, s ∈ l → b ∈ watched_backends s port → ip_bytes b ∈ seen').
Proof.
  induction l as [|s l IH]; intros bs seen Hseen Hnd; cbn [foldl]; [split_and!; set_solver|].
  destruct (push_new seen (watched_backends s port)) as [fresh seen1] eqn:E.
  destruct (push_new_spec _ _ _ _ E) as (H1 & H2 & H3 & H4 & H5).
  assert (∀ i, i ∈ seen1 ↔ i ∈ ip_bytes <$> (bs ++ fresh)) as Hs1 by (intros i; rewrite H4, fmap_app, Hseen; set_solver).
  assert (NoDup (ip_bytes <$> (bs ++ fresh))) as Hnd1.
  { rewrite fmap_app, NoDup_app. split_and!; [done| |done]. intros i Hi (b & -> & Hb)%list_elem_of_fmap.
    apply (H3 b Hb). by apply Hseen. }
  specialize (IH (bs ++ fresh) seen1 Hs1 Hnd1). destruct (foldl _ _ l) as [bs' seen'].
  destruct IH as (K1 & K2 & K3 & K4 & K5). split_and!; try done.
  - intros b Hb. destruct (K3 b Hb) as [[Hb'|Hb']%elem_of_app|(s' & Hs' & Hb')]; [by left| |]; right.
    + exists s. split; [left|by apply H1].
    + exists s'. split; [by right|done].
  - intros i Hi. apply K4, H4. by left.
  - intros s' b [->|Hs']%elem_of_cons Hb; [by apply K4, H5|by eapply K5].
Qed.

(** The backends of a Service.  Whatever the order in which its slices are
iterated, the gathered list holds only backends of its slices, one for every
address of a ready endpoint, and no address twice. *)
Theorem aggregate_exact all key ss port :
  all !! key = Some ss →
  let bs := aggregate_backends_for_service all key port in
  NoDup (ip <$> bs) ∧
  (∀ b, b ∈ bs → ∃ name s, ss !! name = Some s ∧ b ∈ watched_backends s port) ∧
  (∀ name s b, ss !! name = Some s → b ∈ watched_backends s port → ip b ∈ ip <$> bs).
Proof.
  intros E bs. subst bs. unfold aggregate_backends_for_service. rewrite E.
  assert (∀ s, s ∈ iter_slices ss ↔ ∃ name, ss !! name = Some s) as Hin.
  { intros s. rewrite iter_slices_perm, list_elem_of_fmap. split.
    - intros ([name s'] & -> & Hs%elem_of_map_to_list). eauto.
    - intros [name Hs%elem_of_map_to_list]. by exists (name, s). }
  pose proof (aggregate_fold port (iter_slices ss) [] []) as Hf. destruct (foldl _ _ _) as [bs seen].
  destruct Hf as (H1 & H2 & H3 & _ & H5); [done|constructor|]. cbn [fst]. split_and!; [done| |].
  - intros b Hb. destruct (H3 b Hb) as [[]%not_elem_of_nil|(s & Hs & Hsb)]. apply Hin in Hs as [name Hn]. eauto.
  - intros name s b Hn Hb. apply H1. eapply H5; [|done]. apply Hin. eauto.
Qed.
End watcher.

(** ** Witnesses *)
#[local] Existing Instance list_matchit.
#[local] Existing Instance key_order.

Definition name_order : SliceOrder :=
  {| iter_slices m := (map_to_list m).*2; iter_slices_perm m := Permutation_refl (map_to_list m).*2 |}.
#[local] Existing Instance name_order.

Definition web_slice (service : string) (addrs : list string) : WatchedSlice :=
  mk_watched (Some "ns") "web-1" (Some {[SERVICE_LABEL := service]}) (Some [(Some "http", Some 8080)]) [mk_endpoint addrs None].

(** A slice that moves to another Service stays with the first, also when it is deleted. *)
Example relabelled_slice_stays :
  match watch_endpointslices watcher_new (sample_router []) [EvApply (web_slice "a" ["10.0.0.1"]); EvApply (web_slice "b" ["10.0.0.1"]);
          EvDelete (web_slice "b" ["10.0.0.1"])] with
  | Ret (w, _) => aggregate_backends_for_service (service_slices w) "ns/a" 8080 = [from_ipv4 (mk_ipv4 10 0 0 1) 8080 100] ∧
      aggregate_backends_for_service (service_slices w) "ns/b" 8080 = []
  | Panic => False
  end.
Proof. vm_compute. done. Qed.

Lemma watcher_never_updates_routes_witness :
  ∃ w r', watch_endpointslices watcher_new (sample_router [(GET, "/api")]) [EvApply (web_slice "a" ["10.0.0.1"])] = Ret (w, r') ∧
    r' = sample_router [(GET, "/api")] ∧ service_routes w = ∅.
Proof.
  eexists _, _. split; [reflexivity|].
  eapply (watcher_never_updates_routes (sample_router [(GET, "/api")]) [EvApply (web_slice "a" ["10.0.0.1"])]). reflexivity.
Defined.

Lemma aggregate_exact_witness :
  let ss : slices := {["web-1" := web_slice "a" ["10.0.0.1"; "10.0.0.2"; "10.0.0.1"]]} in
  let bs := aggregate_backends_for_service {["ns/a" := ss]} "ns/a" 8080 in
  NoDup (ip <$> bs) ∧
  (∀ b, b ∈ bs → ∃ name s, ss !! name = Some s ∧ b ∈ watched_backends s 8080) ∧
  (∀ name s b, ss !! name = Some s → b ∈ watched_backends s 8080 → ip b ∈ ip <$> bs).
Proof.
  apply (aggregate_exact {["ns/a" := {["web-1" := web_slice "a" ["10.0.0.1"; "10.0.0.2"; "10.0.0.1"]]}]} "ns/a"). reflexivity.
Defined.
