(* ===== verification/Tls.v ===== *)
(** * Tls: certificates by host name ([tls.rs], [secret_watcher.rs])

Certificates are loaded from TLS Secrets and kept in a resolver, which picks one by
the server name of a connection; the Secret watcher replaces them while the
resolver is in use.  A resolver is shared: the configuration handed to an acceptor
resolves through the current state.

The PEM parsers and the resolver of [rustls] are parameters with their documented
behaviour: a resolver returns, for a server name, the key last added under it. *)

From S2P Require Import Prelude Common.

#[local] Open Scope Z_scope.

(** ** The library *)
Class TlsLib : Type := {
  Certs : Type;
  PrivateKey : Type;
  SigningKey : Type;
  ServerConfig : Type;
  Resolver : Type;
  parse_certs : string → result Certs string;
  parse_key : string → result PrivateKey string;
  any_supported_type : PrivateKey → result SigningKey string;
  with_single_cert : Certs → PrivateKey → result ServerConfig string;
  resolver_new : Resolver;
  resolver_add : Resolver → string → Certs * SigningKey → result Resolver string;
  resolve : Resolver → option string → option (Certs * SigningKey);
  (** The form in which a server name is looked up. *)
  canonical : string → string;
  resolve_new : ∀ n, resolve resolver_new n = None;
  resolve_nameless : ∀ r, resolve r None = None;
  (** The name is a DNS name and the certificate is valid for it. *)
  acceptable : string → Certs * SigningKey → bool;
  add_acceptable : ∀ r h ck, acceptable h ck = true ↔ ∃ r', resolver_add r h ck = Ok r';
  resolve_add : ∀ r h ck r' n, resolver_add r h ck = Ok r' →
    resolve r' (Some n) = if decide (n = canonical h) then Some ck else resolve r (Some n)
}.

(** ** Data *)
Record TlsCertificate : Type := mk_certificate { cert_chain : string; private_key : string }.

Inductive TlsMode : Type := Terminate | Passthrough.

Record TlsConfig : Type := mk_tls_config { tls_hostname : string; tls_mode : TlsMode; tls_certificate : TlsCertificate }.

(** A Secret, as far as it is read. *)
Record Secret : Type := mk_secret {
  secret_namespace : option string;
  secret_name : string;
  secret_type : option string;
  secret_annotations : option (gmap string string);
  secret_data : option (gmap string string)
}.

Inductive secret_event : Type :=
| SecretApply (s : Secret)
| SecretInitApply (s : Secret)
| SecretDelete (s : Secret)
| SecretInit
| SecretInitDone
| SecretError (e : string).

Section tls.
Context `{!TlsLib}.

Definition from_pem (cert_pem key_pem : string) : result TlsCertificate string :=
  match parse_certs cert_pem with
  | Err e => Err e
  | Ok _ =>
      match parse_key key_pem with
      | Err e => Err e
      | Ok _ => Ok (mk_certificate cert_pem key_pem)
      end
  end.

(** [TlsCertificate::to_server_config] *)
Definition certificate_config (c : TlsCertificate) : result ServerConfig string :=
  match parse_certs (cert_chain c) with
  | Err e => Err e
  | Ok certs =>
      match parse_key (private_key c) with
      | Err e => Err e
      | Ok key => with_single_cert certs key
      end
  end.

(** ** The resolver *)
Record SniResolver : Type := mk_sni { inner : Resolver; hostnames : gset string }.

Definition sni_new : SniResolver := mk_sni resolver_new ∅.

Definition parse_certified_key (c : TlsCertificate) : result (Certs * SigningKey) string :=
  match parse_certs (cert_chain c) with
  | Err e => Err e
  | Ok certs =>
      match parse_key (private_key c) with
      | Err e => Err e
      | Ok key =>
          match any_supported_type key with
          | Err e => Err e
          | Ok sk => Ok (certs, sk)
          end
      end
  end.

Definition add_cert (s : SniResolver) (hostname : string) (c : TlsCertificate) : result unit string * SniResolver :=
  match parse_certified_key c with
  | Err e => (Err e, s)
  | Ok ck =>
      match resolver_add (inner s) hostname ck with
      | Err e => (Err e, s)
      | Ok r => (Ok (), mk_sni r ({[ hostname ]} ∪ hostnames s))
      end
  end.

Definition update_cert (s : SniResolver) (hostname : string) (c : TlsCertificate) : result unit string * SniResolver :=
  match parse_certified_key c with
  | Err e => (Err e, s)
  | Ok ck =>
      match resolver_add (inner s) hostname ck with
      | Err e => (Err e, s)
      | Ok r => (Ok (), mk_sni r (hostnames s))
      end
  end.

Definition has_cert (s : SniResolver) (hostname : string) : bool := bool_decide (hostname ∈ hostnames s).

(** Whether there is an acceptor; it resolves through the shared state. *)
Definition get_acceptor (s : SniResolver) (hostname : string) : bool :=
  if bool_decide (hostname ∈ hostnames s) then true else false.

(** What the configuration of [SniResolver::to_server_config] picks for a connection. *)
Definition sni_resolve (s : SniResolver) (server_name : option string) : option (Certs * SigningKey) :=
  resolve (inner s) server_name.

(** ** Secrets *)
Definition parse_cert_from_secret_data (secret : Secret) : result TlsCertificate string :=
  match secret_data secret with
  | None => Err "Secret has no data"
  | Some data =>
      match data !! "tls.crt" with
      | None => Err "Secret missing tls.crt"
      | Some cert_data =>
          match data !! "tls.key" with
          | None => Err "Secret missing tls.key"
          | Some key_data => from_pem cert_data key_data
          end
      end
  end.

(** [load_cert_from_secret], with the answer of the API server. *)
Definition load_cert_from_secret (answer : result Secret string) : result TlsCertificate string :=
  match answer with
  | Err e => Err e
  | Ok secret => parse_cert_from_secret_data secret
  end.

Definition HOSTNAME : string := "rauta.io/hostname".

Definition handle_secret_apply (s : SniResolver) (secret : Secret) : result unit string * SniResolver :=
  let namespace := default "default" (secret_namespace secret) in
  match secret_type secret with
  | None => (Ok (), s)
  | Some t =>
      if negb (String.eqb t "kubernetes.io/tls") then (Ok (), s)
      else
        match secret_annotations secret ≫= λ a, a !! HOSTNAME with
        | None =>
            (Err ("Secret " +:+ namespace +:+ "/" +:+ secret_name secret +:+ " missing rauta.io/hostname annotation"), s)
        | Some hostname =>
            match parse_cert_from_secret_data secret with
            | Err e => (Err e, s)
            | Ok cert => update_cert s hostname cert
            end
        end
  end.

Definition secret_turn (s : SniResolver) (e : secret_event) : SniResolver :=
  match e with
  | SecretApply secret | SecretInitApply secret => (handle_secret_apply s secret).2
  | SecretDelete _ | SecretInit | SecretInitDone | SecretError _ => s
  end.

Definition watch_tls_secrets (s : SniResolver) (events : list secret_event) : SniResolver := foldl secret_turn s events.

(** ** Specification: a host has its last good certificate *)

(** The key a certificate stands for. *)
Definition key_of (c : TlsCertificate) : option (Certs * SigningKey) :=
  match parse_certified_key c with Ok ck => Some ck | Err _ => None end.

(** What a Secret offers: a host and a key that is valid for it. *)
Definition offer (secret : Secret) : option (string * (Certs * SigningKey)) :=
  t ← secret_type secret;
  if String.eqb t "kubernetes.io/tls" then
    hostname ← secret_annotations secret ≫= λ a, a !! HOSTNAME;
    match parse_cert_from_secret_data secret with
    | Ok c => ck ← key_of c; if acceptable hostname ck then Some (hostname, ck) else None
    | Err _ => None
    end
  else None.

Definition event_offer (e : secret_event) : option (string * (Certs * SigningKey)) :=
  match e with
  | SecretApply s | SecretInitApply s => offer s
  | _ => None
  end.

(** The last offer for a name ([past] has the latest event first). *)
Fixpoint last_offer (past : list secret_event) (n : string) : option (Certs * SigningKey) :=
  match past with
  | [] => None
  | e :: past =>
      match event_offer e with
      | Some (h, ck) => if decide (n = canonical h) then Some ck else last_offer past n
      | None => last_offer past n
      end
  end.

Lemma update_cert_spec s h c :
  match key_of c with
  | None => ∃ e, update_cert s h c = (Err e, s)
  | Some ck =>
      (∃ r, resolver_add (inner s) h ck = Ok r ∧ update_cert s h c = (Ok (), mk_sni r (hostnames s))) ∨
      (∃ e, resolver_add (inner s) h ck = Err e ∧ update_cert s h c = (Err e, s))
  end.
Proof.
  unfold key_of, update_cert. destruct (parse_certified_key c) as [ck|e]; [|eauto].
  destruct (resolver_add (inner s) h ck) as [r|e]; [left|right]; eauto.
Qed.

(** One event. *)
Lemma apply_offer s secret :
  hostnames (handle_secret_apply s secret).2 = hostnames s ∧
  ∀ n, sni_resolve (handle_secret_apply s secret).2 (Some n) =
    match offer secret with
    | Some (h, ck) => if decide (n = canonical h) then Some ck else sni_resolve s (Some n)
    | None => sni_resolve s (Some n)
    end.
Proof.
  unfold handle_secret_apply, offer. destruct (secret_type secret) as [t|]; [|done]. cbn [mbind option_bind].
  destruct (String.eqb t "kubernetes.io/tls"); cbn [negb]; [|done].
  destruct (secret_annotations secret ≫= λ a, a !! HOSTNAME) as [h|]; [|done]. cbn [mbind option_bind].
  destruct (parse_cert_from_secret_data secret) as [c|e]; [|done].
  pose proof (update_cert_spec s h c) as Hu. destruct (key_of c) as [ck|]; cbn [mbind option_bind]; [|by destruct Hu as [e ->]].
  pose proof (add_acceptable (inner s) h ck) as Ha. destruct Hu as [(r & Hr & ->)|(e & He & ->)].
  - rewrite (proj2 Ha) by eauto. split; [done|]. intros n. cbn [snd]. unfold sni_resolve. cbn [inner]. by apply resolve_add.
  - destruct (acceptable h ck); [|done]. destruct (proj1 Ha eq_refl) as [r' ?]. congruence.
Qed.

Lemma secret_turn_spec s e :
  hostnames (secret_turn s e) = hostnames s ∧
  ∀ n, sni_resolve (secret_turn s e) (Some n) =
    match event_offer e with
    | Some (h, ck) => if decide (n = canonical h) then Some ck else sni_resolve s (Some n)
    | None => sni_resolve s (Some n)
    end.
Proof. destruct e as [secret|secret|secret| | |m]; cbn [secret_turn event_offer]; try done; apply apply_offer. Qed.

(** C27: a host is served its last good certificate.  After any events of the Secret
watcher, from any resolver, the key picked for a server name is that of the last
applied TLS Secret that names the host with a certificate that is valid for it, and
the one before the events if there is none; Secrets of other types, without the
annotation or with a broken certificate change nothing, and neither do deletions. *)
Theorem secrets_serve_last_good s events n :
  sni_resolve (watch_tls_secrets s events) (Some n) =
    match last_offer (rev events) n with
    | Some ck => Some ck
    | None => sni_resolve s (Some n)
    end.
Proof.
  induction events as [|e events IH] using rev_ind; [done|].
  unfold watch_tls_secrets in *. rewrite foldl_app, rev_unit. cbn [foldl last_offer].
  destruct (secret_turn_spec (foldl secret_turn s events) e) as [_ ->].
  destruct (event_offer e) as [[h ck]|]; [case_decide; [done|]|]; apply IH.
Qed.

(** A host loaded by the watcher is not known.  The watcher replaces certificates
but does not record host names: a host that only Secrets name is resolved to its
certificate, while [has_cert] says it has none and [get_acceptor] gives nothing. *)
Theorem watched_host_unknown events c h ck :
  offer c = Some (h, ck) →
  let s := watch_tls_secrets sni_new (events ++ [SecretApply c]) in
  sni_resolve s (Some (canonical h)) = Some ck ∧ has_cert s h = false ∧ get_acceptor s h = false.
Proof.
  intros Ho s. assert (hostnames s = ∅) as Hh.
  { subst s. generalize (events ++ [SecretApply c]). clear. intros l. induction l as [|e l IH] using rev_ind; [done|].
    unfold watch_tls_secrets in *. rewrite foldl_app. cbn [foldl]. by rewrite (proj1 (secret_turn_spec _ e)). }
  unfold has_cert, get_acceptor. rewrite Hh. split_and!; [|by rewrite bool_decide_false by set_solver..].
  subst s. unfold watch_tls_secrets. rewrite foldl_app. cbn [foldl].
  rewrite (proj2 (secret_turn_spec (foldl secret_turn sni_new events) (SecretApply c))). cbn [event_offer].
  by rewrite Ho, decide_True.
Qed.

(** ** Calls on the resolver *)
Inductive sni_call : Type :=
| CallAdd (hostname : string) (c : TlsCertificate)
| CallUpdate (hostname : string) (c : TlsCertificate).

Definition run_sni (s : SniResolver) (x : sni_call) : result unit string * SniResolver :=
  match x with
  | CallAdd h c => add_cert s h c
  | CallUpdate h c => update_cert s h c
  end.

(** Calls on the resolver are atomic.  A call that fails changes nothing; one that
succeeds makes its host resolve to its certificate and no other name to anything
else; a host is recorded exactly by an addition. *)
Theorem sni_call_spec s x :
  let '(h, c) := match x with CallAdd h c | CallUpdate h c => (h, c) end in
  match run_sni s x with
  | (Err _, s') => s' = s
  | (Ok _, s') =>
      ∃ ck, key_of c = Some ck ∧
        (∀ n, sni_resolve s' (Some n) = if decide (n = canonical h) then Some ck else sni_resolve s (Some n)) ∧
        ∀ n, has_cert s' n = match x with CallAdd _ _ => bool_decide (n = h) || has_cert s n | CallUpdate _ _ => has_cert s n end
  end.
Proof.
  destruct x as [h c|h c]; cbn [run_sni]; unfold add_cert, update_cert, key_of;
    (destruct (parse_certified_key c) as [ck|e]; [|done]);
    (destruct (resolver_add (inner s) h ck) as [r|e] eqn:Er; [|done]);
    (exists ck; split; [done|]; split; [intros n; by apply resolve_add|]); intros n; [|done].
  unfold has_cert. cbn [hostnames]. rewrite <- bool_decide_or. apply bool_decide_ext. set_solver.
Qed.
End tls.

(** ** Witness: a library whose certificates are their text *)
Definition text_lib : TlsLib.
Proof.
  refine {|
    Certs := string; PrivateKey := string; SigningKey := string; ServerConfig := string * string;
    Resolver := gmap string (string * string);
    parse_certs s := if String.eqb s "" then Err "no certificate" else Ok s;
    parse_key s := if String.eqb s "" then Err "no key" else Ok s;
    any_supported_type k := Ok k;
    with_single_cert c k := Ok (c, k);
    resolver_new := ∅;
    resolver_add r h ck := if String.eqb h "" then Err "invalid name" else Ok (<[h := ck]> r);
    resolve r n := n ≫= λ n, r !! n;
    canonical h := h;
    acceptable h _ := negb (String.eqb h "")
  |}.
  - intros [n|]; [apply lookup_empty|done].
  - done.
  - intros r h ck. destruct (String.eqb h ""); cbn; naive_solver.
  - intros r h ck r' n. destruct (String.eqb h ""); [done|]. intros [= <-]. cbn. case_decide as Hn.
    + subst. by rewrite lookup_insert_eq.
    + by rewrite lookup_insert_ne.
Defined.

#[local] Existing Instance text_lib.

Definition web_secret : Secret :=
  mk_secret (Some "ns") "web" (Some "kubernetes.io/tls") (Some {[HOSTNAME := "example.com"]})
    (Some {["tls.crt" := "cert"; "tls.key" := "key"]}).

Lemma watched_host_unknown_witness :
  let s := watch_tls_secrets sni_new ([SecretInit] ++ [SecretApply web_secret]) in
  sni_resolve s (Some "example.com") = Some (("cert", "key") : @Certs text_lib * @SigningKey text_lib) ∧ has_cert s "example.com" = false ∧
  get_acceptor s "example.com" = false.
Proof. apply (watched_host_unknown [SecretInit] web_secret "example.com" (("cert", "key") : @Certs text_lib * @SigningKey text_lib)). reflexivity. Defined.
