(* ===== verification/GatewayClass.v ===== *)
(** * GatewayClass: the GatewayClass controller ([gateway_class.rs])

A GatewayClass is accepted if it names this controller; others are left alone.
The status patch and the clock's text are inputs. *)

From S2P Require Import Prelude Common.

#[local] Open Scope Z_scope.

Definition RAUTA_CONTROLLER_NAME : string := "rauta.io/gateway-controller".

Record GatewayClassResource : Type := mk_class {
  gc_name : string;
  gc_generation : option Z;
  gc_controller_name : string
}.

Record ClassCondition : Type := mk_class_condition {
  cc_type : string;
  cc_status : string;
  cc_reason : string;
  cc_message : string;
  cc_time : string;
  cc_generation : Z
}.

Inductive ClassAction : Type := ClassRequeue (seconds : Z).

Definition should_accept (controller_name : string) : bool := String.eqb controller_name RAUTA_CONTROLLER_NAME.

(** The conditions that [set_accepted_status] sends. *)
Definition set_accepted_status (accepted : bool) (time : string) (generation : Z) : list ClassCondition :=
  if accepted
  then [mk_class_condition "Accepted" "True" "Accepted"
          ("GatewayClass is accepted by controller " +:+ RAUTA_CONTROLLER_NAME) time generation]
  else [mk_class_condition "Accepted" "False" "InvalidParameters" "GatewayClass configuration is invalid" time generation].

(** The result, the status sent, and the recorded metric (name, result). *)
Definition reconcile_class (patch : list ClassCondition → result unit string) (time : string) (c : GatewayClassResource)
  : result ClassAction string * option (list ClassCondition) * option (string * string) :=
  if should_accept (gc_controller_name c) then
    let status := set_accepted_status true time (default 0 (gc_generation c)) in
    match patch status with
    | Err e => (Err e, Some status, None)
    | Ok _ => (Ok (ClassRequeue 300), Some status, Some (gc_name c, "success"))
    end
  else (Ok (ClassRequeue 300), None, None).

Definition class_error_policy : ClassAction := ClassRequeue 60.

(** A class is written to exactly if it names this controller, and then only to accept
its current generation; a failed write is reported for a retry. *)
Theorem class_accepted_exact patch time c :
  let '(r, status, metric) := reconcile_class patch time c in
  (is_Some status ↔ gc_controller_name c = "rauta.io/gateway-controller") ∧
  (∀ l, status = Some l → ∃ x, l = [x] ∧ cc_type x = "Accepted" ∧ cc_status x = "True" ∧
     cc_generation x = default 0 (gc_generation c) ∧ (metric = None ↔ ∃ e, patch l = Err e ∧ r = Err e)) ∧
  (status = None → r = Ok (ClassRequeue 300)).
Proof.
  unfold reconcile_class, should_accept. destruct (String.eqb_spec (gc_controller_name c) RAUTA_CONTROLLER_NAME) as [E|E].
  - destruct (patch (set_accepted_status true time (default 0 (gc_generation c)))) as [[]|e] eqn:Ep;
      (split; [by split|]); (split; [|done]); intros l [= <-]; eexists; (split_and!; [done..|]); rewrite ?Ep; naive_solver.
  - split; [split; [by intros []|done]|]. done.
Qed.
