(* ===== verification/Http1Pool.v ===== *)
(** * Http1Pool: idle HTTP/1.1 connections ([http1_pool.rs])

A pool keeps idle connections per backend address, hands out the one put back last,
and drops what is too old or too many.  A sender is owned: the pool either keeps it,
hands it out, or drops it, which the run below records. *)

From S2P Require Import Prelude Common.

#[local] Open Scope Z_scope.

Record Http1PoolConfig : Type := mk_pool_config { max_idle_per_backend : nat; idle_timeout : Z }.

Definition default_pool_config : Http1PoolConfig := mk_pool_config 16 60000000000.

#[export] Instance Ipv4Addr_eq_dec : EqDecision Ipv4Addr.
Proof. solve_decision. Defined.

#[export] Instance SocketAddr_eq_dec : EqDecision SocketAddr.
Proof. solve_decision. Defined.

#[export] Instance SocketAddr_countable : Countable SocketAddr.
Proof.
  apply (inj_countable'
    (λ a, match a with
          | V4 i p => inl (ip4_a i, ip4_b i, ip4_c i, ip4_d i, p)
          | V6 i p f s => inr (i, p, f, s)
          end)
    (λ x, match x with
          | inl (a, b, c, d, p) => V4 (mk_ipv4 a b c d) p
          | inr (i, p, f, s) => V6 i p f s
          end)).
  by intros [[] ?|].
Defined.

Section pool.
Context {S : Type}.

Record PooledConnection : Type := mk_pooled { pc_sender : S; pc_created_at : Z; pc_last_used : Z }.

Record Http1Pool : Type := mk_http1_pool {
  config : Http1PoolConfig;
  (** The connections of a backend, the last one put back last. *)
  idle : gmap SocketAddr (list PooledConnection)
}.

Definition with_config (c : Http1PoolConfig) : Http1Pool := mk_http1_pool c ∅.

Definition http1_pool_new : Http1Pool := with_config default_pool_config.

(** The answer, the new state, and a connection that was dropped. *)
Definition try_get (p : Http1Pool) (backend : SocketAddr) (now : Z) : option S * Http1Pool * option S :=
  match idle p !! backend with
  | None => (None, p, None)
  | Some pool =>
      match last pool with
      | None => (None, p, None)
      | Some conn =>
          let p := mk_http1_pool (config p) (<[backend := take (length pool - 1) pool]> (idle p)) in
          if idle_timeout (config p) <? Z.max 0 (now - pc_last_used conn)
          then (None, p, Some (pc_sender conn))
          else (Some (pc_sender conn), p, None)
      end
  end.

Definition put (p : Http1Pool) (backend : SocketAddr) (sender : S) (now : Z) : Http1Pool * option S :=
  let pool := default [] (idle p !! backend) in
  if (max_idle_per_backend (config p) <=? length pool)%nat
  then (mk_http1_pool (config p) (<[backend := pool]> (idle p)), Some sender)
  else (mk_http1_pool (config p) (<[backend := pool ++ [mk_pooled sender now now]]> (idle p)), None).

Record PoolStats : Type := mk_stats { idle_connections : nat; max_idle : nat }.

Definition stats (p : Http1Pool) (backend : SocketAddr) : PoolStats :=
  mk_stats (from_option length 0%nat (idle p !! backend)) (max_idle_per_backend (config p)).

Definition total_idle (p : Http1Pool) : nat := foldr Nat.add 0%nat ((λ x, length x.2) <$> map_to_list (idle p)).
End pool.
Arguments Http1Pool S : clear implicits.
Arguments PooledConnection S : clear implicits.

(** ** Runs *)
Section runs.
Context {S : Type}.
Implicit Types (p : Http1Pool S) (b : SocketAddr).

Inductive pool_op : Type :=
| OpPut (b : SocketAddr) (sender : S) (now : Z)
| OpGet (b : SocketAddr) (now : Z).

Definition is_put (op : pool_op) : list (SocketAddr * S) :=
  match op with OpPut b s _ => [(b, s)] | OpGet _ _ => [] end.

(** The connections handed out and dropped by one operation, with the address they are for. *)
Definition pool_step p (op : pool_op) : Http1Pool S * list (SocketAddr * S) * list (SocketAddr * S) :=
  match op with
  | OpPut b s now => let '(p, d) := put p b s now in (p, [], (λ x, (b, x)) <$> option_list d)
  | OpGet b now =>
      let '(r, p, d) := try_get p b now in (p, (λ x, (b, x)) <$> option_list r, (λ x, (b, x)) <$> option_list d)
  end.

Fixpoint pool_run p (ops : list pool_op) : Http1Pool S * list (SocketAddr * S) * list (SocketAddr * S) :=
  match ops with
  | [] => (p, [], [])
  | op :: ops =>
      let '(p, h, d) := pool_step p op in
      let '(p, hs, ds) := pool_run p ops in (p, h ++ hs, d ++ ds)
  end.

(** The connections in the pool, with their addresses. *)
Definition entries_of (b : SocketAddr) (l : list (PooledConnection S)) : list (SocketAddr * S) :=
  (λ c, (b, pc_sender c)) <$> l.
Definition kept (m : gmap SocketAddr (list (PooledConnection S))) : list (SocketAddr * S) :=
  map_to_list m ≫= λ x, entries_of x.1 x.2.

Lemma kept_insert m b l : kept (<[b := l]> m) ≡ₚ entries_of b l ++ kept (delete b m).
Proof.
  unfold kept. rewrite <- insert_delete_eq, map_to_list_insert by apply lookup_delete_eq. done.
Qed.

Lemma kept_split m b : kept m ≡ₚ entries_of b (default [] (m !! b)) ++ kept (delete b m).
Proof.
  destruct (m !! b) as [l|] eqn:E; cbn [default from_option].
  - rewrite <- kept_insert, insert_id by done. done.
  - by rewrite delete_id.
Qed.

Lemma entries_app b l k : entries_of b (l ++ k) = entries_of b l ++ entries_of b k.
Proof. apply fmap_app. Qed.

Lemma last_take {A} (l : list A) x : last l = Some x → l = take (length l - 1) l ++ [x].
Proof.
  intros H. apply last_Some in H as [l' ->]. rewrite length_app, Nat.add_sub. cbn [length].
  by rewrite take_app_length.
Qed.

Lemma pool_step_owns p op :
  let '(p', h, d) := pool_step p op in
  is_put op ++ kept (idle p) ≡ₚ h ++ d ++ kept (idle p') ∧ config p' = config p.
Proof.
  destruct op as [b s now|b now]; cbn [pool_step is_put].
  - unfold put. destruct (_ <=? _)%nat; cbn [option_list fmap list_fmap app idle config]; (split; [|done]).
    + rewrite kept_insert, (kept_split (idle p) b). done.
    + rewrite kept_insert, (kept_split (idle p) b), entries_app. cbn [entries_of fmap list_fmap app pc_sender].
      solve_Permutation.
  - unfold try_get. destruct (idle p !! b) as [pool|] eqn:E; [|done]. destruct (last pool) as [c|] eqn:El; [|done].
    pose proof (last_take _ _ El) as Ht.
    assert (kept (idle p) ≡ₚ (b, pc_sender c) :: kept (<[b := take (length pool - 1) pool]> (idle p))) as Hk.
    { rewrite kept_insert, (kept_split (idle p) b), E. cbn [default from_option].
      unfold id. rewrite Ht at 1. rewrite entries_app. cbn [entries_of fmap list_fmap app]. solve_Permutation. }
    destruct (_ <? _); cbn [option_list fmap list_fmap app idle config]; (split; [exact Hk|done]).
Qed.

(** A connection that is put back and asked for within the timeout comes back, and the
pool is as before. *)
Theorem put_get_roundtrip p b s t t' :
  (length (default [] (idle p !! b)) < max_idle_per_backend (config p))%nat → t <= t' <= t + idle_timeout (config p) →
  let '(p1, d) := put p b s t in
  let '(r, p2, d') := try_get p1 b t' in
  d = None ∧ d' = None ∧ r = Some s ∧ default [] (idle p2 !! b) = default [] (idle p !! b).
Proof.
  intros Hl Ht. unfold put. destruct (_ <=? _)%nat eqn:E; [apply Nat.leb_le in E; lia|].
  unfold try_get. cbn [idle config]. rewrite lookup_insert_eq, last_snoc. cbn [pc_last_used pc_sender].
  rewrite (proj2 (Z.ltb_ge _ _)) by lia. cbn [idle]. rewrite lookup_insert_eq, length_app, Nat.add_sub. cbn [default from_option].
  split_and!; try done. apply take_app_length.
Qed.

(** A full pool keeps what is stale.  Connections are not cleaned up by age: a pool
that is full of expired connections drops every fresh one that is put into it, and
each request that asks it gets nothing and removes one. *)
Theorem stale_pool_drops_fresh p b pool s now :
  idle p !! b = Some pool → length pool = max_idle_per_backend (config p) → pool ≠ [] →
  Forall (λ c, idle_timeout (config p) < now - pc_last_used c) pool → 0 <= idle_timeout (config p) →
  (put p b s now).2 = Some s ∧
  let '(r, p', _) := try_get p b now in r = None ∧ ∃ pool', idle p' !! b = Some pool' ∧ length pool' = (length pool - 1)%nat.
Proof.
  intros E Hl Hne Hf H0. unfold put, try_get. rewrite E. cbn [default from_option]. unfold id. rewrite Hl, Nat.leb_refl. split; [done|].
  destruct (last pool) as [c|] eqn:El; [|by apply last_None in El].
  assert (c ∈ pool) as Hc by (apply last_Some in El as [l ->]; set_solver). rewrite Forall_forall in Hf. specialize (Hf c Hc).
  cbn [config]. rewrite (proj2 (Z.ltb_lt _ _)) by lia. split; [done|]. cbn [idle]. rewrite lookup_insert_eq. eexists. split; [done|].
  rewrite length_take. lia.
Qed.

(** At most [max_idle_per_backend] connections are idle for an address. *)
Lemma pool_bound ops : ∀ p,
  (∀ b, (length (default [] (idle p !! b)) <= max_idle_per_backend (config p))%nat) →
  ∀ b, (idle_connections (stats (pool_run p ops).1.1 b) <= max_idle_per_backend (config p))%nat.
Proof.
  induction ops as [|op ops IH]; intros p Hp b.
  { specialize (Hp b). cbn. by destruct (idle p !! b). }
  cbn [pool_run]. pose proof (pool_step_owns p op) as Hs. destruct (pool_step p op) as [[p1 h1] d1] eqn:E. destruct Hs as [_ Hc].
  specialize (IH p1). rewrite Hc in IH. destruct (pool_run p1 ops) as [[p2 h2] d2]. cbn [fst] in *. apply IH. clear IH b. intros b.
  destruct op as [b' s now|b' now]; cbn [pool_step] in E.
  - unfold put in E. destruct (_ <=? _)%nat eqn:El; injection E as <- _ _; cbn [idle];
      (destruct (decide (b = b')) as [->|]; [rewrite lookup_insert_eq; cbn [default from_option]; unfold id|by rewrite lookup_insert_ne]).
    + apply Hp.
    + apply Nat.leb_gt in El. cbn [default from_option] in El. unfold id in *. rewrite length_app. cbn [length]. lia.
  - unfold try_get in E. destruct (idle p !! b') as [pool|] eqn:Eb; [|by injection E as <- _ _].
    destruct (last pool) as [c|]; [|by injection E as <- _ _].
    assert (idle p1 = <[b' := take (length pool - 1) pool]> (idle p)) as -> by (by destruct (_ <? _); injection E as <- _ _).
    destruct (decide (b = b')) as [->|]; [|by rewrite lookup_insert_ne]. rewrite lookup_insert_eq. cbn [default from_option].
    unfold id. rewrite length_take. specialize (Hp b'). rewrite Eb in Hp. cbn in Hp. lia.
Qed.
(** Connections are owned: every connection that was put into the pool is handed out once,
to a request for the address it was put under, or dropped, or in the pool. *)
Lemma pool_run_owns ops : ∀ p,
  let '(p', h, d) := pool_run p ops in (ops ≫= is_put) ++ kept (idle p) ≡ₚ h ++ d ++ kept (idle p').
Proof.
  induction ops as [|op ops IH]; intros p; [cbn [pool_run]; reflexivity|]. cbn [pool_run]. rewrite bind_cons.
  pose proof (pool_step_owns p op) as Hs. destruct (pool_step p op) as [[p1 h1] d1]. destruct Hs as [Hs _].
  specialize (IH p1). destruct (pool_run p1 ops) as [[p2 h2] d2].
  trans ((ops ≫= is_put) ++ is_put op ++ kept (idle p)); [solve_Permutation|]. rewrite Hs.
  trans ((h1 ++ d1) ++ (ops ≫= is_put) ++ kept (idle p1)); [solve_Permutation|]. rewrite IH. solve_Permutation.
Qed.

(** ** The specification: a bounded stack per address

What the operations on one address do to a stack of connections with the times they were
put, the last one on top. *)
Definition stack_step (c : Http1PoolConfig) b (st : list (S * Z)) (op : pool_op) : list (S * Z) * list S * list S :=
  match op with
  | OpPut b' s now =>
      if decide (b' = b)
      then if (length st <? max_idle_per_backend c)%nat then ((s, now) :: st, [], []) else (st, [], [s])
      else (st, [], [])
  | OpGet b' now =>
      if decide (b' = b)
      then match st with
           | [] => ([], [], [])
           | (s, t) :: st => if Z.max 0 (now - t) <=? idle_timeout c then (st, [s], []) else (st, [], [s])
           end
      else (st, [], [])
  end.

Fixpoint stack_run (c : Http1PoolConfig) b (st : list (S * Z)) (ops : list pool_op) : list (S * Z) * list S * list S :=
  match ops with
  | [] => (st, [], [])
  | op :: ops =>
      let '(st, h, d) := stack_step c b st op in
      let '(st, hs, ds) := stack_run c b st ops in (st, h ++ hs, d ++ ds)
  end.

(** The connections of one address. *)
Definition of_addr b (l : list (SocketAddr * S)) : list S :=
  omap (λ x, if decide (x.1 = b) then Some x.2 else None) l.

Definition stack_of p b : list (S * Z) := rev ((λ c, (pc_sender c, pc_last_used c)) <$> default [] (idle p !! b)).

Lemma of_addr_one b b' (s : option S) : of_addr b ((λ x, (b', x)) <$> option_list s) = if decide (b' = b) then option_list s else [].
Proof. destruct s; cbn; [|by destruct (decide _)]. unfold of_addr. cbn. by destruct (decide (b' = b)). Qed.

Lemma pool_step_stack p op b :
  let '(p', h, d) := pool_step p op in
  stack_step (config p) b (stack_of p b) op = (stack_of p' b, of_addr b h, of_addr b d).
Proof.
  destruct op as [b' s now|b' now]; cbn [pool_step stack_step].
  - assert (length (stack_of p b) = length (default [] (idle p !! b))) as Hl by (unfold stack_of; by rewrite length_rev, length_fmap).
    unfold put. destruct (decide (b' = b)) as [->|Hne].
    + rewrite Hl, Nat.ltb_antisym. destruct (_ <=? _)%nat; cbn [negb]; rewrite of_addr_one, decide_True by done;
        unfold stack_of; cbn [idle]; rewrite lookup_insert_eq; cbn [default from_option option_list]; unfold id; [done|].
      by rewrite fmap_app, rev_app_distr.
    + destruct (_ <=? _)%nat; rewrite of_addr_one, decide_False by done; unfold stack_of; cbn [idle]; by rewrite lookup_insert_ne.
  - unfold try_get. destruct (idle p !! b') as [pool|] eqn:E.
    2:{ cbn. destruct (decide (b' = b)) as [->|]; [|done]. unfold stack_of. by rewrite E. }
    destruct (last pool) as [x|] eqn:El.
    2:{ apply last_None in El as ->. cbn. destruct (decide (b' = b)) as [->|]; [|done]. unfold stack_of. by rewrite E. }
    assert (∀ p', idle p' = <[b' := take (length pool - 1) pool]> (idle p) → b' = b →
      stack_of p b = (pc_sender x, pc_last_used x) :: stack_of p' b) as Hst.
    { intros p' Hp' ->. unfold stack_of. rewrite Hp', E, lookup_insert_eq. cbn [default from_option]. unfold id.
      rewrite (last_take _ _ El) at 1. by rewrite fmap_app, rev_app_distr. }
    cbn [config]. rewrite Z.ltb_antisym. destruct (Z.max 0 _ <=? _) eqn:Et; cbn [negb]; rewrite !of_addr_one;
      (destruct (decide (b' = b)) as [Eb|Hne]; [rewrite (Hst (mk_http1_pool (config p) (<[b' := take (length pool - 1) pool]> (idle p))) eq_refl Eb); by rewrite Et|unfold stack_of; cbn [idle]; by rewrite lookup_insert_ne]).
Qed.

Lemma pool_run_stack ops b : ∀ p,
  let '(p', h, d) := pool_run p ops in
  stack_run (config p) b (stack_of p b) ops = (stack_of p' b, of_addr b h, of_addr b d).
Proof.
  induction ops as [|op ops IH]; intros p; [done|]. cbn [pool_run stack_run].
  pose proof (pool_step_stack p op b) as Hs. pose proof (pool_step_owns p op) as Hc. destruct (pool_step p op) as [[p1 h1] d1]. destruct Hc as [_ Hc].
  rewrite Hs. specialize (IH p1). rewrite Hc in IH. destruct (pool_run p1 ops) as [[p2 h2] d2]. rewrite IH.
  unfold of_addr. by rewrite !omap_app.
Qed.

(** C37: the pool is a bounded stack of connections per address.  Over any run of the pool,
with any number of addresses, the operations on one address are those of a stack of its
own: a connection that is put is kept, unless the stack is full and it is dropped; a
request gets the connection put last, unless that one is idle for longer than the
timeout and is dropped; and every connection is, at the end, in exactly one place:
handed out once, under the address it was put under, or dropped, or in the pool. *)
Theorem http1_pool_refines c ops :
  let '(p, handed, dropped) := pool_run (with_config c) ops in
  (∀ b, stack_run c b [] ops = (stack_of p b, of_addr b handed, of_addr b dropped) ∧
        (length (stack_of p b) <= max_idle_per_backend c)%nat) ∧
  ops ≫= is_put ≡ₚ handed ++ dropped ++ kept (idle p).
Proof.
  pose proof (pool_run_owns ops (with_config c)) as Ho. pose proof (λ b, pool_run_stack ops b (with_config c)) as Hs.
  pose proof (pool_bound ops (with_config c)) as Hb.
  destruct (pool_run (with_config c) ops) as [[p h] d]. split.
  - intros b. split; [apply (Hs b)|]. specialize (Hb (λ b, le_0_n _) b). cbn in Hb.
    unfold stack_of. rewrite length_rev, length_fmap. by destruct (idle p !! b).
  - rewrite <- Ho. cbn [with_config idle kept]. unfold kept. by rewrite map_to_list_empty, app_nil_r.
Qed.

End runs.

(** ** Witnesses *)
Definition addr1 : SocketAddr := V4 (mk_ipv4 10 0 0 1) 80.

Lemma put_get_roundtrip_witness :
  let '(p1, d) := put http1_pool_new addr1 7%nat 0 in
  let '(r, p2, d') := try_get p1 addr1 59000000000 in
  d = None ∧ d' = None ∧ r = Some 7%nat ∧
  default [] (idle p2 !! addr1) = default [] (idle (http1_pool_new (S := nat)) !! addr1).
Proof. apply (put_get_roundtrip http1_pool_new addr1 7%nat 0 59000000000); vm_compute; [lia|split; discriminate]. Defined.

Definition stale_pool : Http1Pool nat :=
  mk_http1_pool (mk_pool_config 1 60000000000) {[addr1 := [mk_pooled 1%nat 0 0]]}.

Lemma stale_pool_drops_fresh_witness :
  (put stale_pool addr1 2%nat 61000000000).2 = Some 2%nat ∧
  let '(r, p', _) := try_get stale_pool addr1 61000000000 in
  r = None ∧ ∃ pool', idle p' !! addr1 = Some pool' ∧ length pool' = 0%nat.
Proof.
  apply (stale_pool_drops_fresh stale_pool addr1 [mk_pooled 1%nat 0 0] 2%nat 61000000000).
  - reflexivity.
  - reflexivity.
  - discriminate.
  - by repeat constructor.
  - vm_compute. discriminate.
Defined.
