(* ===== verification/Shutdown.v ===== *)
(** * Shutdown: the proxy server with graceful shutdown ([serve_with_shutdown] of [server.rs])

The server is a loop that accepts connections, a task per connection, and a task
that waits for the shutdown signal and then polls the number of active connections,
at most thirty seconds long, before it tells the loop to stop.  The tasks share one
counter and one notification, and run interleaved; a step is one access to them. *)

From S2P Require Import Prelude Common.

#[local] Open Scope Z_scope.

Definition drain_timeout : Z := 30000000000.
Definition poll_interval : Z := 100000000.

(** ** State *)

(** The phases of the drain task; [polls] counts the loads of the counter so far, and a
finished drain keeps what its last poll saw. *)
Inductive drain_phase : Type :=
| AwaitingSignal
| Polling (start : Z) (polls : nat)
| Sleeping (start wake : Z) (polls : nat)
| Notified (start now active : Z) (polls : nat).

Inductive server_phase : Type := Serving | StoppedOk | StoppedErr (e : string).

Record ServerState : Type := mk_server_state {
  clock : Z;
  active_connections : Z;
  (** The connections whose tasks run, and the number of those that panicked. *)
  live : gset nat;
  lost : nat;
  drain : drain_phase;
  permit : bool;
  server : server_phase
}.

Definition server_start (t : Z) : ServerState := mk_server_state t 0 ∅ 0 AwaitingSignal false Serving.

(** One turn of the drain loop. *)
Definition poll (start now active : Z) (polls : nat) : drain_phase :=
  if 0 <? active then
    if drain_timeout <? now - start then Notified start now active (S polls)
    else Sleeping start (now + poll_interval) (S polls)
  else Notified start now active (S polls).

Definition notifies (d : drain_phase) : bool := match d with Notified _ _ _ _ => true | _ => false end.

(** ** Steps *)
Inductive server_step : ServerState → ServerState → Prop :=
| st_accept t a l x d p c :
    c ∉ l → server_step (mk_server_state t a l x d p Serving) (mk_server_state t (as_u64 (a + 1)) ({[ c ]} ∪ l) x d p Serving)
| st_accept_error t a l x d p e :
    server_step (mk_server_state t a l x d p Serving)
      (mk_server_state t a l x d p (StoppedErr ("Failed to accept connection: " +:+ e)))
| st_done t a l x d p s c :
    c ∈ l → server_step (mk_server_state t a l x d p s) (mk_server_state t (as_u64 (a - 1)) (l ∖ {[ c ]}) x d p s)
(** A handler that panics unwinds its task before the counter is decremented. *)
| st_panic t a l x d p s c :
    c ∈ l → server_step (mk_server_state t a l x d p s) (mk_server_state t a (l ∖ {[ c ]}) (S x) d p s)
| st_signal t a l x p s :
    server_step (mk_server_state t a l x AwaitingSignal p s) (mk_server_state t a l x (Polling t 0) p s)
| st_poll t a l x p s start k :
    server_step (mk_server_state t a l x (Polling start k) p s)
      (mk_server_state t a l x (poll start t a k) (notifies (poll start t a k) || p) s)
| st_wake t a l x p s start wake k :
    wake <= t →
    server_step (mk_server_state t a l x (Sleeping start wake k) p s) (mk_server_state t a l x (Polling start k) p s)
| st_stop t a l x d :
    server_step (mk_server_state t a l x d true Serving) (mk_server_state t a l x d false StoppedOk)
| st_tick t t' a l x d p s :
    t <= t' → server_step (mk_server_state t a l x d p s) (mk_server_state t' a l x d p s).

Definition reachable (σ : ServerState) : Prop := ∃ t, rtc server_step (server_start t) σ.

(** ** Invariant *)
Definition drain_ok (now : Z) (d : drain_phase) : Prop :=
  match d with
  | AwaitingSignal => True
  | Polling start k => start + Z.of_nat k * poll_interval <= now ∧ (k <= 301)%nat
  | Sleeping start wake k => start + Z.of_nat k * poll_interval <= wake ∧ start <= now ∧ (k <= 301)%nat
  | Notified start at_ active k =>
      start <= at_ <= now ∧ (k <= 302)%nat ∧ (active = 0 ∨ drain_timeout < at_ - start)
  end.

Definition stopping (σ : ServerState) : Prop := permit σ = true ∨ server σ = StoppedOk.

Record server_ok (σ : ServerState) : Prop := {
  so_count : active_connections σ = as_u64 (Z.of_nat (size (live σ) + lost σ));
  so_drain : drain_ok (clock σ) (drain σ);
  so_stop : stopping σ → notifies (drain σ) = true;
  so_permit : notifies (drain σ) = true → server σ = Serving → permit σ = true;
  so_error : ∀ e, server σ = StoppedErr e → ∃ cause, e = "Failed to accept connection: " +:+ cause
}.

Lemma drain_ok_later t t' d : drain_ok t d → t <= t' → drain_ok t' d.
Proof. destruct d; cbn; lia. Qed.

Lemma poll_ok start now active k :
  0 <= active → start + Z.of_nat k * poll_interval <= now → (k <= 301)%nat → drain_ok now (poll start now active k).
Proof.
  intros Ha Hk Hl. unfold poll. destruct (0 <? active) eqn:Ea; zbool; [destruct (drain_timeout <? now - start) eqn:Et; zbool|];
    cbn [drain_ok]; unfold drain_timeout, poll_interval in *; lia.
Qed.

Lemma wrap_plus x y : as_u64 (as_u64 x + y) = as_u64 (x + y).
Proof. unfold wrap. by rewrite Zplus_mod_idemp_l. Qed.

Lemma wrap_minus x y : as_u64 (as_u64 x - y) = as_u64 (x - y).
Proof. unfold wrap. by rewrite Zminus_mod_idemp_l. Qed.

Lemma size_remove (l : gset nat) c : c ∈ l → size l = S (size (l ∖ {[ c ]})).
Proof.
  intros Hc. rewrite (size_difference l {[ c ]}) by set_solver. rewrite size_singleton.
  assert (size l ≠ 0%nat) by (rewrite size_non_empty_iff; set_solver). lia.
Qed.

Lemma server_step_ok σ σ' : server_ok σ → server_step σ σ' → server_ok σ'.
Proof.
  intros [Hc Hd Hs Hp He] Hstep. unfold stopping in Hs.
  destruct Hstep; cbn in Hc, Hd, Hs, Hp, He; subst; split; unfold stopping; cbn [active_connections live lost drain clock permit server];
    try done; try (by eauto).
  - rewrite wrap_plus, size_union, size_singleton by set_solver. f_equal. lia.
  - intros [?|?]; [auto|done].
  - intros e' [= <-]. by exists e.
  - rewrite wrap_minus, (size_remove l c) by done. f_equal. lia.
  - rewrite (size_remove l c) by done. f_equal. lia.
  - cbn. lia.
  - apply poll_ok; [apply wrap_range; lia|apply Hd..].
  - intros Hx. destruct (notifies (poll start t _ k)) eqn:En; [done|]. cbn in Hx. by discriminate (Hs Hx).
  - by intros -> _.
  - cbn. lia.
  - by eapply drain_ok_later.
Qed.

Lemma server_reachable_ok σ : reachable σ → server_ok σ.
Proof.
  intros [t Hr]. assert (server_ok (server_start t)) as Hok by (split; [done|done|by intros [|]|done|done]). revert Hok.
  induction Hr; eauto using server_step_ok.
Qed.


(** C32: the drain ends.  After the signal the drain task polls at most 302 times,
whatever connections do; and from every reachable state in which the signal has come
and the server serves, it can still stop. *)
Theorem drain_ends σ :
  reachable σ →
  match drain σ with
  | AwaitingSignal => True
  | Polling _ k | Sleeping _ _ k | Notified _ _ _ k => (k <= 302)%nat
  end ∧
  (drain σ ≠ AwaitingSignal → server σ = Serving → ∃ σ', rtc server_step σ σ' ∧ server σ' = StoppedOk).
Proof.
  intros Hr. pose proof (server_reachable_ok σ Hr) as [_ Hd _ Hp _]. split; [destruct (drain σ); cbn in Hd; lia|].
  assert (∀ t a l x p start k, ∃ σ', rtc server_step (mk_server_state t a l x (Polling start k) p Serving) σ' ∧ server σ' = StoppedOk) as Hpoll.
  { intros t a l x p start k. set (t' := Z.max t (start + drain_timeout + 1)).
    assert (notifies (poll start t' a k) = true) as Hn.
    { unfold poll. destruct (0 <? a); [|done]. by rewrite (proj2 (Z.ltb_lt _ _)) by lia. }
    exists (mk_server_state t' a l x (poll start t' a k) false StoppedOk). split; [|done].
    eapply rtc_l; [apply (st_tick t t'); lia|]. eapply rtc_l; [apply st_poll|]. rewrite Hn. apply rtc_once, st_stop. }
  destruct σ as [t a l x d p s]. cbn in *. intros Hne ->. destruct d as [|start k|start wake k|start at_ active k]; [done|apply Hpoll| |].
  - destruct (Hpoll (Z.max t wake) a l x p start k) as (σ' & Hσ' & Hok). exists σ'. split; [|done].
    eapply rtc_l; [apply (st_tick t (Z.max t wake)); lia|]. eapply rtc_l; [apply st_wake; lia|done].
  - rewrite Hp by done. eexists (mk_server_state t a l x _ false StoppedOk). split; [|done]. apply rtc_once, st_stop.
Qed.

(** A graceful stop can cut off a connection.  The loop goes on accepting while the
drain is in progress and after it: there is a run, with no time passing and no
handler failing, in which the drain sees no active connection, a client is accepted
after that, and the server stops with the connection running. *)
Theorem graceful_stop_cuts_connection t c :
  ∃ σ, rtc server_step (server_start t) σ ∧ server σ = StoppedOk ∧ c ∈ live σ ∧ clock σ = t ∧ lost σ = 0%nat.
Proof.
  eexists (mk_server_state t (as_u64 (0 + 1)) ({[ c ]} ∪ ∅) 0 (poll t t 0 0) false StoppedOk). split; [|cbn; set_solver].
  eapply rtc_l; [apply st_signal|]. eapply rtc_l; [apply st_poll|]. eapply rtc_l; [apply (st_accept _ _ _ _ _ _ c); set_solver|].
  apply rtc_once. apply st_stop.
Qed.

(** ** Witnesses *)
Definition draining_state : ServerState := mk_server_state 5 1 {[ 3%nat ]} 0 (Polling 5 0) false Serving.

Lemma draining_reachable : reachable draining_state.
Proof.
  exists 5. eapply rtc_l; [apply (st_accept _ _ _ _ _ _ 3%nat); set_solver|].
  replace ({[ 3%nat ]} ∪ ∅ : gset nat) with ({[ 3%nat ]} : gset nat) by set_solver. apply rtc_once, st_signal.
Qed.

(** The connection ends while the drain task sleeps, and the next poll lets the server stop. *)
Definition stopped_state : ServerState :=
  mk_server_state (5 + poll_interval) 0 ∅ 0 (Notified 5 (5 + poll_interval) 0 2) false StoppedOk.

Lemma stopped_reachable : reachable stopped_state.
Proof.
  destruct draining_reachable as [t Ht]. exists t. etrans; [exact Ht|]. unfold draining_state.
  eapply rtc_l; [apply st_poll|]. change (poll 5 5 1 0) with (Sleeping 5 (5 + poll_interval) 1). cbn [notifies orb].
  eapply rtc_l; [apply (st_done _ _ _ _ _ _ _ 3%nat); set_solver|]. change (as_u64 (1 - 1)) with 0.
  replace ({[ 3%nat ]} ∖ {[ 3%nat ]} : gset nat) with (∅ : gset nat) by set_solver.
  eapply rtc_l; [apply (st_tick _ (5 + poll_interval)); done|]. eapply rtc_l; [apply st_wake; done|].
  eapply rtc_l; [apply st_poll|]. change (poll 5 (5 + poll_interval) 0 1) with (Notified 5 (5 + poll_interval) 0 2).
  cbn [notifies orb]. apply rtc_once, st_stop.
Qed.


Lemma drain_ends_witness :
  (0 <= 302)%nat ∧
  (drain draining_state ≠ AwaitingSignal → server draining_state = Serving →
   ∃ σ', rtc server_step draining_state σ' ∧ server σ' = StoppedOk).
Proof. apply (drain_ends draining_state). exact draining_reachable. Defined.
