(* ===== verification/Lifecycle.v ===== *)
(** * Lifecycle: signals and the end of the process ([main.rs])

[run_controllers_only] waits for a signal and then for the controllers;
[run_with_signal_handling] runs the server of [Shutdown] with the signal as its
shutdown future and aborts the controllers.  The signals that arrive, and whether
their handlers could be installed, are inputs. *)

From S2P Require Import Prelude Common Shutdown.

#[local] Open Scope Z_scope.

(** ** The shutdown future *)
Inductive signal : Type := CtrlC | Sigterm.

#[export] Instance signal_eq_dec : EqDecision signal.
Proof. solve_decision. Defined.

(** Whether the handlers were installed. *)
Record Handlers : Type := mk_handlers { ctrl_c_ok : bool; sigterm_ok : bool }.

(** [ctrl_c]: an error of the installation is logged and the future is ready. *)
Definition ctrl_c_ready (h : Handlers) (received : list signal) : bool :=
  if ctrl_c_ok h then bool_decide (CtrlC ∈ received) else true.

(** [terminate]: after an error the future is pending for ever. *)
Definition terminate_ready (h : Handlers) (received : list signal) : bool :=
  if sigterm_ok h then bool_decide (Sigterm ∈ received) else false.

(** [select!]: one of them. *)
Definition shutdown_ready (h : Handlers) (received : list signal) : bool :=
  ctrl_c_ready h received || terminate_ready h received.

(** Once ready, always ready. *)
Lemma ready_more h rs s : shutdown_ready h rs = true → shutdown_ready h (rs ++ [s]) = true.
Proof.
  unfold shutdown_ready, ctrl_c_ready, terminate_ready. rewrite !orb_true_iff.
  destruct (ctrl_c_ok h), (sigterm_ok h); rewrite ?bool_decide_eq_true; set_solver.
Qed.

(** ** [run_controllers_only] *)

(** The loop over the handles is at one of them. *)
Inductive run_phase : Type := AwaitingShutdown | JoiningHandle (k : nat) | Returned.

Record ControllersRun : Type := mk_crun {
  cr_received : list signal;
  cr_finished : gset nat;
  cr_phase : run_phase
}.

Definition crun_start : ControllersRun := mk_crun [] ∅ AwaitingShutdown.

Section controllers.
(** The handles of the controllers, and which of their tasks can finish. *)
Context (h : Handlers) (handles : nat) (finishes : nat → Prop).

Inductive crun_step : ControllersRun → ControllersRun → Prop :=
| cr_receive rs f p s : crun_step (mk_crun rs f p) (mk_crun (rs ++ [s]) f p)
| cr_finish rs f p i : finishes i → crun_step (mk_crun rs f p) (mk_crun rs ({[ i ]} ∪ f) p)
| cr_ready rs f :
    shutdown_ready h rs = true → crun_step (mk_crun rs f AwaitingShutdown) (mk_crun rs f (JoiningHandle 0))
| cr_join rs f k :
    (k < handles)%nat → k ∈ f → crun_step (mk_crun rs f (JoiningHandle k)) (mk_crun rs f (JoiningHandle (S k)))
| cr_return rs f : crun_step (mk_crun rs f (JoiningHandle handles)) (mk_crun rs f Returned).

(** What the phases know. *)
Record crun_ok (σ : ControllersRun) : Prop := {
  co_finished : ∀ i, i ∈ cr_finished σ → finishes i;
  co_ready : cr_phase σ ≠ AwaitingShutdown → shutdown_ready h (cr_received σ) = true;
  co_joined : match cr_phase σ with
              | AwaitingShutdown => True
              | JoiningHandle k => (k <= handles)%nat ∧ ∀ i, (i < k)%nat → i ∈ cr_finished σ
              | Returned => ∀ i, (i < handles)%nat → i ∈ cr_finished σ
              end
}.

Lemma crun_step_ok σ σ' : crun_ok σ → crun_step σ σ' → crun_ok σ'.
Proof.
  intros [Hf Hr Hj] Hstep.
  destruct Hstep as [rs f p s|rs f p i Hi|rs f Hready|rs f k Hk Hin|rs f]; split; cbn in *; try done.
  - intros Hp. by apply ready_more, Hr.
  - intros j [->%elem_of_singleton|Hj']%elem_of_union; [done|by apply Hf].
  - destruct p as [|k|]; [done|destruct Hj as [? Hj]; split; [done|]|]; intros j Hlt; apply elem_of_union; right; by apply Hj.
  - split; [lia|]. intros i Hi. lia.
  - by intros _; apply Hr.
  - destruct Hj as [_ Hj]. split; [lia|]. intros i Hi. destruct (decide (i = k)) as [->|]; [done|]. apply Hj. lia.
  - by intros _; apply Hr.
  - apply Hj.
Qed.

Lemma crun_reachable_ok σ : rtc crun_step crun_start σ → crun_ok σ.
Proof.
  intros Hs. assert (crun_ok crun_start) as Hok by (split; cbn; [set_solver|done|done]). revert Hok.
  induction Hs; eauto using crun_step_ok.
Qed.

(** All handles can be joined once their tasks have finished. *)
Lemma joins_all rs f k n :
  (∀ i, (i < handles)%nat → finishes i) → (k + n = handles)%nat →
  ∃ f', rtc crun_step (mk_crun rs f (JoiningHandle k)) (mk_crun rs f' Returned).
Proof.
  intros Hfin. revert f k. induction n as [|n IH]; intros f k Hk.
  - exists f. replace k with handles by lia. apply rtc_once, cr_return.
  - destruct (IH ({[ k ]} ∪ f) (S k)) as [f' Hf']; [lia|]. exists f'.
    eapply rtc_l; [apply (cr_finish rs f _ k), Hfin; lia|]. eapply rtc_l; [apply cr_join; [lia|set_solver]|exact Hf'].
Qed.

(** C39: in Kubernetes mode the process ends only with its controllers.  It returns only
after the shutdown future was ready and every controller had finished, so with a
controller that goes on for ever it never returns, whatever signals arrive; if all can
finish, then it can always return once the future is ready. *)
Theorem controllers_end_process σ :
  rtc crun_step crun_start σ →
  (cr_phase σ = Returned → shutdown_ready h (cr_received σ) = true ∧ ∀ i, (i < handles)%nat → finishes i) ∧
  ((∀ i, (i < handles)%nat → finishes i) → shutdown_ready h (cr_received σ) = true →
     ∃ σ', rtc crun_step σ σ' ∧ cr_phase σ' = Returned ∧ cr_received σ' = cr_received σ).
Proof.
  intros [Hf Hr Hj]%crun_reachable_ok. split.
  - intros Hp. split; [apply Hr; congruence|]. rewrite Hp in Hj. intros i Hi. by apply Hf, Hj.
  - intros Hfin Hready. destruct σ as [rs f [|k|]]; cbn in *.
    + destruct (joins_all rs f 0 handles Hfin) as [f' Hf']; [done|]. exists (mk_crun rs f' Returned). split; [|done].
      eapply rtc_l; [by apply cr_ready|exact Hf'].
    + destruct (joins_all rs f k (handles - k) Hfin) as [f' Hf']; [lia|]. by exists (mk_crun rs f' Returned).
    + by exists (mk_crun rs f Returned).
Qed.
End controllers.

(** ** [run_with_signal_handling] *)
Record ServerRun : Type := mk_srun {
  sr_received : list signal;
  sr_server : ServerState;
  sr_aborted : bool;
  (** The result of [main]. *)
  sr_result : option (result unit string)
}.

Definition srun_start (t : Z) : ServerRun := mk_srun [] (server_start t) false None.

(** The server's signal step waits for the future. *)
Definition signal_step (σ σ' : ServerState) : bool :=
  match drain σ, drain σ' with
  | AwaitingSignal, AwaitingSignal => false
  | AwaitingSignal, _ => true
  | _, _ => false
  end.

Inductive srun_step (h : Handlers) : ServerRun → ServerRun → Prop :=
| sr_receive rs v a r s : srun_step h (mk_srun rs v a r) (mk_srun (rs ++ [s]) v a r)
| sr_serve rs v v' a r :
    server_step v v' → (signal_step v v' = true → shutdown_ready h rs = true) →
    srun_step h (mk_srun rs v a r) (mk_srun rs v' a r)
(** The result of the server is logged; the controllers are aborted. *)
| sr_return rs v :
    server v ≠ Serving → srun_step h (mk_srun rs v false None) (mk_srun rs v true (Some (Ok ()))).

Record srun_ok (h : Handlers) (σ : ServerRun) : Prop := {
  sk_server : reachable (sr_server σ);
  sk_signal : drain (sr_server σ) ≠ AwaitingSignal → shutdown_ready h (sr_received σ) = true;
  sk_result : ∀ r, sr_result σ = Some r → r = Ok () ∧ server (sr_server σ) ≠ Serving ∧ sr_aborted σ = true
}.

Lemma stopped_stays σ σ' : server σ ≠ Serving → server_step σ σ' → server σ' ≠ Serving.
Proof. intros Hn Hstep. destruct Hstep; cbn in *; congruence. Qed.

Lemma srun_step_ok h σ σ' : srun_ok h σ → srun_step h σ σ' → srun_ok h σ'.
Proof.
  intros [[t Hv] Hs Hr] Hstep. destruct Hstep as [rs v a r s|rs v v' a r Hstep Hsig|rs v Hstop]; split; cbn in *; try done.
  - by exists t.
  - intros Hd. by apply ready_more, Hs.
  - exists t. by eapply rtc_r.
  - intros Hd. unfold signal_step in Hsig. destruct (drain v) eqn:E; [|by apply Hs..].
    destruct (drain v'); [done|by apply Hsig..].
  - intros x Hx. destruct (Hr x Hx) as (? & Hne & ?). split_and!; [done|by eapply stopped_stays|done].
  - by exists t.
  - by intros x [= <-].
Qed.

Lemma srun_reachable_ok h t σ : rtc (srun_step h) (srun_start t) σ → srun_ok h σ.
Proof.
  intros Hs. assert (srun_ok h (srun_start t)) as Hok by (split; cbn; [by exists t|done|done]). revert Hok.
  induction Hs; eauto using srun_step_ok.
Qed.

(** The standalone process ends for a reason, and without an error.  It returns only
after its server has stopped and with the controllers aborted; the server has stopped
because the shutdown future was ready, after its drain, or because accept failed once.
Even then the process reports success. *)
Theorem standalone_ends h t σ r :
  rtc (srun_step h) (srun_start t) σ → sr_result σ = Some r →
  r = Ok () ∧ sr_aborted σ = true ∧
  (shutdown_ready h (sr_received σ) = true ∧ notifies (drain (sr_server σ)) = true ∨
   ∃ e, server (sr_server σ) = StoppedErr e).
Proof.
  intros [Hv Hs Hr]%srun_reachable_ok Hres. destruct (Hr r Hres) as (-> & Hne & Ha). split; [done|]. split; [done|].
  destruct (server (sr_server σ)) as [| |e] eqn:E; [done| |by right; exists e]. left.
  pose proof (so_stop _ (server_reachable_ok _ Hv) (or_intror E)) as Hn. split; [|done].
  apply Hs. intros E'. by rewrite E' in Hn.
Qed.

(** A handler that cannot be installed stops the process.  If the handler for Ctrl-C
fails, which the log says costs only that key, the future is ready at once, and the
process ends with no signal; if that for SIGTERM fails, it waits. *)
Theorem failed_handler_stops h t :
  ctrl_c_ok h = false →
  (∃ σ, rtc (srun_step h) (srun_start t) σ ∧ sr_received σ = [] ∧ sr_result σ = Some (Ok ()) ∧ server (sr_server σ) = StoppedOk) ∧
  (∀ finishes, ∃ σ, rtc (crun_step h 0 finishes) crun_start σ ∧ cr_received σ = [] ∧ cr_phase σ = Returned).
Proof.
  intros Hc. assert (shutdown_ready h [] = true) as Hready by (unfold shutdown_ready, ctrl_c_ready; by rewrite Hc). split.
  - eexists. split.
    { eapply rtc_l; [by apply (sr_serve h [] _ _ _ _ (st_signal t 0 ∅ 0 false Serving))|].
      eapply rtc_l; [by apply (sr_serve h [] _ _ _ _ (st_poll t 0 ∅ 0 false Serving t 0))|].
      eapply rtc_l; [by apply (sr_serve h [] _ _ _ _ (st_stop t 0 ∅ 0 _))|]. by apply rtc_once, sr_return. }
    done.
  - intros fin. eexists. split.
    { eapply rtc_l; [by apply cr_ready|]. apply rtc_once, cr_return. }
    done.
Qed.

(** ** Witnesses *)
Definition both : Handlers := mk_handlers true true.

(** Four controllers that watch for ever: SIGTERM is received and nothing ends. *)
Definition told : ControllersRun := mk_crun [Sigterm] ∅ (JoiningHandle 0).

Lemma told_reachable : rtc (crun_step both 4 (λ _, False)) crun_start told.
Proof. eapply rtc_l; [apply (cr_receive _ _ _ _ _ _ Sigterm)|]. apply rtc_once, cr_ready. reflexivity. Qed.

Lemma controllers_end_process_witness :
  rtc (crun_step both 4 (λ _, False)) crun_start told ∧
  (∀ σ, rtc (crun_step both 4 (λ _, False)) told σ → cr_phase σ ≠ Returned).
Proof.
  split; [apply told_reachable|].
  intros σ Hs Hp. assert (rtc (crun_step both 4 (λ _, False)) crun_start σ) as Hr by (etrans; [apply told_reachable|exact Hs]).
  destruct (controllers_end_process both 4 (λ _, False) σ Hr) as [Hret _]. destruct (Hret Hp) as [_ Hf]. apply (Hf 0%nat). lia.
Defined.

(** A failing accept ends the standalone process. *)
Definition failed_accept : ServerRun :=
  mk_srun [] (mk_server_state 0 0 ∅ 0 AwaitingSignal false (StoppedErr "Failed to accept connection: too many open files")) true (Some (Ok ())).

Lemma standalone_ends_witness :
  rtc (srun_step both) (srun_start 0) failed_accept ∧ Ok () = Ok (E := string) () ∧ sr_aborted failed_accept = true ∧
  (shutdown_ready both (sr_received failed_accept) = true ∧ notifies (drain (sr_server failed_accept)) = true ∨
   ∃ e, server (sr_server failed_accept) = StoppedErr e).
Proof.
  assert (rtc (srun_step both) (srun_start 0) failed_accept) as Hr.
  { eapply rtc_l; [by apply (sr_serve both [] _ _ _ _ (st_accept_error 0 0 ∅ 0 AwaitingSignal false "too many open files"))|].
    by apply rtc_once, sr_return. }
  split; [exact Hr|]. apply (standalone_ends both 0 failed_accept (Ok ()) Hr). reflexivity.
Defined.

Lemma failed_handler_stops_witness :
  ∃ σ, rtc (srun_step (mk_handlers false true)) (srun_start 0) σ ∧ sr_received σ = [] ∧ sr_result σ = Some (Ok ()) ∧
    server (sr_server σ) = StoppedOk.
Proof. apply (failed_handler_stops (mk_handlers false true) 0). reflexivity. Defined.
