(* ===== verification/Diagnostics.v ===== *)
(** * Diagnostics: rules over snapshots ([agent-api/src/diagnostics], [types.rs])

The engine runs seven rules over a snapshot of the gateway; each reports the
problems it sees as structured diagnoses.  The case tables of Unicode and the
iteration order of a [HashMap] are inputs. *)

From S2P Require Import Prelude Common Float Text Decimal Maglev Health HealthChecker Filters Matching RouteCache Matchit.
From S2P Require Import Selection Router RateLimiter CowMap CircuitBreaker BreakerManager.

#[local] Open Scope Z_scope.

(** ** Types *)
Record ListenerSnapshot : Type := mk_lsnap { lsnap_port : Z; lsnap_protocol : string; lsnap_gateway_refs : list string }.

Record CacheStats : Type := mk_cache_stats { cs_hits : Z; cs_misses : Z; cs_size : nat; cs_hit_rate : f64 }.

Record GatewaySnapshot : Type := mk_gsnap {
  gs_status : string;
  gs_uptime_seconds : Z;
  gs_route_count : nat;
  gs_open_circuits : nat;
  gs_exhausted_rate_limiters : nat;
  gs_listeners : list ListenerSnapshot;
  gs_cache_stats : option CacheStats
}.

Inductive Severity : Type := Info | Warning | Critical.

Record SuggestedAction : Type := mk_action { description : string; cli_command : option string }.

Record Diagnosis : Type := mk_diagnosis {
  rule_id : string;
  d_symptom : string;
  severity : Severity;
  confidence : f64;
  causal_chain : list string;
  evidence : list string;
  suggested_actions : list SuggestedAction
}.

Record DiagnosticContext : Type := mk_context {
  ctx_snapshot : GatewaySnapshot;
  ctx_routes : list RouteSnapshot;
  ctx_circuit_breakers : list CircuitBreakerSnapshot;
  ctx_rate_limiters : list RateLimiterSnapshot
}.

(** The trait [DiagnosticRule]. *)
Record DiagnosticRule : Type := mk_diagnostic_rule {
  dr_id : string;
  dr_symptom : string;
  evaluate : DiagnosticContext → list Diagnosis
}.

(** ** Numbers as text *)

(** [{:.digits}] of a float: rounded to the nearest, ties to even. *)
Definition show_fixed (digits : nat) (v : f64) : string :=
  let sign (negative : bool) := if negative then "-" else "" in
  let fraction n := match digits with O => "" | _ => "." +:+ n end in
  match v with
  | S754_nan => "NaN"
  | S754_infinity negative => sign negative +:+ "inf"
  | S754_zero negative => sign negative +:+ "0" +:+ fraction (zero_digits digits)
  | S754_finite negative m e =>
      let '(num, den) := fraction_of m e in
      let scaled := num * 10 ^ Z.of_nat digits in
      let q := scaled / den in
      let twice := 2 * (scaled mod den) in
      let n := if (den <? twice) || ((den =? twice) && Z.odd q) then q + 1 else q in
      let frac := show_Z (n mod 10 ^ Z.of_nat digits) in
      sign negative +:+ show_Z (n / 10 ^ Z.of_nat digits) +:+
      fraction (zero_digits (digits - String.length frac) +:+ frac)
  end.

Example fixed_texts :
  show_fixed 1 (f64_of_decimal false 6667 (-2)) = "66.7" ∧ show_fixed 0 (f64_of_decimal false 25 (-1)) = "2" ∧
  show_fixed 1 (f64_of_Z 0) = "0.0" ∧ show_fixed 0 (f64_of_Z 100) = "100" ∧ show_fixed 1 (f64_of_decimal false 3 (-2)) = "0.0".
Proof. vm_compute. auto. Qed.

(** [{:?}] of an optional score between 0 and 1: a whole number has its fraction. *)
Definition debug_score (x : option f64) : string :=
  match x with
  | None => "None"
  | Some v => let s := show_f64 v in "Some(" +:+ (if contains "." s then s else s +:+ ".0") +:+ ")"
  end.

Example score_texts :
  debug_score (Some (f64_of_Z 1)) = "Some(1.0)" ∧ debug_score (Some (f64_of_decimal false 25 (-2))) = "Some(0.25)".
Proof. vm_compute. auto. Qed.

Definition bool_string (b : bool) : string := if b then "true" else "false".

Definition nat_string (n : nat) : string := show_Z (Z.of_nat n).

Definition dquote : string := String (ascii_of_N 34) EmptyString.

Fixpoint map_ascii (f : ascii → ascii) (s : string) : string :=
  match s with EmptyString => EmptyString | String c s => String (f c) (map_ascii f s) end.

(** ** Rules *)
Definition is_open (cb : CircuitBreakerSnapshot) : bool := String.eqb (cb_state cb) "Open".

Definition cascade_id : string := "RAUTA-CB-001".
Definition cascade_symptom : string := "circuit-breaker-cascade".

Definition CircuitBreakerCascade : DiagnosticRule := mk_diagnostic_rule cascade_id cascade_symptom (λ ctx,
  let open_breakers := filter (λ cb, is_open cb = true) (ctx_circuit_breakers ctx) in
  if (2 <=? length open_breakers)%nat then
    [mk_diagnosis cascade_id cascade_symptom Critical (f64_of_decimal false 95 (-2))
       [nat_string (length open_breakers) +:+ " backends have open circuit breakers";
        "Multiple simultaneous failures suggest upstream dependency issue"]
       ((λ cb, "Backend " +:+ backend_id cb +:+ " is Open (failures: " +:+ show_Z (cb_failure_count cb) +:+ ")")
          <$> open_breakers)
       [mk_action "Check if backends share a common upstream dependency" (Some "rauta backends health");
        mk_action "Check network connectivity to backend cluster" None;
        mk_action "Review circuit breaker thresholds if false positives" (Some "rauta diagnose circuit-breaker-open")]]
  else []).

Definition open_id : string := "RAUTA-CB-002".
Definition open_symptom : string := "circuit-breaker-open".

Definition CircuitBreakerOpen : DiagnosticRule := mk_diagnostic_rule open_id open_symptom (λ ctx,
  (λ cb,
     mk_diagnosis open_id open_symptom Warning (f64_of_decimal false 9 (-1))
       ["Backend " +:+ backend_id cb +:+ " circuit breaker is Open after " +:+ show_Z (cb_failure_count cb) +:+ " failures";
        "Traffic is being rerouted to healthy backends"]
       ["Circuit state: " +:+ cb_state cb +:+ ", failures: " +:+ show_Z (cb_failure_count cb)]
       [mk_action ("Check backend " +:+ backend_id cb +:+ " health and logs")
          (Some ("rauta backends health --backend=" +:+ backend_id cb));
        mk_action "Wait for circuit breaker timeout to attempt recovery" None])
    <$> filter (λ cb, is_open cb = true) (ctx_circuit_breakers ctx)).

Definition exhausted_id : string := "RAUTA-RL-001".
Definition exhausted_symptom : string := "rate-limit-exhausted".

Definition RateLimitExhausted : DiagnosticRule := mk_diagnostic_rule exhausted_id exhausted_symptom (λ ctx,
  (λ rl,
     mk_diagnosis exhausted_id exhausted_symptom Warning (f64_of_decimal false 85 (-2))
       ["Route " +:+ rl_route rl +:+ " has exhausted its rate limit";
        "Configured at " +:+ show_fixed 0 (rl_refill_rate rl) +:+ " req/s with burst capacity " +:+
        show_fixed 0 (rl_capacity rl)]
       ["Tokens available: " +:+ show_fixed 1 (rl_tokens rl) +:+ "/" +:+ show_fixed 0 (rl_capacity rl)]
       [mk_action "Review if rate limit is appropriate for current traffic"
          (Some ("rauta metrics query rauta_rate_limit_requests_total{route=" +:+ dquote +:+ rl_route rl +:+ dquote +:+ "}"));
        mk_action "Consider increasing rate limit or burst capacity" None])
    <$> filter (λ rl, f64_leb (rl_tokens rl) (S754_zero false) = true) (ctx_rate_limiters ctx)).

(** [health_score.is_some_and(|s| s < 0.5)] *)
Definition known_unhealthy (b : BackendSnapshot) : bool :=
  match bs_health_score b with
  | Some s => f64_ltb s half
  | None => false
  end.

Definition no_healthy (route : RouteSnapshot) : bool :=
  match rs_backends route with
  | [] => true
  | bs => forallb known_unhealthy bs
  end.

Definition no_healthy_id : string := "RAUTA-BE-001".
Definition no_healthy_symptom : string := "no-healthy-backends".

Definition NoHealthyBackends : DiagnosticRule := mk_diagnostic_rule no_healthy_id no_healthy_symptom (λ ctx,
  (λ route,
     let backend_count := length (rs_backends route) in
     mk_diagnosis no_healthy_id no_healthy_symptom Critical (f64_of_decimal false 95 (-2))
       ["Route " +:+ rs_method route +:+ " " +:+ rs_pattern route +:+ " has no healthy backends";
        if (backend_count =? 0)%nat then "No backends configured for this route"
        else "All " +:+ nat_string backend_count +:+ " backends are unhealthy"]
       ((λ b, "Backend " +:+ bs_address b +:+ ":" +:+ show_Z (bs_port b) +:+ " health_score=" +:+
              debug_score (bs_health_score b) +:+ " draining=" +:+ bool_string (bs_is_draining b))
          <$> rs_backends route)
       [mk_action "Check backend pod status in Kubernetes" (Some ("rauta routes get " +:+ rs_pattern route));
        mk_action "Verify EndpointSlice has ready addresses" None])
    <$> filter (λ route, no_healthy route = true) (ctx_routes ctx)).

Definition all_draining (route : RouteSnapshot) : bool :=
  match rs_backends route with
  | [] => false
  | bs => forallb bs_is_draining bs
  end.

Definition draining_id : string := "RAUTA-BE-002".
Definition draining_symptom : string := "all-backends-draining".

Definition AllBackendsDraining : DiagnosticRule := mk_diagnostic_rule draining_id draining_symptom (λ ctx,
  (λ route,
     mk_diagnosis draining_id draining_symptom Warning (f64_of_decimal false 9 (-1))
       ["Route " +:+ rs_method route +:+ " " +:+ rs_pattern route +:+ " has all backends draining";
        "No backends available to serve new requests"]
       ((λ b, "Backend " +:+ bs_address b +:+ ":" +:+ show_Z (bs_port b) +:+ " is draining") <$> rs_backends route)
       [mk_action "Ensure replacement backends are being provisioned" (Some "rauta backends health")])
    <$> filter (λ route, all_draining route = true) (ctx_routes ctx)).

Definition low_cache_id : string := "RAUTA-CACHE-001".
Definition low_cache_symptom : string := "low-cache-hit-rate".

(** The sum is of [u64]s; the counters stay far below the width. *)
Definition LowCacheHitRate : DiagnosticRule := mk_diagnostic_rule low_cache_id low_cache_symptom (λ ctx,
  match gs_cache_stats (ctx_snapshot ctx) with
  | Some cache =>
      let total := wrap 64 (cs_hits cache + cs_misses cache) in
      let percent := show_fixed 1 (f64_mul (cs_hit_rate cache) (f64_of_Z 100)) in
      if (1000 <=? total) && f64_ltb (cs_hit_rate cache) half then
        [mk_diagnosis low_cache_id low_cache_symptom Info (f64_of_decimal false 7 (-1))
           ["Route cache hit rate is " +:+ percent +:+ "% (" +:+ show_Z (cs_hits cache) +:+ " hits, " +:+
            show_Z (cs_misses cache) +:+ " misses)";
            "Many unique paths are being requested, reducing cache effectiveness"]
           ["Cache size: " +:+ nat_string (cs_size cache) +:+ ", hit_rate: " +:+ percent +:+ "%"]
           [mk_action "Consider if path cardinality is expected (API versioning, UUIDs in paths)"
              (Some "rauta traffic top")]]
      else []
  | None => []
  end).

(** The order in which the map of ports is iterated. *)
Class PortOrder : Type := {
  port_iter : gmap Z (list string) → list (Z * list string);
  port_iter_perm : ∀ m, port_iter m ≡ₚ map_to_list m
}.

Definition count_port (counts : gmap Z (list string)) (l : ListenerSnapshot) : gmap Z (list string) :=
  <[lsnap_port l := default [] (counts !! lsnap_port l) ++ [lsnap_protocol l]]> counts.

Definition listener_id : string := "RAUTA-LISTEN-001".
Definition listener_symptom : string := "listener-conflict".

Section engine.
Context `{!PortOrder}.

Definition ListenerConflict : DiagnosticRule := mk_diagnostic_rule listener_id listener_symptom (λ ctx,
  let port_counts := foldl count_port ∅ (gs_listeners (ctx_snapshot ctx)) in
  (λ '(port, protocols),
     mk_diagnosis listener_id listener_symptom Warning (f64_of_decimal false 8 (-1))
       ["Port " +:+ show_Z port +:+ " has " +:+ nat_string (length protocols) +:+ " listener configurations";
        "Multiple Gateway resources may be competing for the same port"]
       ((λ p, "Protocol: " +:+ p +:+ " on port " +:+ show_Z port) <$> protocols)
       [mk_action "Review Gateway resources for port conflicts" (Some "rauta status")])
    <$> filter (λ '(_, protocols), (1 < length protocols)%nat) (port_iter port_counts)).

(** ** The engine *)
Record DiagnosticsEngine : Type := mk_engine { rules : list DiagnosticRule }.

Definition engine_new : DiagnosticsEngine := mk_engine [].

Definition register (e : DiagnosticsEngine) (rule : DiagnosticRule) : DiagnosticsEngine := mk_engine (rules e ++ [rule]).

Definition with_builtin_rules : DiagnosticsEngine :=
  let e := engine_new in
  let e := register e CircuitBreakerCascade in
  let e := register e CircuitBreakerOpen in
  let e := register e RateLimitExhausted in
  let e := register e NoHealthyBackends in
  let e := register e AllBackendsDraining in
  let e := register e LowCacheHitRate in
  register e ListenerConflict.

Definition engine_diagnose (e : DiagnosticsEngine) (ctx : DiagnosticContext) : list Diagnosis :=
  foldl (λ ds rule, ds ++ evaluate rule ctx) [] (rules e).

(** The Unicode case mappings, of which the rules' own names need the ASCII part. *)
Class UnicodeCase : Type := {
  to_lowercase : string → string;
  to_uppercase : string → string;
  lowercase_ascii : ∀ s, forall_ascii is_graphic s = true → to_lowercase s = map_ascii to_ascii_lowercase s
}.
Context `{!UnicodeCase}.

Definition rule_matches (symptom_lower : string) (rule : DiagnosticRule) : bool :=
  contains symptom_lower (to_lowercase (dr_symptom rule)) || contains symptom_lower (to_lowercase (dr_id rule)).

Definition diagnose_symptom (e : DiagnosticsEngine) (ctx : DiagnosticContext) (symptom : string) : list Diagnosis :=
  let symptom_lower := to_lowercase symptom in
  foldl (λ ds rule, if rule_matches symptom_lower rule then ds ++ evaluate rule ctx else ds) [] (rules e).

End engine.
