(* ===== verification/LocalQuery.v ===== *)
(** * LocalQuery: the query interface of the admin API ([admin/local_query.rs])

Reads the router, the circuit breakers and the rate limiter that were given to
it; the diagnosis runs the rules of [Diagnostics] over what it read. *)

From Stdlib Require Import Sorted.
From S2P Require Import Prelude Common Float Text Decimal Maglev Health HealthChecker Filters Matching RouteCache Matchit.
From S2P Require Import Selection Router RouterSpec RateLimiter CowMap CircuitBreaker BreakerManager Diagnostics.

#[local] Open Scope Z_scope.
#[local] Open Scope rauta_scope.

(** ** Sorting *)

(** [sort_by]: stable, by a comparison that is total. *)
Fixpoint sorted_insert {A} (leb : A → A → bool) (x : A) (l : list A) : list A :=
  match l with
  | [] => [x]
  | y :: l' => if leb x y then x :: l else y :: sorted_insert leb x l'
  end.

Definition sort_by {A} (leb : A → A → bool) (l : list A) : list A := foldr (sorted_insert leb) [] l.

(** [String::cmp] compares the bytes. *)
Definition by_text {A} (key : A → string) (x y : A) : bool := String.leb (key x) (key y).

(** ** The queries *)
Section query.
Context {M : Type} `{!Matchit RouteKey M} `{!MapOrder} `{!PortOrder} `{!UnicodeCase}.

Record LocalGatewayQuery : Type := mk_query {
  lq_router : Router M;
  lq_circuit_breaker : Manager;
  lq_rate_limiter : RateLimiter;
  lq_start_time : Z
}.

(** The clock counts nanoseconds. *)
Definition query_new (router : Router M) (m : Manager) (l : RateLimiter) (now : Z) : LocalGatewayQuery :=
  mk_query router m l now.

Definition cache_stats_internal (q : LocalGatewayQuery) : CacheStats :=
  let '(hits, misses) := cache_stats (route_cache (lq_router q)) in
  let total := wrap 64 (hits + misses) in
  mk_cache_stats hits misses (cache_size (route_cache (lq_router q)))
    (if 0 <? total then f64_div (f64_of_Z hits) (f64_of_Z total) else f64_of_Z 0).

Definition snapshot (q : LocalGatewayQuery) (now : Z) : GatewaySnapshot :=
  mk_gsnap "ok" ((now - lq_start_time q) / 1000000000) (route_count (lq_router q)) (open_count (lq_circuit_breaker q))
    (exhausted_count (lq_rate_limiter q) now) [] (Some (cache_stats_internal q)).

Definition query_routes (q : LocalGatewayQuery) (method_filter path_prefix : option string) : list RouteSnapshot :=
  let routes := list_routes (lq_router q) in
  let routes := match method_filter with
                | Some method => let method_upper := to_uppercase method in
                                 filter (λ r, String.eqb (rs_method r) method_upper = true) routes
                | None => routes
                end in
  let routes := match path_prefix with
                | Some prefix => filter (λ r, starts_with prefix (rs_pattern r) = true) routes
                | None => routes
                end in
  sort_by (by_text rs_pattern) routes.

Definition get_route (q : LocalGatewayQuery) (pattern : string) : option RouteSnapshot :=
  List.find (λ r, String.eqb (rs_pattern r) pattern) (list_routes (lq_router q)).

Definition list_circuit_breakers (q : LocalGatewayQuery) (state_filter : option string) : list CircuitBreakerSnapshot :=
  let breakers := snapshot_all (lq_circuit_breaker q) in
  let breakers := match state_filter with
                  | Some state => let state_upper := to_uppercase state in
                                  filter (λ b, String.eqb (to_uppercase (cb_state b)) state_upper = true) breakers
                  | None => breakers
                  end in
  sort_by (by_text backend_id) breakers.

Definition list_rate_limiters (q : LocalGatewayQuery) (route_filter : option string) (now : Z)
    : list RateLimiterSnapshot :=
  let limiters := limiter_snapshot_all (lq_rate_limiter q) now in
  let limiters := match route_filter with
                  | Some route => filter (λ l, contains route (rl_route l) = true) limiters
                  | None => limiters
                  end in
  sort_by (by_text rl_route) limiters.

Definition list_listeners (q : LocalGatewayQuery) : list ListenerSnapshot := [].

Definition query_cache_stats (q : LocalGatewayQuery) : option CacheStats := Some (cache_stats_internal q).

(** The two readings of the clock: for the snapshot and for the rate limiters. *)
Definition diagnostic_context (q : LocalGatewayQuery) (now now' : Z) : DiagnosticContext :=
  mk_context (snapshot q now) (list_routes (lq_router q)) (snapshot_all (lq_circuit_breaker q))
    (limiter_snapshot_all (lq_rate_limiter q) now').

Definition query_diagnose (q : LocalGatewayQuery) (symptom : string) (route_filter backend_filter : option string)
    (now now' : Z) : list Diagnosis :=
  diagnose_symptom with_builtin_rules (diagnostic_context q now now') symptom.

Definition query_drain_backend (q : LocalGatewayQuery) (backend : string) (timeout_secs : option Z) : result unit string :=
  Err "drain_backend not yet implemented via admin API".

Definition query_undrain_backend (q : LocalGatewayQuery) (backend : string) : result unit string :=
  Err "undrain_backend not yet implemented via admin API".

(** ** Lemmas *)
Lemma sorted_insert_perm {A} leb (x : A) l : sorted_insert leb x l ≡ₚ x :: l.
Proof.
  induction l as [|y l IH]; [done|]. cbn. destruct (leb x y); [done|]. rewrite IH. apply Permutation_swap.
Qed.

Lemma sort_by_perm {A} leb (l : list A) : sort_by leb l ≡ₚ l.
Proof. induction l as [|x l IH]; [done|]. cbn. by rewrite sorted_insert_perm, IH. Qed.

Lemma sort_by_sorted {A} leb (l : list A) :
  (∀ x y, leb x y = false → leb y x = true) → Sorted (λ x y, leb x y = true) (sort_by leb l).
Proof.
  intros Ht. induction l as [|x l IH]; [by constructor|]. cbn. fold (sort_by leb l).
  induction IH as [|y l' Hs IHs Hd]; cbn; [by repeat constructor|].
  destruct (leb x y) eqn:E; [by repeat constructor|].
  constructor; [done|]. destruct l' as [|z l']; cbn; [constructor; by apply Ht|].
  destruct (leb x z); constructor; [by apply Ht|]. by inversion Hd.
Qed.

Lemma sorted_insert_filter {A} leb (p : A → bool) x l :
  (∀ x y z, leb x y = true → leb y z = true → leb x z = true) →
  StronglySorted (λ x y, leb x y = true) l → p x = true →
  List.filter p (sorted_insert leb x l) = sorted_insert leb x (List.filter p l).
Proof.
  intros Htr Hs Hx. induction Hs as [|y l Hs IH Hy]; cbn [sorted_insert List.filter]; [by rewrite Hx|].
  destruct (leb x y) eqn:E.
  - cbn [List.filter]. rewrite Hx. destruct (p y); [cbn [sorted_insert]; by rewrite E|].
    (* everything kept from the rest comes after [x] *)
    destruct (List.filter p l) as [|z k] eqn:Ek; [done|]. cbn [sorted_insert].
    assert (z ∈ l) as Hz. { apply list_elem_of_In. eapply (proj1 (List.filter_In p z l)). rewrite Ek. by left. }
    rewrite Forall_forall in Hy. by rewrite (Htr x y z E (Hy z Hz)).
  - cbn [List.filter]. destruct (p y); [|done]. cbn [sorted_insert]. by rewrite E, IH.
Qed.

Lemma sorted_insert_skip {A} leb (p : A → bool) x l :
  p x = false → List.filter p (sorted_insert leb x l) = List.filter p l.
Proof.
  intros Hx. induction l as [|y l IH]; cbn [sorted_insert List.filter]; [by rewrite Hx|].
  destruct (leb x y); cbn [List.filter]; [by rewrite Hx|]. by rewrite IH.
Qed.

Lemma sort_by_strong {A} leb (l : list A) :
  (∀ x y, leb x y = false → leb y x = true) → (∀ x y z, leb x y = true → leb y z = true → leb x z = true) →
  StronglySorted (λ x y, leb x y = true) (sort_by leb l).
Proof. intros Ht Htr. apply Sorted_StronglySorted; [done|]. by apply sort_by_sorted. Qed.

(** Sorting is stable: it commutes with taking a part of the list. *)
Lemma sort_by_filter {A} leb (p : A → bool) (l : list A) :
  (∀ x y, leb x y = false → leb y x = true) → (∀ x y z, leb x y = true → leb y z = true → leb x z = true) →
  List.filter p (sort_by leb l) = sort_by leb (List.filter p l).
Proof.
  intros Ht Htr. induction l as [|x l IH]; [done|]. cbn [sort_by foldr List.filter]. fold (sort_by leb l).
  destruct (p x) eqn:E.
  - rewrite sorted_insert_filter by (done || by apply sort_by_strong). cbn [sort_by foldr]. by rewrite IH.
  - by rewrite sorted_insert_skip, IH.
Qed.

Lemma sort_by_equal {A} leb (l : list A) :
  (∀ x y, x ∈ l → y ∈ l → leb x y = true) → sort_by leb l = l.
Proof.
  induction l as [|x l IH]; intros Hl; [done|]. cbn [sort_by foldr]. fold (sort_by leb l).
  rewrite IH by (intros; apply Hl; by right). destruct l as [|y l]; [done|]. cbn [sorted_insert].
  by rewrite Hl by set_solver.
Qed.

Lemma find_filter {A} (p : A → bool) l : List.find p l = head (List.filter p l).
Proof. induction l as [|x l IH]; [done|]. cbn. by destruct (p x). Qed.

Lemma by_text_trans {A} (key : A → string) x y z :
  by_text key x y = true → by_text key y z = true → by_text key x z = true.
Proof.
  unfold by_text. intros Hxy Hyz. apply Is_true_eq_true.
  apply (transitivity (R := String.le) (y := key y)); by apply Is_true_eq_left.
Qed.

Lemma by_text_total {A} (key : A → string) x y : by_text key x y = false → by_text key y x = true.
Proof. unfold by_text. destruct (String.leb_total (key x) (key y)) as [->| ->]; done. Qed.

Lemma foldl_collect {A B} (f : A → list B) (p : A → bool) l acc :
  foldl (λ ds x, if p x then ds ++ f x else ds) acc l = acc ++ flat_map f (List.filter p l).
Proof.
  revert acc. induction l as [|x l IH]; intros acc; cbn; [by rewrite app_nil_r|].
  rewrite IH. destruct (p x); [|done]. cbn. by rewrite app_assoc.
Qed.

Lemma contains_nil s : contains "" s = true.
Proof. by destruct s. Qed.

(** The empty symptom names every rule. *)
Lemma diagnose_all e ctx : diagnose_symptom e ctx "" = flat_map (λ rule, evaluate rule ctx) (rules e).
Proof.
  unfold diagnose_symptom. rewrite foldl_collect. cbn [app]. f_equal. rewrite lowercase_ascii by done. cbn [map_ascii].
  induction (rules e) as [|rule l IH]; [done|]. cbn [List.filter]. unfold rule_matches at 1.
  rewrite contains_nil. by rewrite IH.
Qed.

Lemma length_filter_fmap {A B} (f : A → B) (P : B → Prop) (Q : A → Prop) `{!∀ x, Decision (P x)} `{!∀ x, Decision (Q x)} l :
  (∀ x, P (f x) ↔ Q x) → length (filter P (f <$> l)) = length (filter Q l).
Proof.
  intros Hpq. induction l as [|x l IH]; [done|]. cbn [fmap list_fmap]. rewrite !filter_cons.
  destruct (decide (P (f x))), (decide (Q x)); cbn; naive_solver.
Qed.

(** *** What the snapshots say of the components *)
Lemma open_breakers_count m :
  length (filter (λ cb, is_open cb = true) (snapshot_all m)) = open_count m.
Proof.
  unfold snapshot_all, open_count. apply length_filter_fmap. intros [id a]. unfold is_open. cbn.
  by destruct (state (deref m a)).
Qed.

Definition route_snapshot (h : HealthData) (kr : RouteKey * Route) : RouteSnapshot :=
  mk_rsnap (pattern kr.2) (method_to_str (key_method kr.1)) (backend_snapshot h <$> backends kr.2)
    (is_some (request_filters kr.2)) (is_some (response_filters kr.2))
    (is_some (redirect kr.2)) (is_some (timeout_config kr.2)) (is_some (retry kr.2)).

Lemma list_routes_snapshots (r : Router M) : list_routes r = route_snapshot (health r) <$> iter (routes r).
Proof. unfold list_routes. apply list_fmap_ext. by intros i [k route] _. Qed.

Lemma known_unhealthy_exact h b : known_unhealthy (backend_snapshot h b) = negb (healthy_in h b).
Proof.
  unfold known_unhealthy, backend_snapshot, healthy_in. cbn [bs_health_score].
  destruct (backend_health h !! b) as [x|]; [|done]. cbn [fmap option_fmap option_map]. by destruct (is_healthy x).
Qed.

Lemma forallb_fmap {A B} (f : A → B) (p : B → bool) (q : A → bool) l :
  (∀ x, p (f x) = q x) → forallb p (f <$> l) = forallb q l.
Proof. intros Hpq. induction l as [|x l IH]; [done|]. cbn [fmap list_fmap forallb]. by rewrite Hpq, IH. Qed.

Lemma no_healthy_exact h kr :
  no_healthy (route_snapshot h kr) = forallb (λ b, negb (healthy_in h b)) (backends kr.2).
Proof.
  rewrite <- (forallb_fmap (backend_snapshot h) known_unhealthy) by apply known_unhealthy_exact.
  unfold no_healthy, route_snapshot. cbn [rs_backends]. by destruct (backends kr.2).
Qed.

Lemma all_draining_exact h kr :
  all_draining (route_snapshot h kr) =
    negb (bool_decide (backends kr.2 = [])) && forallb (draining_in h) (backends kr.2).
Proof.
  rewrite <- (forallb_fmap (backend_snapshot h) bs_is_draining) by done.
  unfold all_draining, route_snapshot. cbn [rs_backends]. by destruct (backends kr.2).
Qed.

Definition route_dead (r : Router M) (route : Route) : bool :=
  forallb (λ b, negb (healthy_in (health r) b)) (backends route).

Definition route_drained (r : Router M) (route : Route) : bool :=
  negb (bool_decide (backends route = [])) && forallb (draining_in (health r)) (backends route).

Lemma hit_rate_low hits misses :
  0 <= hits → 0 <= misses → 1000 <= hits + misses < 2 ^ 50 →
  f64_ltb (f64_div (f64_of_Z hits) (f64_of_Z (hits + misses))) half = (hits <? misses).
Proof.
  intros Hh Hm Ht. rewrite f64_ratio_lt_half by lia.
  destruct (Z.ltb_spec hits misses), (Z.ltb_spec (2 * hits) (hits + misses)); lia || done.
Qed.

(** A diagnosis as a reader sees it: the rule, the severity, what is wrong, and the evidence. *)
Definition line (d : Diagnosis) : string * Severity * option string * list string :=
  (rule_id d, severity d, head (causal_chain d), evidence d).

(** The breakers that are open, the buckets without a token, and the routes with a property. *)
Definition open_breakers (m : Manager) : list (string * nat) :=
  filter (λ x, state (deref m x.2) = Open) (map_to_list (breakers m)).

Definition exhausted_buckets (l : RateLimiter) (now : Z) : list (string * TokenBucket) :=
  filter (λ x, f64_leb (available_tokens x.2 now) (S754_zero false) = true) (map_to_list (buckets l)).

Definition routes_that (f : Route → bool) (r : Router M) : list (RouteKey * Route) :=
  filter (λ kr, f kr.2 = true) (map_to_list (routes r)).

(** The lines about them. *)
Definition cascade_line (m : Manager) :=
  ("RAUTA-CB-001", Critical, Some (nat_string (length (open_breakers m)) +:+ " backends have open circuit breakers"),
   (λ x, "Backend " +:+ x.1 +:+ " is Open (failures: " +:+ show_Z (failure_count (deref m x.2)) +:+ ")") <$> open_breakers m).

Definition open_line (m : Manager) (x : string * nat) :=
  let failures := show_Z (failure_count (deref m x.2)) in
  ("RAUTA-CB-002", Warning, Some ("Backend " +:+ x.1 +:+ " circuit breaker is Open after " +:+ failures +:+ " failures"),
   ["Circuit state: Open, failures: " +:+ failures]).

Definition exhausted_line (now : Z) (x : string * TokenBucket) :=
  ("RAUTA-RL-001", Warning, Some ("Route " +:+ x.1 +:+ " has exhausted its rate limit"),
   ["Tokens available: " +:+ show_fixed 1 (available_tokens x.2 now) +:+ "/" +:+ show_fixed 0 (capacity x.2)]).

Definition dead_line (h : HealthData) (kr : RouteKey * Route) :=
  ("RAUTA-BE-001", Critical, Some ("Route " +:+ method_to_str (key_method kr.1) +:+ " " +:+ pattern kr.2 +:+ " has no healthy backends"),
   (λ b, "Backend " +:+ bs_address (backend_snapshot h b) +:+ ":" +:+ show_Z (port b) +:+ " health_score=" +:+
         debug_score (bs_health_score (backend_snapshot h b)) +:+ " draining=" +:+ bool_string (draining_in h b)) <$> backends kr.2).

Definition drained_line (h : HealthData) (kr : RouteKey * Route) :=
  ("RAUTA-BE-002", Warning, Some ("Route " +:+ method_to_str (key_method kr.1) +:+ " " +:+ pattern kr.2 +:+ " has all backends draining"),
   (λ b, "Backend " +:+ bs_address (backend_snapshot h b) +:+ ":" +:+ show_Z (port b) +:+ " is draining") <$> backends kr.2).

Definition cache_line (hits misses : Z) (size : nat) :=
  let percent := show_fixed 1 (f64_mul (f64_div (f64_of_Z hits) (f64_of_Z (hits + misses))) (f64_of_Z 100)) in
  ("RAUTA-CACHE-001", Info,
   Some ("Route cache hit rate is " +:+ percent +:+ "% (" +:+ show_Z hits +:+ " hits, " +:+ show_Z misses +:+ " misses)"),
   ["Cache size: " +:+ nat_string size +:+ ", hit_rate: " +:+ percent +:+ "%"]).

Lemma low_cache_report hits misses (q : LocalGatewayQuery) now now' :
  cache_stats (route_cache (lq_router q)) = (hits, misses) → 0 <= hits → 0 <= misses → hits + misses < 2 ^ 50 →
  line <$> evaluate LowCacheHitRate (diagnostic_context q now now') =
    if (1000 <=? hits + misses) && (hits <? misses) then [cache_line hits misses (cache_size (route_cache (lq_router q)))] else [].
Proof.
  intros Hst Hh Hm Ht. unfold diagnostic_context, snapshot, cache_stats_internal. rewrite Hst.
  cbn [evaluate LowCacheHitRate gs_cache_stats ctx_snapshot cs_hits cs_misses cs_hit_rate cs_size].
  rewrite wrap_small by (unfold in_width; lia).
  destruct (Z.leb_spec 1000 (hits + misses)) as [Hle|Hgt]; [|done]. cbn [andb].
  rewrite (proj2 (Z.ltb_lt 0 _)) by lia. rewrite hit_rate_low by lia. by destruct (hits <? misses).
Qed.

(** Lines about the members of a filtered image. *)
Lemma filter_fmap_lines {A B C} (f : A → B) (P : B → Prop) (Q : A → Prop) `{!∀ x, Decision (P x)} `{!∀ x, Decision (Q x)}
    (g : B → C) (g' : A → C) (l : list A) :
  (∀ x, P (f x) ↔ Q x) → (∀ x, Q x → g (f x) = g' x) → g <$> filter P (f <$> l) = g' <$> filter Q l.
Proof.
  intros Hpq Hg. induction l as [|x l IH]; [done|]. cbn [fmap list_fmap]. rewrite !filter_cons.
  destruct (decide (P (f x))), (decide (Q x)); [|naive_solver..|done]. cbn [fmap list_fmap]. f_equal; [by apply Hg|exact IH].
Qed.

Lemma route_lines (f : RouteSnapshot → bool) (g : Route → bool) (r : Router M) {C} (l : RouteSnapshot → C) l' :
  (∀ kr, f (route_snapshot (health r) kr) = g kr.2) → (∀ kr, l (route_snapshot (health r) kr) = l' kr) →
  l <$> filter (λ s, f s = true) (list_routes r) ≡ₚ l' <$> routes_that g r.
Proof.
  intros Hf Hl. rewrite list_routes_snapshots. unfold routes_that. rewrite <- (iter_perm (routes r)).
  apply reflexive_eq, filter_fmap_lines; [intros kr; by rewrite Hf|done].
Qed.

Lemma open_is_open m (x : string * nat) :
  is_open (mk_cb_snapshot x.1 (state_to_str (state (deref m x.2))) (failure_count (deref m x.2))) = true ↔ state (deref m x.2) = Open.
Proof. unfold is_open. cbn. by destruct (state (deref m x.2)). Qed.

Lemma snapshot_all_fmap m :
  snapshot_all m = (λ x, mk_cb_snapshot x.1 (state_to_str (state (deref m x.2))) (failure_count (deref m x.2))) <$> map_to_list (breakers m).
Proof. apply list_fmap_ext. by intros i [id a] _. Qed.

Lemma open_breakers_length m : length (filter (λ cb, is_open cb = true) (snapshot_all m)) = length (open_breakers m).
Proof. rewrite snapshot_all_fmap. apply length_filter_fmap. intros x. apply open_is_open. Qed.

(** C30: the report says exactly what is wrong.  For every gateway whose cache counters
have not reached 2^50, the diagnosis of everything has, in this order: if at least two
breakers are open, one line that counts and names them; for every open breaker a line with
its backend and failures; for every bucket without a token a line with its route and tokens; for every
route without a backend that is healthy a line with its method, path and backends, and so
for every route with backends that all drain; a line with the hits and misses of the cache
exactly if it was asked at least a thousand times and missed more than it hit; and nothing
else. *)
Theorem report_exact (q : LocalGatewayQuery) (route_filter backend_filter : option string) now now' :
  let r := lq_router q in
  let m := lq_circuit_breaker q in
  let '(hits, misses) := cache_stats (route_cache r) in
  0 <= hits → 0 <= misses → hits + misses < 2 ^ 50 →
  ∃ opened exhausted dead drained,
    line <$> query_diagnose q "" route_filter backend_filter now now' =
      (if (2 <=? length (open_breakers m))%nat then [cascade_line m] else []) ++ opened ++ exhausted ++ dead ++ drained ++
      (if (1000 <=? hits + misses) && (hits <? misses) then [cache_line hits misses (cache_size (route_cache r))] else []) ∧
    opened ≡ₚ open_line m <$> open_breakers m ∧
    exhausted ≡ₚ exhausted_line now' <$> exhausted_buckets (lq_rate_limiter q) now' ∧
    dead ≡ₚ dead_line (health r) <$> routes_that (route_dead r) r ∧
    drained ≡ₚ drained_line (health r) <$> routes_that (route_drained r) r.
Proof.
  intros r m. destruct (cache_stats (route_cache r)) as [hits misses] eqn:Hst. intros Hh Hm Ht.
  eexists _, _, _, _. split.
  - unfold query_diagnose. rewrite diagnose_all. cbn [rules with_builtin_rules register engine_new app flat_map].
    rewrite !fmap_app, (low_cache_report hits misses q) by done. f_equal.
    2: repeat (f_equal; [reflexivity|]).
    + cbn [evaluate CircuitBreakerCascade diagnostic_context ctx_circuit_breakers]. rewrite open_breakers_length.
      destruct (2 <=? _)%nat; [|done]. cbn [fmap list_fmap]. unfold line, cascade_line. cbn [rule_id severity causal_chain evidence head].
      rewrite snapshot_all_fmap. do 2 f_equal. apply filter_fmap_lines; [intros x; apply open_is_open|done].
    + cbn [evaluate ListenerConflict diagnostic_context ctx_snapshot snapshot gs_listeners foldl].
      assert (port_iter ∅ = []) as ->.
      { apply Permutation_nil_r. rewrite port_iter_perm. by rewrite map_to_list_empty. }
      by rewrite app_nil_r.
  - cbn [evaluate CircuitBreakerOpen RateLimitExhausted NoHealthyBackends AllBackendsDraining diagnostic_context
      ctx_circuit_breakers ctx_rate_limiters ctx_routes]. rewrite <- !list_fmap_compose. split_and!.
    + rewrite snapshot_all_fmap. apply reflexive_eq, filter_fmap_lines; [intros x; apply open_is_open|].
      intros x Hx. subst m. unfold line, open_line. cbn [compose rule_id severity causal_chain evidence head backend_id cb_state cb_failure_count]. by rewrite Hx.
    + apply reflexive_eq. by apply filter_fmap_lines; [intros [route b]|intros [route b] _].
    + apply route_lines; [intros kr; apply no_healthy_exact|]. intros kr. unfold line, dead_line, route_snapshot. cbn [compose rule_id severity causal_chain evidence head rs_backends rs_method rs_pattern].
      by rewrite <- list_fmap_compose.
    + apply route_lines; [intros kr; apply all_draining_exact|]. intros kr. unfold line, drained_line, route_snapshot. cbn [compose rule_id severity causal_chain evidence head rs_backends rs_method rs_pattern].
      by rewrite <- list_fmap_compose.
Qed.

(** *** What a report means for the requests of the route *)
Lemma none_selectable (r : Router M) route flow :
  route_wf route → (∀ b, b ∈ backends route → selectable r b = false) → select_in_route r route flow = Ret None.
Proof.
  intros Hwf Hno. rewrite select_in_route_spec by done. do 2 f_equal.
  destruct (first_ok _ _ _ _ _) as [b|] eqn:E; [|done].
  apply first_ok_sound in E as [Hin Hok]. by rewrite Hno in Hok.
Qed.

(** A report is not a false alarm.  Every route of the table is in the listing, and
for one that a rule on backends reports no request is given a backend. *)
Theorem reported_route_unserved (q : LocalGatewayQuery) k route flow :
  router_ok (lq_router q) → routes (lq_router q) !! k = Some route →
  let s := route_snapshot (health (lq_router q)) (k, route) in
  s ∈ list_routes (lq_router q) ∧
  (no_healthy s = true ∨ all_draining s = true → select_in_route (lq_router q) route flow = Ret None).
Proof.
  intros Hok Hk s. split.
  { rewrite list_routes_snapshots. apply list_elem_of_fmap. exists (k, route). split; [done|].
    rewrite iter_perm. by apply elem_of_map_to_list. }
  intros Hs. apply none_selectable; [by eapply (ro_routes _ Hok)|]. intros b Hb. unfold selectable.
  destruct Hs as [Hs|Hs]; unfold s in Hs.
  - rewrite no_healthy_exact, forallb_forall in Hs. specialize (Hs b (proj1 (list_elem_of_In _ _) Hb)).
    apply negb_true_iff in Hs. by rewrite Hs.
  - rewrite all_draining_exact in Hs. apply andb_true_iff in Hs as [_ Hs]. rewrite forallb_forall in Hs.
    specialize (Hs b (proj1 (list_elem_of_In _ _) Hb)). by rewrite Hs, andb_false_r.
Qed.

(** Some outages are not reported.  A route with one healthy backend and one that
does not drain, none of which may be selected (each is down for another reason, or
by the active probes), is served by none of them and no rule reports it. *)
Theorem mixed_outage_unreported (q : LocalGatewayQuery) k route flow b1 b2 :
  router_ok (lq_router q) → routes (lq_router q) !! k = Some route →
  b1 ∈ backends route → healthy_in (health (lq_router q)) b1 = true →
  b2 ∈ backends route → draining_in (health (lq_router q)) b2 = false →
  (∀ b, b ∈ backends route → selectable (lq_router q) b = false) →
  let s := route_snapshot (health (lq_router q)) (k, route) in
  select_in_route (lq_router q) route flow = Ret None ∧ no_healthy s = false ∧ all_draining s = false.
Proof.
  intros Hok Hk Hb1 Hh Hb2 Hd Hno s. split; [apply none_selectable; [by eapply (ro_routes _ Hok)|done]|].
  unfold s. rewrite no_healthy_exact, all_draining_exact. cbn [snd].
  assert (∀ f b, b ∈ backends route → f b = false → forallb f (backends route) = false) as Hf.
  { intros f b Hb Hfb. apply not_true_iff_false. rewrite forallb_forall. intros Ha.
    specialize (Ha b (proj1 (list_elem_of_In _ _) Hb)). congruence. }
  split; [apply (Hf _ b1); [done|by rewrite Hh]|]. rewrite (Hf _ b2 Hb2 Hd). apply andb_false_r.
Qed.

(** *** Listings *)
(** The listing by prefix is sorted and complete. *)
Theorem listing_exact (q : LocalGatewayQuery) prefix :
  query_routes q None (Some prefix) ≡ₚ filter (λ s, starts_with prefix (rs_pattern s) = true) (list_routes (lq_router q)) ∧
  Sorted (λ x y, String.leb (rs_pattern x) (rs_pattern y) = true) (query_routes q None (Some prefix)).
Proof. split; [apply sort_by_perm|apply sort_by_sorted, by_text_total]. Qed.

End query.
Arguments LocalGatewayQuery M : clear implicits.

(** ** Witnesses *)
Definition key_ports : PortOrder := {| port_iter := map_to_list; port_iter_perm m := Permutation_refl (map_to_list m) |}.

Definition to_ascii_uppercase (c : ascii) : ascii :=
  let n := byte_of_ascii c in if (97 <=? n) && (n <=? 122) then ascii_of_N (Z.to_N (n - 32)) else c.

Definition ascii_case : UnicodeCase :=
  {| to_lowercase := map_ascii to_ascii_lowercase; to_uppercase := map_ascii to_ascii_uppercase;
     lowercase_ascii s _ := eq_refl |}.

#[local] Existing Instances list_matchit key_order key_ports ascii_case.

Definition api_key : RouteKey := route_key GET "/api".
Definition api_route : Route := plain_route "/api" sample_backends even_table.

(** The first backend answered an error, the second is draining. *)
Definition mixed_health : HealthData :=
  mk_health_data {[from_ipv4 (mk_ipv4 10 0 0 1) 80 100 := mk_health [true]]}
    {[from_ipv4 (mk_ipv4 10 0 0 2) 80 100 := mk_draining 30]}.

Definition sample_query (h : HealthData) : LocalGatewayQuery (list (string * RouteKey)) :=
  query_new (mk_router {[api_key := api_route]} [] h (checker_new default_config) (cache_new 128))
    (manager_new 5 30) limiter_new 0.

Lemma sample_query_ok h : router_ok (lq_router (sample_query h)).
Proof.
  split; [apply cache_new_ok|..]; intros k route; cbn [sample_query query_new lq_router routes];
    intros [<- <-]%lookup_singleton_Some; [|done].
  right. split; [apply even_table_ok|done].
Qed.

Lemma mixed_outage_unreported_witness :
  select_in_route (lq_router (sample_query mixed_health)) api_route 7 = Ret None ∧
  no_healthy (route_snapshot mixed_health (api_key, api_route)) = false ∧
  all_draining (route_snapshot mixed_health (api_key, api_route)) = false.
Proof.
  apply (mixed_outage_unreported (sample_query mixed_health) api_key api_route 7
           (from_ipv4 (mk_ipv4 10 0 0 2) 80 100) (from_ipv4 (mk_ipv4 10 0 0 1) 80 100)).
  - apply sample_query_ok.
  - apply lookup_singleton_eq.
  - cbn. set_solver.
  - vm_compute. reflexivity.
  - cbn. set_solver.
  - vm_compute. reflexivity.
  - intros b Hb. cbn [api_route plain_route backends sample_backends] in Hb.
    apply elem_of_cons in Hb as [->|[->|[]%not_elem_of_nil]%elem_of_cons]; vm_compute; reflexivity.
Defined.

(** Both backends answered errors: the route is reported and not served. *)
Definition dead_health : HealthData :=
  mk_health_data {[from_ipv4 (mk_ipv4 10 0 0 1) 80 100 := mk_health [true];
                   from_ipv4 (mk_ipv4 10 0 0 2) 80 100 := mk_health [true]]} ∅.

Lemma reported_route_unserved_witness :
  select_in_route (lq_router (sample_query dead_health)) api_route 7 = Ret None.
Proof.
  apply (reported_route_unserved (sample_query dead_health) api_key api_route 7).
  - apply sample_query_ok.
  - apply lookup_singleton_eq.
  - left. vm_compute. reflexivity.
Defined.

Lemma report_exact_witness :
  line <$> query_diagnose (sample_query dead_health) "" None None 0 0 = [dead_line dead_health (api_key, api_route)] ∧
  (dead_line dead_health (api_key, api_route)).1 =
    ("RAUTA-BE-001", Critical, Some "Route GET /api has no healthy backends").
Proof.
  destruct (report_exact (sample_query dead_health) None None 0 0) as (opened & exhausted & dead & drained & -> & Ho & He & Hd & Hr);
    [vm_compute; discriminate..|vm_compute; reflexivity|].
  change (open_line _ <$> open_breakers _) with (@nil (string * Severity * option string * list string)) in Ho.
  change (exhausted_line 0 <$> _) with (@nil (string * Severity * option string * list string)) in He.
  change (dead_line _ <$> _) with [dead_line dead_health (api_key, api_route)] in Hd.
  change (drained_line _ <$> _) with (@nil (string * Severity * option string * list string)) in Hr.
  apply Permutation_nil_r in Ho as ->, He as ->, Hr as ->. apply Permutation_singleton_r in Hd as ->.
  split; reflexivity.
Defined.

(** A symptom selects the rules that name it; nothing is said of a mixed outage. *)
Example symptoms :
  (rule_id <$> query_diagnose (sample_query dead_health) "Backends" None None 0 0) = ["RAUTA-BE-001"] ∧
  (rule_id <$> query_diagnose (sample_query dead_health) "cb" None None 0 0) = [] ∧
  query_diagnose (sample_query mixed_health) "" None None 0 0 = [].
Proof. vm_compute. auto. Qed.
