(* ===== verification/Admin.v ===== *)
(** * Admin: the admin server, its remote client and the MCP tools

[admin/server.rs] serves the queries of [LocalQuery] over HTTP, [remote_query.rs]
of the command line asks them there, and the tools of [mcp-server/src/handler.rs]
work on either.  The JSON library, the HTTP client and the encoding of URLs are
inputs. *)

From S2P Require Import Prelude Common Float Text Decimal Maglev Health HealthChecker Filters Matching RouteCache Matchit.
From S2P Require Import Selection Router RouterSpec RateLimiter CowMap CircuitBreaker BreakerManager Diagnostics LocalQuery.

#[local] Open Scope Z_scope.
#[local] Open Scope rauta_scope.

(** ** The interface *)
Record MetricSnapshot : Type := mk_metric {
  mt_name : string;
  mt_help : string;
  mt_type : string;
  mt_values : list (gmap string string * f64)
}.

(** The trait [GatewayQuery]: the answers a query would give now. *)
Record GatewayQuery : Type := mk_gateway_query {
  gq_snapshot : result GatewaySnapshot string;
  gq_list_routes : option string → option string → result (list RouteSnapshot) string;
  gq_get_route : string → result (option RouteSnapshot) string;
  gq_list_circuit_breakers : option string → result (list CircuitBreakerSnapshot) string;
  gq_list_rate_limiters : option string → result (list RateLimiterSnapshot) string;
  gq_list_listeners : result (list ListenerSnapshot) string;
  gq_cache_stats : result (option CacheStats) string;
  gq_metrics_snapshot : option string → result (list MetricSnapshot) string;
  gq_diagnose : string → option string → option string → result (list Diagnosis) string;
  gq_drain_backend : string → option Z → result unit string;
  gq_undrain_backend : string → result unit string
}.

(** ** JSON *)

(** The floats for which the library documents an exact round trip: short decimals. *)
Definition short_decimal (x : f64) : Prop := ∃ n, 0 <= n <= 100 ∧ x = f64_of_decimal false n (-2).

Definition route_short (s : RouteSnapshot) : Prop :=
  Forall (λ b, match bs_health_score b with Some x => short_decimal x | None => True end) (rs_backends s).

Definition diagnosis_short (d : Diagnosis) : Prop := short_decimal (confidence d).

Definition snapshot_short (s : GatewaySnapshot) : Prop :=
  match gs_cache_stats s with Some c => short_decimal (cs_hit_rate c) | None => True end.

(** [to_string], [to_string_pretty] and [from_str] at a type. *)
Record Codec (T A : Type) : Type := mk_codec {
  encode : A → result T string;
  pretty : A → result T string;
  decode : T → result A string
}.
Arguments encode {T A}.
Arguments pretty {T A}.
Arguments decode {T A}.

Class Json : Type := {
  JsonText : Type;
  literal : string → JsonText;
  error_object : string → JsonText;
  status_object : string → string → JsonText;
  json_snapshot : Codec JsonText GatewaySnapshot;
  json_routes : Codec JsonText (list RouteSnapshot);
  json_route : Codec JsonText (option RouteSnapshot);
  json_breakers : Codec JsonText (list CircuitBreakerSnapshot);
  json_limiters : Codec JsonText (list RateLimiterSnapshot);
  json_listeners : Codec JsonText (list ListenerSnapshot);
  json_cache : Codec JsonText (option CacheStats);
  json_metrics : Codec JsonText (list MetricSnapshot);
  json_diagnoses : Codec JsonText (list Diagnosis);
  routes_roundtrip : ∀ x, Forall route_short x → ∃ t, encode json_routes x = Ok t ∧ decode json_routes t = Ok x;
  routes_pretty : ∀ x, Forall route_short x → ∃ t, pretty json_routes x = Ok t ∧ decode json_routes t = Ok x;
  diagnoses_roundtrip : ∀ x, Forall diagnosis_short x → ∃ t, encode json_diagnoses x = Ok t ∧ decode json_diagnoses t = Ok x;
  diagnoses_pretty : ∀ x, Forall diagnosis_short x → ∃ t, pretty json_diagnoses x = Ok t ∧ decode json_diagnoses t = Ok x;
  snapshot_roundtrip : ∀ x, snapshot_short x → ∃ t, encode json_snapshot x = Ok t ∧ decode json_snapshot t = Ok x
}.

(** ** The admin server *)
Record AdminRequest : Type := mk_areq { a_method : string; a_path : string; a_query : option string }.

Definition quoted (s : string) : string := dquote +:+ s +:+ dquote.

Definition symptom_of (query : option string) : string :=
  match query ≫= λ q, List.find (starts_with "symptom=") (split "&" q) with
  | Some p => trim_start_matches "symptom=" p
  | None => "degraded"
  end.

Section admin.
Context {M : Type} `{!Matchit RouteKey M} `{!MapOrder} `{!PortOrder} `{!UnicodeCase} `{!Json}.

Record AdminResponse : Type := mk_aresp {
  a_status : Z;
  a_headers : list (string * string);
  a_body : JsonText
}.

Definition json_response (status : Z) (body : JsonText) : AdminResponse :=
  mk_aresp status [("Content-Type", "application/json")] body.

(** The local implementation of the trait; two readings of the clock. *)
Definition local_gateway (q : LocalGatewayQuery M) (now now' : Z) : GatewayQuery := {|
  gq_snapshot := Ok (snapshot q now);
  gq_list_routes method_filter path_prefix := Ok (query_routes q method_filter path_prefix);
  gq_get_route pattern := Ok (get_route q pattern);
  gq_list_circuit_breakers state_filter := Ok (list_circuit_breakers q state_filter);
  gq_list_rate_limiters route_filter := Ok (list_rate_limiters q route_filter now');
  gq_list_listeners := Ok (list_listeners q);
  gq_cache_stats := Ok (query_cache_stats q);
  gq_metrics_snapshot _ := Ok [];
  gq_diagnose symptom route_filter backend_filter := Ok (query_diagnose q symptom route_filter backend_filter now now');
  gq_drain_backend := query_drain_backend q;
  gq_undrain_backend := query_undrain_backend q
|}.

(** The four handlers have this form. *)
Definition respond {A} (codec : Codec JsonText A) (answer : result A string) : AdminResponse :=
  match answer with
  | Ok x =>
      match encode codec x with
      | Ok json => json_response 200 json
      | Err e => json_response 500 (error_object ("serialization failed: " +:+ e))
      end
  | Err e => json_response 500 (error_object e)
  end.

Definition handle_status (q : GatewayQuery) : AdminResponse := respond json_snapshot (gq_snapshot q).
Definition handle_list_routes (q : GatewayQuery) : AdminResponse := respond json_routes (gq_list_routes q None None).
Definition handle_cache_stats (q : GatewayQuery) : AdminResponse := respond json_cache (gq_cache_stats q).
Definition handle_diagnose (q : GatewayQuery) (symptom : string) : AdminResponse :=
  respond json_diagnoses (gq_diagnose q symptom None None).

Definition handle_admin_request (q : GatewayQuery) (req : AdminRequest) : AdminResponse :=
  let asks method path := String.eqb (a_method req) method && String.eqb (a_path req) path in
  if asks "GET" "/api/v1/status" then handle_status q
  else if asks "GET" "/api/v1/routes" then handle_list_routes q
  else if asks "GET" "/api/v1/cache" then handle_cache_stats q
  else if asks "POST" "/api/v1/diagnose" then handle_diagnose q (symptom_of (a_query req))
  else if asks "GET" "/healthz" then
    json_response 200 (literal ("{" +:+ quoted "status" +:+ ":" +:+ quoted "ok" +:+ "}"))
  else json_response 404 (literal ("{" +:+ quoted "error" +:+ ":" +:+ quoted "not found" +:+ "}")).

(** ** The remote client *)

(** The HTTP client: a request with at most one query parameter, and the text of
the error for a failing status. *)
Record HttpClient : Type := mk_client {
  send : string → string → option (string * string) → result AdminResponse string;
  status_error : Z → string → string
}.

Record RemoteGatewayQuery : Type := mk_remote { base_url : string; r_client : HttpClient }.

Definition remote_new (endpoint : string) (client : HttpClient) : RemoteGatewayQuery :=
  mk_remote (trim_end_matches "/" endpoint) client.

(** Send, [error_for_status], then [json]. *)
Definition fetch {A} (r : RemoteGatewayQuery) (codec : Codec JsonText A) (method path : string)
    (param : option (string * string)) : result A string :=
  let url := base_url r +:+ path in
  match send (r_client r) method url param with
  | Err e => Err e
  | Ok resp =>
      if (400 <=? a_status resp) && (a_status resp <? 600) then Err (status_error (r_client r) (a_status resp) url)
      else decode codec (a_body resp)
  end.

Definition remote_routes (r : RemoteGatewayQuery) (method_filter path_prefix : option string)
    : result (list RouteSnapshot) string :=
  match fetch r json_routes "GET" "/api/v1/routes" None with
  | Err e => Err e
  | Ok routes =>
      let routes := match method_filter with
                    | Some method => let m := to_uppercase method in filter (λ r, String.eqb (rs_method r) m = true) routes
                    | None => routes
                    end in
      Ok match path_prefix with
         | Some prefix => filter (λ r, starts_with prefix (rs_pattern r) = true) routes
         | None => routes
         end
  end.

Definition remote_gateway (r : RemoteGatewayQuery) : GatewayQuery := {|
  gq_snapshot := fetch r json_snapshot "GET" "/api/v1/status" None;
  gq_list_routes := remote_routes r;
  gq_get_route pattern :=
    match remote_routes r None None with
    | Err e => Err e
    | Ok routes => Ok (List.find (λ s, String.eqb (rs_pattern s) pattern) routes)
    end;
  gq_list_circuit_breakers _ :=
    Err "Circuit breaker listing not available via remote query — admin API endpoint not yet implemented";
  gq_list_rate_limiters _ :=
    Err "Rate limiter listing not available via remote query — admin API endpoint not yet implemented";
  gq_list_listeners :=
    match fetch r json_snapshot "GET" "/api/v1/status" None with
    | Err e => Err e
    | Ok s => Ok (gs_listeners s)
    end;
  gq_cache_stats := fetch r json_cache "GET" "/api/v1/cache" None;
  gq_metrics_snapshot _ :=
    Err "Metrics snapshot not available via remote query — admin API endpoint not yet implemented";
  gq_diagnose symptom _ _ := fetch r json_diagnoses "POST" "/api/v1/diagnose" (Some ("symptom", symptom));
  gq_drain_backend _ _ := Err "drain_backend not yet implemented via remote query";
  gq_undrain_backend _ := Err "undrain_backend not yet implemented via remote query"
|}.

(** ** The MCP tools *)
Inductive mcp_tool : Type :=
| rauta_status
| rauta_list_routes (method path_prefix : option string)
| rauta_get_route (pattern : string)
| rauta_list_circuit_breakers (state : option string)
| rauta_list_rate_limiters (route : option string)
| rauta_diagnose (symptom : string) (route backend : option string)
| rauta_cache_stats
| rauta_list_listeners
| rauta_metrics_snapshot (metric : option string)
| rauta_drain_backend (backend : string) (timeout : option Z)
| rauta_undrain_backend (backend : string).

(** An error becomes an internal error with its text. *)
Definition pretty_answer {A} (codec : Codec JsonText A) (answer : result A string) : result JsonText string :=
  match answer with
  | Ok x => pretty codec x
  | Err e => Err e
  end.

Definition mcp_call (q : GatewayQuery) (tool : mcp_tool) : result JsonText string :=
  match tool with
  | rauta_status => pretty_answer json_snapshot (gq_snapshot q)
  | rauta_list_routes method path_prefix => pretty_answer json_routes (gq_list_routes q method path_prefix)
  | rauta_get_route pattern => pretty_answer json_route (gq_get_route q pattern)
  | rauta_list_circuit_breakers state => pretty_answer json_breakers (gq_list_circuit_breakers q state)
  | rauta_list_rate_limiters route => pretty_answer json_limiters (gq_list_rate_limiters q route)
  | rauta_diagnose symptom route backend => pretty_answer json_diagnoses (gq_diagnose q symptom route backend)
  | rauta_cache_stats => pretty_answer json_cache (gq_cache_stats q)
  | rauta_list_listeners => pretty_answer json_listeners (gq_list_listeners q)
  | rauta_metrics_snapshot metric => pretty_answer json_metrics (gq_metrics_snapshot q metric)
  | rauta_drain_backend backend timeout =>
      match gq_drain_backend q backend timeout with
      | Ok _ => Ok (status_object "draining" backend)
      | Err e => Err e
      end
  | rauta_undrain_backend backend =>
      match gq_undrain_backend q backend with
      | Ok _ => Ok (status_object "active" backend)
      | Err e => Err e
      end
  end.

(** ** What travels has short decimals *)
Lemma filter_bool {A} (p : A → bool) (l : list A) : filter (λ x, p x = true) l = List.filter p l.
Proof.
  induction l as [|x l IH]; [done|]. rewrite filter_cons. cbn [List.filter].
  destruct (p x) eqn:E; [rewrite decide_True by done|rewrite decide_False by congruence]; by rewrite IH.
Qed.

(** A number of hundredths. *)
Ltac hundredths n := exists n; split; [lia|vm_compute; reflexivity].

Lemma routes_short (r : Router M) : Forall route_short (list_routes r).
Proof.
  rewrite list_routes_snapshots. apply Forall_fmap, Forall_true. intros kr. unfold route_short, compose. cbn [route_snapshot rs_backends].
  apply Forall_fmap, Forall_true. intros b. cbn [backend_snapshot bs_health_score compose].
  destruct (backend_health (health r) !! b) as [x|]; [|done]. cbn [fmap option_fmap option_map].
  destruct (is_healthy x); [hundredths 100|hundredths 0].
Qed.

Lemma all_routes_short (q : LocalGatewayQuery M) : Forall route_short (query_routes q None None).
Proof. unfold query_routes. rewrite sort_by_perm. apply routes_short. Qed.

Lemma fmap_short {A} (f : A → Diagnosis) l : (∀ x, diagnosis_short (f x)) → Forall diagnosis_short (f <$> l).
Proof. intros Hf. by apply Forall_fmap, Forall_true. Qed.

Lemma builtin_short ctx : Forall (λ rule, Forall diagnosis_short (evaluate rule ctx)) (rules with_builtin_rules).
Proof.
  cbn [with_builtin_rules register engine_new rules app].
  repeat apply Forall_cons_2; [..|by apply Forall_nil]; cbn [evaluate].
  - cbn [CircuitBreakerCascade evaluate]. destruct (2 <=? _)%nat; repeat constructor. hundredths 95.
  - apply fmap_short. intros cb. hundredths 90.
  - apply fmap_short. intros rl. hundredths 85.
  - apply fmap_short. intros route. hundredths 95.
  - apply fmap_short. intros route. hundredths 90.
  - cbn [LowCacheHitRate evaluate]. destruct (gs_cache_stats _) as [cache|]; [|done].
    destruct (_ && _); repeat constructor. hundredths 70.
  - apply fmap_short. intros [port protocols]. hundredths 80.
Qed.

Lemma diagnoses_short (q : LocalGatewayQuery M) symptom rf bf now now' :
  Forall diagnosis_short (query_diagnose q symptom rf bf now now').
Proof.
  unfold query_diagnose, diagnose_symptom. rewrite foldl_collect. cbn [app].
  pose proof (builtin_short (diagnostic_context q now now')) as Hs. induction Hs as [|rule l Hr Hs IH]; [done|].
  cbn [List.filter]. destruct (rule_matches _ rule); [|done]. cbn [flat_map]. by apply Forall_app.
Qed.

(** ** The remote client reads what the local query says *)

(** The characters that the encoding of URLs leaves alone. *)
Definition url_safe (c : ascii) : bool :=
  let n := byte_of_ascii c in
  ((48 <=? n) && (n <=? 57)) || ((65 <=? n) && (n <=? 90)) || ((97 <=? n) && (n <=? 122)) ||
  (n =? 42) || (n =? 45) || (n =? 46) || (n =? 95).

Lemma url_safe_not d : url_safe d = false → ∀ c, url_safe c = true → negb (Ascii.eqb c d) = true.
Proof. intros Hd c Hc. destruct (Ascii.eqb_spec c d) as [->|]; [congruence|done]. Qed.

Lemma symptom_of_safe s : forall_ascii url_safe s = true → symptom_of (Some ("symptom=" +:+ s)) = s.
Proof.
  intros Hs. unfold symptom_of. cbn [mbind option_bind].
  rewrite split_none; [|rewrite forall_ascii_app; apply andb_true_iff; split; [done|]].
  - cbn [List.find]. rewrite starts_with_app. unfold trim_start_matches.
    change (String.length ("symptom=" +:+ s)) with (8 + String.length s)%nat. cbn [Nat.add trim_start_loop].
    rewrite strip_prefix_app. by rewrite (strip_prefix_none url_safe _ s Hs).
  - eapply forall_ascii_impl; [|exact Hs]. by apply url_safe_not.
Qed.

Lemma diagnose_request (q : GatewayQuery) query :
  handle_admin_request q (mk_areq "POST" "/api/v1/diagnose" query) = handle_diagnose q (symptom_of query).
Proof. reflexivity. Qed.

Section deployed.
Context (urlencode : string → string) (urlencode_safe : ∀ s, forall_ascii url_safe s = true → urlencode s = s).

(** A client that reaches the server at [origin]. *)
Definition admin_client (origin : string) (q : GatewayQuery) (errors : Z → string → string) : HttpClient :=
  mk_client (λ method url param,
      match strip_prefix origin url with
      | Some path => Ok (handle_admin_request q (mk_areq method path ((λ '(k, v), k +:+ "=" +:+ urlencode v) <$> param)))
      | None => Err "error sending request"
      end) errors.

Context (q : LocalGatewayQuery M) (now now' : Z) (endpoint origin : string) (errors : Z → string → string)
  (Horigin : trim_end_matches "/" endpoint = origin).

Abbreviation local := (local_gateway q now now').
Abbreviation remote_query := (remote_new endpoint (admin_client origin local errors)).

(** A value that survives the round trip is fetched as it was served. *)
Lemma fetch_served {A} (codec : Codec JsonText A) method path param x t :
  handle_admin_request local (mk_areq method path ((λ '(k, v), k +:+ "=" +:+ urlencode v) <$> param)) =
    respond codec (Ok x) →
  encode codec x = Ok t → decode codec t = Ok x → fetch remote_query codec method path param = Ok x.
Proof.
  intros Hh He Hd. unfold fetch. cbn [remote_new base_url r_client admin_client send]. rewrite Horigin, strip_prefix_app, Hh.
  unfold respond. rewrite He. done.
Qed.

Lemma fetch_routes : fetch remote_query json_routes "GET" "/api/v1/routes" None = Ok (query_routes q None None).
Proof.
  destruct (routes_roundtrip _ (all_routes_short q)) as (t & He & Hd). by eapply fetch_served.
Qed.

Lemma remote_routes_agree m p : remote_routes remote_query m p = Ok (query_routes q m p).
Proof.
  unfold remote_routes. rewrite fetch_routes. f_equal. unfold query_routes.
  destruct m, p; rewrite ?filter_bool, ?sort_by_filter by (apply by_text_total || apply by_text_trans); done.
Qed.

Lemma remote_route_agrees pat :
  List.find (λ s, String.eqb (rs_pattern s) pat) (query_routes q None None) = get_route q pat.
Proof.
  unfold query_routes, get_route. rewrite !find_filter, sort_by_filter by (apply by_text_total || apply by_text_trans).
  f_equal. apply sort_by_equal. intros x y Hx%list_elem_of_In Hy%list_elem_of_In.
  apply List.filter_In in Hx as [_ Hx%String.eqb_eq], Hy as [_ Hy%String.eqb_eq].
  unfold by_text. rewrite Hx, Hy. by destruct (String.leb_total pat pat).
Qed.

Lemma remote_get_agrees pat : gq_get_route (remote_gateway remote_query) pat = Ok (get_route q pat).
Proof. cbn [remote_gateway gq_get_route]. by rewrite remote_routes_agree, remote_route_agrees. Qed.

Lemma remote_diagnose_agrees s rf bf :
  forall_ascii url_safe s = true → gq_diagnose (remote_gateway remote_query) s rf bf = Ok (query_diagnose q s rf bf now now').
Proof.
  intros Hs. cbn [remote_gateway gq_diagnose].
  destruct (diagnoses_roundtrip _ (diagnoses_short q s None None now now')) as (t & He & Hdec).
  eapply fetch_served; [|done..]. cbn [fmap option_fmap option_map]. rewrite urlencode_safe by done.
  rewrite diagnose_request. change ("symptom" +:+ "=" +:+ s) with ("symptom=" +:+ s). by rewrite symptom_of_safe.
Qed.

Lemma remote_snapshot_agrees :
  snapshot_short (snapshot q now) → gq_snapshot (remote_gateway remote_query) = Ok (snapshot q now).
Proof. intros Hs. destruct (snapshot_roundtrip _ Hs) as (t & He & Hd). by eapply fetch_served. Qed.

(** C28: what a client sees through the admin server is what the gateway says of itself:
for every method and prefix filter the same list of routes in the same order, for every
pattern the same route, and for every symptom made of URL characters the same diagnoses.
So the MCP tools [rauta_list_routes], [rauta_get_route] and [rauta_diagnose] answer alike
with a remote and with a local gateway, and so do [rauta_status] and [rauta_list_listeners]
if the hit rate of the cache is a decimal of two digits.  The tools for circuit breakers, rate limiters and
metrics do not: with a remote gateway they always fail, and with a local one they
answer with the gateway's lists.  Draining is refused both ways. *)
Theorem remote_query_agrees :
  let remote := remote_gateway remote_query in
  (∀ m p, gq_list_routes remote m p = gq_list_routes local m p) ∧
  (∀ pat, gq_get_route remote pat = gq_get_route local pat) ∧
  (∀ s rf bf, forall_ascii url_safe s = true → gq_diagnose remote s rf bf = gq_diagnose local s rf bf) ∧
  (∀ s rf bf m p pat, forall_ascii url_safe s = true →
    ∀ tool, tool ∈ [rauta_list_routes m p; rauta_get_route pat; rauta_diagnose s rf bf] →
      mcp_call remote tool = mcp_call local tool) ∧
  (snapshot_short (snapshot q now) → ∀ tool, tool ∈ [rauta_status; rauta_list_listeners] → mcp_call remote tool = mcp_call local tool) ∧
  (∀ st rt mt tool answer,
    (tool, answer) ∈ [(rauta_list_circuit_breakers st, pretty json_breakers (list_circuit_breakers q st));
                      (rauta_list_rate_limiters rt, pretty json_limiters (list_rate_limiters q rt now'));
                      (rauta_metrics_snapshot mt, pretty json_metrics [])] →
    (∃ e, mcp_call remote tool = Err e) ∧ mcp_call local tool = answer) ∧
  (∀ b t, (∃ e, mcp_call remote (rauta_drain_backend b t) = Err e) ∧ (∃ e, mcp_call local (rauta_drain_backend b t) = Err e)).
Proof.
  intros remote.
  assert (∀ m p, gq_list_routes remote m p = gq_list_routes local m p) as Hl by (intros; apply remote_routes_agree).
  assert (∀ pat, gq_get_route remote pat = gq_get_route local pat) as Hg by apply remote_get_agrees.
  assert (∀ s rf bf, forall_ascii url_safe s = true → gq_diagnose remote s rf bf = gq_diagnose local s rf bf) as Hd
    by apply remote_diagnose_agrees.
  split_and!; [done..| | | |by eauto].
  2:{ intros Hs tool [-> | ->%list_elem_of_singleton]%elem_of_cons; cbn [mcp_call].
      - unfold remote. by rewrite (remote_snapshot_agrees Hs).
      - pose proof (remote_snapshot_agrees Hs) as E. cbn [remote_gateway gq_snapshot] in E.
        unfold remote. cbn [remote_gateway gq_list_listeners]. by rewrite E. }
  2:{ intros st rt mt tool answer Ht.
      repeat (apply elem_of_cons in Ht as [[= -> ->]|Ht]; [split; [by eexists|done]|]). by apply not_elem_of_nil in Ht. }
  intros s rf bf m p pat Hs tool Ht.
  repeat (apply elem_of_cons in Ht as [->|Ht]; [cbn [mcp_call]; by rewrite ?Hl, ?Hg, ?Hd|]). by apply not_elem_of_nil in Ht.
Qed.
End deployed.

(** No rule has the default symptom. *)
Lemma degraded_silent (q : LocalGatewayQuery M) rf bf now now' : query_diagnose q "degraded" rf bf now now' = [].
Proof.
  unfold query_diagnose, diagnose_symptom. rewrite foldl_collect. cbn [app with_builtin_rules register engine_new rules].
  cbn [List.filter]. unfold rule_matches. by rewrite !lowercase_ascii by done.
Qed.

(** A request for diagnoses that names no symptom is answered with an empty
list whatever the state of the gateway, since no rule has the default symptom. *)
Theorem default_symptom_silent (q : LocalGatewayQuery M) now now' req :
  a_method req = "POST" → a_path req = "/api/v1/diagnose" → a_query req = None →
  handle_admin_request (local_gateway q now now') req = respond json_diagnoses (Ok []).
Proof.
  destruct req as [method path query]. cbn [a_method a_path a_query]. intros -> -> ->. rewrite diagnose_request.
  unfold handle_diagnose. cbn [local_gateway gq_diagnose]. by rewrite degraded_silent.
Qed.

End admin.

(** ** Witnesses *)

(** A library whose texts are the values themselves. *)
Inductive value_text : Type :=
| VLiteral (s : string) | VError (e : string) | VStatus (status backend : string)
| VSnapshot (x : GatewaySnapshot) | VRoutes (x : list RouteSnapshot) | VRoute (x : option RouteSnapshot)
| VBreakers (x : list CircuitBreakerSnapshot) | VLimiters (x : list RateLimiterSnapshot)
| VListeners (x : list ListenerSnapshot) | VCache (x : option CacheStats) | VMetrics (x : list MetricSnapshot)
| VDiagnoses (x : list Diagnosis).

Definition value_codec {A} (put : A → value_text) (get : value_text → option A) : Codec value_text A :=
  mk_codec _ _ (λ x, Ok (put x)) (λ x, Ok (put x)) (λ t, match get t with Some x => Ok x | None => Err "expected value" end).

Definition value_json : Json := {|
  JsonText := value_text;
  literal := VLiteral;
  error_object := VError;
  status_object := VStatus;
  json_snapshot := value_codec VSnapshot (λ t, match t with VSnapshot x => Some x | _ => None end);
  json_routes := value_codec VRoutes (λ t, match t with VRoutes x => Some x | _ => None end);
  json_route := value_codec VRoute (λ t, match t with VRoute x => Some x | _ => None end);
  json_breakers := value_codec VBreakers (λ t, match t with VBreakers x => Some x | _ => None end);
  json_limiters := value_codec VLimiters (λ t, match t with VLimiters x => Some x | _ => None end);
  json_listeners := value_codec VListeners (λ t, match t with VListeners x => Some x | _ => None end);
  json_cache := value_codec VCache (λ t, match t with VCache x => Some x | _ => None end);
  json_metrics := value_codec VMetrics (λ t, match t with VMetrics x => Some x | _ => None end);
  json_diagnoses := value_codec VDiagnoses (λ t, match t with VDiagnoses x => Some x | _ => None end);
  routes_roundtrip x _ := ex_intro _ (VRoutes x) (conj eq_refl eq_refl);
  routes_pretty x _ := ex_intro _ (VRoutes x) (conj eq_refl eq_refl);
  diagnoses_roundtrip x _ := ex_intro _ (VDiagnoses x) (conj eq_refl eq_refl);
  diagnoses_pretty x _ := ex_intro _ (VDiagnoses x) (conj eq_refl eq_refl);
  snapshot_roundtrip x _ := ex_intro _ (VSnapshot x) (conj eq_refl eq_refl)
|}.

#[local] Existing Instances list_matchit key_order key_ports ascii_case value_json.

Definition no_encoding (s : string) : string := s.
Definition status_text (status : Z) (url : string) : string := "HTTP status " +:+ show_Z status +:+ " for url " +:+ url.

(** Through the server of a gateway with a dead route, asked with a trailing slash. *)
Lemma remote_query_agrees_witness :
  let local := local_gateway (sample_query dead_health) 0 0 in
  let remote := remote_gateway (remote_new "http://127.0.0.1:9091/"
                  (admin_client no_encoding "http://127.0.0.1:9091" local status_text)) in
  gq_list_routes remote (Some "get") (Some "/api") = gq_list_routes local (Some "get") (Some "/api") ∧
  gq_diagnose remote "backends" None None = gq_diagnose local "backends" None None ∧
  (rule_id <$> query_diagnose (sample_query dead_health) "backends" None None 0 0) = ["RAUTA-BE-001"].
Proof.
  destruct (remote_query_agrees no_encoding (λ s _, eq_refl) (sample_query dead_health) 0 0 "http://127.0.0.1:9091/"
              "http://127.0.0.1:9091" status_text ltac:(vm_compute; reflexivity)) as (Hl & _ & Hd & _).
  split; [apply Hl|]. split; [by apply Hd|]. vm_compute. reflexivity.
Defined.

Lemma default_symptom_silent_witness :
  handle_admin_request (local_gateway (sample_query dead_health) 0 0) (mk_areq "POST" "/api/v1/diagnose" None) =
    respond json_diagnoses (Ok []).
Proof. by apply (default_symptom_silent (sample_query dead_health) 0 0 (mk_areq "POST" "/api/v1/diagnose" None)). Defined.
