(* ===== verification/Cli.v ===== *)
(** * Cli: the command line ([rauta-cli/src/main.rs], [output.rs])

Each command asks the admin server through the remote client ([Admin]) and renders
the answer as a table, as JSON or as JSON with hints for agents.  The parsing of
arguments and the layout of tables are the work of libraries: a command is given
parsed, and a table is its cells. *)

From S2P Require Import Prelude Common Float Text Decimal Maglev Health HealthChecker Filters Matching RouteCache Matchit.
From S2P Require Import Selection Router RouterSpec Prefix RateLimiter CowMap CircuitBreaker BreakerManager Diagnostics LocalQuery Admin.

#[local] Open Scope Z_scope.
#[local] Open Scope rauta_scope.

(** ** Commands *)
Inductive OutputFormat : Type := FTable | FJson | FAgent.

Inductive Commands : Type :=
| CStatus
| CRoutesList (method : option string)
| CRoutesGet (pattern : string)
| CBackendsHealth (route : option string)
| CBackendsDrain (backend : string) (timeout : Z)
| CBackendsUndrain (backend : string)
| CMetricsSnapshot
| CMetricsQuery (metric : string)
| CDiagnose (symptom : string) (route : option string)
| CMcp.

Record Cli : Type := mk_cli { format : OutputFormat; endpoint : string; command : Commands }.

(** ** Rendering *)

(** The hints of an agent's answer beside its summary. *)
Inductive AgentHint : Type := NoHint | Actions (actions : list string) | Urgent (urgent : bool).

Definition format_duration (seconds : Z) : string :=
  if seconds <? 60 then show_Z seconds +:+ "s"
  else if seconds <? 3600 then show_Z (seconds / 60) +:+ "m " +:+ show_Z (seconds mod 60) +:+ "s"
  else show_Z (seconds / 3600) +:+ "h " +:+ show_Z (seconds mod 3600 / 60) +:+ "m " +:+ show_Z (seconds mod 60) +:+ "s".

Definition status_rows (s : GatewaySnapshot) : list (list string) :=
  [["Status"; gs_status s];
   ["Uptime"; format_duration (gs_uptime_seconds s)];
   ["Routes"; nat_string (gs_route_count s)];
   ["Open Circuits"; nat_string (gs_open_circuits s)];
   ["Exhausted Rate Limiters"; nat_string (gs_exhausted_rate_limiters s)]] ++
  match gs_cache_stats s with
  | Some cache => [["Cache Hit Rate"; show_fixed 1 (f64_mul (cs_hit_rate cache) (f64_of_Z 100)) +:+ "%"]]
  | None => []
  end.

Definition filter_names (route : RouteSnapshot) : list string :=
  (if rs_has_request_filters route then ["req-headers"] else []) ++
  (if rs_has_response_filters route then ["resp-headers"] else []) ++
  (if rs_has_redirect route then ["redirect"] else []) ++
  (if rs_has_timeout route then ["timeout"] else []) ++
  (if rs_has_retry route then ["retry"] else []).

Definition route_row (route : RouteSnapshot) : list string :=
  let filters := filter_names route in
  [rs_method route; rs_pattern route; nat_string (length (rs_backends route));
   match filters with [] => "-" | _ => String.concat ", " filters end].

Definition backend_line (b : BackendSnapshot) : string :=
  "  " +:+ bs_address b +:+ ":" +:+ show_Z (bs_port b) +:+ " (weight=" +:+ show_Z (bs_weight b) +:+ ", draining=" +:+
  bool_string (bs_is_draining b) +:+ ")".

Definition severity_debug (s : Severity) : string :=
  match s with Info => "Info" | Warning => "Warning" | Critical => "Critical" end.

Definition action_line (a : SuggestedAction) : string :=
  match cli_command a with
  | Some cmd => "  Action: " +:+ description a +:+ " (" +:+ cmd +:+ ")"
  | None => "  Action: " +:+ description a
  end.

Definition diagnosis_lines (d : Diagnosis) : list string :=
  ["[" +:+ severity_debug (severity d) +:+ "] " +:+ rule_id d +:+ " (" +:+ d_symptom d +:+ ")"] ++
  ((λ cause, "  Cause: " +:+ cause) <$> causal_chain d) ++
  ((λ e, "  Evidence: " +:+ e) <$> evidence d) ++
  (action_line <$> suggested_actions d) ++ [""].

Definition is_critical (d : Diagnosis) : bool := match severity d with Critical => true | _ => false end.

Section cli.
Context {M : Type} `{!Matchit RouteKey M} `{!MapOrder} `{!PortOrder} `{!UnicodeCase} `{!Json}.

(** What is printed: lines, tables, JSON texts and the objects for agents. *)
Inductive printed : Type :=
| Line (s : string)
| TableOut (header : list string) (rows : list (list string))
| JsonLine (t : JsonText)
| AgentLine (cmd summary : string) (hint : AgentHint) (data : JsonText).

(** [to_string_pretty(..).unwrap_or_default()], printed *)
Definition print_json {A} (codec : Codec JsonText A) (x : A) : printed :=
  match pretty codec x with
  | Ok t => JsonLine t
  | Err _ => Line ""
  end.

(** [json!] panics on data that cannot be serialised. *)
Definition print_agent {A} (codec : Codec JsonText A) (cmd summary : string) (hint : AgentHint) (x : A)
    : outcome (list printed) :=
  match encode codec x with
  | Ok t => Ret [AgentLine cmd summary hint t]
  | Err _ => Panic
  end.

Definition render_status (s : GatewaySnapshot) (f : OutputFormat) : outcome (list printed) :=
  match f with
  | FTable => Ret [TableOut ["Field"; "Value"] (status_rows s)]
  | FJson => Ret [print_json json_snapshot s]
  | FAgent =>
      print_agent json_snapshot "status"
        ("Gateway " +:+ gs_status s +:+ " with " +:+ nat_string (gs_route_count s) +:+ " routes, " +:+
         nat_string (gs_open_circuits s) +:+ " open circuits")
        (Actions (if (0 <? gs_open_circuits s)%nat then ["Run `rauta diagnose circuit-breaker-cascade` for details"] else [])) s
  end.

Definition render_routes (routes : list RouteSnapshot) (f : OutputFormat) : outcome (list printed) :=
  match f with
  | FTable =>
      match routes with
      | [] => Ret [Line "No routes configured"]
      | _ => Ret [TableOut ["Method"; "Pattern"; "Backends"; "Filters"] (route_row <$> routes)]
      end
  | FJson => Ret [print_json json_routes routes]
  | FAgent => print_agent json_routes "routes list" (nat_string (length routes) +:+ " routes configured") NoHint routes
  end.

Definition render_route_detail (route : option RouteSnapshot) (f : OutputFormat) : outcome (list printed) :=
  match route with
  | None => Ret [Line "Route not found"]
  | Some r =>
      match f with
      | FTable =>
          Ret (Line <$> ["Route: " +:+ rs_method r +:+ " " +:+ rs_pattern r;
                         "Backends: " +:+ nat_string (length (rs_backends r))] ++ (backend_line <$> rs_backends r))
      | _ => Ret [print_json json_route (Some r)]
      end
  end.

Definition render_diagnoses (ds : list Diagnosis) (f : OutputFormat) : outcome (list printed) :=
  match f with
  | FTable =>
      match ds with
      | [] => Ret [Line "No issues detected"]
      | _ => Ret (Line <$> (ds ≫= diagnosis_lines))
      end
  | FJson => Ret [print_json json_diagnoses ds]
  | FAgent =>
      let critical_count := length (List.filter is_critical ds) in
      print_agent json_diagnoses "diagnose"
        (nat_string (length ds) +:+ " issues found (" +:+ nat_string critical_count +:+ " critical)")
        (Urgent (0 <? critical_count)%nat) ds
  end.

(** ** [main] *)
Inductive effect : Type :=
| Prints (out : list printed)
| ServesMcp (query : RemoteGatewayQuery).

(** Ask, then render: an error of the query ends the program. *)
Definition show {A} (answer : result A string) (render : A → outcome (list printed)) : outcome (result effect string) :=
  match answer with
  | Err e => Ret (Err e)
  | Ok x => out <-! render x ;; Ret (Ok (Prints out))
  end.

Definition cli_main (cli : Cli) (http : HttpClient) : outcome (result effect string) :=
  let client := remote_new (endpoint cli) http in
  let q := remote_gateway client in
  let f := format cli in
  match command cli with
  | CStatus => show (gq_snapshot q) (λ s, render_status s f)
  | CRoutesList method => show (gq_list_routes q method None) (λ rs, render_routes rs f)
  | CRoutesGet pattern => show (gq_get_route q pattern) (λ r, render_route_detail r f)
  | CBackendsHealth _ => show (gq_snapshot q) (λ s, render_status s f)
  | CBackendsDrain backend _ => Ret (Ok (Prints [Line ("Draining backend " +:+ backend +:+ "...")]))
  | CBackendsUndrain backend => Ret (Ok (Prints [Line ("Undraining backend " +:+ backend +:+ "...")]))
  | CMetricsSnapshot => show (gq_snapshot q) (λ s, render_status s f)
  | CMetricsQuery metric => Ret (Ok (Prints [Line ("Querying metric: " +:+ metric)]))
  | CDiagnose symptom _ => show (gq_diagnose q symptom None None) (λ ds, render_diagnoses ds f)
  | CMcp => Ret (Ok (ServesMcp client))
  end.

(** ** What the rendering says *)
Lemma backend_line_label h b :
  backend_line (backend_snapshot h b) =
    "  " +:+ backend_to_string b +:+ " (weight=" +:+ show_Z (weight b) +:+ ", draining=" +:+ bool_string (draining_in h b) +:+ ")".
Proof.
  unfold backend_line, backend_snapshot, backend_to_string. cbn [bs_address bs_port bs_weight bs_is_draining].
  destruct (is_ipv6 b); by rewrite <- !app_assoc_string.
Qed.

(** The lines of [routes get] for a route. *)
Definition detail_lines (h : HealthData) (method : string) (route : Route) : list string :=
  ["Route: " +:+ method +:+ " " +:+ pattern route; "Backends: " +:+ nat_string (length (backends route))] ++
  ((λ b, "  " +:+ backend_to_string b +:+ " (weight=" +:+ show_Z (weight b) +:+ ", draining=" +:+
         bool_string (draining_in h b) +:+ ")") <$> backends route).

Lemma filtered_routes_short (q : LocalGatewayQuery M) m p : Forall route_short (query_routes q m p).
Proof.
  unfold query_routes. rewrite sort_by_perm. pose proof (routes_short (lq_router q)) as Hs.
  destruct m, p; repeat (apply Forall_forall; intros x [_ Hx]%list_elem_of_filter; revert x Hx; apply Forall_forall); done.
Qed.

Lemma get_route_cases (q : LocalGatewayQuery M) pat :
  match get_route q pat with
  | Some s => ∃ k route, routes (lq_router q) !! k = Some route ∧ pattern route = pat ∧ s = route_snapshot (health (lq_router q)) (k, route)
  | None => ∀ k route, routes (lq_router q) !! k = Some route → pattern route ≠ pat
  end.
Proof.
  unfold get_route. rewrite list_routes_snapshots. destruct (List.find _ _) as [s|] eqn:E.
  - apply List.find_some in E as [Hin Hp%String.eqb_eq]. apply list_elem_of_In, list_elem_of_fmap in Hin as ([k route] & -> & Hin).
    exists k, route. split; [|done]. rewrite iter_perm in Hin. by apply elem_of_map_to_list.
  - intros k route Hl Hp. apply (List.find_none _ _) with (x := route_snapshot (health (lq_router q)) (k, route)) in E.
    + cbn in E. by apply String.eqb_neq in E.
    + apply list_elem_of_In, list_elem_of_fmap. exists (k, route). split; [done|]. rewrite iter_perm. by apply elem_of_map_to_list.
Qed.

Lemma urgent_iff ds : (0 <? length (List.filter is_critical ds))%nat = true ↔ ∃ d, d ∈ ds ∧ severity d = Critical.
Proof.
  rewrite Nat.ltb_lt. split.
  - destruct (List.filter is_critical ds) as [|d l] eqn:E; cbn; [lia|]. intros _. exists d.
    assert (In d (List.filter is_critical ds)) as [Hin Hc]%List.filter_In by (rewrite E; by left).
    split; [by apply list_elem_of_In|]. unfold is_critical in Hc. by destruct (severity d).
  - intros (d & Hin & Hd). assert (In d (List.filter is_critical ds)) as Hi.
    { apply List.filter_In. split; [by apply list_elem_of_In|]. unfold is_critical. by rewrite Hd. }
    destruct (List.filter is_critical ds); [done|]. cbn. lia.
Qed.

Lemma one_circuit_no_cascade (q : LocalGatewayQuery M) rf bf now now' :
  open_count (lq_circuit_breaker q) = 1%nat → query_diagnose q "circuit-breaker-cascade" rf bf now now' = [].
Proof.
  intros Hone. unfold query_diagnose, diagnose_symptom. rewrite foldl_collect.
  cbn [app with_builtin_rules register engine_new rules List.filter]. unfold rule_matches. rewrite !lowercase_ascii by done.
  cbn [CircuitBreakerCascade CircuitBreakerOpen RateLimitExhausted NoHealthyBackends AllBackendsDraining LowCacheHitRate
    ListenerConflict dr_symptom dr_id].
  repeat match goal with |- context [if (?a || ?b) then _ else _] =>
    let v := eval vm_compute in (a || b) in replace (a || b) with v by (vm_compute; reflexivity) end.
  cbn [flat_map CircuitBreakerCascade evaluate app diagnostic_context ctx_circuit_breakers].
  by rewrite open_breakers_count, Hone.
Qed.

Section deployed_cli.
Context (urlencode : string → string) (urlencode_safe : ∀ s, forall_ascii url_safe s = true → urlencode s = s).
Context (q : LocalGatewayQuery M) (now now' : Z) (server origin : string) (errors : Z → string → string)
  (Horigin : trim_end_matches "/" server = origin).

Abbreviation http := (admin_client urlencode origin (local_gateway q now now') errors).
Abbreviation run f cmd := (cli_main (mk_cli f server cmd) http).

(** C29: the command line shows what the gateway has.  Against the admin server of a
gateway, [routes list] with any method filter prints in every format exactly the
routes of the router that have the method, in order: a row each, or JSON that is read
back as them; [routes get] names the method of a route with the pattern and every
backend by its label, weight and draining state, and says so if there is none; and
[diagnose] with a symptom of URL characters prints no issues exactly if the gateway
has none, JSON that is read back as its diagnoses, and for agents that it is urgent
exactly if one is critical. *)
Theorem cli_shows_gateway :
  (∀ f m, let rs := query_routes q m None in
    match f with
    | FTable => run f (CRoutesList m) = Ret (Ok (Prints
        [if (0 <? length rs)%nat then TableOut ["Method"; "Pattern"; "Backends"; "Filters"] (route_row <$> rs)
         else Line "No routes configured"]))
    | FJson => ∃ t, run f (CRoutesList m) = Ret (Ok (Prints [JsonLine t])) ∧ decode json_routes t = Ok rs
    | FAgent => ∃ t, run f (CRoutesList m) = Ret (Ok (Prints
        [AgentLine "routes list" (nat_string (length rs) +:+ " routes configured") NoHint t])) ∧ decode json_routes t = Ok rs
    end) ∧
  (∀ pat,
    (∃ k route, routes (lq_router q) !! k = Some route ∧ pattern route = pat ∧ run FTable (CRoutesGet pat) =
       Ret (Ok (Prints (Line <$> detail_lines (health (lq_router q)) (method_to_str (key_method k)) route)))) ∨
    ((∀ k route, routes (lq_router q) !! k = Some route → pattern route ≠ pat) ∧
     ∀ f, run f (CRoutesGet pat) = Ret (Ok (Prints [Line "Route not found"])))) ∧
  (∀ f s rf, forall_ascii url_safe s = true →
    let ds := query_diagnose q s None None now now' in
    ∃ out, run f (CDiagnose s rf) = Ret (Ok (Prints out)) ∧
      match f with
      | FTable => out = [Line "No issues detected"] ↔ ds = []
      | FJson => ∃ t, out = [JsonLine t] ∧ decode json_diagnoses t = Ok ds
      | FAgent => ∃ summary urgent t, out = [AgentLine "diagnose" summary (Urgent urgent) t] ∧
          decode json_diagnoses t = Ok ds ∧ (urgent = true ↔ ∃ d, d ∈ ds ∧ severity d = Critical)
      end).
Proof.
  split_and!.
  - intros f m rs. unfold cli_main. cbn [command format endpoint]. unfold show.
    change (gq_list_routes (remote_gateway (remote_new server http)) m None) with (remote_routes (remote_new server http) m None).
    rewrite remote_routes_agree by done. fold rs. destruct f; cbn [render_routes].
    + by destruct rs.
    + destruct (routes_pretty rs (filtered_routes_short q m None)) as (t & Hp & Hd). exists t. unfold print_json. by rewrite Hp.
    + destruct (routes_roundtrip rs (filtered_routes_short q m None)) as (t & Hp & Hd). exists t. unfold print_agent. by rewrite Hp.
  - intros pat. unfold cli_main. cbn [command format endpoint]. unfold show. rewrite remote_get_agrees by done.
    pose proof (get_route_cases q pat) as Hc. destruct (get_route q pat) as [s|]; [left|by right].
    destruct Hc as (k & route & Hl & Hp & ->). exists k, route. split; [done|]. split; [done|].
    cbn [render_route_detail obind]. do 5 f_equal. unfold detail_lines. cbn. rewrite length_fmap. do 2 f_equal.
    rewrite <- list_fmap_compose. apply list_fmap_ext. intros i b _. apply backend_line_label.
  - intros f s rf Hs ds. unfold cli_main. cbn [command format endpoint]. unfold show.
    rewrite remote_diagnose_agrees by done. fold ds. pose proof (diagnoses_short q s None None now now') as Hsh. fold ds in Hsh.
    destruct f; cbn [render_diagnoses].
    + destruct ds as [|d ds']; cbn [obind]; eexists; (split; [done|]); [done|]. split; [|done]. cbn. intros [= E].
    + destruct (diagnoses_pretty ds Hsh) as (t & Hp & Hd). eexists. split; [done|]. exists t. unfold print_json. by rewrite Hp.
    + destruct (diagnoses_roundtrip ds Hsh) as (t & Hp & Hd). unfold print_agent. rewrite Hp. cbn [obind].
      eexists. split; [done|]. eexists _, _, t. split; [done|]. split; [done|]. apply urgent_iff.
Qed.

(** The hint for agents leads nowhere.  With exactly one open circuit the status tells
an agent to run the diagnosis of cascades, which then finds no issue: the rule wants
two. *)
Theorem hint_leads_nowhere rf :
  open_count (lq_circuit_breaker q) = 1%nat → snapshot_short (snapshot q now) →
  (∃ summary t, run FAgent CStatus = Ret (Ok (Prints
     [AgentLine "status" summary (Actions ["Run `rauta diagnose circuit-breaker-cascade` for details"]) t]))) ∧
  run FTable (CDiagnose "circuit-breaker-cascade" rf) = Ret (Ok (Prints [Line "No issues detected"])).
Proof.
  intros Hone Hs. unfold cli_main. cbn [command format endpoint]. unfold show. split.
  - rewrite remote_snapshot_agrees by done. destruct (snapshot_roundtrip _ Hs) as (t & Ht & _). cbn [render_status].
    unfold print_agent. rewrite Ht. cbn [obind snapshot gs_open_circuits]. rewrite Hone. eauto.
  - rewrite remote_diagnose_agrees by done. by rewrite one_circuit_no_cascade.
Qed.
End deployed_cli.
End cli.

(** ** Durations *)

(** A number ends at the first character that is not a digit. *)
Lemma show_Z_stops a b c d s t :
  0 <= a → 0 <= b → is_digit_char c = false → is_digit_char d = false →
  show_Z a +:+ String c s = show_Z b +:+ String d t → a = b ∧ String c s = String d t.
Proof.
  intros Ha Hb Hc Hd E.
  assert (∀ n x u, 0 <= n → is_digit_char x = false →
    span_digits (as_bytes (show_Z n +:+ String x u)) = (digits_of (show_Z n), as_bytes (String x u))) as Hspan.
  { intros n x u Hn Hx. rewrite as_bytes_app. apply span_digits_app; [by apply show_Z_digits|exact Hx]. }
  pose proof (Hspan a c s Ha Hc) as E1. rewrite E, (Hspan b d t Hb Hd) in E1. injection E1 as Ed Es.
  assert (a = b) as -> by (destruct (show_Z_digits a Ha) as (_ & <- & _), (show_Z_digits b Hb) as (_ & <- & _); by rewrite Ed).
  split; [done|]. by apply (inj (String.append (show_Z b))).
Qed.

Lemma append_cons c s t : String c s +:+ t = String c (s +:+ t).
Proof. reflexivity. Qed.

Lemma append_nil t : "" +:+ t = t.
Proof. reflexivity. Qed.

(** Compares two texts of numbers and units from the left. *)
Ltac split_units E :=
  rewrite ?append_cons, ?append_nil in E;
  let part := first [lia | apply Z.div_pos; lia | apply Z.mod_pos_bound; lia | apply Z.div_pos; [apply Z.mod_pos_bound; lia|lia]] in
  repeat (apply show_Z_stops in E as [? E]; [|solve [part]|solve [part]|done|done];
          first [discriminate E | injection E as E | idtac]).

(** The text of an uptime determines it. *)
Theorem format_duration_injective a b : 0 <= a → 0 <= b → format_duration a = format_duration b → a = b.
Proof.
  intros Ha Hb. unfold format_duration.
  pose proof (Z.div_mod a 60 ltac:(lia)). pose proof (Z.div_mod b 60 ltac:(lia)).
  pose proof (Z.div_mod a 3600 ltac:(lia)). pose proof (Z.div_mod b 3600 ltac:(lia)).
  pose proof (Z.div_mod (a mod 3600) 60 ltac:(lia)). pose proof (Z.div_mod (b mod 3600) 60 ltac:(lia)).
  assert (∀ x, x mod 3600 mod 60 = x mod 60) as Hmod.
  { intros x. by rewrite <- (Znumtheory.Zmod_div_mod 60 3600 x ltac:(lia) ltac:(lia) ltac:(by exists 60)). }
  rewrite !Hmod in *.
  destruct (Z.ltb_spec a 60), (Z.ltb_spec b 60); try destruct (Z.ltb_spec a 3600); try destruct (Z.ltb_spec b 3600);
    intros E; split_units E; lia.
Qed.

(** ** Witnesses *)
#[local] Existing Instances list_matchit key_order key_ports ascii_case value_json.

(** The client of the sample gateway, as [remote_query_agrees_witness] asks it. *)
Definition sample_http (q : LocalGatewayQuery (list (string * RouteKey))) : HttpClient :=
  admin_client no_encoding "http://127.0.0.1:9091" (local_gateway q 0 0) status_text.

Lemma cli_shows_gateway_witness :
  let run f cmd := cli_main (mk_cli f "http://127.0.0.1:9091/" cmd) (sample_http (sample_query dead_health)) in
  (∃ t, run FJson (CRoutesList (Some "get")) = Ret (Ok (Prints [JsonLine t])) ∧
     decode json_routes t = Ok (query_routes (sample_query dead_health) (Some "get") None)) ∧
  run FTable (CRoutesList None) = Ret (Ok (Prints
    [TableOut ["Method"; "Pattern"; "Backends"; "Filters"] [["GET"; "/api"; "2"; "-"]]])) ∧
  run FTable (CRoutesGet "/api") = Ret (Ok (Prints (Line <$>
    ["Route: GET /api"; "Backends: 2"; "  10.0.0.1:80 (weight=100, draining=false)";
     "  10.0.0.2:80 (weight=100, draining=false)"]))) ∧
  run FTable (CRoutesGet "/none") = Ret (Ok (Prints [Line "Route not found"])).
Proof.
  destruct (cli_shows_gateway no_encoding (λ s _, eq_refl) (sample_query dead_health) 0 0 "http://127.0.0.1:9091/"
              "http://127.0.0.1:9091" status_text ltac:(vm_compute; reflexivity)) as (Hl & Hg & _).
  split; [apply (Hl FJson)|]. split; [rewrite (Hl FTable); vm_compute; reflexivity|]. split; vm_compute; reflexivity.
Defined.

(** Five failures open the circuit of one backend. *)
Definition one_open : LocalGatewayQuery (list (string * RouteKey)) :=
  query_new (lq_router (sample_query dead_health))
    (Nat.iter 5 (λ m, manager_record_failure m "10.0.0.1:80" 1000) (manager_new 5 30000000000)) limiter_new 0.

Lemma hint_leads_nowhere_witness :
  let run f cmd := cli_main (mk_cli f "http://127.0.0.1:9091" cmd) (sample_http one_open) in
  (∃ summary t, run FAgent CStatus = Ret (Ok (Prints
     [AgentLine "status" summary (Actions ["Run `rauta diagnose circuit-breaker-cascade` for details"]) t]))) ∧
  run FTable (CDiagnose "circuit-breaker-cascade" None) = Ret (Ok (Prints [Line "No issues detected"])).
Proof.
  apply (hint_leads_nowhere no_encoding (λ s _, eq_refl) one_open 0 0 "http://127.0.0.1:9091" "http://127.0.0.1:9091" status_text
           ltac:(vm_compute; reflexivity) None).
  - vm_compute. reflexivity.
  - exists 0. split; [lia|vm_compute; reflexivity].
Defined.

Lemma format_duration_injective_witness : format_duration 3661 = "1h 1m 1s" ∧ 3661 = 3661.
Proof. split; [vm_compute; reflexivity|]. apply format_duration_injective; [lia..|reflexivity]. Defined.

(** The commands that drain and undrain print, and ask nothing. *)
Example drain_only_prints :
  cli_main (mk_cli FTable "http://127.0.0.1:9091" (CBackendsDrain "10.0.0.1:80" 30)) (mk_client (λ _ _ _, Err "refused") status_text) =
    Ret (Ok (Prints [Line "Draining backend 10.0.0.1:80..."])).
Proof. reflexivity. Qed.
