(* ===== verification/Proxy.v ===== *)
(** * Proxy: a request from the client to the wire

[handle_request] ([RequestHandler]) with [forward_to_backend] ([Forwarder]) as the
attempt it makes: the state is that of the server and of the forwarder, and a
request leaves behind what it put on the wire. *)

From S2P Require Import Prelude Common BackendPool Maglev Float Health HealthChecker Filters Matching RouteCache Matchit.
From S2P Require Import Selection Router RouterSpec RateLimiter CowMap CircuitBreaker BreakerManager.
From S2P Require Import RequestHandler Forwarder.

#[local] Open Scope Z_scope.
#[local] Open Scope rauta_scope.

Section proxy.
Context {M : Type} `{!Matchit RouteKey M} `{!MapOrder} {Hdr : Type} `{!HeaderMap Hdr}.

Abbreviation Server := (Server M).
Abbreviation Request := (Request Hdr).
Abbreviation Response := (Response Hdr).

(** ** The gates of [handle_request] *)

(** A request is answered before any attempt, or passes, as the filters leave it. *)
Inductive gated : Type :=
| Answered (resp : Response) (s : Server)
| Passed (s : Server) (req : Request) (m : RouteMatch) (worker : option Z).

Definition gate_match (s : Server) (req : Request) (m : RouteMatch) (now : Z) : outcome gated :=
  w <-! match srv_selector s with
        | Some sel => x <-! select_worker sel ;; Ret (Some x.1, Some x.2)
        | None => Ret (None, None)
        end ;;
  let '(worker_index, selector) := w in
  let s := set_selector s selector in
  match rm_redirect m with
  | Some redirect =>
      match build_redirect_response (req_target req) redirect with
      | Ok (status, location) => Ret (Answered (redirect_response status location) s)
      | Err e => Ret (Answered (build_error_response 500 ("Redirect error: " +:+ e)) s)
      end
  | None =>
      let '(ok, limiter) := check_rate_limit (srv_limiter s) (rm_pattern m) now in
      let s := set_limiter s limiter in
      if negb ok then Ret (Answered build_rate_limit_response s)
      else match rm_request_filters m with
           | None => Ret (Passed s req m worker_index)
           | Some filters =>
               match apply_header_filters (req_headers req) (operations filters) with
               | Err e => Ret (Answered (build_error_response 500 ("Filter error: " +:+ e)) s)
               | Ok h =>
                   Ret (Passed s (mk_request (req_method req) (req_target req) h (req_path_and_query req)
                                    (req_x_request_id req)) m worker_index)
               end
           end
  end.

Definition builtin (req : Request) : bool :=
  String.eqb (req_method req) "GET" &&
  bool_decide (uri_path (req_target req) ∈ ["/metrics"; "/healthz"; "/status"]).

Definition gate (s : Server) (req : Request) (fresh_id : string) (now later uptime : Z) (metrics : MetricsText)
  : outcome gated :=
  let path := uri_path (req_target req) in
  let method := method_of (req_method req) in
  let is_get := String.eqb (req_method req) "GET" in
  if String.eqb path "/metrics" && is_get then Ret (Answered (serve_metrics_endpoint metrics) s)
  else if String.eqb path "/healthz" && is_get then Ret (Answered serve_healthz_endpoint s)
  else if String.eqb path "/status" && is_get then Ret (Answered (serve_status_endpoint s uptime) s)
  else
    sel <-! select_backend (srv_router s) method path None None ;;
    let s := set_router s sel.2 in
    match sel.1 with
    | Some m => gate_match s req m now
    | None => Ret (Answered (build_not_found_response (default fresh_id (req_x_request_id req)))
                     (record_not_found_metrics s method (later - now)))
    end.

Lemma handle_request_gated s req fresh_id now later uptime metrics net :
  handle_request s req fresh_id now later uptime metrics net =
    (g <-! gate s req fresh_id now later uptime metrics ;;
    Ret match g with
        | Answered resp s => (resp, s)
        | Passed s req' m w =>
            forward s req' (default fresh_id (req_x_request_id req)) m (method_of (req_method req)) w now later net
        end).
Proof.
  unfold handle_request, gate, handle_match, gate_match.
  destruct (_ && _); [done|]. destruct (_ && _); [done|]. destruct (_ && _); [done|].
  destruct (select_backend _ _ _ _ _) as [[[m|] r]|]; cbn [obind fst snd]; [|done..].
  destruct (match srv_selector _ with Some _ => _ | None => _ end) as [[w sel]|]; cbn [obind]; [|done].
  destruct (rm_redirect m) as [rd|]; [by destruct (build_redirect_response _ rd) as [[]|]|].
  destruct (check_rate_limit _ _ _) as [[] l]; cbn [negb]; [|done].
  destruct (rm_request_filters m) as [f|]; [|done]. by destruct (apply_header_filters _ _).
Qed.

(** ** A request on the wire *)

(** Where the overall timeout cuts the first attempt: before the exchange, while it
reads the body or waits for the protocol cache, or at a point of the exchange. *)
Inductive cut : Type := CutBefore | CutAt (p : await_point).

(** What happens outside for one request. *)
Record Outside : Type := mk_outside {
  o_net : BackendNet Hdr;
  o_cut : option cut;
  o_build : RetryRequest → option string;
  o_retry : RetryRequest → nat → result Response string
}.

Definition struck_at (net : BackendNet Hdr) (p : await_point) : BackendNet Hdr :=
  mk_backend_net (builder net) (send_http2 net) (client_http1 net) (pool_env net) (Some p).

(** The first attempt, and whether the overall timeout cut it.  A future that is cut is
dropped where it awaits, as by a timeout of its own. *)
Definition first_attempt (o : Outside) (f : Forwarder) (req : Request) (body : Body) (m : RouteMatch)
    (worker : option nat) : outcome (result Response ProxyError * bool * Forwarder * list (protocol * OutRequest)) :=
  match rm_timeout m ≫= request_timeout, o_cut o with
  | Some _, Some CutBefore => Ret (Err (TimeoutError ""), true, f, [])
  | Some _, Some (CutAt p) =>
      x <-! forward_to_backend (struck_at (o_net o) p) f req body (rm_backend m) worker (Some (mk_timeout None (Some 0))) ;;
      let '(r, f, sent) := x in
      Ret (r, match r with Err e => is_timeout e | Ok _ => false end, f, sent)
  | _, _ =>
      x <-! forward_to_backend (o_net o) f req body (rm_backend m) worker (rm_timeout m) ;;
      let '(r, f, sent) := x in Ret (r, false, f, sent)
  end.

Record Proxy : Type := mk_proxy { px_server : Server; px_forwarder : Forwarder }.

Inductive wire_request : Type :=
| First (p : protocol) (q : OutRequest)
| Again (q : RetryRequest).

(** The retries that were sent: as many as backoff delays, if they could be built. *)
Definition retries_sent (o : Outside) (q : RetryRequest) (delays : list Z) : list wire_request :=
  match o_build o q with
  | Some _ => []
  | None => replicate (length delays) (Again q)
  end.

Definition serve (p : Proxy) (req : Request) (body : Body) (fresh_id : string) (now later uptime : Z)
    (metrics : MetricsText) (o : Outside) : outcome (Response * Proxy * list wire_request) :=
  g <-! gate (px_server p) req fresh_id now later uptime metrics ;;
  match g with
  | Answered resp s => Ret (resp, mk_proxy s (px_forwarder p), [])
  | Passed s req' m w =>
      let method := method_of (req_method req) in
      let '(allowed, breakers) := manager_allow_request (srv_breakers s) (backend_to_string (rm_backend m)) now in
      if negb allowed
      then Ret (build_circuit_breaker_response, mk_proxy (set_breakers s breakers) (px_forwarder p), [])
      else
        x <-! first_attempt o (px_forwarder p) req' body m (Z.to_nat <$> w) ;;
        let '(r, exceeded, f, sent) := x in
        let net := mk_network r exceeded (o_build o) (o_retry o) in
        let '(resp, s') := forward s req' (default fresh_id (req_x_request_id req)) m method w now later net in
        let '(_, ds) := execute_request_with_retry resp_status method (rm_timeout m) (rm_retry m) (retry_of req' method m) net in
        Ret (resp, mk_proxy s' f, ((λ x, First x.1 x.2) <$> sent) ++ retries_sent o (retry_of req' method m) ds)
  end.

(** ** Invariant *)

(** Every index the selector gives names a worker. *)
Definition workers_match (p : Proxy) : Prop :=
  ∀ sel, srv_selector (px_server p) = Some sel →
    0 < num_workers sel ∧ ∀ ws, workers (px_forwarder p) = Some ws → length ws = Z.to_nat (num_workers sel).

Definition proxy_ok (p : Proxy) : Prop := router_ok (srv_router (px_server p)) ∧ workers_match p.

(** ** Lemmas *)

(** The routes and the cache decide whether a router is well formed. *)
Lemma router_ok_health (r : Router M) h : router_ok r → router_ok (set_health r h).
Proof. by intros []. Qed.

Lemma record_metrics_keeps (s : Server) (r : result Response ProxyError) method pat w d b id now :
  let s' := record_request_metrics s r method pat w d b id now in
  srv_selector s' = srv_selector s ∧ routes (srv_router s') = routes (srv_router s) ∧
  (router_ok (srv_router s) → router_ok (srv_router s')).
Proof.
  unfold record_request_metrics. destruct r as [resp|e]; [destruct (500 <=? _)|destruct (negb _)]; split_and!; try done;
    intros Hok; by apply router_ok_health.
Qed.

Lemma forward_keeps (s : Server) req rid m method w now later net resp s' :
  forward s req rid m method w now later net = (resp, s') →
  srv_selector s' = srv_selector s ∧ routes (srv_router s') = routes (srv_router s) ∧
  (router_ok (srv_router s) → router_ok (srv_router s')).
Proof.
  unfold forward. destruct (manager_allow_request _ _ _) as [[] br]; cbn [negb]; [|by intros [= <- <-]].
  destruct (execute_request_with_retry _ _ _ _ _ _) as [r ds]. intros [= <- <-].
  apply (record_metrics_keeps (set_breakers s br)).
Qed.

Lemma set_pools_workers (f : Forwarder) worker ps x ws :
  workers (set_pools f worker ps x) = Some ws → ∃ ws0, workers f = Some ws0 ∧ length ws = length ws0.
Proof.
  unfold set_pools. destruct worker as [i|], (workers f) as [ws0|] eqn:E; cbn; intros Hw; try congruence.
  - injection Hw as <-. exists ws0. by rewrite length_insert.
  - exists ws0. split; congruence.
Qed.

Lemma forward_to_backend_workers net (f : Forwarder) (req : Request) body b worker timeout r f' sent ws :
  forward_to_backend net f req body b worker timeout = Ret (r, f', sent) → workers f' = Some ws →
  ∃ ws0, workers f = Some ws0 ∧ length ws = length ws0.
Proof.
  unfold forward_to_backend. intros E Hw. destruct (read_body _ _); [|injection E as <- <- <-; eauto].
  destruct (builder net _); [injection E as <- <- <-; eauto|].
  destruct (match protocol_cache f !! backend_to_string b with Some true => _ | _ => _ end) as [[] fb]; unfold backend_exchange in E.
  - destruct (pools_for f worker) as [[warm ps]|]; [|done]. cbn [obind] in E.
    destruct (acquire _ warm ps (registry f) b (pool_env net)) as [ra [ps' x']].
    apply (set_pools_workers f worker ps' x').
    destruct ra as [[sender|e]|]; cbn [obind] in E; [|by injection E as <- <- <-..].
    unfold exchange_http2, exchange_http1 in E. repeat (case_match; simplify_eq/=; try done).
  - unfold exchange_http1 in E. cbn in E. injection E as <- <- <-. eauto.
Qed.

(** ** What a request on the wire must look like *)
Definition headers_ok (b : Backend) (hs : list (string * string)) : Prop :=
  Forall (λ h, is_hop_by_hop_header h.1 = false) hs ∧ filter (λ h, h.1 = "host") hs = [("host", backend_to_string b)].

Definition known_method (name : string) : Prop :=
  name ∈ ["GET"; "POST"; "PUT"; "DELETE"; "HEAD"; "OPTIONS"; "PATCH"].

(** The client's method and target, for the backend, with its host and no hop-by-hop
header. *)
Definition wire_ok (req : Request) (b : Backend) (q : wire_request) : Prop :=
  let uri_ok uri := ∀ pq, req_path_and_query req = Some pq → uri = "http://" +:+ backend_to_string b +:+ pq in
  match q with
  | First _ q => out_method q = req_method req ∧ uri_ok (out_uri q) ∧ headers_ok b (out_headers q)
  | Again q => (known_method (req_method req) → rr_method q = req_method req) ∧ uri_ok (rr_uri q) ∧ headers_ok b (rr_headers q)
  end.

Lemma carries_wire (req : Request) b bytes x : carries req b bytes x.2 → wire_ok req b (First x.1 x.2).
Proof. intros (Hm & Hu & _ & Hh & Hhost). split_and!; [done| |done]. intros pq Hpq. rewrite Hu, Hpq. done. Qed.

Lemma sent_at_most_two (req : Request) b known sent : sent_ok req b known sent → (length sent <= 2)%nat.
Proof. destruct sent as [|[[] q] [|[[] q'] [|]]]; cbn; intros; try done; lia. Qed.

Lemma forward_wire net (f : Forwarder) (req : Request) body b worker timeout r f' sent :
  forward_to_backend net f req body b worker timeout = Ret (r, f', sent) →
  Forall (λ x, wire_ok req b (First x.1 x.2)) sent ∧ (length sent <= 2)%nat.
Proof.
  intros E. destruct (forward_cases _ _ _ _ _ _ _ _ _ _ E) as (learned & _ & _ & [(-> & _)|(bytes & a & _ & Hex & _)]).
  { split; [done|cbn; lia]. }
  destruct (exchanged_sent _ _ _ _ _ _ _ _ Hex) as (Hs & Hc & _). split; [|by eapply sent_at_most_two].
  eapply Forall_impl; [exact Hc|]. intros x. apply carries_wire.
Qed.

Lemma first_attempt_spec o (f : Forwarder) req body m worker :
  worker_ok f worker →
  ∃ r ex f' sent, first_attempt o f req body m worker = Ret (r, ex, f', sent) ∧
    Forall (λ x, wire_ok req (rm_backend m) (First x.1 x.2)) sent ∧ (length sent <= 2)%nat ∧
    ∀ ws, workers f' = Some ws → ∃ ws0, workers f = Some ws0 ∧ length ws = length ws0.
Proof.
  intros Hw. unfold first_attempt.
  assert (∀ net t (k : result Response ProxyError → bool), ∃ r ex f' sent,
    (x <-! forward_to_backend net f req body (rm_backend m) worker t ;;
     let '(r, f, sent) := x in Ret (r, k r, f, sent)) = Ret (r, ex, f', sent) ∧
    Forall (λ x, wire_ok req (rm_backend m) (First x.1 x.2)) sent ∧ (length sent <= 2)%nat ∧
    ∀ ws, workers f' = Some ws → ∃ ws0, workers f = Some ws0 ∧ length ws = length ws0) as Hrun.
  { intros net t k. destruct (forward_total net f req body (rm_backend m) worker t Hw) as (r & f' & sent & E).
    rewrite E. cbn [obind]. destruct (forward_wire _ _ _ _ _ _ _ _ _ _ E) as [Hs Hl].
    eexists _, _, _, _. split_and!; [done..|]. intros ws. by eapply forward_to_backend_workers. }
  destruct (rm_timeout m ≫= request_timeout) as [d|]; [destruct (o_cut o) as [[|p]|]|];
    try apply (Hrun _ _ (λ _, false)); [|apply (Hrun _ _ (λ r, match r with Err e => is_timeout e | Ok _ => false end))].
  eexists _, _, _, _. split_and!; [done..|cbn; lia|eauto].
Qed.

(** *** The retries *)
Lemma retry_loop_length (c : RetryConfig) (net : Network Response) q n : ∀ k r,
  (length (retry_loop resp_status c net q k n r).2 <= n)%nat.
Proof.
  induction n as [|n IH]; intros k r; cbn [retry_loop]; [done|]. destruct (build_error net q); [cbn; lia|].
  destruct (should_retry _ _ _); [|cbn; lia]. specialize (IH (S k) (retry_failed (client_request net q k))).
  destruct (retry_loop _ _ _ _ _ _ _). cbn in *. lia.
Qed.

(** The bound on the retries of a route, with its [u32] arithmetic. *)
Definition retry_bound (c : option RetryConfig) : nat :=
  match c with
  | Some c => Z.to_nat (wrap 32 (max_retries c + 1) - 1)
  | None => 0
  end.

Lemma retries_bounded method t c q (net : Network Response) r ds :
  execute_request_with_retry resp_status method t c q net = (r, ds) →
  (length ds <= retry_bound c)%nat ∧ (ds ≠ [] → method = GET ∨ method = HEAD).
Proof.
  unfold execute_request_with_retry. case_bool_decide as Hm; [|intros [= <- <-]; split; [cbn; lia|done]].
  destruct c as [c|]; [|intros [= <- <-]; split; [cbn; lia|done]]. unfold execute_with_retry. cbn [retry_bound].
  destruct (_ || _); intros E; [injection E as <- <-; split; [cbn; lia|done]|]. split; [|done].
  pose proof (retry_loop_length c net q (Z.to_nat (wrap 32 (max_retries c + 1) - 1)) 1
    (execute_without_retry (t ≫= request_timeout) net)) as Hl. by rewrite E in Hl.
Qed.

Lemma known_method_inv name m : known_method name → method_of name = m → m = GET ∨ m = HEAD →
  name = match m with HEAD => "HEAD" | _ => "GET" end.
Proof.
  intros Hk <-. unfold known_method in Hk.
  repeat (apply elem_of_cons in Hk as [->|Hk]; [cbn; by intros [|]|]). by apply not_elem_of_nil in Hk.
Qed.

Lemma filter_none {A} (P : A → Prop) `{!∀ x, Decision (P x)} l : (∀ x, x ∈ l → ¬ P x) → filter P l = [].
Proof.
  induction l as [|x l IH]; intros Hl; [done|]. rewrite filter_cons, decide_False by (apply Hl; set_solver).
  apply IH. set_solver.
Qed.

Lemma retry_wire (req : Request) m method :
  (method = GET ∨ method = HEAD) → method_of (req_method req) = method →
  wire_ok req (rm_backend m) (Again (retry_of req method m)).
Proof.
  intros Hm Hmo. split_and!.
  - intros Hk. cbn [rr_method retry_of retry_request]. symmetry. by apply known_method_inv.
  - intros pq Hpq. cbn [rr_uri retry_of retry_request]. by rewrite Hpq.
  - unfold headers_ok. cbn [rr_headers retry_of retry_request]. split.
    + apply Forall_app. split; [|by repeat constructor]. apply Forall_forall. intros h [Hh _]%list_elem_of_filter.
      unfold keeps_header in Hh. repeat (apply andb_true_iff in Hh as [Hh ?]). by apply negb_true_iff.
    + rewrite filter_app, filter_none; [done|]. intros h [Hh _]%list_elem_of_filter Hhost. by rewrite Hhost in Hh.
Qed.
(** *** The gates *)
Definition kept (s s' : Server) : Prop :=
  routes (srv_router s') = routes (srv_router s) ∧
  ∀ sel', srv_selector s' = Some sel' → ∃ sel, srv_selector s = Some sel ∧ num_workers sel' = num_workers sel.

(** A request that passed the gates goes to a backend of its route that may be selected. *)
Definition passes (s : Server) (req : Request) (now : Z) (m : RouteMatch) : Prop :=
  builtin req = false ∧
  ∃ k route b, m = route_match route b ∧
    (cached_resolve (srv_router s) (method_of (req_method req)) (uri_path (req_target req))).1 = Some k ∧
    routes (srv_router s) !! k = Some route ∧ b ∈ backends route ∧ selectable (srv_router s) b = true ∧
    redirect route = None ∧ (check_rate_limit (srv_limiter s) (pattern route) now).1 = true.

Definition gated_ok (s : Server) (req : Request) (now : Z) (g : gated) : Prop :=
  match g with
  | Answered _ s' => router_ok (srv_router s') ∧ kept s s'
  | Passed s' req' m w =>
      router_ok (srv_router s') ∧ kept s s' ∧ srv_breakers s' = srv_breakers s ∧ passes s req now m ∧
      req_method req' = req_method req ∧ req_path_and_query req' = req_path_and_query req ∧
      ∀ i, w = Some i → ∃ sel, srv_selector s = Some sel ∧ 0 <= i < num_workers sel
  end.

Lemma pick_worker (s : Server) :
  (∀ sel, srv_selector s = Some sel → 0 < num_workers sel) →
  ∃ w sel', match srv_selector s with
            | Some sel => x <-! select_worker sel ;; Ret (Some x.1, Some x.2)
            | None => Ret (None, None)
            end = Ret (w, sel') ∧
    (∀ i, w = Some i → ∃ sel, srv_selector s = Some sel ∧ 0 <= i < num_workers sel) ∧
    (∀ x, sel' = Some x → ∃ sel, srv_selector s = Some sel ∧ num_workers x = num_workers sel).
Proof.
  intros Hs. destruct (srv_selector s) as [sel|]; [|by eexists _, _]. specialize (Hs sel eq_refl).
  unfold select_worker. rewrite (proj2 (Z.eqb_neq _ _)) by lia. cbn [obind fst snd].
  eexists _, _. split; [done|]. split.
  - intros i [= <-]. exists sel. split; [done|]. apply Z.mod_pos_bound. lia.
  - intros x [= <-]. by exists sel.
Qed.

Lemma not_builtin (req : Request) :
  String.eqb (uri_path (req_target req)) "/metrics" && String.eqb (req_method req) "GET" = false →
  String.eqb (uri_path (req_target req)) "/healthz" && String.eqb (req_method req) "GET" = false →
  String.eqb (uri_path (req_target req)) "/status" && String.eqb (req_method req) "GET" = false →
  builtin req = false.
Proof.
  unfold builtin. destruct (String.eqb (req_method req) "GET"); [|done]. rewrite !andb_true_r. cbn [andb].
  intros Hm%String.eqb_neq Hh%String.eqb_neq Hs%String.eqb_neq. apply bool_decide_false. set_solver.
Qed.

Lemma gate_spec s req fresh_id now later uptime metrics :
  router_ok (srv_router s) → (∀ sel, srv_selector s = Some sel → 0 < num_workers sel) →
  ∃ g, gate s req fresh_id now later uptime metrics = Ret g ∧ gated_ok s req now g.
Proof.
  intros Hr Hsel. assert (kept s s) as Hkeep by (split; [done|intros sel' ->; eauto]). unfold gate.
  destruct (String.eqb _ "/metrics" && _) eqn:B1; [by eexists|].
  destruct (String.eqb _ "/healthz" && _) eqn:B2; [by eexists|].
  destruct (String.eqb _ "/status" && _) eqn:B3; [by eexists|].
  pose proof (not_builtin req B1 B2 B3) as Hb. clear B1 B2 B3.
  destruct (select_backend_cases (srv_router s) (method_of (req_method req)) (uri_path (req_target req)) None None Hr)
    as (res & r' & -> & Hr' & Er & _ & Hres). cbn [obind fst snd].
  assert (kept s (set_router s r')) as Hkeep' by (split; [done|apply Hkeep]).
  destruct res as [m|]; [|by eexists].
  destruct ((cached_resolve (srv_router s) (method_of (req_method req)) (uri_path (req_target req))).1) as [k|] eqn:Ek; [|done].
  cbn [mbind option_bind] in Hres. destruct (routes (srv_router s) !! k) as [route|] eqn:Eroute; [|done].
  destruct (method_allowed route _); [|done]. destruct Hres as (b & -> & Hin & Hh & Hc & Hd & _).
  assert (selectable (srv_router s) b = true) as Hselect by (unfold selectable; by rewrite Hh, Hc, Hd).
  unfold gate_match. destruct (pick_worker (set_router s r') Hsel) as (w & sel' & -> & Hw & Hs'). cbn [obind].
  destruct (rm_redirect (route_match route b)) as [rd|] eqn:Erd; cbn in Erd.
  { destruct (build_redirect_response _ rd) as [[]|]; by eexists. }
  cbn [rm_pattern route_match]. change (srv_limiter (set_selector (set_router s r') sel')) with (srv_limiter s).
  destruct (check_rate_limit (srv_limiter s) (pattern route) now) as [[] l] eqn:El; cbn [negb]; [|by eexists].
  assert (passes s req now (route_match route b)) as Hp.
  { split; [done|]. exists k, route, b. by rewrite Ek, El. }
  destruct (rm_request_filters _) as [fs|]; [destruct (apply_header_filters _ _)|]; eexists; (split; [done|]); done.
Qed.

Lemma wire_ok_same (req req' : Request) b q :
  req_method req = req_method req' → req_path_and_query req = req_path_and_query req' → wire_ok req b q → wire_ok req' b q.
Proof. intros Em Epq. unfold wire_ok. by rewrite Em, Epq. Qed.

Lemma Forall_replicate_gen {A} (P : A → Prop) n x : (n ≠ O → P x) → Forall P (replicate n x).
Proof. intros Hx. destruct n as [|n]; [constructor|]. by apply Forall_replicate, Hx. Qed.

(** What a request may put on the wire. *)
Definition wire_allowed (s : Server) (req : Request) (now : Z) (wire : list wire_request) : Prop :=
  wire ≠ [] → ∃ m, passes s req now m ∧
    (manager_allow_request (srv_breakers s) (backend_to_string (rm_backend m)) now).1 = true ∧
    Forall (wire_ok req (rm_backend m)) wire ∧ (length wire <= 2 + retry_bound (rm_retry m))%nat.

(** A step keeps the routes and the invariant. *)
Lemma proxy_ok_kept p s' f' :
  proxy_ok p → router_ok (srv_router s') → kept (px_server p) s' →
  (∀ ws, workers f' = Some ws → ∃ ws0, workers (px_forwarder p) = Some ws0 ∧ length ws = length ws0) →
  proxy_ok (mk_proxy s' f').
Proof.
  intros [_ Hw] Hr [_ Hk] Hf. split; [done|]. intros sel' (sel & Hsel & E)%Hk. rewrite E. destruct (Hw sel Hsel) as [Hpos Hl].
  split; [done|]. intros ws (ws0 & Hws0 & ->)%Hf. by apply Hl.
Qed.

Lemma wire_sent (s : Server) (req req' : Request) m now (net : Network Response) o sent r ds :
  passes s req now m →
  (manager_allow_request (srv_breakers s) (backend_to_string (rm_backend m)) now).1 = true →
  req_method req' = req_method req → req_path_and_query req' = req_path_and_query req →
  Forall (λ x, wire_ok req' (rm_backend m) (First x.1 x.2)) sent → (length sent <= 2)%nat →
  execute_request_with_retry resp_status (method_of (req_method req)) (rm_timeout m) (rm_retry m)
    (retry_of req' (method_of (req_method req)) m) net = (r, ds) →
  wire_allowed s req now (((λ x, First x.1 x.2) <$> sent) ++ retries_sent o (retry_of req' (method_of (req_method req)) m) ds).
Proof.
  intros Hp Hallow Em Epq Hsent Hlen Ex _. destruct (retries_bounded _ _ _ _ _ _ _ Ex) as [Hds Hm].
  exists m. split; [done|]. split; [done|]. split.
  - apply Forall_app. split.
    + apply Forall_fmap. eapply Forall_impl; [exact Hsent|]. intros x. by apply wire_ok_same.
    + unfold retries_sent. destruct (o_build o _); [done|]. apply Forall_replicate_gen. intros Hne.
      apply (wire_ok_same req'); [done..|]. apply retry_wire; [|by rewrite Em]. apply Hm. by destruct ds.
  - rewrite length_app, length_fmap. assert (length (retries_sent o (retry_of req' (method_of (req_method req)) m) ds) <= length ds)%nat.
    { unfold retries_sent. destruct (o_build o _); [cbn; lia|]. by rewrite length_replicate. }
    lia.
Qed.

Lemma serve_spec p req body fresh_id now later uptime metrics o :
  proxy_ok p →
  ∃ resp p' wire, serve p req body fresh_id now later uptime metrics o = Ret (resp, p', wire) ∧ proxy_ok p' ∧
    routes (srv_router (px_server p')) = routes (srv_router (px_server p)) ∧
    (∃ net, handle_request (px_server p) req fresh_id now later uptime metrics net = Ret (resp, px_server p')) ∧
    wire_allowed (px_server p) req now wire.
Proof.
  intros Hpok. pose proof Hpok as [Hr Hw]. set (s := px_server p).
  destruct (gate_spec s req fresh_id now later uptime metrics Hr) as (g & Hg & Hok); [by intros sel [? _]%Hw|].
  setoid_rewrite handle_request_gated. unfold serve. fold s. rewrite Hg. cbn [obind].
  destruct g as [resp s'|s' req' m w].
  { destruct Hok as [Hr' Hk]. eexists _, _, _. split; [done|].
    split; [apply (proxy_ok_kept p); eauto|]. split; [apply Hk|]. split; [|by unfold wire_allowed].
    by exists (mk_network (Err (BackendError "")) false (o_build o) (o_retry o)). }
  destruct Hok as (Hr' & Hk & Hbr & Hp & Em & Epq & Hwi). rewrite Hbr.
  destruct (manager_allow_request (srv_breakers s) (backend_to_string (rm_backend m)) now) as [[] br] eqn:Eallow; cbn [negb].
  2:{ eexists _, _, _. split; [done|]. split; [apply (proxy_ok_kept p); eauto|]. split; [apply Hk|]. split; [|by unfold wire_allowed].
      exists (mk_network (Err (BackendError "")) false (o_build o) (o_retry o)). unfold forward. by rewrite Hbr, Eallow. }
  destruct (first_attempt_spec o (px_forwarder p) req' body m (Z.to_nat <$> w)) as (r & ex & f' & sent & -> & Hsent & Hlen & Hws).
  { intros ws i Hws Hi. destruct w as [j|]; [|done]. injection Hi as <-. destruct (Hwi j eq_refl) as (sel & Hsel & Hj).
    destruct (Hw sel Hsel) as [_ Hl]. apply lookup_lt_is_Some_2. rewrite (Hl ws Hws). lia. }
  cbn [obind]. set (net := mk_network r ex (o_build o) (o_retry o)).
  destruct (forward s' req' _ m _ w now later net) as [resp s''] eqn:Ef.
  destruct (forward_keeps _ _ _ _ _ _ _ _ _ _ _ Ef) as (Es & Ert & Hr'').
  destruct (execute_request_with_retry _ _ _ _ _ net) as [r0 ds] eqn:Ex.
  assert (kept s s'') as Hk' by (destruct Hk as [Hk1 Hk2]; split; [by rewrite Ert|by rewrite Es]).
  eexists _, _, _. split; [done|]. split; [apply (proxy_ok_kept p); eauto|]. split; [apply Hk'|].
  split; [by exists net; rewrite Ef|]. eapply wire_sent; [done|by rewrite Eallow|done..].
Qed.

(** ** The process over time *)

(** One request as it comes in. *)
Record Incoming : Type := mk_incoming {
  in_request : Request;
  in_body : Body;
  in_fresh_id : string;
  in_now : Z;
  in_later : Z;
  in_uptime : Z;
  in_metrics : MetricsText;
  in_outside : Outside
}.

(** The requests one after the other, with the answers and what each put on the wire. *)
Fixpoint serve_all (p : Proxy) (ins : list Incoming) : outcome (list (Response * list wire_request) * Proxy) :=
  match ins with
  | [] => Ret ([], p)
  | i :: ins =>
      x <-! serve p (in_request i) (in_body i) (in_fresh_id i) (in_now i) (in_later i) (in_uptime i) (in_metrics i) (in_outside i) ;;
      let '(resp, p, wire) := x in
      y <-! serve_all p ins ;;
      Ret ((resp, wire) :: y.1, y.2)
  end.

(** [ProxyServer::new] and [new_with_workers]; the metrics are those of a new process. *)
Definition proxy_new (r : Router M) : Proxy :=
  mk_proxy (mk_server r limiter_new (manager_new 5 30000000000) None ∅ ∅) (mk_forwarder (pools_new 0) None ∅ registry_new).

Definition proxy_new_with_workers (r : Router M) (num_workers : nat) : Proxy :=
  mk_proxy (mk_server r limiter_new (manager_new 5 30000000000) (Some (selector_new (Z.of_nat num_workers))) ∅ ∅)
    (mk_forwarder (pools_new 0) (Some (pools_new <$> (Z.of_nat <$> seq 0 num_workers))) ∅ registry_new).

Lemma proxy_new_ok r : router_ok r → proxy_ok (proxy_new r).
Proof. by split. Qed.

Lemma proxy_new_with_workers_ok r n : router_ok r → (0 < n)%nat → proxy_ok (proxy_new_with_workers r n).
Proof.
  intros Hr Hn. split; [done|]. intros sel [= <-]. split; [cbn; lia|]. intros ws [= <-].
  rewrite !length_fmap, length_seq. cbn. lia.
Qed.

Lemma serve_all_spec ins : ∀ p,
  proxy_ok p → ∃ outs p', serve_all p ins = Ret (outs, p') ∧ proxy_ok p' ∧
    routes (srv_router (px_server p')) = routes (srv_router (px_server p)) ∧
    Forall2 (λ i out, ∃ s, routes (srv_router s) = routes (srv_router (px_server p)) ∧ router_ok (srv_router s) ∧
      wire_allowed s (in_request i) (in_now i) out.2) ins outs.
Proof.
  induction ins as [|i ins IH]; intros p Hp; cbn [serve_all]; [by exists [], p|].
  destruct (serve_spec p (in_request i) (in_body i) (in_fresh_id i) (in_now i) (in_later i) (in_uptime i) (in_metrics i)
    (in_outside i) Hp) as (resp & p1 & wire & -> & Hp1 & Er1 & _ & Hwire). cbn [obind].
  destruct (IH p1 Hp1) as (outs & p2 & -> & Hp2 & Er2 & Hall). cbn [obind fst snd].
  eexists _, _. split; [done|]. split; [done|]. split; [by rewrite Er2|]. constructor.
  - exists (px_server p). split; [done|]. split; [apply Hp|done].
  - by rewrite <- Er1.
Qed.

(** C2: what reaches the wire.  From any well-formed proxy, whatever the client sends and
whatever the network, the timeouts and the pools do, a request is answered: as by
[handle_request] over some network, and the proxy stays well formed.  It puts
something on the wire only if it is not for a built-in endpoint, its route has no
redirect, its rate limit admits it and the breaker of the backend allows it; then the
backend is one of its route that is healthy, passes the probes and does not drain,
every request on the wire is for it, with the client's method and target, exactly
its host and no hop-by-hop header, and there are at most two and as many more as the
route allows retries. *)
Theorem wire_faithful p req body fresh_id now later uptime metrics o :
  proxy_ok p →
  let s := px_server p in
  ∃ resp p' wire, serve p req body fresh_id now later uptime metrics o = Ret (resp, p', wire) ∧ proxy_ok p' ∧
    (∃ net, handle_request s req fresh_id now later uptime metrics net = Ret (resp, px_server p')) ∧
    (wire ≠ [] → ∃ m, passes s req now m ∧
       (manager_allow_request (srv_breakers s) (backend_to_string (rm_backend m)) now).1 = true ∧
       Forall (wire_ok req (rm_backend m)) wire ∧ (length wire <= 2 + retry_bound (rm_retry m))%nat).
Proof.
  intros Hp s. destruct (serve_spec p req body fresh_id now later uptime metrics o Hp)
    as (resp & p' & wire & E & Hp' & _ & Hnet & Hwire). by exists resp, p', wire.
Qed.
End proxy.
Arguments Proxy M : clear implicits.
Arguments Outside Hdr : clear implicits.
Arguments Incoming Hdr : clear implicits.

(** ** Witnesses *)
#[local] Existing Instance key_order.
#[local] Existing Instance list_matchit.

(** A route with two backends and retries. *)
Definition retried_route : Route :=
  mk_route "/api" sample_backends even_table [] None [] None None None None (Some retry_default).

Definition sample_proxy : Proxy (list (string * RouteKey)) :=
  mk_proxy (mk_server (mk_router {[route_key GET "/api" := retried_route]} [] health_data_new
                         (checker_new default_config) (cache_new 128))
              limiter_new (manager_new 5 30000000000) (Some (selector_new 2)) ∅ ∅) cold.

Lemma sample_proxy_ok : proxy_ok sample_proxy.
Proof.
  split.
  - split; [apply cache_new_ok|..]; intros k route; cbn [sample_proxy px_server srv_router routes];
      intros [<- <-]%lookup_singleton_Some; [|done]. right. split; [apply even_table_ok|done].
  - intros sel [= <-]. split; [done|]. by intros ws [= <-].
Qed.

Definition sample_text : MetricsText := mk_metrics_text "text/plain" (Ok "") None "".

(** The backend cannot be reached. *)
Definition down : Outside (list (string * string)) :=
  mk_outside (mk_backend_net (λ _, None) (λ _ _, Err "reset") (λ _, Err "refused") up_env None) None (λ _, None)
    (λ _ _, Err "refused").

Lemma wire_faithful_witness :
  ∃ resp p' wire, serve sample_proxy sample_request (mk_body [] None) "id" 0 1 0 sample_text down = Ret (resp, p', wire) ∧
    proxy_ok p' ∧
    (∃ net, handle_request (px_server sample_proxy) sample_request "id" 0 1 0 sample_text net = Ret (resp, px_server p')) ∧
    (wire ≠ [] → ∃ m, passes (px_server sample_proxy) sample_request 0 m ∧
       (manager_allow_request (srv_breakers (px_server sample_proxy)) (backend_to_string (rm_backend m)) 0).1 = true ∧
       Forall (wire_ok sample_request (rm_backend m)) wire ∧ (length wire <= 2 + retry_bound (rm_retry m))%nat).
Proof.
  apply (wire_faithful sample_proxy sample_request (mk_body [] None) "id" 0 1 0 sample_text down), sample_proxy_ok.
Defined.

Definition wire_line (q : wire_request) : string * string :=
  match q with
  | First Http1 q => ("1.1 " +:+ out_method q, out_uri q)
  | First Http2 q => ("2 " +:+ out_method q, out_uri q)
  | Again q => ("again " +:+ rr_method q, rr_uri q)
  end.

Definition wire_lines (req : Request (list (string * string))) : list (string * string) :=
  match serve sample_proxy req (mk_body [] None) "id" 0 1 0 sample_text down with
  | Ret (_, _, wire) => wire_line <$> wire
  | Panic => []
  end.

(** Both attempts of the first try and the three retries. *)
Example retried_get :
  wire_lines sample_request =
    [("2 GET", "http://10.0.0.1:80/api"); ("1.1 GET", "http://10.0.0.1:80/api"); ("again GET", "http://10.0.0.1:80/api");
     ("again GET", "http://10.0.0.1:80/api"); ("again GET", "http://10.0.0.1:80/api")] ∨
  wire_lines sample_request =
    [("2 GET", "http://10.0.0.2:80/api"); ("1.1 GET", "http://10.0.0.2:80/api"); ("again GET", "http://10.0.0.2:80/api");
     ("again GET", "http://10.0.0.2:80/api"); ("again GET", "http://10.0.0.2:80/api")].
Proof. vm_compute. auto. Qed.

(** A method the handler does not know is routed as GET, and retried as a GET. *)
Example unknown_method_retried_as_get :
  fst <$> wire_lines (mk_request "PROPFIND" (mk_target None None None "/api" None) [] (Some "/api") None) =
    ["2 PROPFIND"; "1.1 PROPFIND"; "again GET"; "again GET"; "again GET"].
Proof. vm_compute. reflexivity. Qed.
