(* ===== verification/Connections.v ===== *)
(** * Connections: the accept loops ([server.rs], [listener_manager.rs])

[serve], [serve_https], [serve_https_h2] and [serve_http2] of the proxy server and the
task of a listener accept connections for ever and spawn a task for each, which
finds out the version of HTTP, if need be after a TLS handshake, and hands every
request to the pipeline.  The events of the network are the input, and a request is one
event (the interleaving of requests that run at the same time is the subject of the
files on the state that they share); the pipeline is a parameter, which the end of the file instantiates with the one of [Proxy] and the one
of [ListenerRequest]. *)

From S2P Require Import Prelude Common BackendPool Maglev Float Text Health HealthChecker Filters Matching RouteCache Matchit.
From S2P Require Import Selection Router RouterSpec RateLimiter CowMap CircuitBreaker BreakerManager.
From S2P Require Import RequestHandler Forwarder Tls Prefix Proxy ListenerRequest.

#[local] Open Scope Z_scope.
#[local] Open Scope rauta_scope.

(** ** The loops and how they differ *)
Inductive loop : Type :=
| Serve | ServeHttps | ServeHttpsH2 | ServeHttp2
| ListenHttp
| ListenHttps (tls_acceptor : bool).

Inductive http_version : Type := V1 | V2.

Inductive connection : Type := Handshaking | Speaking (v : http_version) | Closed.

(** [stream.peek] with a buffer of 24 bytes gives what has arrived, or an error. *)
Definition peek (arrived : option (list Z)) : option (list Z) := take 24 <$> arrived.

(** A connection as it is accepted, with what has arrived on it. *)
Definition opened (l : loop) (arrived : option (list Z)) : connection :=
  match l with
  | Serve => Speaking V1
  | ServeHttp2 => Speaking V2
  | ServeHttps | ServeHttpsH2 => Handshaking
  | ListenHttp => Speaking (if is_h2c (peek arrived) then V2 else V1)
  | ListenHttps true => Handshaking
  | ListenHttps false => Closed
  end.

(** After the handshake, with the protocol that ALPN agreed on. *)
Definition shaken (l : loop) (alpn : option (list Z)) : http_version :=
  match l with
  | ServeHttps => V1
  | _ => if is_h2 alpn then V2 else V1
  end.

(** What the loop does with an error of [accept]: return it, or go on. *)
Definition accept_error (l : loop) (e : string) : option (result unit string) :=
  match l with
  | Serve | ServeHttp2 => Some (Err ("Failed to accept connection: " +:+ e))
  | ServeHttps | ServeHttpsH2 | ListenHttp | ListenHttps _ => None
  end.

(** Only a listener can be cancelled. *)
Definition cancellable (l : loop) : bool := match l with ListenHttp | ListenHttps _ => true | _ => false end.

Section accept.
Context {State Req Resp : Type} (handle : State → Req → outcome (Resp * State)).
(** Whether there is a certificate for a server name. *)
Context (certificate : option string → bool).
(** Whether what comes of a request is a panic: over HTTP/1.1 it takes the task of the
connection with it, over HTTP/2 only that of the stream. *)
Context (panicked : Resp → bool).

Inductive event : Type :=
| Accepted (arrived : option (list Z))
| AcceptFailed (e : string)
| Shaken (i : nat) (server_name : option string) (alpn : option (list Z))
| ShakeFailed (i : nat)
| Requested (i : nat) (r : Req)
| HungUp (i : nat)
| Cancelled.

(** The result is set when the loop has returned; the tasks go on. *)
Record loop_state : Type := mk_loop_state {
  shared : State;
  connections : list connection;
  returned : option (result unit string);
  answers : list Resp
}.

Definition loop_start (s : State) : loop_state := mk_loop_state s [] None [].

(** Before the loop: the socket, and for the HTTPS loops the TLS configuration. *)
Definition begin_loop (l : loop) (bind_addr : string) (socket tls_config : result unit string) (s : State)
    : result loop_state string :=
  match socket with
  | Err e => Err ("Failed to bind to " +:+ bind_addr +:+ ": " +:+ e)
  | Ok _ =>
      match l, tls_config with
      | (ServeHttps | ServeHttpsH2), Err e => Err ("Failed to build TLS config: " +:+ e)
      | _, _ => Ok (loop_start s)
      end
  end.

Definition set_connection (σ : loop_state) (i : nat) (c : connection) : loop_state :=
  mk_loop_state (shared σ) (<[i := c]> (connections σ)) (returned σ) (answers σ).

(** One event; nothing if it cannot occur. *)
Definition loop_step (l : loop) (σ : loop_state) (ev : event) : option (outcome loop_state) :=
  match ev with
  | Accepted arrived =>
      match returned σ with
      | None => Some (Ret (mk_loop_state (shared σ) (connections σ ++ [opened l arrived]) None (answers σ)))
      | Some _ => None
      end
  | AcceptFailed e =>
      match returned σ with
      | None => Some (Ret (mk_loop_state (shared σ) (connections σ) (accept_error l e) (answers σ)))
      | Some _ => None
      end
  | Shaken i server_name alpn =>
      match connections σ !! i with
      | Some Handshaking => if certificate server_name then Some (Ret (set_connection σ i (Speaking (shaken l alpn)))) else None
      | _ => None
      end
  | ShakeFailed i =>
      match connections σ !! i with
      | Some Handshaking => Some (Ret (set_connection σ i Closed))
      | _ => None
      end
  | Requested i r =>
      match connections σ !! i with
      | Some (Speaking v) =>
          Some (x <-! handle (shared σ) r ;;
                let cs := match v with
                          | V1 => if panicked x.1 then <[i := Closed]> (connections σ) else connections σ
                          | V2 => connections σ
                          end in
                Ret (mk_loop_state x.2 cs (returned σ) (answers σ ++ [x.1])))
      | _ => None
      end
  | HungUp i =>
      match connections σ !! i with
      | Some (Speaking _) => Some (Ret (set_connection σ i Closed))
      | _ => None
      end
  | Cancelled =>
      match returned σ with
      | None => if cancellable l then Some (Ret (mk_loop_state (shared σ) (connections σ) (Some (Ok ())) (answers σ))) else None
      | Some _ => None
      end
  end.

Fixpoint loop_run (l : loop) (σ : loop_state) (evs : list event) : option (outcome loop_state) :=
  match evs with
  | [] => Some (Ret σ)
  | ev :: evs =>
      match loop_step l σ ev with
      | Some (Ret σ) => loop_run l σ evs
      | Some Panic => Some Panic
      | None => None
      end
  end.

(** ** The requests alone *)
Fixpoint handle_all (s : State) (rs : list Req) : outcome (list Resp * State) :=
  match rs with
  | [] => Ret ([], s)
  | r :: rs => x <-! handle s r ;; y <-! handle_all x.2 rs ;; Ret (x.1 :: y.1, y.2)
  end.

Definition request_of (ev : event) : option Req := match ev with Requested _ r => Some r | _ => None end.
Definition requests_of (evs : list event) : list Req := omap request_of evs.

(** What ends a loop. *)
Definition ending_of (l : loop) (ev : event) : option (result unit string) :=
  match ev with
  | AcceptFailed e => accept_error l e
  | Cancelled => if cancellable l then Some (Ok ()) else None
  | _ => None
  end.

(** The versions that a loop speaks. *)
Definition speaks (l : loop) (v : http_version) : Prop :=
  match l with
  | Serve | ServeHttps => v = V1
  | ServeHttp2 => v = V2
  | ListenHttps tls => tls = true
  | ServeHttpsH2 | ListenHttp => True
  end.

(** The outcome of the loop is the first event that ends it, if any. *)
Definition outcome_of (l : loop) (before : option (result unit string)) (evs : list event) : option (result unit string) :=
  match before with
  | Some r => Some r
  | None => head (omap (ending_of l) evs)
  end.

Definition connection_ok (l : loop) (c : connection) : Prop :=
  match c with
  | Speaking v => speaks l v
  | Handshaking => match l with ListenHttps tls => tls = true | Serve | ServeHttp2 | ListenHttp => False | _ => True end
  | Closed => True
  end.

Definition is_accepted (ev : event) : bool := match ev with Accepted _ => true | _ => false end.

Lemma begin_loop_Ok l addr socket tls s σ : begin_loop l addr socket tls s = Ok σ → σ = loop_start s.
Proof. unfold begin_loop. destruct socket; [|done]. by destruct l, tls; intros [= <-]. Qed.

Section total.
Context (inv : State → Prop) (handle_total : ∀ s r, inv s → ∃ x s', handle s r = Ret (x, s') ∧ inv s').

Lemma opened_ok l arrived : connection_ok l (opened l arrived).
Proof. by destruct l as [| | | | |[]]. Qed.

Lemma shaken_ok l alpn : connection_ok l Handshaking → connection_ok l (Speaking (shaken l alpn)).
Proof. by destruct l. Qed.

(** One step: the shared state, the answers, the end, the connections. *)
Lemma loop_step_spec l σ ev res :
  inv (shared σ) → Forall (connection_ok l) (connections σ) → loop_step l σ ev = Some res →
  ∃ σ', res = Ret σ' ∧ inv (shared σ') ∧ Forall (connection_ok l) (connections σ') ∧
    returned σ' = outcome_of l (returned σ) [ev] ∧ (is_accepted ev = true → returned σ = None) ∧
    match request_of ev with
    | Some r => ∃ x, handle (shared σ) r = Ret (x, shared σ') ∧ answers σ' = answers σ ++ [x]
    | None => shared σ' = shared σ ∧ answers σ' = answers σ
    end.
Proof.
  intros Hi Hc. unfold loop_step. destruct ev as [arrived|e|i name alpn|i|i r|i|].
  - destruct (returned σ) eqn:E; [done|]. intros [= <-]. eexists. split; [done|]. cbn. split_and!; [done| |done..].
    apply Forall_app. split; [done|]. repeat constructor. apply opened_ok.
  - destruct (returned σ) eqn:E; [done|]. intros [= <-]. eexists. split; [done|]. cbn. by destruct (accept_error l e).
  - destruct (connections σ !! i) as [[]|] eqn:E; [|done..]. destruct (certificate name); [|done]. intros [= <-].
    eexists. split; [done|]. cbn. split_and!; [done| |by destruct (returned σ)|done..]. apply Forall_insert; [done|].
    apply shaken_ok. by eapply (Forall_lookup_1 (connection_ok l)).
  - destruct (connections σ !! i) as [[]|] eqn:E; [|done..]. intros [= <-].
    eexists. split; [done|]. cbn. split_and!; [done|by apply Forall_insert|by destruct (returned σ)|done..].
  - destruct (connections σ !! i) as [[]|] eqn:E; [done| |done..]. intros [= <-].
    destruct (handle_total (shared σ) r Hi) as (x & s' & Hh & Hi'). rewrite Hh. eexists. split; [done|].
    cbn. split_and!; [done| |by destruct (returned σ)|done|by exists x]. destruct v; [|done].
    destruct (panicked x); [by apply Forall_insert|done].
  - destruct (connections σ !! i) as [[]|] eqn:E; [done| |done..]. intros [= <-].
    eexists. split; [done|]. cbn. split_and!; [done|by apply Forall_insert|by destruct (returned σ)|done..].
  - destruct (returned σ) eqn:E; [done|]. destruct (cancellable l) eqn:Ec; [|done]. intros [= <-]. eexists. cbn. by rewrite Ec.
Qed.

Lemma outcome_of_cons l before ev evs : outcome_of l (outcome_of l before [ev]) evs = outcome_of l before (ev :: evs).
Proof. destruct before as [r|]; [done|]. cbn. by destruct (ending_of l ev). Qed.

Lemma loop_run_spec l evs : ∀ σ res,
  inv (shared σ) → Forall (connection_ok l) (connections σ) → loop_run l σ evs = Some res →
  ∃ σ' outs, res = Ret σ' ∧ inv (shared σ') ∧ Forall (connection_ok l) (connections σ') ∧
    returned σ' = outcome_of l (returned σ) evs ∧ (Exists (λ ev, is_accepted ev = true) evs → returned σ = None) ∧
    handle_all (shared σ) (requests_of evs) = Ret (outs, shared σ') ∧ answers σ' = answers σ ++ outs.
Proof.
  induction evs as [|ev evs IH]; intros σ res Hi Hc Hr; cbn [loop_run] in Hr.
  { injection Hr as <-. exists σ, []. rewrite app_nil_r. split_and!; try done; [by destruct (returned σ)|by intros ?%Exists_nil]. }
  destruct (loop_step l σ ev) as [r|] eqn:E; [|done].
  destruct (loop_step_spec l σ ev r Hi Hc E) as (σ1 & -> & Hi1 & Hc1 & Hret & Hacc & Hreq).
  destruct (IH σ1 res Hi1 Hc1 Hr) as (σ' & outs & -> & Hi' & Hc' & Hret' & Hacc' & Hall & Hans).
  exists σ'. rewrite Hret, outcome_of_cons in Hret'. unfold requests_of in *. cbn [omap list_omap].
  assert (Exists (λ ev, is_accepted ev = true) (ev :: evs) → returned σ = None) as Hex.
  { intros [Ha|Ha]%Exists_cons; [by apply Hacc|]. specialize (Hacc' Ha). rewrite Hret in Hacc'. by destruct (returned σ). }
  destruct (request_of ev) as [r|].
  - destruct Hreq as (x & Hh & Ha). exists (x :: outs). split_and!; [done..| |by rewrite Hans, Ha, <- app_assoc].
    cbn [handle_all]. rewrite Hh. cbn [obind fst snd]. by rewrite Hall.
  - destruct Hreq as [Es Ea]. exists outs. rewrite <- Es, <- Ea. by split_and!.
Qed.

(** Without an acceptor every connection is closed at once. *)
Lemma no_acceptor_no_answer s evs σ : loop_run (ListenHttps false) (loop_start s) evs = Some (Ret σ) → answers σ = [].
Proof.
  assert (∀ σ0, Forall (eq Closed) (connections σ0) → loop_run (ListenHttps false) σ0 evs = Some (Ret σ) → answers σ = answers σ0) as Hgen;
    [|by intros Hr; apply (Hgen (loop_start s))].
  induction evs as [|ev evs IH]; intros σ0 Hc; cbn [loop_run]; [by intros [= ->]|].
  assert (∀ i, connections σ0 !! i = None ∨ connections σ0 !! i = Some Closed) as Hl.
  { intros i. destruct (connections σ0 !! i) as [c|] eqn:E; [|by left]. right. f_equal. symmetry. by eapply (Forall_lookup_1 (eq Closed)). }
  destruct ev as [arrived|e|i name alpn|i|i r|i|]; cbn [loop_step];
    try (destruct (Hl i) as [-> | ->]; done); destruct (returned σ0); try done; intros Hr; apply IH in Hr; try done.
  cbn. apply Forall_app. by repeat constructor.
Qed.

(** No connection is accepted once a loop has ended. *)
Lemma none_after_end l s evs ev rest res :
  inv s → loop_run l (loop_start s) (evs ++ ev :: rest) = Some res → ending_of l ev ≠ None →
  Forall (λ ev, is_accepted ev = false) rest.
Proof.
  assert (∀ σ, loop_run l σ (evs ++ ev :: rest) =
    match loop_run l σ evs with Some (Ret σ') => loop_run l σ' (ev :: rest) | x => x end) as Happ.
  { clear. induction evs as [|e evs IH]; intros σ; [done|]. cbn. destruct (loop_step l σ e) as [[|]|]; [apply IH|done..]. }
  intros Hi. rewrite Happ. destruct (loop_run l (loop_start s) evs) as [[σ|]|] eqn:E; [|..].
  - destruct (loop_run_spec l evs (loop_start s) _ Hi ltac:(done) E) as (σ0 & _ & [= <-] & Hi0 & Hc0 & _). cbn [loop_run].
    destruct (loop_step l σ ev) as [r|] eqn:Es; [|done].
    destruct (loop_step_spec l σ ev r Hi0 Hc0 Es) as (σ1 & -> & Hi1 & Hc1 & Hret & _). intros Hr Hne.
    destruct (loop_run_spec l rest σ1 res Hi1 Hc1 Hr) as (_ & _ & _ & _ & _ & _ & Hacc & _).
    apply Forall_forall. intros e He. destruct (is_accepted e) eqn:Ee; [|done]. exfalso. apply Hne.
    assert (returned σ1 = None) as Hn by (apply Hacc, Exists_exists; eauto). rewrite Hret in Hn.
    destruct (returned σ); [done|]. cbn in Hn. by destruct (ending_of l ev).
  - destruct (loop_run_spec l evs (loop_start s) _ Hi ltac:(done) E) as (σ0 & _ & [=] & _).
  - done.
Qed.
End total.

(** *** The connections are what the events made of them *)
Section trace.
Context (calm : ∀ x, panicked x = false).

(** The loops of the server with TLS. *)
Definition tls (l : loop) : bool := match l with ServeHttps | ServeHttpsH2 => true | _ => false end.

(** An event about the fate of the [i]-th connection. *)
Definition concerns (i : nat) (ev : event) : bool :=
  match ev with
  | Shaken j _ _ | ShakeFailed j | HungUp j => bool_decide (i = j)
  | _ => false
  end.

Definition accepted_count (evs : list event) : nat := length (filter (λ ev, is_accepted ev = true) evs).

(** The version that is agreed on: by the loop or, with TLS, by a handshake with a
certificate for the name that the client asked for. *)
Definition agreed (l : loop) (evs : list event) (i : nat) (v : http_version) : Prop :=
  if tls l then
    ∃ name alpn, Shaken i name alpn ∈ evs ∧ certificate name = true ∧
      (v = V2 ↔ l = ServeHttpsH2 ∧ alpn = Some (as_bytes "h2"))
  else (v = V2 ↔ l = ServeHttp2).

(** The [i]-th connection was accepted, agreed on a version and has not hung up. *)
Definition serving (l : loop) (evs : list event) (i : nat) (v : http_version) : Prop :=
  (i < accepted_count evs)%nat ∧ HungUp i ∉ evs ∧ agreed l evs i v.

Definition conn_traced (l : loop) (evs : list event) (i : nat) (c : connection) : Prop :=
  match c with
  | Handshaking => tls l = true ∧ Forall (λ ev, concerns i ev = false) evs
  | Speaking v => HungUp i ∉ evs ∧ ∀ v', agreed l evs i v' ↔ v' = v
  | Closed => HungUp i ∈ evs ∨ (tls l = true ∧ ∀ name alpn, Shaken i name alpn ∉ evs)
  end.

Record connections_traced (l : loop) (evs : list event) (cs : list connection) : Prop := {
  ct_length : length cs = accepted_count evs;
  ct_later : ∀ i, (length cs <= i)%nat → Forall (λ ev, concerns i ev = false) evs;
  ct_each : ∀ i c, cs !! i = Some c → conn_traced l evs i c
}.

Lemma elem_of_snoc {A} (x y : A) l : x ∈ l ++ [y] ↔ x ∈ l ∨ x = y.
Proof. set_solver. Qed.

Lemma agreed_snoc l evs i v ev : concerns i ev = false → agreed l (evs ++ [ev]) i v ↔ agreed l evs i v.
Proof.
  intros Hc. unfold agreed. destruct (tls l); [|done]. apply exist_proper. intros name. apply exist_proper. intros alpn.
  rewrite elem_of_snoc. assert (Shaken i name alpn ≠ ev) by (intros <-; cbn in Hc; by rewrite bool_decide_eq_true_2 in Hc). tauto.
Qed.

Lemma conn_traced_snoc l evs i c ev : concerns i ev = false → conn_traced l evs i c → conn_traced l (evs ++ [ev]) i c.
Proof.
  intros Hc. assert (HungUp i ≠ ev ∧ ∀ name alpn, Shaken i name alpn ≠ ev) as [Hh Hs].
  { split; intros; intros <-; cbn in Hc; by rewrite bool_decide_eq_true_2 in Hc. }
  destruct c as [|v|]; cbn [conn_traced].
  - rewrite Forall_app. intros [??]. split; [done|]. split; [done|]. by constructor.
  - rewrite elem_of_snoc. intros [? Hv]. split; [naive_solver|]. intros v'. by rewrite agreed_snoc.
  - rewrite elem_of_snoc. intros [?|[? Hn]]; [by left; left|]. right. split; [done|]. intros name alpn. rewrite elem_of_snoc.
    specialize (Hn name alpn). specialize (Hs name alpn). tauto.
Qed.

(** An event that changes the state of one connection. *)
Lemma traced_insert l evs cs i c ev :
  connections_traced l evs cs → is_accepted ev = false → (i < length cs)%nat → (∀ j, j ≠ i → concerns j ev = false) →
  conn_traced l (evs ++ [ev]) i c → connections_traced l (evs ++ [ev]) (<[i := c]> cs).
Proof.
  intros [Hl Ht He] Ha Hi Hj Hc. split.
  - rewrite length_insert, Hl. unfold accepted_count. rewrite filter_app, filter_cons, decide_False, app_nil_r by (by rewrite Ha). done.
  - intros j. rewrite length_insert. intros Hle. apply Forall_app. split; [by apply Ht|]. repeat constructor. apply Hj. lia.
  - intros j c' [(<- & <- & _)|[Hne Hl']]%list_lookup_insert_Some; [done|]. apply conn_traced_snoc; [by apply Hj|by apply He].
Qed.

Lemma traced_keep l evs cs ev :
  connections_traced l evs cs → is_accepted ev = false → (∀ j, concerns j ev = false) → connections_traced l (evs ++ [ev]) cs.
Proof.
  intros [Hl Ht He] Ha Hj. split.
  - rewrite Hl. unfold accepted_count. rewrite filter_app, filter_cons, decide_False, app_nil_r by (by rewrite Ha). done.
  - intros j Hle. apply Forall_app. split; [by apply Ht|]. by repeat constructor.
  - intros j c' Hl'. apply conn_traced_snoc; [done|by apply He].
Qed.

Lemma concerns_none i evs : Forall (λ ev, concerns i ev = false) evs →
  HungUp i ∉ evs ∧ ∀ name alpn, Shaken i name alpn ∉ evs.
Proof.
  intros Hf. split; intros; intros Hin; eapply Forall_forall in Hf; [|exact Hin| |exact Hin]; cbn in Hf;
    by rewrite bool_decide_eq_true_2 in Hf.
Qed.

Lemma shaken_traced l evs i name alpn :
  tls l = true → Forall (λ ev, concerns i ev = false) evs → certificate name = true →
  conn_traced l (evs ++ [Shaken i name alpn]) i (Speaking (shaken l alpn)).
Proof.
  intros Hl [Hh Hs]%concerns_none Hc. cbn. rewrite elem_of_snoc. split; [naive_solver|]. intros v'. unfold agreed. rewrite Hl.
  assert (shaken l alpn = V2 ↔ l = ServeHttpsH2 ∧ alpn = Some (as_bytes "h2")) as Hv.
  { destruct l; try done; cbn; [naive_solver|]. unfold is_h2. case_bool_decide; naive_solver. }
  split.
  - intros (name' & alpn' & [?|[= -> ->]]%elem_of_snoc & _ & Hv'); [by edestruct Hs|]. destruct v', (shaken l alpn); naive_solver.
  - intros ->. exists name, alpn. rewrite elem_of_snoc. naive_solver.
Qed.

Lemma loop_step_traced l evs σ ev σ' :
  cancellable l = false → connections_traced l evs (connections σ) → loop_step l σ ev = Some (Ret σ') →
  connections_traced l (evs ++ [ev]) (connections σ').
Proof.
  intros Hl Ht. unfold loop_step.
  assert (∀ i ev', is_accepted ev' = false → (∀ j, concerns j ev' = bool_decide (j = i)) → ∀ c,
    is_Some (connections σ !! i) → conn_traced l (evs ++ [ev']) i c → connections_traced l (evs ++ [ev']) (<[i := c]> (connections σ))) as Hins.
  { intros i ev' Ha Hj c Hi Hc. apply traced_insert; [done..|by apply lookup_lt_is_Some| |done].
    intros j Hne. by rewrite Hj, bool_decide_eq_false_2. }
  destruct ev as [arrived|e|i name alpn|i|i r|i|].
  - destruct (returned σ); [done|]. intros [= <-]. cbn [connections]. destruct Ht as [Hlen Hlate He]. split.
    + unfold accepted_count in *. rewrite length_app, filter_app, length_app, filter_cons, decide_True, filter_nil by done. cbn [length]. lia.
    + intros j. rewrite length_app. cbn. intros Hj. apply Forall_app. split; [apply Hlate; lia|by repeat constructor].
    + intros j c [Hc|[Hlen' Hc]]%lookup_app_Some; [by apply conn_traced_snoc, He|].
      apply list_lookup_singleton_Some in Hc as [Hz <-]. apply conn_traced_snoc; [done|].
      specialize (Hlate j Hlen'). destruct (concerns_none _ _ Hlate) as [? ?].
      destruct l as [| | | | |[]]; try done; cbn; (split; [done|]); try done; intros v'; unfold agreed; cbn; destruct v'; naive_solver.
  - destruct (returned σ); [done|]. intros [= <-]. by apply traced_keep.
  - destruct (connections σ !! i) as [[]|] eqn:E; [|done..]. destruct (certificate name) eqn:Ec; [|done]. intros [= <-].
    apply Hins; [done..|by rewrite E|]. destruct (ct_each _ _ _ Ht _ _ E). by apply shaken_traced.
  - destruct (connections σ !! i) as [[]|] eqn:E; [|done..]. intros [= <-]. apply Hins; [done..|by rewrite E|].
    destruct (ct_each _ _ _ Ht _ _ E) as [? Hf%concerns_none]. right. split; [done|]. intros name alpn. rewrite elem_of_snoc.
    destruct Hf as [_ Hf]. specialize (Hf name alpn). naive_solver.
  - destruct (connections σ !! i) as [[]|] eqn:E; [done| |done..]. destruct (handle (shared σ) r) as [[x s']|]; [|done]. intros [= <-].
    cbn [connections fst]. assert (connections_traced l (evs ++ [Requested i r]) (connections σ)) by by apply traced_keep.
    destruct v; [|done]. by rewrite calm.
  - destruct (connections σ !! i) as [[]|] eqn:E; [done| |done..]. intros [= <-]. apply Hins; [done..|by rewrite E|].
    left. rewrite elem_of_snoc. by right.
  - destruct (returned σ); [done|]. by rewrite Hl.
Qed.

Lemma loop_run_snoc l σ evs ev :
  loop_run l σ (evs ++ [ev]) = match loop_run l σ evs with Some (Ret σ') => loop_step l σ' ev | x => x end.
Proof.
  revert σ. induction evs as [|e evs IH]; intros σ; cbn [loop_run app].
  - by destruct (loop_step l σ ev) as [[]|].
  - destruct (loop_step l σ e) as [[]|]; [apply IH|done..].
Qed.

Lemma loop_run_traced l s evs : ∀ σ,
  cancellable l = false → loop_run l (loop_start s) evs = Some (Ret σ) → connections_traced l evs (connections σ).
Proof.
  induction evs as [|ev evs IH] using rev_ind; intros σ Hl.
  - intros [= <-]. split; [done| |done]. by constructor.
  - rewrite loop_run_snoc. destruct (loop_run l (loop_start s) evs) as [[σ1|]|] eqn:E; [|done..].
    intros Hs. eapply loop_step_traced; [done| |exact Hs]. by apply IH.
Qed.

(** A connection speaks a version exactly if the events made it do so. *)
Lemma speaking_serving l evs cs i v :
  cancellable l = false → connections_traced l evs cs → cs !! i = Some (Speaking v) ↔ serving l evs i v.
Proof.
  intros Hl [Hlen Hlate He]. unfold serving. rewrite <- Hlen. split.
  - intros E. split; [by eapply lookup_lt_Some|]. destruct (He _ _ E) as [? Hv]. split; [done|]. by apply Hv.
  - intros (Hi & Hh & Ha). apply lookup_lt_is_Some in Hi as [c E]. rewrite E. specialize (He _ _ E).
    destruct c as [|v'|]; cbn in He.
    + exfalso. destruct He as [Ht [_ Hs]%concerns_none]. unfold agreed in Ha. rewrite Ht in Ha. destruct Ha as (? & ? & Hin & _).
      by eapply Hs.
    + destruct He as [_ He]. apply He in Ha as ->. done.
    + exfalso. destruct He as [?|[Ht Hs]]; [done|]. unfold agreed in Ha. rewrite Ht in Ha. destruct Ha as (? & ? & Hin & _).
      by eapply Hs.
Qed.
End trace.
End accept.

(** ** The proxy server and the listeners *)
Section served.
Context {M : Type} `{!Matchit RouteKey M} `{!MapOrder} {Hdr : Type} `{!HeaderMap Hdr} (certificate : option string → bool).

Abbreviation Proxy := (Proxy M).

(** The service of a connection of the proxy server. *)
Definition handle_incoming (p : Proxy) (i : Incoming Hdr) : outcome (Response Hdr * list wire_request * Proxy) :=
  x <-! serve p (in_request i) (in_body i) (in_fresh_id i) (in_now i) (in_later i) (in_uptime i) (in_metrics i) (in_outside i) ;;
  let '(resp, p, wire) := x in Ret (resp, wire, p).

Lemma handle_incoming_total p i : proxy_ok p → ∃ x p', handle_incoming p i = Ret (x, p') ∧ proxy_ok p'.
Proof.
  intros Hp. unfold handle_incoming.
  destruct (serve_spec p (in_request i) (in_body i) (in_fresh_id i) (in_now i) (in_later i) (in_uptime i) (in_metrics i)
    (in_outside i) Hp) as (resp & p' & wire & -> & Hp' & _). by eexists _, _.
Qed.

(** [serve], [serve_https], [serve_https_h2] and [serve_http2] with the events they see. *)
Definition run_server (l : loop) (bind_addr : string) (socket tls_config : result unit string) (p : Proxy)
    (evs : list (event (Req := Incoming Hdr))) : result (option (outcome loop_state)) string :=
  match begin_loop l bind_addr socket tls_config p with
  | Err e => Err e
  | Ok σ => Ok (loop_run handle_incoming certificate (λ _, false) l σ evs)
  end.

Definition serve_plain (bind_addr : string) (socket : result unit string) := run_server Serve bind_addr socket (Ok ()).
Definition serve_https := run_server ServeHttps.
Definition serve_https_h2 := run_server ServeHttpsH2.
Definition serve_http2 (bind_addr : string) (socket : result unit string) := run_server ServeHttp2 bind_addr socket (Ok ()).

Lemma serve_all_handles ins : ∀ p, serve_all p ins = handle_all handle_incoming p ins.
Proof.
  induction ins as [|i ins IH]; intros p; [done|]. cbn [serve_all handle_all]. unfold handle_incoming.
  destruct (serve _ _ _ _ _ _ _ _ _) as [[[resp p1] wire]|]; [|done]. cbn [obind fst snd]. by rewrite IH.
Qed.

(** The first error of accept. *)
Definition first_accept_error (evs : list (event (Req := Incoming Hdr))) : option string :=
  head (omap (λ ev, match ev with AcceptFailed e => Some e | _ => None end) evs).

(** What the loop has returned, if anything. *)
Definition loop_result (l : loop) (evs : list (event (Req := Incoming Hdr))) : option (result unit string) :=
  match l with
  | Serve | ServeHttp2 => (λ e, Err ("Failed to accept connection: " +:+ e)) <$> first_accept_error evs
  | _ => None
  end.

Lemma outcome_result l evs : cancellable l = false → outcome_of l None evs = loop_result l evs.
Proof.
  intros Hl. unfold outcome_of, loop_result, first_accept_error. induction evs as [|ev evs IH]; [by destruct l|].
  cbn [omap list_omap]. destruct ev; cbn [ending_of]; rewrite ?Hl; try done. by destruct l.
Qed.

(** C3: the accept loops of the server serve what is connected.  Once the socket is bound
and, for HTTPS, the TLS configuration is built, for every sequence of events (a request
is one event): a connection speaks HTTP exactly if it was accepted, has not hung up and,
for the HTTPS loops, has completed a handshake for a name with a certificate, and it
speaks HTTP/2 exactly in the HTTP/2 loop, or in that for both if ALPN agreed on it; a
request can come in on exactly these connections, also after the loop has returned.  The
plain and the HTTP/2 loop return at the first error of accept, with it, and accept no
connection afterwards; the HTTPS loops never return and can accept after every sequence
of events.  No request makes the server panic or spoils its invariant, and every request
puts on the wire only what it may. *)
Theorem accept_loops_serve l addr socket tls p evs res :
  proxy_ok p → cancellable l = false → run_server l addr socket tls p evs = Ok (Some res) →
  ∃ σ, res = Ret σ ∧ proxy_ok (shared σ) ∧
    (∀ i v, connections σ !! i = Some (Speaking v) ↔ serving certificate l evs i v) ∧
    (∀ i r, (∃ res', run_server l addr socket tls p (evs ++ [Requested i r]) = Ok (Some res')) ↔ ∃ v, serving certificate l evs i v) ∧
    returned σ = loop_result l evs ∧
    (∀ arrived, (∃ res', run_server l addr socket tls p (evs ++ [Accepted arrived]) = Ok (Some res')) ↔ loop_result l evs = None) ∧
    Forall2 (λ i out, ∃ s, routes (srv_router s) = routes (srv_router (px_server p)) ∧ wire_allowed s (in_request i) (in_now i) out.2)
      (requests_of evs) (answers σ).
Proof.
  intros Hp Hl. unfold run_server. destruct (begin_loop l addr socket tls p) as [σ0|] eqn:Hb; [|done]. intros [= Hr].
  apply begin_loop_Ok in Hb as ->. destruct (loop_run_spec handle_incoming certificate (λ _, false) proxy_ok handle_incoming_total l evs
    (loop_start p) res Hp ltac:(done) Hr) as (σ & outs & -> & Hok & Hc & Hret & _ & Hall & Hans).
  cbn [loop_start shared returned answers app] in *. subst outs. rewrite outcome_result in Hret by done.
  pose proof (loop_run_traced handle_incoming certificate (λ _, false) ltac:(done) l p evs σ Hl Hr) as Ht.
  pose proof (λ i v, speaking_serving certificate l evs (connections σ) i v Hl Ht) as Hsp.
  exists σ. split_and!; [done..| |done| |].
  - intros i r. rewrite loop_run_snoc, Hr. cbn [loop_step]. setoid_rewrite <- Hsp.
    destruct (connections σ !! i) as [[]|]; naive_solver.
  - intros arrived. rewrite loop_run_snoc, Hr. cbn [loop_step]. rewrite <- Hret. destruct (returned σ); naive_solver.
  - destruct (serve_all_spec (requests_of evs) p Hp) as (outs & p' & Hs & _ & _ & Hf).
    rewrite serve_all_handles, Hall in Hs. injection Hs as <- <-. eapply Forall2_impl; [exact Hf|]. intros i out (s & Es & _ & Hw). eauto.
Qed.
End served.

Section listened.
Context {M : Type} `{!Matchit RouteKey M} `{!MapOrder} `{RegexEngine} (certificate : option string → bool).

(** A request as it comes in on a connection of a listener. *)
Record ListenerIncoming : Type := mk_listener_incoming {
  li_request : ListenerReq;
  li_net : ListenerNet;
  li_now : Z;
  li_later : Z
}.

(** The service of a connection of a listener. *)
Definition handle_on_listener (s : ListenerState M) (i : ListenerIncoming) : outcome (outcome ListenerResp * ListenerState M) :=
  Ret (handle_listener_request (li_net i) s (li_request i) (li_now i) (li_later i)).

Definition is_panic (x : outcome ListenerResp) : bool := match x with Panic => true | Ret _ => false end.

(** What a listener keeps while it serves. *)
Definition listener_kept (r : Router M) (s : ListenerState M) : Prop := ln_router s = r ∧ regex_cache_ok (ln_regexes s).

Lemma handle_on_listener_total r s i :
  router_ok r → listener_kept r s → ∃ x s', handle_on_listener s i = Ret (x, s') ∧ listener_kept r s'.
Proof.
  intros Hr [<- Hrx]. unfold handle_on_listener.
  destruct (listener_request_traced (li_net i) s (li_request i) (li_now i) (li_later i) Hr Hrx) as (x & s' & _ & _ & -> & E & _ & Hrx' & _).
  by exists x, s'.
Qed.

(** A listener serves until it is cancelled.  Errors of accept do not end it, nor does a
panic of a request, only its cancellation does, after which it accepts nothing; it
leaves the router as it is; and a listener for HTTPS without an acceptor answers no
request. *)
Theorem listener_loop_serves (l : loop) (s : ListenerState M) evs res :
  cancellable l = true → router_ok (ln_router s) → regex_cache_ok (ln_regexes s) →
  loop_run handle_on_listener certificate is_panic l (loop_start s) evs = Some res →
  ∃ σ, res = Ret σ ∧ handle_all handle_on_listener s (requests_of evs) = Ret (answers σ, shared σ) ∧
    ln_router (shared σ) = ln_router s ∧
    (returned σ = None ↔ Cancelled ∉ evs) ∧
    (∀ before after, evs = before ++ Cancelled :: after → Forall (λ ev, is_accepted ev = false) after) ∧
    (l = ListenHttps false → answers σ = []).
Proof.
  intros Hl Hr Hrx Hrun.
  assert (∀ s' i, listener_kept (ln_router s) s' → ∃ x s'', handle_on_listener s' i = Ret (x, s'') ∧ listener_kept (ln_router s) s'') as Ht
    by (intros s' i; by apply handle_on_listener_total).
  destruct (loop_run_spec handle_on_listener certificate is_panic (listener_kept (ln_router s)) Ht l evs (loop_start s) res (conj eq_refl Hrx)
    ltac:(done) Hrun) as (σ & outs & -> & [Hok _] & Hc & Hret & _ & Hall & Hans). cbn [loop_start shared returned answers app] in *. subst outs.
  exists σ. split_and!; [done..| | |].
  - rewrite Hret. cbn. clear -Hl. induction evs as [|ev evs IH]; [by split; [intros _ ?%not_elem_of_nil|]|].
    rewrite not_elem_of_cons, <- IH. cbn. destruct ev; cbn; rewrite ?Hl; try naive_solver. destruct l; naive_solver.
  - intros before after ->. eapply (none_after_end handle_on_listener certificate is_panic (listener_kept (ln_router s)) Ht l s before
      Cancelled after _ (conj eq_refl Hrx) Hrun). cbn. by rewrite Hl.
  - intros ->. by eapply no_acceptor_no_answer.
Qed.
End listened.

(** ** The version of a cleartext connection *)
(** HTTP/2 without TLS is recognised only in one piece.  A cleartext connection of a
listener is served as HTTP/2 exactly if the whole preface of 24 bytes has arrived when
the listener looks; a client whose preface comes in two segments is answered in
HTTP/1.1. *)
Theorem h2c_needs_whole_preface arrived :
  opened ListenHttp arrived = Speaking V2 ↔ ∃ rest, arrived = Some (HTTP2_PREFACE ++ rest).
Proof.
  assert (is_h2c (peek arrived) = true ↔ ∃ rest, arrived = Some (HTTP2_PREFACE ++ rest)) as <-; [|cbn; by destruct (is_h2c _)].
  destruct arrived as [bs|]; [|split; [done|by intros [??]]]. unfold is_h2c, peek. cbn [fmap option_fmap option_map].
  rewrite andb_true_iff, Nat.leb_le, bool_decide_eq_true, take_take. change (length HTTP2_PREFACE `min` 24)%nat with 24%nat. split.
  - intros [_ E]. exists (drop 24 bs). by rewrite <- E, take_drop.
  - intros [rest [= ->]]. split; [cbn; lia|done].
Qed.

(** ** Witnesses *)
#[local] Existing Instance key_order.
#[local] Existing Instance list_matchit.

Definition sample_incoming : Incoming (list (string * string)) :=
  mk_incoming sample_request (mk_body [] None) "id" 0 1 0 sample_text down.

(** A connection, two requests on it around a failing accept, and its end. *)
Definition sample_events : list (event (Req := Incoming (list (string * string)))) :=
  [Accepted (Some []); Requested 0 sample_incoming; AcceptFailed "too many open files"; Requested 0 sample_incoming; HungUp 0].

(** The connection goes on being served after the loop has returned, until it hangs up. *)
Lemma accept_loops_serve_witness :
  ∃ σ, serve_plain (λ _, true) "127.0.0.1:80" (Ok ()) sample_proxy (take 4 sample_events) = Ok (Some (Ret σ)) ∧
    proxy_ok (shared σ) ∧ connections σ !! 0%nat = Some (Speaking V1) ∧ serving (λ _, true) Serve (take 4 sample_events) 0 V1 ∧
    returned σ = Some (Err "Failed to accept connection: too many open files") ∧
    ¬ ∃ res', serve_plain (λ _, true) "127.0.0.1:80" (Ok ()) sample_proxy (take 4 sample_events ++ [Accepted None]) = Ok (Some res').
Proof.
  destruct (serve_plain (λ _, true) "127.0.0.1:80" (Ok ()) sample_proxy (take 4 sample_events)) as [[res|]|] eqn:E.
  - destruct (accept_loops_serve (λ _, true) Serve _ _ _ sample_proxy (take 4 sample_events) res sample_proxy_ok eq_refl E)
      as (σ & -> & Hok & Hsp & _ & Hret & Hacc & _).
    assert (serving (λ _, true) Serve (take 4 sample_events) 0 V1) as Hs.
    { split; [vm_compute; constructor|]. split; [|by split]. cbn. intros Hin. repeat (apply elem_of_cons in Hin as [Hin|Hin]; [discriminate|]).
      by apply not_elem_of_nil in Hin. }
    exists σ. split; [reflexivity|]. split; [exact Hok|]. split; [by apply Hsp|]. split; [exact Hs|]. split; [exact Hret|].
    intros Hex. apply (Hacc None) in Hex. discriminate Hex.
  - exfalso. revert E. vm_compute. discriminate.
  - exfalso. revert E. vm_compute. discriminate.
Defined.

#[local] Existing Instance literal_engine.

(** A listener goes on after a failing accept, until it is cancelled. *)
Definition listener_events : list (event (Req := ListenerIncoming)) :=
  let i := mk_listener_incoming (listener_get (Ok "")) working_net 5 6 in
  [AcceptFailed "too many open files"; Accepted None; Requested 0 i; Cancelled; Requested 0 i].

Lemma listener_loop_serves_witness :
  ∃ σ, loop_run handle_on_listener (λ _, true) is_panic ListenHttp (loop_start probed_state) listener_events = Some (Ret σ) ∧
    length (answers σ) = 2%nat ∧ ¬ returned σ = None.
Proof.
  destruct (loop_run handle_on_listener (λ _, true) is_panic ListenHttp (loop_start probed_state) listener_events) as [res|] eqn:E.
  - destruct (listener_loop_serves (λ _, true) ListenHttp probed_state listener_events res eq_refl
      (sample_router_ok [(GET, "/api")]) regex_cache_ok_empty E) as (σ & -> & Hs & _ & Hret & _).
    exists σ. split; [reflexivity|]. split; [|intros Hn; apply Hret in Hn; apply Hn, (list_elem_of_lookup_2 _ 3%nat); reflexivity].
    revert E. vm_compute. intros E. injection E as <-. reflexivity.
  - exfalso. revert E. vm_compute. discriminate.
Defined.

(** The preface in two segments. *)
Example split_preface : opened ListenHttp (Some (take 18 HTTP2_PREFACE)) = Speaking V1.
Proof. reflexivity. Qed.
