(* ===== verification/Startup.v ===== *)
(** * Startup: configuration and start-up ([config.rs], [main.rs])

What the environment variables mean, the route of the standalone mode, and which
server the process runs.  The environment, the Kubernetes client and the file
system are inputs. *)

From S2P Require Import Prelude Common Float Text Decimal IpText Maglev Health HealthChecker Filters Matching RouteCache.
From S2P Require Import Matchit Selection Tls RateLimiter CowMap CircuitBreaker BreakerManager BackendPool.
From S2P Require Import RequestHandler Forwarder Router RouterSpec Prefix Proxy.

#[local] Open Scope Z_scope.
#[local] Open Scope rauta_scope.

(** ** [config.rs] *)
Record TimeoutConfig : Type := mk_timeouts { connect_timeout_secs : Z; request_timeout_secs : Z; idle_timeout_secs : Z }.

Record ProbeConfig : Type := mk_probe_config {
  pc_enabled : bool;
  interval_secs : Z;
  timeout_secs : Z;
  pc_unhealthy_threshold : Z;
  pc_healthy_threshold : Z
}.

Record ControllerConfig : Type := mk_controller_config {
  controller_name : string;
  gateway_class_name : option string;
  timeouts : TimeoutConfig;
  health_check : ProbeConfig
}.

Definition default_timeouts : TimeoutConfig := mk_timeouts 5 30 90.
Definition default_probes : ProbeConfig := mk_probe_config false 5 2 3 2.
Definition default_controller_config : ControllerConfig :=
  mk_controller_config "rauta.io/gateway-controller" (Some "rauta") default_timeouts default_probes.

(** The variables that are set to text. *)
Abbreviation environment := (gmap string string).

Definition from_env (env : environment) : ControllerConfig :=
  let config := default_controller_config in
  let config := match env !! "RAUTA_CONTROLLER_NAME" with
                | Some val => mk_controller_config val (gateway_class_name config) (timeouts config) (health_check config)
                | None => config
                end in
  match env !! "RAUTA_GATEWAY_CLASS" with
  | Some val => mk_controller_config (controller_name config) (Some val) (timeouts config) (health_check config)
  | None => config
  end.

(** ** [main.rs] *)

(** [str::parse::<bool>] *)
Definition parse_bool (s : string) : option bool :=
  if String.eqb s "true" then Some true else if String.eqb s "false" then Some false else None.

Definition k8s_mode (env : environment) : bool :=
  default false (parse_bool (default "false" (env !! "RAUTA_K8S_MODE"))).

Definition admin_port (env : environment) : Z :=
  default 9091 (parse_uint 16 (default "9091" (env !! "RAUTA_ADMIN_PORT"))).

Definition gateway_class (env : environment) : string := default "rauta" (env !! "RAUTA_GATEWAY_CLASS").
Definition bind_addr_of (env : environment) : string := default "127.0.0.1:8080" (env !! "RAUTA_BIND_ADDR").
Definition tls_hostname_of (env : environment) : string := default "localhost" (env !! "RAUTA_TLS_HOSTNAME").

(** [str::rsplit_once] of a character *)
Fixpoint rsplit_once (c : ascii) (s : string) : option (string * string) :=
  match s with
  | EmptyString => None
  | String a s =>
      match rsplit_once c s with
      | Some (x, y) => Some (String a x, y)
      | None => if Ascii.eqb a c then Some ("", s) else None
      end
  end.

(** [IpAddr::from_str]: IPv4 first. *)
Definition read_ip_addr : reader IpAddr := λ bs,
  match read_ipv4_addr bs with
  | Some (a, rest) => Some (IpV4 a, rest)
  | None =>
      match read_ipv6_addr bs with
      | Some (a, rest) => Some (IpV6 a, rest)
      | None => None
      end
  end.

Definition parse_ip (s : string) : option IpAddr := parse_with read_ip_addr s.

(** The texts of the parse errors of the standard library are inputs. *)
Record ParseTexts : Type := mk_parse_texts { port_error : string → string; ip_error : string → string }.

Section startup.
Context {M : Type} `{!Matchit RouteKey M} `{!MapOrder} `{!TlsLib} {Hdr : Type} `{!HeaderMap Hdr} (texts : ParseTexts).

Abbreviation Router := (Router M).
Abbreviation Proxy := (Proxy M).

Definition example_backend (backend_addr : string) : result Backend string :=
  match rsplit_once ":" backend_addr with
  | None => Err ("Invalid RAUTA_BACKEND_ADDR format. Expected IP:PORT, got: " +:+ backend_addr)
  | Some (ip_str, port_str) =>
      match parse_uint 16 port_str with
      | None => Err ("Invalid backend port " +:+ port_str +:+ ": " +:+ port_error texts port_str)
      | Some port =>
          let ip_str := trim_end_matches "]" (trim_start_matches "[" ip_str) in
          match parse_ip ip_str with
          | None => Err ("Invalid backend IP " +:+ ip_str +:+ ": " +:+ ip_error texts ip_str)
          | Some (IpV4 a) => Ok (from_ipv4 a port 100)
          | Some (IpV6 a) => Ok (from_ipv6 a port 100)
          end
      end
  end.

Definition add_example_routes (env : environment) (r : Router) : outcome (result unit string * Router) :=
  match example_backend (default "127.0.0.1:9090" (env !! "RAUTA_BACKEND_ADDR")) with
  | Err e => Ret (Err e, r)
  | Ok backend =>
      x <-! add_route r GET "/" [backend] ;;
      match x with
      | (Ok _, r) => Ret (Ok (), r)
      | (Err e, r) => Ret (Err ("Failed to add route: " +:+ e), r)
      end
  end.

(** What the process does once it is up. *)
Inductive running : Type :=
| ControllersOnly (class : option string)       (* the controllers that were started, if any *)
| ServeHttp (bind_addr : string) (server : Proxy)
| ServeHttps (bind_addr : string) (resolver : SniResolver) (server : Proxy)
| Failed (e : string).

(** The end of [main] in standalone mode. *)
Definition standalone (env : environment) (read_file : string → result string string) (server : Proxy) : running :=
  let bind_addr := bind_addr_of env in
  match env !! "RAUTA_TLS_CERT", env !! "RAUTA_TLS_KEY" with
  | Some cert_path, Some key_path =>
      match read_file cert_path with
      | Err e => Failed ("Failed to read TLS cert " +:+ cert_path +:+ ": " +:+ e)
      | Ok cert_pem =>
          match read_file key_path with
          | Err e => Failed ("Failed to read TLS key " +:+ key_path +:+ ": " +:+ e)
          | Ok key_pem =>
              match from_pem cert_pem key_pem with
              | Err e => Failed ("Failed to parse TLS certificate: " +:+ e)
              | Ok tls_cert =>
                  match add_cert sni_new (tls_hostname_of env) tls_cert with
                  | (Ok _, resolver) => ServeHttps bind_addr resolver server
                  | (Err e, _) => Failed ("Failed to add TLS certificate: " +:+ e)
                  end
              end
          end
      end
  | _, _ => ServeHttp bind_addr server
  end.

(** [main]: the shared router it fills and what it then runs.  [client] is the result of
connecting to Kubernetes, [num_cpus] the number of cores. *)
Definition start (env : environment) (client : result unit string) (read_file : string → result string string)
    (num_cpus : nat) : outcome (running * Router) :=
  let router := router_new in
  if k8s_mode env then
    match client with
    | Ok _ => Ret (ControllersOnly (Some (gateway_class env)), router)
    | Err _ =>
        x <-! add_example_routes env router ;;
        match x with
        | (Ok _, router) => Ret (ControllersOnly None, router)
        | (Err e, router) => Ret (Failed e, router)
        end
    end
  else
    x <-! add_example_routes env router ;;
    match x with
    | (Ok _, router) => Ret (standalone env read_file (proxy_new_with_workers router num_cpus), router)
    | (Err e, router) => Ret (Failed e, router)
    end.

(** ** The address of the backend *)
Lemma rsplit_none c s : forall_ascii (λ a, negb (Ascii.eqb a c)) s = true → rsplit_once c s = None.
Proof.
  induction s as [|a s IH]; [done|]. cbn. intros [Ha Hs]%andb_true_iff. rewrite IH by done.
  apply negb_true_iff in Ha. by rewrite Ha.
Qed.

Lemma rsplit_last c s t :
  forall_ascii (λ a, negb (Ascii.eqb a c)) t = true → rsplit_once c (s +:+ String c t) = Some (s, t).
Proof.
  intros Ht. induction s as [|a s IH].
  - change ("" +:+ String c t) with (String c t). cbn. by rewrite rsplit_none, Ascii.eqb_refl.
  - change (String a s +:+ String c t) with (String a (s +:+ String c t)). cbn. by rewrite IH.
Qed.

Lemma digits_avoid c n : is_digit_char c = false → 0 <= n → forall_ascii (λ a, negb (Ascii.eqb a c)) (show_Z n) = true.
Proof.
  intros Hc Hn. apply (forall_ascii_impl is_digit_char); [|by apply show_Z_digits].
  intros a Ha. destruct (Ascii.eqb_spec a c) as [->|]; [congruence|done].
Qed.

Lemma show_ipv4_avoid c a b d e :
  is_digit_char c = false → Ascii.eqb "." c = false → Forall (in_width 8) [a; b; d; e] →
  forall_ascii (λ x, negb (Ascii.eqb x c)) (show_ipv4 [a; b; d; e]) = true.
Proof.
  intros Hc Hdot Hw. rewrite !Forall_cons in Hw. destruct Hw as ([Ha _] & [Hb _] & [Hd _] & [He _] & _).
  cbn [show_ipv4]. rewrite !forall_ascii_app. cbn [forall_ascii]. by rewrite !digits_avoid, Hdot by done.
Qed.

(** The brackets of an IPv6 address come off. *)
Lemma trim_brackets s :
  parse_ipv6 s ≠ None → forall_ascii (λ c, negb (Ascii.eqb c "]")) s = true →
  trim_end_matches "]" (trim_start_matches "[" ("[" +:+ s +:+ "]")) = s.
Proof.
  intros Hp Hs. assert (trim_start_matches "[" ("[" +:+ s +:+ "]") = s +:+ "]") as ->.
  { unfold trim_start_matches. change (String.length ("[" +:+ s +:+ "]")) with (S (String.length (s +:+ "]"))).
    cbn [trim_start_loop]. rewrite strip_prefix_app.
    assert (strip_prefix "[" (s +:+ "]") = None) as Hn.
    { destruct s as [|a s]; [done|]. change (String a s +:+ "]") with (String a (s +:+ "]")). cbn [strip_prefix].
      destruct (Ascii.eqb_spec "[" a) as [<-|]; [|done]. exfalso. apply Hp. reflexivity. }
    destruct (String.length _); cbn [trim_start_loop]; by rewrite ?Hn. }
  by apply (trim_end_once (λ c, negb (Ascii.eqb c "]"))).
Qed.

Lemma example_backend_label b :
  backend_wf b → example_backend (backend_to_string b) = Ok (mk_backend (ip b) (port b) 100 (is_ipv6 b)).
Proof.
  intros (Hl & Hf & Hp & _ & Hz). unfold example_backend, backend_to_string.
  assert (forall_ascii (λ a, negb (Ascii.eqb a ":")) (show_Z (port b)) = true) as Hd by (apply digits_avoid; [done|apply Hp]).
  destruct (is_ipv6 b) eqn:E.
  - change ("[" +:+ show_ipv6 (ip b) +:+ "]:" +:+ show_Z (port b))
      with ("[" +:+ (show_ipv6 (ip b) +:+ ("]" +:+ String ":" (show_Z (port b))))).
    rewrite !app_assoc_string, rsplit_last, parse_uint_show by done. rewrite <- app_assoc_string.
    rewrite trim_brackets; [|by rewrite parse_show_ipv6|by apply show_ipv6_no_bracket].
    pose proof (parse_show_ipv6 (ip b) Hl Hf) as H6. unfold parse_ip, parse_ipv6, parse_with, read_ip_addr in *.
    rewrite read_ipv4_show_ipv6 by done. destruct (read_ipv6_addr _) as [[a []]|]; try done. by injection H6 as ->.
  - destruct (ipv4_padding (ip b) Hl Hf (Hz eq_refl)) as (o & Ho & Ei & Hw). destruct o as [|a0 [|b0 [|c0 [|d0 []]]]]; try done.
    assert (show_ipv4 (ip b) = show_ipv4 [a0; b0; c0; d0]) as -> by (by rewrite Ei).
    change (show_ipv4 [a0; b0; c0; d0] +:+ ":" +:+ show_Z (port b)) with (show_ipv4 [a0; b0; c0; d0] +:+ String ":" (show_Z (port b))).
    rewrite rsplit_last, parse_uint_show by done.
    rewrite trim_start_stops by (eapply strip_prefix_none; [by apply (show_ipv4_avoid "[")|done]).
    rewrite trim_end_stops by (eapply strip_suffix_none; [by apply (show_ipv4_avoid "]")|done]).
    unfold parse_ip, parse_with, read_ip_addr. rewrite <- (app_nil_r (as_bytes _)), read_ipv4_text by done.
    unfold from_ipv4, octets. by rewrite Ei.
Qed.

(** ** The router of the standalone mode *)
Lemma covers_root path : starts_with_slash path = true → is_Some (specificity "/" path).
Proof.
  intros Hs. unfold specificity. destruct (String.eqb "/" path); [eauto|]. destruct path as [|c path]; [done|]. cbn. eauto.
Qed.

(** The one route: all paths, for GET. *)
Definition root_key : RouteKey := route_key GET "/".

Lemma root_route_resolves (r : Router) b table :
  routes r = {[root_key := plain_route "/" [b] table]} → rebuild (routes r) = Ok (prefix_router r) →
  ∀ method path, plain_path path = true →
    resolve r method path = if decide (method = GET) then Some root_key else None.
Proof.
  intros Hr Hm method path [_ Hs]%andb_true_iff.
  assert (∀ k route, routes r !! k = Some route → k = root_key ∧ route = plain_route "/" [b] table) as Hone.
  { rewrite Hr. by intros k route [<- <-]%lookup_singleton_Some. }
  assert (plain_table (routes r)) as Hpl by (intros k route [_ ->]%Hone; done).
  assert (∀ mm, clean (routes r) mm path) as Hc.
  { intros mm. unfold clean. case_decide; [done|]. by intros k route [-> ->]%Hone. }
  assert (∀ mm, mt_at (prefix_router r) (mp mm +:+ path) = if decide (mm = GET) then Some root_key else None) as Hat.
  { intros mm. pose proof (at_spec (routes r) (prefix_router r) Hm Hpl mm path (Hc mm)) as Ha.
    destruct (mt_at (prefix_router r) (mp mm +:+ path)) as [k|].
    - destruct Ha as (<- & route & n & [-> _]%Hone & _). by rewrite decide_True.
    - case_decide as E; [|done]. subst mm. destruct (covers_root path Hs) as [n Hn].
      assert (routes r !! root_key = Some (plain_route "/" [b] table)) as Hl by (rewrite Hr; apply lookup_singleton_eq).
      pose proof (Ha _ _ Hl eq_refl) as Hx. cbn [pattern plain_route] in Hx. congruence. }
  assert (∀ m, has_route r (route_key m path) = true → m = GET ∧ route_key m path = root_key) as Hhas.
  { intros m Hh. unfold has_route in Hh. apply bool_decide_eq_true in Hh as [route [E _]%Hone]. split; [|done].
    by injection E. }
  unfold Router.resolve. destruct (has_route r (route_key method path)) eqn:E1.
  { destruct (Hhas _ E1) as [-> ->]. by rewrite decide_True. }
  destruct (has_route r (route_key ALL path)) eqn:E2; [by destruct (Hhas _ E2)|]. rewrite andb_false_r.
  unfold prefix_lookup. rewrite Hat. case_decide as E; [done|]. case_decide; [done|].
  change path with (mp ALL +:+ path) at 1. by rewrite Hat.
Qed.

(** The prefix router takes a literal and a catch-all side by side. *)
Definition accepts_root : Prop :=
  ∀ k, ∃ m1 m2, mt_insert mt_new "GET:/" k = Ok m1 ∧ mt_insert m1 "GET:{*rest}" k = Ok m2.

Lemma add_root_route b :
  accepts_root → ∃ r table, add_route router_new GET "/" [b] = Ret (Ok (), r) ∧ router_ok r ∧
    routes r = {[root_key := plain_route "/" [b] table]} ∧ rebuild (routes r) = Ok (prefix_router r) ∧
    entries (route_cache r) = ∅ ∧ selectable r b = true.
Proof.
  intros Hacc. pose proof (build_table_spec [b]) as Ht. unfold add_route.
  change (same_backends router_new (route_key GET "/") [b]) with false. cbv iota.
  destruct (build_table [b]) as [table|]; [|done]. cbn [obind].
  cbn [routes set_routes set_health_checker router_new with_health_config]. rewrite insert_empty. fold root_key.
  set (rs := {[root_key := plain_route "/" [b] table]} : gmap RouteKey Route).
  assert (∃ m, rebuild rs = Ok m) as [m Hm].
  { unfold rebuild. assert (iter rs = [(root_key, plain_route "/" [b] table)]) as ->.
    { apply Permutation_singleton_r. rewrite iter_perm. unfold rs. by rewrite map_to_list_singleton. }
    destruct (Hacc root_key) as (m1 & m2 & E1 & E2). exists m2. cbn [rebuild_loop]. unfold insert_route.
    change (get_method_prefix (key_method root_key) +:+ pattern (plain_route "/" [b] table)) with "GET:/".
    rewrite E1. change (prefix_pattern (get_method_prefix (key_method root_key)) (pattern (plain_route "/" [b] table))) with "GET:{*rest}".
    by rewrite E2. }
  rewrite Hm. eexists _, table. split; [done|]. split; [|done].
  split; cbn [route_cache set_route_cache routes set_prefix_router set_routes].
  - apply cache_invalidate_refines, cache_new_ok.
  - intros k route [<- <-]%lookup_singleton_Some. destruct Ht as [|Ht]; [done|]. by right.
  - by intros k route [<- <-]%lookup_singleton_Some.
Qed.

(** The route of the configured backend is added. *)
Lemma example_routes_added env b :
  accepts_root → backend_wf b → env !! "RAUTA_BACKEND_ADDR" = Some (backend_to_string b) →
  ∃ r table, add_example_routes env router_new = Ret (Ok (), r) ∧ router_ok r ∧
    routes r = {[root_key := plain_route "/" [mk_backend (ip b) (port b) 100 (is_ipv6 b)] table]} ∧
    rebuild (routes r) = Ok (prefix_router r) ∧ entries (route_cache r) = ∅ ∧
    selectable r (mk_backend (ip b) (port b) 100 (is_ipv6 b)) = true.
Proof.
  intros Hacc Hb Henv. unfold add_example_routes. rewrite Henv. cbn [from_option id].
  rewrite example_backend_label by done.
  destruct (add_root_route (mk_backend (ip b) (port b) 100 (is_ipv6 b)) Hacc) as (r & table & -> & Hr). by exists r, table.
Qed.

(** What the one route means for selection and for the wire. *)
Lemma root_router_selects (r : Router) b table :
  router_ok r → routes r = {[root_key := plain_route "/" [b] table]} → rebuild (routes r) = Ok (prefix_router r) →
  entries (route_cache r) = ∅ → selectable r b = true →
  ∀ method path src_ip src_port, plain_path path = true →
    ∃ m r', select_backend r method path src_ip src_port = Ret (m, r') ∧
      rm_backend <$> m = if decide (method = GET) then Some b else None.
Proof.
  intros Hok Hr Hm Hc Hs method path src_ip src_port Hp.
  assert ((cached_resolve r method path).1 = if decide (method = GET) then Some root_key else None) as Hres.
  { rewrite cached_resolve_miss by (by rewrite Hc). by eapply root_route_resolves. }
  case_decide as E.
  - destruct (resolved_route_serves r method path root_key (plain_route "/" [b] table) src_ip src_port Hok Hres)
      as (m & r' & Hsel & Hin & _); [by rewrite Hr; apply lookup_singleton_eq|done|done|by repeat constructor|].
    exists (Some m), r'. split; [done|]. cbn in Hin |- *. by apply list_elem_of_singleton in Hin as ->.
  - unfold select_backend. destruct (cached_resolve r method path) as [k r']. cbn [fst] in Hres. subst k. by exists None, r'.
Qed.

Lemma root_server_wires (p : Proxy) b table :
  proxy_ok p → routes (srv_router (px_server p)) = {[root_key := plain_route "/" [b] table]} →
  ∀ ins, ∃ outs p', serve_all p ins = Ret (outs, p') ∧
    Forall2 (λ i (out : Response Hdr * list wire_request), Forall (wire_ok (in_request i) b) out.2 ∧ (length out.2 <= 2)%nat) ins outs.
Proof.
  intros Hp Hr ins. destruct (serve_all_spec ins p Hp) as (outs & p' & E & _ & _ & Hall). exists outs, p'. split; [done|].
  eapply Forall2_impl; [exact Hall|]. intros i [resp wire] (s & Hs & _ & Hw). cbn [snd] in *. rewrite Hr in Hs.
  destruct wire as [|q wire]; [by split; [|cbn; lia]|]. destruct Hw as (m & Hpass & _ & Hok & Hlen); [done|].
  destruct Hpass as (_ & k & route & b0 & -> & _ & Hl & Hin & _). rewrite Hs in Hl.
  apply lookup_singleton_Some in Hl as [_ <-]. cbn in Hin, Hlen. apply list_elem_of_singleton in Hin as ->. done.
Qed.

End startup.

(** ** Witnesses *)
#[local] Existing Instances list_matchit key_order text_lib.

Definition plain_texts : ParseTexts := mk_parse_texts (λ _, "invalid digit found in string") (λ _, "invalid IP address syntax").

Definition loopback6 : Backend := from_ipv6 (replicate 15 0 ++ [1]) 8080 100.

Definition v6_env : gmap string string := {["RAUTA_BACKEND_ADDR" := "[::1]:8080"]}.

