(* ===== verification/Oracle.v ===== *)
(** * Oracle: the contract of the gateway ([eval/oracle/src/main.rs])

The oracle is a client of a running gateway: 21 cases that ask its two endpoints over
HTTP and assert what comes back.  A case is a function of the state of the gateway that
panics where an assertion fails.  The cases are written against any gateway; then they
are run against what the standalone process of [Startup] listens on, with the admin
server of [Admin] beside the server of [Proxy].  The JSON values of [serde_json], the text
format of Prometheus and the network, with where its addresses lead and how long an answer
takes, are parameters. *)

From S2P Require Import Prelude Common Float Text Decimal Maglev Health HealthChecker Filters Matching RouteCache Matchit Selection.
From S2P Require Import Router RouterSpec RateLimiter CowMap CircuitBreaker BreakerManager Diagnostics LocalQuery Admin.
From S2P Require Import BackendPool Tls Prefix RequestHandler Forwarder Proxy Startup.

#[local] Open Scope Z_scope.
#[local] Open Scope rauta_scope.

(** ** Texts *)

(** [str::lines]: a line ends with a newline, and a carriage return before it is dropped. *)
Definition strip_cr (s : string) : string := default s (strip_suffix (String (ascii_of_N 13) "") s).

Fixpoint line_list (parts : list string) : list string :=
  match parts with
  | [] => []
  | [part] => if String.eqb part "" then [] else [part]
  | part :: parts => strip_cr part :: line_list parts
  end.

Definition lines (s : string) : list string := line_list (split (ascii_of_N 10) s).

(** The path and the query of a target. *)
Fixpoint split_target (s : string) : string * option string :=
  match s with
  | EmptyString => ("", None)
  | String c s =>
      if Ascii.eqb c "?" then ("", Some s)
      else let '(path, query) := split_target s in (String c path, query)
  end.

(** ** JSON values *)

(** The text of an object with plain keys and plain texts or numbers. *)
Inductive flat : Type := FText (s : string) | FNumber (n : Z).

Definition plain_text (s : string) : bool :=
  forall_ascii (λ c, is_ascii_alphanumeric (byte_of_ascii c) || Ascii.eqb c "_") s.

Definition flat_ok (f : string * flat) : bool :=
  plain_text f.1 && match f.2 with FText s => plain_text s | FNumber n => 0 <=? n end.

Definition flat_text (f : string * flat) : string :=
  quoted f.1 +:+ ":" +:+ match f.2 with FText s => quoted s | FNumber n => show_Z n end.

Fixpoint comma_list (l : list string) : string :=
  match l with
  | [] => ""
  | [x] => x
  | x :: l => x +:+ "," +:+ comma_list l
  end.

Definition object_text (fs : list (string * flat)) : string := "{" +:+ comma_list (flat_text <$> fs) +:+ "}".

Definition severity_text (s : Severity) : string :=
  match s with Info => "info" | Warning => "warning" | Critical => "critical" end.

(** [serde_json::Value]: what a text parses to, and how serialised values look in it. *)
Class JsonValue `{!Json} : Type := {
  Value : Type;
  json_null : Value;
  from_str : JsonText → result Value string;
  value_get : Value → string → option Value;
  as_str : Value → option string;
  as_u64 : Value → option Z;
  as_array : Value → option (list Value);
  snapshot_value : ∀ x, ∃ t v, encode json_snapshot x = Ok t ∧ from_str t = Ok v ∧
    (∃ w, value_get v "status" = Some w ∧ as_str w = Some (gs_status x)) ∧
    (∀ key n, (key, n) ∈ [("uptime_seconds", gs_uptime_seconds x); ("route_count", Z.of_nat (gs_route_count x));
                          ("open_circuits", Z.of_nat (gs_open_circuits x));
                          ("exhausted_rate_limiters", Z.of_nat (gs_exhausted_rate_limiters x))] →
       in_width 64 n → ∃ w, value_get v key = Some w ∧ as_u64 w = Some n) ∧
    (∀ c, gs_cache_stats x = Some c → ∃ w, value_get v "cache_stats" = Some w ∧
       ∀ key, key ∈ ["hits"; "misses"; "size"; "hit_rate"] → is_Some (value_get w key));
  routes_value : ∀ x, ∃ t v vs, encode json_routes x = Ok t ∧ from_str t = Ok v ∧ as_array v = Some vs ∧
    Forall2 (λ r w, (∃ p, value_get w "pattern" = Some p ∧ as_str p = Some (rs_pattern r)) ∧
                    (∃ m, value_get w "method" = Some m ∧ as_str m = Some (rs_method r)) ∧
                    (∃ bs l, value_get w "backends" = Some bs ∧ as_array bs = Some l ∧ length l = length (rs_backends r))) x vs;
  diagnoses_value : ∀ x, ∃ t v vs, encode json_diagnoses x = Ok t ∧ from_str t = Ok v ∧ as_array v = Some vs ∧
    Forall2 (λ d w, ∃ s, value_get w "severity" = Some s ∧ as_str s = Some (severity_text (severity d))) x vs;
  object_value : ∀ fs, forallb flat_ok fs = true → NoDup fs.*1 →
    ∃ v, from_str (literal (object_text fs)) = Ok v ∧ ∀ k, k ∈ fs.*1 → is_Some (value_get v k)
}.

(** ** The oracle *)
Abbreviation environment := (gmap string string).

Definition proxy_base (env : environment) : string := default "http://localhost:8080" (env !! "RAUTA_PROXY_ENDPOINT").
Definition admin_base (env : environment) : string := default "http://localhost:9091" (env !! "RAUTA_ADMIN_ENDPOINT").

Definition METRICS_SETTLE_MS : Z := 100.

(** [http_client]: an answer, with the nanoseconds it takes, unless the client gives up. *)
Definition CLIENT_TIMEOUT : Z := 5 * 1000000000.

Definition http_client {A} (x : result A string * Z) : result A string :=
  if CLIENT_TIMEOUT <=? x.2 then Err "operation timed out" else x.1.

Definition assert_that (b : bool) : outcome unit := if b then Ret () else Panic.

Definition unwrap {A} (x : option A) : outcome A := match x with Some a => Ret a | None => Panic end.

Section oracle.
Context `{!Json} `{!JsonValue} {Hdr : Type} `{!HeaderMap Hdr} {S : Type}.

Abbreviation Response := (Response Hdr).

(** The endpoints of a gateway, with the time that an answer takes, and what a pause does
to it. *)
Record LiveGateway : Type := mk_live {
  admin_send : string → string → S → result AdminResponse string * Z;
  proxy_send : string → string → option string → S → result Response string * Z * S;
  pause : Z → S → S
}.

Context (env : environment) (g : LiveGateway).

(** *** Helpers *)
Definition admin_get (path : string) (s : S) : outcome AdminResponse :=
  match http_client (admin_send g "GET" (admin_base env +:+ path) s) with
  | Ok resp => Ret resp
  | Err _ => Panic
  end.

(** The end of [admin_get_json] and [admin_post_json]. *)
Definition json_of (resp : AdminResponse) : outcome Value :=
  _ <-! assert_that (a_status resp =? 200) ;;
  match from_str (a_body resp) with
  | Ok v => Ret v
  | Err _ => Panic
  end.

Definition admin_get_json (path : string) (s : S) : outcome Value :=
  resp <-! admin_get path s ;; json_of resp.

Definition admin_post_json (path : string) (s : S) : outcome Value :=
  match http_client (admin_send g "POST" (admin_base env +:+ path) s) with
  | Ok resp => json_of resp
  | Err _ => Panic
  end.

Definition proxy_request (method path : string) (body : option string) (s : S) : outcome (Response * S) :=
  let '(answer, s) := proxy_send g method (proxy_base env +:+ path) body s in
  match http_client answer with
  | Ok resp => Ret (resp, s)
  | Err _ => Panic
  end.

Definition proxy_get (path : string) (s : S) : outcome (Response * S) := proxy_request "GET" path None s.

(** Access to values: a field that has to be there, and the index operator. *)
Definition has (v : Value) (key : string) : bool := bool_decide (is_Some (value_get v key)).
Definition index (v : Value) (key : string) : Value := default json_null (value_get v key).
Definition is_array (v : Value) : bool := bool_decide (is_Some (as_array v)).

(** *** The cases *)
Definition case_001_admin_healthz_returns_200 (s : S) : outcome S :=
  resp <-! admin_get "/healthz" s ;;
  _ <-! assert_that (a_status resp =? 200) ;; Ret s.

Definition case_002_admin_status_returns_valid_json (s : S) : outcome S :=
  status <-! admin_get_json "/api/v1/status" s ;;
  _ <-! assert_that (has status "status") ;;
  _ <-! assert_that (has status "uptime_seconds") ;;
  _ <-! assert_that (has status "route_count") ;;
  _ <-! assert_that (has status "open_circuits") ;;
  _ <-! assert_that (has status "exhausted_rate_limiters") ;;
  text <-! unwrap (as_str (index status "status")) ;;
  _ <-! assert_that (String.eqb text "ok") ;;
  _ <-! assert_that (bool_decide (is_Some (as_u64 (index status "uptime_seconds")))) ;; Ret s.

Definition case_003_admin_status_has_cache_stats (s : S) : outcome S :=
  status <-! admin_get_json "/api/v1/status" s ;;
  cache <-! unwrap (value_get status "cache_stats") ;;
  _ <-! assert_that (has cache "hits") ;;
  _ <-! assert_that (has cache "misses") ;;
  _ <-! assert_that (has cache "size") ;;
  _ <-! assert_that (has cache "hit_rate") ;; Ret s.

Definition case_004_proxy_healthz_returns_200 (s : S) : outcome S :=
  x <-! proxy_get "/healthz" s ;;
  _ <-! assert_that (resp_status x.1 =? 200) ;; Ret x.2.

Definition case_005_proxy_metrics_returns_prometheus (s : S) : outcome S :=
  x <-! proxy_get "/healthz" s ;;
  y <-! proxy_get "/metrics" (pause g METRICS_SETTLE_MS x.2) ;;
  _ <-! assert_that (resp_status y.1 =? 200) ;;
  let body := resp_body y.1 in
  _ <-! assert_that (contains "# HELP" body || contains "# TYPE" body) ;; Ret y.2.

Definition case_006_proxy_status_returns_json (s : S) : outcome S :=
  x <-! proxy_get "/status" s ;;
  _ <-! assert_that (resp_status x.1 =? 200) ;;
  body <-! match from_str (literal (resp_body x.1)) with Ok v => Ret v | Err _ => Panic end ;;
  _ <-! assert_that (has body "status") ;;
  _ <-! assert_that (has body "routes") ;; Ret x.2.

Definition case_007_admin_routes_returns_array (s : S) : outcome S :=
  routes <-! admin_get_json "/api/v1/routes" s ;;
  _ <-! assert_that (is_array routes) ;; Ret s.

Definition case_008_admin_routes_match_status_count (s : S) : outcome S :=
  status <-! admin_get_json "/api/v1/status" s ;;
  routes <-! admin_get_json "/api/v1/routes" s ;;
  status_count <-! unwrap (as_u64 (index status "route_count")) ;;
  arr <-! unwrap (as_array routes) ;;
  _ <-! assert_that (status_count =? Z.of_nat (length arr)) ;; Ret s.

(** The body of the loop over the routes. *)
Definition route_complete (route : Value) : bool :=
  has route "pattern" && has route "method" && has route "backends" && is_array (index route "backends").

Definition case_009_routes_have_required_fields (s : S) : outcome S :=
  routes <-! admin_get_json "/api/v1/routes" s ;;
  routes_arr <-! unwrap (as_array routes) ;;
  match routes_arr with
  | [] => Ret s
  | _ => _ <-! assert_that (forallb route_complete routes_arr) ;; Ret s
  end.

Definition case_010_circuit_breakers_initially_empty_or_closed (s : S) : outcome S :=
  status <-! admin_get_json "/api/v1/status" s ;;
  open <-! unwrap (as_u64 (index status "open_circuits")) ;;
  _ <-! assert_that (open =? 0) ;; Ret s.

Definition case_011_rate_limiters_initially_not_exhausted (s : S) : outcome S :=
  status <-! admin_get_json "/api/v1/status" s ;;
  exhausted <-! unwrap (as_u64 (index status "exhausted_rate_limiters")) ;;
  _ <-! assert_that (exhausted =? 0) ;; Ret s.

Definition case_012_diagnose_returns_array (s : S) : outcome S :=
  diagnoses <-! admin_post_json "/api/v1/diagnose?symptom=circuit-breaker-cascade" s ;;
  _ <-! assert_that (is_array diagnoses) ;; Ret s.

Definition case_013_diagnose_healthy_gateway_has_no_critical (s : S) : outcome S :=
  diagnoses <-! admin_post_json "/api/v1/diagnose?symptom=degraded" s ;;
  arr <-! unwrap (as_array diagnoses) ;;
  let critical_count := length (filter (λ d, as_str (index d "severity") = Some "critical") arr) in
  _ <-! assert_that (critical_count =? 0)%nat ;; Ret s.

Definition case_014_unrouted_path_returns_error (s : S) : outcome S :=
  x <-! proxy_get "/this-path-definitely-does-not-exist-12345" s ;;
  _ <-! assert_that (negb (resp_status x.1 =? 200)) ;; Ret x.2.

(** Whether a scrape counts requests for a path. *)
Definition path_counted (path body : string) : bool :=
  existsb (λ l, contains "http_requests_total" l && contains path l) (lines body).

Definition case_015_metrics_not_recorded_for_metrics_endpoint (s : S) : outcome S :=
  x <-! proxy_get "/metrics" s ;;
  x <-! proxy_get "/metrics" x.2 ;;
  y <-! proxy_get "/metrics" (pause g METRICS_SETTLE_MS x.2) ;;
  _ <-! assert_that (negb (path_counted "/metrics" (resp_body y.1))) ;; Ret y.2.

Definition case_016_healthz_not_recorded_in_metrics (s : S) : outcome S :=
  x <-! proxy_get "/healthz" s ;;
  y <-! proxy_get "/metrics" (pause g METRICS_SETTLE_MS x.2) ;;
  _ <-! assert_that (negb (path_counted "/healthz" (resp_body y.1))) ;; Ret y.2.

Definition case_017_admin_unknown_endpoint_returns_404 (s : S) : outcome S :=
  resp <-! admin_get "/api/v1/nonexistent" s ;;
  _ <-! assert_that (a_status resp =? 404) ;; Ret s.

Definition case_018_proxy_survives_empty_post (s : S) : outcome S :=
  x <-! proxy_request "POST" "/some-path" (Some "") s ;;
  let status := resp_status x.1 in
  _ <-! assert_that ((200 <=? status) && (status <? 600)) ;; Ret x.2.

Definition case_019_admin_diagnose_with_empty_symptom_returns_array (s : S) : outcome S :=
  diagnoses <-! admin_post_json "/api/v1/diagnose?symptom=" s ;;
  _ <-! assert_that (is_array diagnoses) ;; Ret s.

Definition case_020_admin_and_proxy_are_different_ports (s : S) : outcome S :=
  _ <-! assert_that (negb (String.eqb (proxy_base env) (admin_base env))) ;; Ret s.

Definition case_021_proxy_does_not_serve_admin_api (s : S) : outcome S :=
  x <-! proxy_get "/api/v1/status" s ;;
  _ <-! assert_that (negb (resp_status x.1 =? 200)) ;; Ret x.2.

Definition oracle_cases : list (S → outcome S) :=
  [case_001_admin_healthz_returns_200; case_002_admin_status_returns_valid_json; case_003_admin_status_has_cache_stats;
   case_004_proxy_healthz_returns_200; case_005_proxy_metrics_returns_prometheus; case_006_proxy_status_returns_json;
   case_007_admin_routes_returns_array; case_008_admin_routes_match_status_count; case_009_routes_have_required_fields;
   case_010_circuit_breakers_initially_empty_or_closed; case_011_rate_limiters_initially_not_exhausted;
   case_012_diagnose_returns_array; case_013_diagnose_healthy_gateway_has_no_critical; case_014_unrouted_path_returns_error;
   case_015_metrics_not_recorded_for_metrics_endpoint; case_016_healthz_not_recorded_in_metrics;
   case_017_admin_unknown_endpoint_returns_404; case_018_proxy_survives_empty_post;
   case_019_admin_diagnose_with_empty_symptom_returns_array; case_020_admin_and_proxy_are_different_ports;
   case_021_proxy_does_not_serve_admin_api].
End oracle.

(** ** The standalone gateway *)

(** A sample of [http_requests_total] in the text format. *)
Definition sample_line (k : string * string * string * string) (n : Z) : string :=
  let '(method, path, status, worker) := k in
  "http_requests_total{method=" +:+ quoted method +:+ ",path=" +:+ quoted path +:+ ",status=" +:+ quoted status +:+
  ",worker_id=" +:+ quoted worker +:+ "} " +:+ show_Z n.

(** Labels that the format writes as they are. *)
Definition unescaped (s : string) : bool :=
  forall_ascii (λ c, negb (Ascii.eqb c (ascii_of_N 34)) && negb (Ascii.eqb c "\") && negb (Ascii.eqb c (ascii_of_N 10))) s.

Definition unescaped_key (k : string * string * string * string) : Prop :=
  let '(method, path, status, worker) := k in
  unescaped method = true ∧ unescaped path = true ∧ unescaped status = true ∧ unescaped worker = true.

(** The text that the registries give, from the counted requests: a family with samples
has its header, and the lines that name the counter are its header and its samples. *)
Class Exposition (Hdr : Type) `{!HeaderMap Hdr} : Type := {
  scrape : gmap (string * string * string * string) Z → MetricsText;
  scrape_text : ∀ m, ∃ t, encoded (scrape m) = Ok t ∧ (m ≠ ∅ → contains "# HELP" t = true);
  scrape_lines : ∀ m l,
    (∀ k, is_Some (m !! k) → unescaped_key k) → l ∈ lines (resp_body (serve_metrics_endpoint (Hdr := Hdr) (scrape m))) →
    contains "http_requests_total" l = true →
    l ∈ ["# HELP http_requests_total Total number of HTTP requests (with per-worker distribution)";
         "# TYPE http_requests_total counter"] ∨ ∃ k n, is_Some (m !! k) ∧ 0 <= n ∧ l = sample_line k n
}.

Section deployed.
Context {M : Type} `{!Matchit RouteKey M} `{!MapOrder} `{!PortOrder} `{!UnicodeCase} `{!Json} `{!JsonValue}.
Context {Hdr : Type} `{!HeaderMap Hdr} `{!Exposition Hdr}.

Abbreviation Proxy := (Proxy M).
Abbreviation Server := (Server M).
Abbreviation Request := (Request Hdr).
Abbreviation Response := (Response Hdr).

(** What a turn finds outside: identifiers, clocks, the time until the answer is there, the
network. *)
Record Conditions : Type := mk_conditions {
  c_fresh_id : string;
  c_now : Z;
  c_later : Z;
  c_uptime : Z;
  c_elapsed : Z;
  c_outside : Outside Hdr
}.

Record Deployed : Type := mk_deployed { dp_proxy : Proxy; dp_turn : nat }.

Context (env : environment) (conditions : nat → Conditions) (client_headers : Hdr) (started : Z).

(** Where the proxy listens, if it does, and where the admin server does; and whether a
client with a base URL gets to an endpoint: that it is bound, that the address leads there,
and for HTTPS that the handshake succeeds. *)
Context (listening : option string) (admin_url : string) (reaches : string → string → bool).

(** The admin server reads the shared router, but a limiter and breakers of its own. *)
Definition admin_query (s : Deployed) : LocalGatewayQuery M :=
  query_new (srv_router (px_server (dp_proxy s))) manager_default limiter_new started.

Definition admin_endpoint (method url : string) (s : Deployed) : result AdminResponse string * Z :=
  let c := conditions (dp_turn s) in
  (match strip_prefix (admin_base env) url with
   | None => Err "error sending request"
   | Some target =>
       if reaches (admin_base env) admin_url then
         let '(path, query) := split_target target in
         Ok (handle_admin_request (local_gateway (admin_query s) (c_now c) (c_later c)) (mk_areq method path query))
       else Err "error sending request"
   end, c_elapsed c).

(** Whether the oracle gets to the proxy. *)
Definition proxy_reached : bool := match listening with Some url => reaches (proxy_base env) url | None => false end.

Definition client_request (method target : string) : Request :=
  mk_request method (mk_target None None None (split_target target).1 None) client_headers (Some target) None.

Definition proxy_endpoint (method url : string) (body : option string) (s : Deployed) : result Response string * Z * Deployed :=
  let c := conditions (dp_turn s) in
  match strip_prefix (proxy_base env) url with
  | None => (Err "error sending request", c_elapsed c, s)
  | Some target =>
      if negb proxy_reached then (Err "error sending request", c_elapsed c, s) else
      let p := dp_proxy s in
      match serve p (client_request method target) (mk_body (match body with Some b => [b] | None => [] end) None)
              (c_fresh_id c) (c_now c) (c_later c) (c_uptime c) (scrape (srv_requests_total (px_server p))) (c_outside c) with
      | Ret (resp, p, _) => (Ok resp, c_elapsed c, mk_deployed p (S (dp_turn s)))
      | Panic => (Err "connection closed before message completed", c_elapsed c, s)
      end
  end.

Definition deployed_gateway : LiveGateway := mk_live admin_endpoint proxy_endpoint (λ _ s, s).

(** ** What comes back from a backend *)
Definition network_says (P : Z → Prop) (o : Outside Hdr) : Prop :=
  (∀ sender q resp, send_http2 (o_net o) sender q = Ok resp → P (resp_status resp)) ∧
  (∀ q resp, client_http1 (o_net o) q = Ok resp → P (resp_status resp)).

Definition own_statuses : list Z := [404; 413; 429; 500; 502; 503; 504].

Lemma forward_says (P : Z → Prop) (net : BackendNet Hdr) f (req : Request) body b worker t resp f' sent :
  (∀ sender q resp, send_http2 net sender q = Ok resp → P (resp_status resp)) →
  (∀ q resp, client_http1 net q = Ok resp → P (resp_status resp)) →
  Forwarder.forward_to_backend net f req body b worker t = Ret (Ok resp, f', sent) → P (resp_status resp).
Proof.
  intros Hp2 Hp1 E. destruct (forward_cases _ _ _ _ _ _ _ _ _ _ E) as (learned & _ & _ & [(_ & _ & _ & e & He & _)|(bytes & a & _ & Hex & Hr & _)]); [done|].
  destruct a as [[resp0|e]|]; cbn [finish] in Hr; [|done|done]. injection Hr as ->.
  destruct (exchanged_sent _ _ _ _ _ _ _ _ Hex) as (_ & _ & Hresp). destruct (Hresp resp0 eq_refl) as (x & _ & Hx).
  change (resp_status (strip_response resp0)) with (resp_status resp0). unfold responds in Hx. destruct x.1.
  - by eapply Hp1.
  - destruct Hx as [sender Hx]. by eapply Hp2.
Qed.

Lemma first_attempt_says P o f (req : Request) body m worker resp ex f' sent :
  network_says P o → first_attempt o f req body m worker = Ret (Ok resp, ex, f', sent) → P (resp_status resp).
Proof.
  intros [Hp2 Hp1]. unfold first_attempt.
  assert (∀ net t (k : result Response ProxyError → bool),
    send_http2 net = send_http2 (o_net o) → client_http1 net = client_http1 (o_net o) →
    (x <-! Forwarder.forward_to_backend net f req body (rm_backend m) worker t ;;
     let '(r, f, sent) := x in Ret (r, k r, f, sent)) = Ret (Ok resp, ex, f', sent) → P (resp_status resp)) as Hrun.
  { intros net t k E2 E1 E. destruct (Forwarder.forward_to_backend _ _ _ _ _ _ _) as [[[r f1] sent1]|] eqn:Ef; [|done].
    cbn [obind] in E. injection E as -> <- <- <-. eapply forward_says; [| |exact Ef]; by rewrite ?E2, ?E1. }
  destruct (rm_timeout m ≫= request_timeout); [destruct (o_cut o) as [[|pt]|]|]; intros E.
  - done.
  - by refine (Hrun _ _ (λ r, match r with Err e => is_timeout e | Ok _ => false end) _ _ E).
  - by refine (Hrun _ _ (λ _, false) _ _ E).
  - by refine (Hrun _ _ (λ _, false) _ _ E).
Qed.

(** ** The standalone table: one plain route *)
Definition one_plain (s : Server) : Prop :=
  ∃ b table, routes (srv_router s) = {[root_key := plain_route "/" [b] table]}.

Lemma one_plain_lookup (s : Server) k route :
  one_plain s → routes (srv_router s) !! k = Some route → ∃ b table, route = plain_route "/" [b] table.
Proof. intros (b & table & ->) [_ <-]%lookup_singleton_Some. by exists b, table. Qed.

(** A request that no built-in endpoint takes is routed. *)
Lemma unbuilt_tests (req : Request) :
  builtin req = false → ∀ path, path ∈ ["/metrics"; "/healthz"; "/status"] →
  String.eqb (uri_path (req_target req)) path && String.eqb (req_method req) "GET" = false.
Proof.
  unfold builtin. intros Hb path Hin. destruct (String.eqb (req_method req) "GET"); [|by rewrite andb_false_r].
  cbn [andb] in Hb. apply bool_decide_eq_false in Hb. rewrite andb_true_r. apply String.eqb_neq. by intros E; rewrite E in Hb.
Qed.

(** What the table selects has no filter, no redirect, no retry and no timeout. *)
Lemma one_plain_match (s : Server) method path :
  router_ok (srv_router s) → one_plain s →
  ∃ res r', select_backend (srv_router s) method path None None = Ret (res, r') ∧
    ∀ m, res = Some m → ∃ b table b', m = route_match (plain_route "/" [b] table) b'.
Proof.
  intros Hr Hp. destruct (select_backend_cases (srv_router s) method path None None Hr) as (res & r' & E & _ & _ & _ & Hres).
  exists res, r'. split; [done|]. intros m ->.
  destruct (cached_resolve (srv_router s) method path).1 as [k|]; [|done]. cbn [mbind option_bind] in Hres.
  destruct (routes (srv_router s) !! k) as [route|] eqn:El; [|done]. destruct (one_plain_lookup s k route Hp El) as (b & table & ->).
  destruct (method_allowed _ _); [|done]. destruct Hres as (b' & -> & _). by exists b, table, b'.
Qed.

Lemma gate_answer_status (s : Server) (req : Request) fresh_id now later uptime x resp s' :
  router_ok (srv_router s) → one_plain s → builtin req = false →
  gate s req fresh_id now later uptime x = Ret (Answered resp s') → resp_status resp ∈ own_statuses.
Proof.
  intros Hr Hp Hb. unfold gate. rewrite !(unbuilt_tests req Hb) by set_solver.
  destruct (one_plain_match s (method_of (req_method req)) (uri_path (req_target req)) Hr Hp) as (res & r' & -> & Hm). cbn [obind fst snd].
  destruct res as [m|]; [|intros [= <- <-]; by vm_compute; left].
  destruct (Hm m eq_refl) as (b & table & b' & ->). unfold gate_match. cbn [route_match plain_route rm_redirect rm_pattern rm_request_filters redirect pattern request_filters].
  destruct (match srv_selector _ with Some _ => _ | None => _ end) as [[w sel]|]; [|done]. cbn [obind].
  destruct (check_rate_limit _ _ _) as [[] l]; cbn [negb]; [done|]. intros [= <- <-]. unfold own_statuses. cbn. set_solver.
Qed.

(** Every answer that is not built in is the backend's or one of the gateway's own. *)
Lemma serve_status (P : Z → Prop) p (req : Request) body fresh_id now later uptime x o resp p' wire :
  proxy_ok p → one_plain (px_server p) → builtin req = false → network_says P o →
  serve p req body fresh_id now later uptime x o = Ret (resp, p', wire) →
  P (resp_status resp) ∨ resp_status resp ∈ own_statuses.
Proof.
  intros [Hr Hw] Hp Hb Hnet. unfold serve.
  destruct (gate_spec (px_server p) req fresh_id now later uptime x Hr) as (g & Hg & Hok); [by intros sel [? _]%Hw|].
  rewrite Hg. cbn [obind]. destruct g as [resp0 s'|s' req' m w].
  { intros [= <- <- <-]. right. by eapply gate_answer_status. }
  destruct (manager_allow_request _ _ _) as [[] br] eqn:Eb; cbn [negb].
  2:{ intros [= <- <- <-]. right. unfold own_statuses. cbn. set_solver. }
  destruct Hok as (_ & _ & _ & (_ & k & route & b & -> & _ & Hl & _) & _).
  destruct (one_plain_lookup _ k route Hp Hl) as (b0 & table & ->).
  destruct (first_attempt _ _ _ _ _ _) as [[[[r ex] f'] sent]|] eqn:Ef; [|done]. cbn [obind]. unfold forward. rewrite Eb.
  cbn [negb]. unfold execute_request_with_retry. cbn [route_match plain_route rm_retry rm_timeout rm_response_filters retry timeout_config response_filters mbind option_bind].
  destruct (bool_decide _); cbn [execute_without_retry RequestHandler.forward_to_backend]; intros [= <- <- <-]; cbn [finalize_response];
    (destruct r as [resp0|e]; cbn [finalize_response]; [left; by eapply first_attempt_says|right]);
    unfold own_statuses; destruct e; cbn; set_solver.
Qed.

(** ** What is counted *)
Definition no_slash (s : string) : bool := forall_ascii (λ c, negb (Ascii.eqb c "/")) s.

Definition key_ok (k : string * string * string * string) : Prop :=
  let '(method, path, status, worker) := k in
  (path = "/" ∨ path = "not_found") ∧
  Forall (λ l, no_slash l = true ∧ unescaped l = true) [method; status; worker].

Definition counted_ok (s : Server) : Prop := ∀ k, is_Some (srv_requests_total s !! k) → key_ok k.

(** A request is counted at most once. *)
Definition counts_step (s s' : Server) : Prop :=
  srv_requests_total s' = srv_requests_total s ∨ ∃ k, key_ok k ∧ srv_requests_total s' = inc k (srv_requests_total s).

Lemma counts_step_ok (s s' : Server) : counts_step s s' → counted_ok s → counted_ok s'.
Proof.
  intros [E|(k & Hk & E)] Hs k'; rewrite E; [apply Hs|]. unfold inc.
  destruct (decide (k = k')) as [<-|]; [done|]. rewrite lookup_insert_ne by done. apply Hs.
Qed.

Lemma counts_step_nonempty (s s' : Server) : counts_step s s' → srv_requests_total s ≠ ∅ → srv_requests_total s' ≠ ∅.
Proof. intros [E|(k & _ & E)] Hs; rewrite E; [done|]. apply insert_non_empty. Qed.

Lemma label_number n : 0 <= n → no_slash (show_Z n) = true ∧ unescaped (show_Z n) = true.
Proof.
  intros Hn. destruct (show_Z_digits n Hn) as [Hd _].
  split; (eapply forall_ascii_impl; [|exact Hd]); intros c Hc.
  - destruct (Ascii.eqb_spec c "/") as [->|]; [done|reflexivity].
  - destruct (Ascii.eqb_spec c (ascii_of_N 34)) as [->|]; [done|]. destruct (Ascii.eqb_spec c "\") as [->|]; [done|].
    destruct (Ascii.eqb_spec c (ascii_of_N 10)) as [->|]; [done|reflexivity].
Qed.

Lemma label_status n : no_slash (status_to_str n) = true ∧ unescaped (status_to_str n) = true.
Proof.
  unfold status_to_str. case_bool_decide as E; [|done]. apply label_number.
  repeat (apply elem_of_cons in E as [->|E]; [done|]). by apply not_elem_of_nil in E.
Qed.

Lemma label_method m : no_slash (method_to_str m) = true ∧ unescaped (method_to_str m) = true.
Proof. by destruct m. Qed.

Lemma label_error e : no_slash (error_status_str e) = true ∧ unescaped (error_status_str e) = true.
Proof. by destruct e. Qed.

Lemma record_counts (s : Server) (r : result Response ProxyError) method w d b id now :
  (∀ i, w = Some i → 0 <= i) → counts_step s (record_request_metrics s r method "/" w d b id now).
Proof.
  intros Hw. assert (no_slash (default "none" (show_Z <$> w)) = true ∧ unescaped (default "none" (show_Z <$> w)) = true) as Hl
    by (destruct w as [i|]; [by apply label_number, Hw|done]).
  pose proof (label_method method) as Hm. unfold record_request_metrics. right. destruct r as [resp|e].
  - pose proof (label_status (resp_status resp)) as Hst.
    exists (method_to_str method, "/", status_to_str (resp_status resp), default "none" (show_Z <$> w)). split.
    + split; [by left|]. by rewrite !Forall_cons, Forall_nil.
    + by destruct (500 <=? resp_status resp).
  - pose proof (label_error e) as He.
    exists (method_to_str method, "/", error_status_str e, default "none" (show_Z <$> w)). split.
    + split; [by left|]. by rewrite !Forall_cons, Forall_nil.
    + by destruct (negb (is_body_too_large e)).
Qed.

Lemma handle_request_counts (s : Server) (req : Request) fresh_id now later uptime x net resp s' :
  router_ok (srv_router s) → (∀ sel, srv_selector s = Some sel → 0 < num_workers sel) → one_plain s →
  handle_request s req fresh_id now later uptime x net = Ret (resp, s') → counts_step s s'.
Proof.
  intros Hr Hsel Hp. unfold handle_request. destruct (_ && _); [by intros [= <- <-]; left|].
  destruct (_ && _); [by intros [= <- <-]; left|]. destruct (_ && _); [by intros [= <- <-]; left|].
  destruct (one_plain_match s (method_of (req_method req)) (uri_path (req_target req)) Hr Hp) as (res & r' & -> & Hm). cbn [obind].
  destruct res as [m|].
  2:{ intros [= <- <-]. pose proof (label_method (method_of (req_method req))) as Hl. right.
      exists (method_to_str (method_of (req_method req)), "not_found", "404", "none"). split; [|done].
      split; [by right|]. by rewrite !Forall_cons, Forall_nil. }
  destruct (Hm m eq_refl) as (b & table & b' & ->). unfold handle_match.
  destruct (pick_worker (set_router s r') Hsel) as (w & sel' & -> & Hw & _). cbn [obind].
  cbn [route_match plain_route rm_redirect rm_pattern rm_request_filters redirect pattern request_filters].
  destruct (check_rate_limit _ _ _) as [[] l]; cbn [negb]; [|by intros [= <- <-]; left]. unfold forward.
  destruct (manager_allow_request _ _ _) as [[] br]; cbn [negb]; [|by intros [= <- <-]; left].
  destruct (execute_request_with_retry _ _ _ _ _ _) as [r ds]. intros [= <- <-].
  apply (record_counts (set_breakers (set_limiter (set_selector (set_router s r') sel') l) br)).
  intros i Hi. destruct (Hw i Hi) as (sel & _ & ? & _). done.
Qed.

(** The state of the standalone process. *)
Record standing (p : Proxy) : Prop := {
  sd_ok : proxy_ok p;
  sd_plain : one_plain (px_server p);
  sd_counted : counted_ok (px_server p)
}.

Lemma serve_standing p (req : Request) body fresh_id now later uptime x o :
  standing p → ∃ resp p' wire, serve p req body fresh_id now later uptime x o = Ret (resp, p', wire) ∧ standing p' ∧
    (srv_requests_total (px_server p) ≠ ∅ → srv_requests_total (px_server p') ≠ ∅).
Proof.
  intros [Hok Hp Hc]. destruct (serve_spec p req body fresh_id now later uptime x o Hok)
    as (resp & p' & wire & E & Hok' & Er & (net & Hh) & _). destruct Hok as [Hr Hw].
  assert (counts_step (px_server p) (px_server p')) as Hstep
    by (eapply handle_request_counts; [exact Hr| |exact Hp|exact Hh]; by intros sel [? _]%Hw).
  exists resp, p', wire. split; [done|]. split; [|by apply counts_step_nonempty]. split; [done| |by eapply counts_step_ok].
  destruct Hp as (b & table & Hp). exists b, table. by rewrite Er.
Qed.

Lemma serve_all_standing (ins : list (Incoming Hdr)) : ∀ p, standing p →
  ∃ outs p', serve_all p ins = Ret (outs, p') ∧ standing p'.
Proof.
  induction ins as [|i ins IH]; intros p Hp; cbn [serve_all]; [by exists [], p|].
  destruct (serve_standing p (in_request i) (in_body i) (in_fresh_id i) (in_now i) (in_later i) (in_uptime i) (in_metrics i)
    (in_outside i) Hp) as (resp & p1 & wire & -> & Hp1 & _). cbn [obind].
  destruct (IH p1 Hp1) as (outs & p2 & -> & Hp2). cbn [obind fst snd]. by eexists _, _.
Qed.

(** ** Slashes in a line *)
Lemma contains_app_l n s t : contains n s = true → contains n (s +:+ t) = true.
Proof.
  induction s as [|c s IH].
  - destruct n; [by destruct t|done].
  - change (String c s +:+ t) with (String c (s +:+ t)). cbn [contains]. intros [Hp|Hc]%orb_true_iff.
    + apply orb_true_iff. left. change (String c (s +:+ t)) with (String c s +:+ t). revert Hp. generalize (String c s) as u. clear.
      induction n as [|a n IH]; intros u; [by destruct (u +:+ t)|]. destruct u as [|d u]; [done|].
      change (String d u +:+ t) with (String d (u +:+ t)). cbn. destruct (ascii_dec a d); [apply IH|done].
    + apply orb_true_iff. right. by apply IH.
Qed.

(** Before the first slash nothing that begins with a slash is found. *)
Lemma contains_skip c n s t : forall_ascii (λ a, negb (Ascii.eqb a c)) s = true → contains (String c n) (s +:+ t) = contains (String c n) t.
Proof.
  induction s as [|a s IH]; [done|]. change (String a s +:+ t) with (String a (s +:+ t)). cbn [forall_ascii contains].
  intros [Ha Hs]%andb_true_iff. rewrite IH by done. cbn. destruct (ascii_dec c a) as [->|]; [|done].
  by rewrite Ascii.eqb_refl in Ha.
Qed.

Lemma contains_none c n s : forall_ascii (λ a, negb (Ascii.eqb a c)) s = true → contains (String c n) s = false.
Proof.
  intros Hs. induction s as [|a s IH]; [done|]. cbn [forall_ascii contains] in *. apply andb_true_iff in Hs as [Ha Hs]. rewrite IH by done. cbn. destruct (ascii_dec c a) as [->|]; [|done]. by rewrite Ascii.eqb_refl in Ha.
Qed.

Lemma sample_line_path k n c rest :
  key_ok k → 0 <= n → Ascii.eqb c (ascii_of_N 34) = false → contains (String "/" (String c rest)) (sample_line k n) = false.
Proof.
  destruct k as [[[method path] status] worker]. intros [Hpath Hl] Hn Hc. rewrite !Forall_cons in Hl.
  destruct Hl as ([Hm _] & [Hs _] & [Hw _] & _). destruct (label_number n Hn) as [Hd _]. unfold no_slash in *.
  set (tail := dquote +:+ ",status=" +:+ quoted status +:+ ",worker_id=" +:+ quoted worker +:+ "} " +:+ show_Z n).
  assert (forall_ascii (λ a, negb (Ascii.eqb a "/")) tail = true) as Ht
    by (unfold tail, quoted; rewrite !forall_ascii_app, Hs, Hw, Hd; reflexivity).
  assert (sample_line (method, path, status, worker) n =
    ("http_requests_total{method=" +:+ quoted method +:+ ",path=" +:+ dquote) +:+ (path +:+ tail)) as ->.
  { unfold sample_line, tail, quoted. by rewrite <- !app_assoc_string. }
  rewrite contains_skip by (unfold quoted; rewrite !forall_ascii_app, Hm; reflexivity).
  destruct Hpath as [-> | ->].
  - change ("/" +:+ tail) with (String "/" tail). cbn [contains]. rewrite contains_none by done. rewrite orb_false_r.
    change tail with (String (ascii_of_N 34) (",status=" +:+ quoted status +:+ ",worker_id=" +:+ quoted worker +:+ "} " +:+ show_Z n)).
    cbn [String.prefix]. destruct (ascii_dec "/" "/"); [|done]. destruct (ascii_dec c (ascii_of_N 34)) as [->|]; [|done].
    by rewrite Ascii.eqb_refl in Hc.
  - rewrite contains_skip by reflexivity. by apply contains_none.
Qed.

(** No line of a scrape counts a path that begins with a slash and a letter. *)
Lemma scrape_uncounted (s : Server) c rest :
  counted_ok s → Ascii.eqb c (ascii_of_N 34) = false →
  path_counted (String "/" (String c rest)) (resp_body (serve_metrics_endpoint (Hdr := Hdr) (scrape (srv_requests_total s)))) = false.
Proof.
  intros Hs Hc. unfold path_counted. apply not_true_is_false. intros (l & Hl & [Hname Hpath]%andb_true_iff)%existsb_exists.
  apply list_elem_of_In in Hl. assert (∀ k, is_Some (srv_requests_total s !! k) → unescaped_key k) as Hu.
  { intros [[[me pa] st] wo] Hk. destruct (Hs _ Hk) as [Hp Hf]. rewrite !Forall_cons in Hf. destruct Hf as ([_ ?] & [_ ?] & [_ ?] & _).
    split_and!; try done. by destruct Hp as [-> | ->]. }
  destruct (scrape_lines (srv_requests_total s) l Hu Hl Hname) as [Hh|(k & n & Hk & Hn & ->)].
  - rewrite contains_none in Hpath; [done|]. by repeat (apply elem_of_cons in Hh as [->|Hh]; [reflexivity|]); apply not_elem_of_nil in Hh.
  - by rewrite (sample_line_path k n c rest (Hs k Hk) Hn Hc) in Hpath.
Qed.

(** ** The cases, on a standalone gateway whose backend never answers with success *)
Context (Hproxy : proxy_reached = true) (Hadmin : reaches (admin_base env) admin_url = true).
Context (Hbases : proxy_base env ≠ admin_base env).

Definition failing (status : Z) : Prop := 201 <= status < 600.

Definition conditions_ok (c : Conditions) : Prop :=
  network_says failing (c_outside c) ∧ in_width 64 ((c_now c - started) / 1000000000) ∧ 0 <= c_uptime c ∧
  c_elapsed c < CLIENT_TIMEOUT.

Context (Hcond : ∀ n, conditions_ok (conditions n)).

Abbreviation gateway := deployed_gateway.

Lemma in_time n : (CLIENT_TIMEOUT <=? c_elapsed (conditions n)) = false.
Proof. destruct (Hcond n) as (_ & _ & _ & ?). by apply Z.leb_gt. Qed.

Lemma admin_sent method target s :
  http_client (admin_send gateway method (admin_base env +:+ target) s) =
    Ok (handle_admin_request (local_gateway (admin_query s) (c_now (conditions (dp_turn s))) (c_later (conditions (dp_turn s))))
          (mk_areq method (split_target target).1 (split_target target).2)).
Proof.
  cbn [gateway deployed_gateway admin_send]. unfold admin_endpoint, http_client. cbn [fst snd]. rewrite strip_prefix_app, Hadmin.
  rewrite in_time. by destruct (split_target target).
Qed.

(** The status, with its numbers. *)
Lemma status_json s :
  one_plain (px_server (dp_proxy s)) →
  ∃ v, admin_get_json env gateway "/api/v1/status" s = Ret v ∧
    (∃ w, value_get v "status" = Some w ∧ as_str w = Some "ok") ∧
    (∃ w n, value_get v "uptime_seconds" = Some w ∧ as_u64 w = Some n) ∧
    (∃ w, value_get v "route_count" = Some w ∧ as_u64 w = Some 1) ∧
    (∃ w, value_get v "open_circuits" = Some w ∧ as_u64 w = Some 0) ∧
    (∃ w, value_get v "exhausted_rate_limiters" = Some w ∧ as_u64 w = Some 0) ∧
    (∃ w, value_get v "cache_stats" = Some w ∧ ∀ key, key ∈ ["hits"; "misses"; "size"; "hit_rate"] → is_Some (value_get w key)).
Proof.
  intros (b & table & Hr). unfold admin_get_json, admin_get. rewrite admin_sent. cbn [obind].
  set (c := conditions (dp_turn s)). set (snap := snapshot (admin_query s) (c_now c)).
  destruct (snapshot_value snap) as (t & v & He & Hv & Hst & Hnum & Hcache).
  assert (handle_admin_request (local_gateway (admin_query s) (c_now c) (c_later c)) (mk_areq "GET" "/api/v1/status" None) =
    json_response 200 t) as E by (unfold handle_admin_request; cbn; unfold handle_status, respond; cbn [local_gateway gq_snapshot]; fold snap; by rewrite He).
  change (split_target "/api/v1/status").1 with "/api/v1/status". change (split_target "/api/v1/status").2 with (None (A := string)).
  rewrite E. exists v. unfold json_of. cbn [json_response a_status a_body assert_that obind Z.eqb Pos.eqb]. rewrite Hv.
  destruct (Hcond (dp_turn s)) as (_ & Hup & _ & _).
  assert (gs_route_count snap = 1%nat) as Hcount by (cbn; unfold route_count; rewrite Hr; apply map_size_singleton).
  split; [done|]. split; [exact Hst|]. split_and!.
  - destruct (Hnum "uptime_seconds" (gs_uptime_seconds snap)) as (w & ? & ?); [by left|exact Hup|eauto].
  - destruct (Hnum "route_count" (Z.of_nat (gs_route_count snap))) as (w & ? & Hw); [set_solver| |].
    + by rewrite Hcount.
    + rewrite Hcount in Hw. eauto.
  - destruct (Hnum "open_circuits" 0) as (w & ? & ?); [set_solver|done|eauto].
  - destruct (Hnum "exhausted_rate_limiters" 0) as (w & ? & ?); [set_solver|done|eauto].
  - by apply (Hcache (cache_stats_internal (admin_query s))).
Qed.

(** The routes: one, complete. *)
Lemma routes_json s :
  one_plain (px_server (dp_proxy s)) →
  ∃ v w, admin_get_json env gateway "/api/v1/routes" s = Ret v ∧ as_array v = Some [w] ∧ route_complete w = true.
Proof.
  intros (b & table & Hr). unfold admin_get_json, admin_get. rewrite admin_sent. cbn [obind].
  set (c := conditions (dp_turn s)). set (rs := query_routes (admin_query s) None None).
  assert (length rs = 1%nat) as Hlen.
  { unfold rs, query_routes. rewrite sort_by_perm, list_routes_snapshots, length_fmap, iter_perm.
    change (routes (lq_router (admin_query s))) with (routes (srv_router (px_server (dp_proxy s)))). by rewrite Hr, map_to_list_singleton. }
  destruct (routes_value rs) as (t & v & vs & He & Hv & Ha & Hf).
  assert (handle_admin_request (local_gateway (admin_query s) (c_now c) (c_later c)) (mk_areq "GET" "/api/v1/routes" None) =
    json_response 200 t) as E by (change (respond json_routes (Ok rs) = json_response 200 t); unfold respond; by rewrite He).
  change (split_target "/api/v1/routes").1 with "/api/v1/routes". change (split_target "/api/v1/routes").2 with (None (A := string)).
  rewrite E. unfold json_of. cbn [json_response a_status a_body assert_that obind Z.eqb Pos.eqb]. rewrite Hv.
  destruct Hf as [|r w rs' vs' Hw Hf]; [done|]. destruct Hf; [|done]. exists v, w. split; [done|]. split; [done|].
  destruct Hw as ((p & Hp & _) & (m & Hm & _) & (bs & l & Hb & Hl & _)). unfold route_complete, has, index, is_array.
  rewrite Hp, Hm, Hb. cbn [default from_option id]. rewrite Hl. by rewrite !bool_decide_eq_true_2 by done.
Qed.

(** Diagnoses for the symptom that a query names. *)
Lemma diagnose_json s target symptom :
  (split_target target).1 = "/api/v1/diagnose" → symptom_of (split_target target).2 = symptom →
  ∃ v vs, admin_post_json env gateway target s = Ret v ∧ as_array v = Some vs ∧
    (symptom = "degraded" → vs = []).
Proof.
  intros Hpath Hsym. unfold admin_post_json. rewrite admin_sent, Hpath, diagnose_request, Hsym.
  set (c := conditions (dp_turn s)). set (q := admin_query s).
  destruct (diagnoses_value (query_diagnose q symptom None None (c_now c) (c_later c))) as (t & v & vs & He & Hv & Ha & Hf).
  exists v, vs. unfold handle_diagnose, respond. cbn [local_gateway gq_diagnose]. fold q. rewrite He.
  unfold json_of. cbn [json_response a_status a_body assert_that obind Z.eqb Pos.eqb]. rewrite Hv. split_and!; [done..|].
  intros ->. assert (query_diagnose q "degraded" None None (c_now c) (c_later c) = []) as E by apply degraded_silent.
  rewrite E in Hf. by inversion Hf.
Qed.

(** The built-in endpoints leave the gateway as it is. *)
Definition next (s : Deployed) : Deployed := mk_deployed (dp_proxy s) (S (dp_turn s)).

Lemma proxy_sent method target body s :
  proxy_request env gateway method target body s =
    let c := conditions (dp_turn s) in
    let p := dp_proxy s in
    match serve p (client_request method target) (mk_body (match body with Some b => [b] | None => [] end) None)
            (c_fresh_id c) (c_now c) (c_later c) (c_uptime c) (scrape (srv_requests_total (px_server p))) (c_outside c) with
    | Ret (resp, p, _) => Ret (resp, mk_deployed p (S (dp_turn s)))
    | Panic => Panic
    end.
Proof.
  unfold proxy_request. cbn [gateway deployed_gateway proxy_send]. unfold proxy_endpoint. rewrite strip_prefix_app, Hproxy. cbn [negb].
  destruct (serve _ _ _ _ _ _ _ _ _) as [[[resp p] wire]|]; unfold http_client; cbn [fst snd]; by rewrite in_time.
Qed.

Lemma get_builtin s :
  proxy_get env gateway "/healthz" s = Ret (serve_healthz_endpoint, next s) ∧
  proxy_get env gateway "/metrics" s = Ret (serve_metrics_endpoint (scrape (srv_requests_total (px_server (dp_proxy s)))), next s) ∧
  proxy_get env gateway "/status" s =
    Ret (serve_status_endpoint (px_server (dp_proxy s)) (c_uptime (conditions (dp_turn s))), next s).
Proof. unfold proxy_get. rewrite !proxy_sent. destruct s as [[sv f] n]. by split_and!. Qed.

(** What a run of the cases keeps: the process stands, and has counted a request. *)
Definition live (s : Deployed) : Prop := standing (dp_proxy s) ∧ srv_requests_total (px_server (dp_proxy s)) ≠ ∅.

(** Any other request is answered, with a failing status. *)
Lemma get_routed method target body s :
  live s → builtin (client_request method target) = false →
  ∃ resp s', proxy_request env gateway method target body s = Ret (resp, s') ∧ failing (resp_status resp) ∧ live s'.
Proof.
  intros [Hs Hne] Hb. rewrite proxy_sent. cbn zeta. set (c := conditions (dp_turn s)).
  set (bd := mk_body _ _). destruct (serve_standing (dp_proxy s) (client_request method target) bd (c_fresh_id c) (c_now c) (c_later c) (c_uptime c)
    (scrape (srv_requests_total (px_server (dp_proxy s)))) (c_outside c) Hs) as (resp & p' & wire & E & Hs' & Hne'). rewrite E.
  exists resp, (mk_deployed p' (S (dp_turn s))). split; [done|]. split; [|split; [done|by apply Hne']]. destruct Hs as [Hok Hp _].
  destruct (serve_status failing (dp_proxy s) _ _ _ _ _ _ _ _ _ _ _ Hok Hp Hb (proj1 (Hcond (dp_turn s))) E) as [Hst|Hst]; [done|].
  unfold own_statuses in Hst. repeat (apply elem_of_cons in Hst as [->|Hst]; [split; done|]). by apply not_elem_of_nil in Hst.
Qed.

Definition passes_case (c : Deployed → outcome Deployed) : Prop := ∀ s, live s → ∃ s', c s = Ret s' ∧ live s'.

Lemma has_true v key w : value_get v key = Some w → has v key = true.
Proof. intros E. unfold has. by rewrite E, bool_decide_eq_true_2. Qed.

Lemma index_get v key w : value_get v key = Some w → index v key = w.
Proof. intros E. unfold index. by rewrite E. Qed.

(** The cases that ask for the status. *)
Lemma status_cases :
  passes_case (case_002_admin_status_returns_valid_json env gateway) ∧
  passes_case (case_003_admin_status_has_cache_stats env gateway) ∧
  passes_case (case_008_admin_routes_match_status_count env gateway) ∧
  passes_case (case_010_circuit_breakers_initially_empty_or_closed env gateway) ∧
  passes_case (case_011_rate_limiters_initially_not_exhausted env gateway).
Proof.
  assert (∀ (c : Deployed → outcome Deployed), (∀ s, live s → c s = Ret s) → passes_case c) as Hret by (intros c Hc s Hs; eauto).
  split_and!; apply Hret; intros s Hs; pose proof (sd_plain _ (proj1 Hs)) as Hp;
    destruct (status_json s Hp) as (v & E & (w1 & G1 & V1) & (w2 & n & G2 & V2) & (w3 & G3 & V3) & (w4 & G4 & V4) & (w5 & G5 & V5) & (w6 & G6 & V6)).
  - unfold case_002_admin_status_returns_valid_json. rewrite E. cbn [obind].
    rewrite (has_true _ _ _ G1), (has_true _ _ _ G2), (has_true _ _ _ G3), (has_true _ _ _ G4), (has_true _ _ _ G5).
    rewrite (index_get _ _ _ G1), (index_get _ _ _ G2), V1, V2. by cbn.
  - unfold case_003_admin_status_has_cache_stats. rewrite E. cbn [obind]. rewrite G6. cbn [obind unwrap].
    destruct (V6 "hits") as [? Ha]; [set_solver|]. destruct (V6 "misses") as [? Hb]; [set_solver|].
    destruct (V6 "size") as [? Hc]; [set_solver|]. destruct (V6 "hit_rate") as [? Hd]; [set_solver|].
    by rewrite (has_true _ _ _ Ha), (has_true _ _ _ Hb), (has_true _ _ _ Hc), (has_true _ _ _ Hd).
  - destruct (routes_json s Hp) as (rv & w & Er & Ha & _). unfold case_008_admin_routes_match_status_count. rewrite E, Er. cbn [obind].
    by rewrite (index_get _ _ _ G3), V3, Ha.
  - unfold case_010_circuit_breakers_initially_empty_or_closed. rewrite E. cbn [obind]. by rewrite (index_get _ _ _ G4), V4.
  - unfold case_011_rate_limiters_initially_not_exhausted. rewrite E. cbn [obind]. by rewrite (index_get _ _ _ G5), V5.
Qed.

(** The other cases on the admin endpoint. *)
Lemma admin_cases :
  passes_case (case_001_admin_healthz_returns_200 env gateway) ∧
  passes_case (case_007_admin_routes_returns_array env gateway) ∧
  passes_case (case_009_routes_have_required_fields env gateway) ∧
  passes_case (case_012_diagnose_returns_array env gateway) ∧
  passes_case (case_013_diagnose_healthy_gateway_has_no_critical env gateway) ∧
  passes_case (case_017_admin_unknown_endpoint_returns_404 env gateway) ∧
  passes_case (case_019_admin_diagnose_with_empty_symptom_returns_array env gateway) ∧
  passes_case (case_020_admin_and_proxy_are_different_ports env).
Proof.
  assert (∀ (c : Deployed → outcome Deployed), (∀ s, live s → c s = Ret s) → passes_case c) as Hret by (intros c Hc s Hs; eauto).
  split_and!; apply Hret; intros s Hs; pose proof (sd_plain _ (proj1 Hs)) as Hp.
  - unfold case_001_admin_healthz_returns_200, admin_get. by rewrite admin_sent.
  - destruct (routes_json s Hp) as (rv & w & Er & Ha & _). unfold case_007_admin_routes_returns_array, is_array. rewrite Er. cbn [obind].
    by rewrite Ha.
  - destruct (routes_json s Hp) as (rv & w & Er & Ha & Hc). unfold case_009_routes_have_required_fields. rewrite Er. cbn [obind].
    rewrite Ha. cbn [unwrap obind forallb]. by rewrite Hc.
  - destruct (diagnose_json s "/api/v1/diagnose?symptom=circuit-breaker-cascade" _ eq_refl eq_refl) as (v & vs & E & Ha & _).
    unfold case_012_diagnose_returns_array, is_array. rewrite E. cbn [obind]. by rewrite Ha.
  - destruct (diagnose_json s "/api/v1/diagnose?symptom=degraded" _ eq_refl eq_refl) as (v & vs & E & Ha & Hv).
    unfold case_013_diagnose_healthy_gateway_has_no_critical. rewrite E. cbn [obind]. rewrite Ha, Hv; [done|]. by vm_compute.
  - unfold case_017_admin_unknown_endpoint_returns_404, admin_get. by rewrite admin_sent.
  - destruct (diagnose_json s "/api/v1/diagnose?symptom=" _ eq_refl eq_refl) as (v & vs & E & Ha & _).
    unfold case_019_admin_diagnose_with_empty_symptom_returns_array, is_array. rewrite E. cbn [obind]. by rewrite Ha.
  - unfold case_020_admin_and_proxy_are_different_ports. by destruct (String.eqb_spec (proxy_base env) (admin_base env)).
Qed.

(** The built-in endpoints of the proxy. *)
Lemma status_body (sv : Server) up : resp_body (serve_status_endpoint (Hdr := Hdr) sv up) =
  object_text [("status", FText "ok"); ("uptime_seconds", FNumber up); ("routes", FNumber (Z.of_nat (route_count (srv_router sv))))].
Proof. unfold object_text, flat_text, quoted. cbn [fmap list_fmap comma_list fst snd]. cbn [serve_status_endpoint resp_body]. by rewrite <- !app_assoc_string. Qed.

Lemma metrics_answer (sv : Server) :
  resp_status (serve_metrics_endpoint (Hdr := Hdr) (scrape (srv_requests_total sv))) = 200 ∧
  (srv_requests_total sv ≠ ∅ → contains "# HELP" (resp_body (serve_metrics_endpoint (Hdr := Hdr) (scrape (srv_requests_total sv)))) = true).
Proof.
  destruct (scrape_text (Hdr := Hdr) (srv_requests_total sv)) as (t & Ht & Hh). unfold serve_metrics_endpoint. rewrite Ht. split; [done|].
  intros Hne%Hh. cbn [resp_body]. destruct (String.eqb _ ""); by repeat apply contains_app_l.
Qed.

Lemma builtin_cases :
  passes_case (case_004_proxy_healthz_returns_200 env gateway) ∧
  passes_case (case_005_proxy_metrics_returns_prometheus env gateway) ∧
  passes_case (case_006_proxy_status_returns_json env gateway) ∧
  passes_case (case_015_metrics_not_recorded_for_metrics_endpoint env gateway) ∧
  passes_case (case_016_healthz_not_recorded_in_metrics env gateway).
Proof.
  split_and!; intros s Hs.
  - exists (next s). unfold case_004_proxy_healthz_returns_200. by rewrite (proj1 (get_builtin s)).
  - exists (next (next s)). unfold case_005_proxy_metrics_returns_prometheus. rewrite (proj1 (get_builtin s)). cbn [obind fst snd gateway deployed_gateway pause].
    rewrite (proj1 (proj2 (get_builtin (next s)))). cbn [obind fst snd next dp_proxy].
    destruct (metrics_answer (px_server (dp_proxy s))) as [-> Hh]. by rewrite (Hh (proj2 Hs)).
  - exists (next s). unfold case_006_proxy_status_returns_json. rewrite (proj2 (proj2 (get_builtin s))). cbn [obind fst snd].
    rewrite status_body. destruct (object_value [("status", FText "ok"); ("uptime_seconds", FNumber (c_uptime (conditions (dp_turn s))));
      ("routes", FNumber (Z.of_nat (route_count (srv_router (px_server (dp_proxy s))))))]) as (v & -> & Hv).
    + destruct (Hcond (dp_turn s)) as (_ & _ & Hup & _). unfold flat_ok. cbn [forallb fst snd].
      rewrite !(proj2 (Z.leb_le _ _)) by lia. reflexivity.
    + apply (bool_decide_unpack _). vm_compute. exact I.
    + destruct (Hv "status") as [w1 G1]; [set_solver|]. destruct (Hv "routes") as [w2 G2]; [set_solver|].
      cbn [serve_status_endpoint resp_status assert_that obind Z.eqb Pos.eqb]. by rewrite (has_true _ _ _ G1), (has_true _ _ _ G2).
  - exists (next (next (next s))). unfold case_015_metrics_not_recorded_for_metrics_endpoint. rewrite (proj1 (proj2 (get_builtin s))).
    cbn [obind fst snd]. rewrite (proj1 (proj2 (get_builtin (next s)))). cbn [obind fst snd gateway deployed_gateway pause].
    rewrite (proj1 (proj2 (get_builtin (next (next s))))). cbn [obind fst snd next dp_proxy].
    by rewrite (scrape_uncounted _ "m" "etrics" (sd_counted _ (proj1 Hs)) eq_refl).
  - exists (next (next s)). unfold case_016_healthz_not_recorded_in_metrics. rewrite (proj1 (get_builtin s)).
    cbn [obind fst snd gateway deployed_gateway pause]. rewrite (proj1 (proj2 (get_builtin (next s)))). cbn [obind fst snd next dp_proxy].
    by rewrite (scrape_uncounted _ "h" "ealthz" (sd_counted _ (proj1 Hs)) eq_refl).
Qed.

(** The requests that are routed. *)
Lemma routed_cases :
  passes_case (case_014_unrouted_path_returns_error env gateway) ∧
  passes_case (case_018_proxy_survives_empty_post env gateway) ∧
  passes_case (case_021_proxy_does_not_serve_admin_api env gateway).
Proof.
  split_and!; intros s Hs.
  - destruct (get_routed "GET" "/this-path-definitely-does-not-exist-12345" None s Hs eq_refl) as (resp & s' & E & Hf & Hs').
    exists s'. unfold case_014_unrouted_path_returns_error, proxy_get. rewrite E. cbn [obind fst snd].
    rewrite (proj2 (Z.eqb_neq _ _)) by (destruct Hf; lia). done.
  - destruct (get_routed "POST" "/some-path" (Some "") s Hs eq_refl) as (resp & s' & E & Hf & Hs').
    exists s'. unfold case_018_proxy_survives_empty_post. rewrite E. cbn [obind fst snd]. destruct Hf as [Hlo Hhi].
    rewrite (proj2 (Z.leb_le _ _)), (proj2 (Z.ltb_lt _ _)) by lia. done.
  - destruct (get_routed "GET" "/api/v1/status" None s Hs eq_refl) as (resp & s' & E & Hf & Hs').
    exists s'. unfold case_021_proxy_does_not_serve_admin_api, proxy_get. rewrite E. cbn [obind fst snd].
    rewrite (proj2 (Z.eqb_neq _ _)) by (destruct Hf; lia). done.
Qed.

Lemma all_cases_pass c : c ∈ oracle_cases env gateway → passes_case c.
Proof.
  destruct status_cases as (? & ? & ? & ? & ?), admin_cases as (? & ? & ? & ? & ? & ? & ? & ?),
    builtin_cases as (? & ? & ? & ? & ?), routed_cases as (? & ? & ?).
  unfold oracle_cases. intros Hc. repeat (apply elem_of_cons in Hc as [->|Hc]; [done|]). by apply not_elem_of_nil in Hc.
Qed.

(** A run of the oracle: its cases in any order. *)
Fixpoint run_cases (cs : list (Deployed → outcome Deployed)) (s : Deployed) : outcome Deployed :=
  match cs with
  | [] => Ret s
  | c :: cs => s <-! c s ;; run_cases cs s
  end.

Lemma runs_pass cs : ∀ s, live s → (∀ c, c ∈ cs → c ∈ oracle_cases env gateway) → ∃ s', run_cases cs s = Ret s'.
Proof.
  induction cs as [|c cs IH]; intros s Hs Hall; [by exists s|]. cbn [run_cases].
  destruct (all_cases_pass c (Hall c (list_elem_of_here _ _)) s Hs) as (s1 & -> & Hs1). cbn [obind].
  apply IH; [done|]. intros c' Hc'. apply Hall. by right.
Qed.

End deployed.

(** ** The contract *)
Section contract.
Context {M : Type} `{!Matchit RouteKey M} `{!MapOrder} `{!PortOrder} `{!UnicodeCase} `{!Json} `{!JsonValue}.
Context {Hdr : Type} `{!HeaderMap Hdr} `{!Exposition Hdr} `{!TlsLib} (texts : ParseTexts).

(** Where the process listens, and with which server. *)
Definition proxy_listening (x : running (M := M)) : option (string * Proxy M) :=
  match x with
  | ServeHttp addr server => Some ("http://" +:+ addr, server)
  | ServeHttps addr _ server => Some ("https://" +:+ addr, server)
  | ControllersOnly _ | Failed _ => None
  end.

Definition admin_listening (senv : environment) : string := "http://0.0.0.0:" +:+ show_Z (admin_port senv).

(** The gateway that the process is, for a client in a network. *)
Definition process_gateway (env senv : environment) (conditions : nat → Conditions) (client_headers : Hdr) (started : Z)
    (reaches : string → string → bool) (x : running (M := M)) : LiveGateway (S := Deployed) :=
  deployed_gateway env conditions client_headers started (fst <$> proxy_listening x) (admin_listening senv) reaches.

Lemma standalone_server senv read_file server url server' :
  proxy_listening (standalone senv read_file server) = Some (url, server') → server' = server.
Proof.
  unfold standalone. destruct (senv !! "RAUTA_TLS_CERT") as [cert|]; [|by intros [= _ <-]].
  destruct (senv !! "RAUTA_TLS_KEY") as [key|]; [|by intros [= _ <-]].
  destruct (read_file cert) as [c|]; [|done]. destruct (read_file key) as [k|]; [|done].
  destruct (from_pem c k) as [t|]; [|done]. destruct (add_cert _ _ t) as [[]]; [by intros [= _ <-]|done].
Qed.


(** A request that is not a GET is refused and counted. *)
Lemma first_post_counted senv client read_file num_cpus b x r (i : Incoming Hdr) outs p :
  accepts_root (M := M) → (0 < num_cpus)%nat → backend_wf b → senv !! "RAUTA_BACKEND_ADDR" = Some (backend_to_string b) →
  k8s_mode senv = false → start texts senv client read_file num_cpus = Ret (x, r) →
  String.eqb (req_method (in_request i)) "GET" = false → method_of (req_method (in_request i)) ≠ GET →
  plain_path (uri_path (req_target (in_request i))) = true →
  serve_all (proxy_new_with_workers r num_cpus) [i] = Ret (outs, p) → srv_requests_total (px_server p) ≠ ∅.
Proof.
  intros Hacc Hn Hb Henv Hk Hst Hg Hm Hpath. destruct (example_routes_added texts senv b Hacc Hb Henv) as (r0 & table & Hadd & Hok & Hr & Hreb & Hc & Hs).
  unfold start in Hst. rewrite Hk, Hadd in Hst. injection Hst as _ <-.
  destruct (root_router_selects r0 _ table Hok Hr Hreb Hc Hs (method_of (req_method (in_request i))) _ None None Hpath) as (m & r' & Hsel & Hnone).
  rewrite decide_False in Hnone by done. destruct m; [done|].
  cbn [serve_all]. unfold serve, gate. rewrite Hg, !andb_false_r.
  change (srv_router (px_server (proxy_new_with_workers r0 num_cpus))) with r0. rewrite Hsel. cbn [obind fst snd].
  intros [= <- <-]. apply insert_non_empty.
Qed.
End contract.

(** ** Witnesses *)
#[local] Existing Instances list_matchit key_order key_ports ascii_case value_json text_lib.

(** Values as trees; a literal text is searched for its keys. *)
Inductive jvalue : Type :=
| JNull | JText (s : string) | JNumber (n : Z) | JArray (l : list jvalue) | JObject (fs : list (string * jvalue)) | JRaw (s : string).

Definition jvalue_of (t : value_text) : jvalue :=
  match t with
  | VLiteral s => JRaw s
  | VSnapshot x =>
      JObject [("status", JText (gs_status x)); ("uptime_seconds", JNumber (gs_uptime_seconds x));
               ("route_count", JNumber (Z.of_nat (gs_route_count x))); ("open_circuits", JNumber (Z.of_nat (gs_open_circuits x)));
               ("exhausted_rate_limiters", JNumber (Z.of_nat (gs_exhausted_rate_limiters x)));
               ("cache_stats", match gs_cache_stats x with
                               | Some c => JObject [("hits", JNumber (cs_hits c)); ("misses", JNumber (cs_misses c));
                                                    ("size", JNumber (Z.of_nat (cs_size c))); ("hit_rate", JRaw "")]
                               | None => JNull
                               end)]
  | VRoutes x =>
      JArray ((λ r, JObject [("pattern", JText (rs_pattern r)); ("method", JText (rs_method r));
                             ("backends", JArray (replicate (length (rs_backends r)) JNull))]) <$> x)
  | VDiagnoses x => JArray ((λ d, JObject [("severity", JText (severity_text (severity d)))]) <$> x)
  | _ => JNull
  end.

Definition jvalue_get (v : jvalue) (key : string) : option jvalue :=
  match v with
  | JObject fs => snd <$> List.find (λ f, String.eqb f.1 key) fs
  | JRaw s => if contains (quoted key) s then Some JNull else None
  | _ => None
  end.

Lemma contains_prefix n s : starts_with n s = true → contains n s = true.
Proof. unfold starts_with. destruct s; cbn; intros ->; done. Qed.

Lemma contains_app_r n s t : contains n t = true → contains n (s +:+ t) = true.
Proof.
  intros Ht. induction s as [|c s IH]; [done|]. change (String c s +:+ t) with (String c (s +:+ t)). cbn [contains].
  rewrite IH. apply orb_true_r.
Qed.

Lemma object_keys fs k : k ∈ fs.*1 → contains (quoted k) (object_text fs) = true.
Proof.
  intros Hk. unfold object_text. apply contains_app_r, contains_app_l. induction fs as [|f fs IH]; [by apply not_elem_of_nil in Hk|].
  assert (contains (quoted f.1) (flat_text f) = true) as Hf by (apply contains_prefix; unfold flat_text; apply starts_with_app).
  cbn [fmap list_fmap] in Hk. apply elem_of_cons in Hk as [->|Hk]; cbn [fmap list_fmap comma_list].
  - destruct (flat_text <$> fs); [done|]. by apply contains_app_l.
  - specialize (IH Hk). destruct (flat_text <$> fs); [done|]. by apply contains_app_r, contains_app_r.
Qed.

Definition tree_values : JsonValue.
Proof.
  refine {|
    Value := jvalue;
    json_null := JNull;
    from_str t := Ok (jvalue_of t);
    value_get := jvalue_get;
    as_str v := match v with JText s => Some s | _ => None end;
    as_u64 v := match v with JNumber n => if decide (0 <= n < 2 ^ 64) then Some n else None | _ => None end;
    as_array v := match v with JArray l => Some l | _ => None end
  |}.
  - intros x. eexists _, _. split; [reflexivity|]. split; [reflexivity|]. split; [by eexists|]. split.
    + intros key n Hin Hn. unfold in_width in Hn.
      repeat (apply elem_of_cons in Hin as [[= -> ->]|Hin]; [eexists; split; [reflexivity|]; cbn [snd]; by rewrite decide_True by exact Hn|]).
      by apply not_elem_of_nil in Hin.
    + intros c Hc. eexists. split; [cbn; by rewrite Hc|]. intros key Hin.
      repeat (apply elem_of_cons in Hin as [->|Hin]; [by eexists|]). by apply not_elem_of_nil in Hin.
  - intros x. eexists _, _, _. split; [reflexivity|]. split; [reflexivity|]. split; [reflexivity|].
    induction x as [|r x IH]; constructor; [|exact IH]. split; [by eexists|]. split; [by eexists|]. eexists _, _.
    split; [reflexivity|]. split; [reflexivity|]. apply length_replicate.
  - intros x. eexists _, _, _. split; [reflexivity|]. split; [reflexivity|]. split; [reflexivity|].
    induction x as [|d x IH]; constructor; [by eexists|exact IH].
  - intros fs _ _. eexists. split; [reflexivity|]. intros k Hk. cbn. rewrite object_keys by done. by eexists.
Defined.

(** A scrape with the header of the counter alone. *)
Definition header_scrape : Exposition (list (string * string)).
Proof.
  refine {|
    scrape m := mk_metrics_text "text/plain" (Ok (if decide (m = ∅) then "" else
      "# HELP http_requests_total Total number of HTTP requests (with per-worker distribution)" +:+ newline +:+
      "# TYPE http_requests_total counter" +:+ newline)) None ""
  |}.
  - intros m. eexists. split; [reflexivity|]. intros Hm. by rewrite decide_False.
  - intros m l _ Hl _. left. cbn in Hl. case_decide; [by apply not_elem_of_nil in Hl|exact Hl].
Defined.

#[local] Existing Instances tree_values header_scrape.

Definition calm (o : Outside (list (string * string))) (n : nat) : Conditions := mk_conditions "id" 5000000000 6000000000 5 2000000 o.

(** One request that no route takes, before the oracle comes. *)
Definition one_post : list (Incoming (list (string * string))) :=
  [mk_incoming (client_request [] "POST" "/orders") (mk_body [] None) "id" 0 1 0 sample_text down].

(** The names of the loopback interface, on which the wildcard address listens too. *)
Definition local_network (base endpoint : string) : bool :=
  bool_decide ((base, endpoint) ∈ [("http://localhost:8080", "http://127.0.0.1:8080"); ("http://localhost:9091", "http://0.0.0.0:9091")]).


(** With a backend that answers, the oracle fails: a route for all paths, as the standalone
process adds it, takes the paths that the oracle holds to be unrouted. *)
Definition working : Outside (list (string * string)) :=
  mk_outside (mk_backend_net (λ _, None) (λ _ _, Err "reset") (λ _, Ok (mk_response 200 [] "hi")) up_env None) None (λ _, None)
    (λ _ _, Err "refused").

Definition root_proxy : Proxy (list (string * RouteKey)) :=
  let rs : gmap RouteKey Route := {[root_key := plain_route "/" sample_backends even_table]} in
  proxy_new_with_workers (mk_router rs (match rebuild rs with Ok m => m | Err _ => [] end) health_data_new (checker_new default_config)
    (cache_new 128)) 2.

Example oracle_rejects_working_backend :
  let g := deployed_gateway ∅ (calm working) [] 0 (Some "http://127.0.0.1:8080") "http://0.0.0.0:9091" local_network in
  case_014_unrouted_path_returns_error ∅ g (mk_deployed root_proxy 0) = Panic ∧
  case_021_proxy_does_not_serve_admin_api ∅ g (mk_deployed root_proxy 0) = Panic.
Proof. vm_compute. auto. Qed.
